(* ===== verification/_CoqProject ===== *)
-Q . S2P
Prelude.v
Funcs.v
EncodeUtil.v
Ownership.v
MessageBuffer.v
BufferContract.v
TimerQueue.v
Double.v
Timestamp.v
MpscQueue.v
EventLoop.v
EventLoopThread.v
Channel.v
Poller.v
Rounds.v
AfterFork.v
PollPoller.v
TcpConnection.v
ConnectionSpec.v
FileSending.v
TimingWheel.v
InetAddress.v
SocketAddress.v
Resolver.v
Connector.v
TcpClient.v
TcpServer.v
ServerControl.v
Wrap.v
SignalTask.v
Setup.v
ServerConnections.v
ClientConnection.v
Acceptor.v
Socket.v
ConcurrentTaskQueue.v
TaskSync.v
ChatCodec.v
ChatServer.v
ChatDialogue.v
Echo.v
HttpContext.v
HttpResponse.v
