(* ===== verification/Prelude.v ===== *)
(** * netpoll-cpp: a verification development

    netpoll-cpp is a library for network programs: event loops that wait for
    descriptors and run callbacks, with timers, buffers, TCP connections,
    servers and clients on top.  This development models the library's own
    logic and proves what makes it correct, and what keeps it from being so.

    ** Conventions

    - [Prelude] (this file): the result type [res] of operations that can fail
      an assertion, leave an object, or otherwise fall out of defined behaviour;
      64-bit wrap-around; byte memories; shared lemmas and tactics.  The build
      modelled is the debug build, so [assert] counts.
    - Operations keep the names of the C++ functions, prefixed where two classes
      share one ([server_start], [queue_runTask]).  Integers are [Z] with their
      wrap-around written out where it can happen.
    - The operating system and the C++ library are arguments or interfaces with
      the behaviour their documentation promises ([StdCopy], [PriorityQueue],
      [PollerOps], [KernelOps], [SocketOps], [FileSystem], [NamedFiles], [Locale],
      [Json], answers of system calls), each with an instance.
    - Threads interleave as step relations or as lists of operations whose
      every order is covered; queued functors are part of the state.
    - Logging, the names of threads and connections, and Windows branches are
      left out.

    ** Buffers and helpers

    - [Funcs]: [util/funcs.h]; byte orders, [hton64], [splitString].
    - [EncodeUtil]: [util/encode_util]; text of characters that fit survives the
      way to wide characters and back, longer ones are lost and other locales
      throw.
    - [Ownership]: [util/make_copy_mv], [util/move_wrapper], [util/mutex_guard];
      of the copies of a closure exactly the last has the value; whether the guard
      of a mutex is safe rests on what [try_lock] answers its own thread.
    - [MessageBuffer], [BufferContract]: [util/message_buffer]; a buffer of bytes
      with a reserved front.  Every run of calls refines a queue of bytes;
      integers survive a round trip on hosts of either order; [readFd] appends
      what [readv] delivered.  [ensureWritableBytes] recurses at most once, so
      its fuel of 2 is enough.
    - [ChatCodec]: [examples/chat/context], the length-prefixed framing on top of
      the buffer: however a stream is cut, exactly its whole frames are
      delivered.  The state machine needs three rounds per call, the server's
      loop one per byte at most; both fuels are proved sufficient.
    - [ChatServer]: the server and client of [examples/chat]: registry, dispatch
      and the reactions to messages, with callbacks of several loops interleaved.
      Requests and responses are followed through the framing on both sides: a
      message reaches the user it names, once and whole, when nothing else waits
      at the receiver.
    - [ChatDialogue]: the dialogue of the client with its terminal; the right id
      and the next line are what is sent, and every dialogue ends.  Every try
      reads a word, so one per byte and one at the end are enough.
    - [HttpContext]: [examples/http/http_context], the parser of requests: a
      well-formed request is parsed however it is cut, and refused when anything
      follows it.  Every round takes a line, so one per byte is enough.
    - [HttpResponse]: [examples/http/http_response] and the handler; the
      page, or the contents of a file that can be read, has the length that the
      head announces; nothing follows for directories and files that cannot be
      read, and an empty file has no length.
    - [Double], [Timestamp]: [util/time_stamp] and the timers that loops start
      at times and intervals in seconds.  Doubles, and the floats of the timing
      wheel, are those of IEEE 754 in the standard library's [SpecFloat]; whole
      seconds are exact, a difference that is added again may lose a microsecond.

    ** Loops

    - [MpscQueue]: [util/lockfree_queue.h]; the queue of functors at the level of
      its atomic operations.  No interleaving loses, duplicates or reorders.
    - [EventLoop]: [net/eventloop]; polling, functors, wakeup and quit.  The
      state records the actions that functors have run ([ran]).  As long as no
      exception leaves an iteration no wakeup is lost, and the code of every
      functor runs once, in order.
    - [EventLoopThread]: [net/eventloop_thread], [net/eventloop_threadpool]; start
      and end of a loop's thread, with a use after free in the destructor, after
      which a run stops, and the round robin of the pool.
    - [TimerQueue]: [net/inner/timer], [net/inner/timer_queue]; timers are never
      lost, a round runs exactly the expired ones.
    - [TimingWheel]: [net/inner/timing_wheel]; the hierarchical wheel refines a
      set of deadlines, for an interval of one second and delays that a float
      holds exactly; delays longer than one wheel are off by a known [drift].
    - [ConcurrentTaskQueue]: [util/concurrent_task_queue]; worker threads under a
      mutex and a condition variable.  Tasks run once and are not stranded;
      [stop] returns except when a worker misses the notification.
    - [TaskSync]: [util/task_queue], [util/task_per_thread_queue]; [syncTask] is
      answered until [stop], and stuck in tasks of a busy queue; daemon threads
      run their task once and are joined at exit, when they end.

    ** Descriptors

    - [Channel], [Poller], [PollPoller]: [net/channel], [net/inner/poller]; what
      is registered in the kernel is what the channels ask for, for every poller
      that implements the interface; [EpollPoller] does, [KQueue] loses an event,
      [PollPoller] keeps its index but not the interface.
    - [Rounds]: a round of [EventLoop::loop] over channels, epoll and functors;
      with channels retired by functor, as connections do it, every active channel
      that is not late has the callbacks its events ask for run, no callback reaches
      a channel that is gone, and destroying one at once, as [stop] does, breaks it.
    - [AfterFork]: [resetAfterFork] of [KQueue] restores what the kernel watches;
      [resetTimerQueue] in the child of a fork stops the timers of its parent,
      as both share the epoll instance.
    - [InetAddress]: [net/inet_address], and the self-connection test of
      [net/inner/socket.cc].  The classification of addresses agrees with one by
      bytes; text round trips; the constructor from [sockaddr_in6] mislabels.
    - [Resolver]: [net/inner/resolver_impl]; cache, worker and callers section by
      section of the mutex: each request is answered once, and with an address
      that is not older than the cache allows.

    ** Connections

    - [TcpConnection], [ConnectionSpec]: [net/inner/tcp_connection_impl]; the
      write list, the direct path, files and streams, closing.  Bytes leave in
      the order of the calls, [shutdown] waits for them, queued data is sent; and
      runs in which a file stalls, a callback deadlocks or data is cut off.
    - [Echo]: the echo examples on a connection; every byte is returned in order
      however the stream is cut, and the client sends what is typed, word by word.
    - [FileSending]: files by name, and the loop for systems without [sendfile],
      whose fuel is the number of bytes to send: each turn that goes on has sent
      one.  An offset without a length blocks a connection for good; files and
      streams spoil the buffer they share.
    - [Acceptor]: [net/inner/acceptor]; the spare descriptor makes progress with
      a full table, and can be lost for good.
    - [Socket]: [net/inner/socket]; descriptors are made non-blocking on every
      system, but where [accept4] is missing [errno] is overwritten and the
      acceptor spins with a full table.
    - [SocketAddress]: the rest of [net/inner/socket]; a bound listener reports
      the end point that it listens on, with the port that the kernel chose.
    - [TcpServer]: [net/tcp_server]; over all interleavings of the server's loop
      and those of its pool a connection is established, removed and destroyed
      once; [stop] and the destructor with an idle timeout or other loops.
    - [ServerControl]: configuration and [start] from any thread make the server
      that was asked for; [stop] from any thread closes and destroys every
      connection once, whatever the loops do meanwhile.
    - [Setup]: the setters of callbacks of servers, clients and dialers, and which
      function a connection calls; a dialer without [onMessage] keeps all input.
    - [Wrap], [SignalTask]: [wrap/]; the loops that wrappers give to listeners and
      dialers, [QuitAllEventLoop], whose [quit] uses a loop after the store that
      ends it, which callbacks [bind] sets, and the handler of
      signals, which ends the process and not the loops.
    - [ServerConnections]: [TcpServer] composed with the connections of
      [TcpConnection]; every run of polite users refines the server alone, and a
      stream that comes late breaks the close.
    - [Connector], [TcpClient]: [net/inner/connector], [net/tcp_client]; the
      state machine of outgoing connections, what an orderly use keeps, and runs
      that close twice, leak or abort.
    - [ClientConnection]: [TcpClient] composed with its connection, through the
      destructor of the client in any thread, and the early return by which it
      abandons the connection of a loop that has ended.

    ** Interfaces

    [BufferContract] is what connections and codecs use of buffers, the class
    [PriorityQueue] what the timer queue uses of the standard heap, [Poller]
    what channels use of pollers, [Kernel] what the acceptor uses of the
    descriptor table: [Socket] implements it, on Linux, by [accept4].  [TcpServer]
    uses the round robin of [EventLoopThread] and the constructor of
    [TimingWheel]; [Wrap] serves a [TcpServer]; [TcpClient] runs on [Connector].

    ** Not modelled

    - Aliases, deleted copy operations and type erasure; the Windows branches;
      third-party code (filesystem.hpp, wepoll); tests.
    - Memory orderings weaker than sequential consistency, exceptions thrown by
      user callbacks other than in [EventLoop], and allocation failure outside
      [MessageBuffer]. *)

From Stdlib Require Export ZArith Lia.
From stdpp Require Export base tactics list gmap sorting.
From Stdlib Require Import Strings.Byte.

#[global] Open Scope Z_scope.

(** ** Faults and the result monad

    C++ code leaves its defined behaviour in a few ways that matter here: a
    failed [assert], an access outside an object, a failed allocation, a
    library precondition that does not hold, a division by zero, an integer
    that does not fit its signed type, a length that no string can have.  An operation
    that can do so returns a [res]; the theorems then show that it returns
    [Ok] wherever the code is meant to work. *)

Inductive fault :=
  | AssertFailed
  | OutOfBounds
  | BadAlloc
  | PreconditionViolated
  | DivideByZero
  | NullDereference
  | UseAfterFree
  | Deadlock
  | SignedOverflow
  | LengthError
  | Diverged.

Inductive res (A : Type) :=
  | Ok (a : A)
  | Fail (f : fault).
Arguments Ok {A} a.
Arguments Fail {A} f.

#[global] Instance fault_eq_dec : EqDecision fault.
Proof. solve_decision. Defined.

#[global] Instance res_ret : MRet res := @Ok.
#[global] Instance res_bind : MBind res :=
  fun A B k m => match m with Ok a => k a | Fail f => Fail f end.
#[global] Instance res_fmap : FMap res :=
  fun A B g m => match m with Ok a => Ok (g a) | Fail f => Fail f end.

(** C's [assert]. *)
Definition assert (b : bool) : res () :=
  if b then Ok () else Fail AssertFailed.

Definition is_ok {A} (m : res A) : Prop := exists a, m = Ok a.

(** ** Machine integers

    [size_t] and [uint64_t] are kept at 64 bits: their arithmetic wraps. *)

Definition size_max : Z := 2 ^ 64.
Definition wrap64 (z : Z) : Z := z mod size_max.

Declare Scope size_scope.
Delimit Scope size_scope with size.
Notation "a ⊞ b" := (wrap64 (a + b)) (at level 50, left associativity) : size_scope.
Notation "a ⊟ b" := (wrap64 (a - b)) (at level 50, left associativity) : size_scope.
Notation "a ⊠ b" := (wrap64 (a * b)) (at level 40, left associativity) : size_scope.
#[global] Open Scope size_scope.

(** A signed 64-bit result: overflow is undefined behaviour. *)
Definition int64 (z : Z) : res Z :=
  if (- 2 ^ 63 <=? z) && (z <? 2 ^ 63) then Ok z else Fail SignedOverflow.

(** [static_cast<int>] of an unsigned value (two's complement, 32 bits). *)
Definition to_int32 (z : Z) : Z :=
  let m := z mod 2 ^ 32 in if m <? 2 ^ 31 then m else m - 2 ^ 32.

(** [static_cast<short>] (16 bits). *)
Definition to_int16 (z : Z) : Z :=
  let m := z mod 2 ^ 16 in if m <? 2 ^ 15 then m else m - 2 ^ 16.

(** The largest object or container an implementation can hold
    ([PTRDIFF_MAX]): [std::vector::max_size] for [char] elements. *)
Definition ptrdiff_max : Z := 2 ^ 63 - 1.

(** ** Bytes *)

Abbreviation byte := Byte.byte.

#[global] Instance byte_eq_dec : EqDecision byte := Byte.byte_eq_dec.
#[global] Instance byte_countable : Countable byte := inj_countable Byte.to_N Byte.of_N Byte.of_to_N.

Definition Z_of_byte (b : byte) : Z := Z.of_N (Byte.to_N b).
Definition byte_of_Z (z : Z) : byte :=
  match Byte.of_N (Z.to_N (z mod 256)) with Some b => b | None => x00 end.

Lemma Z_of_byte_bound b : 0 <= Z_of_byte b < 256.
Proof.
  unfold Z_of_byte. pose proof (Byte.to_N_bounded b). lia.
Qed.

Lemma Z_of_byte_of_Z z : Z_of_byte (byte_of_Z z) = z mod 256.
Proof.
  unfold Z_of_byte, byte_of_Z.
  pose proof (Z.mod_pos_bound z 256 ltac:(lia)) as Hb.
  destruct (Byte.of_N (Z.to_N (z mod 256))) as [b|] eqn:E.
  - apply Byte.to_of_N in E. rewrite E. lia.
  - apply Byte.of_N_None_iff in E. lia.
Qed.

Lemma byte_of_Z_of_byte b : byte_of_Z (Z_of_byte b) = b.
Proof.
  unfold byte_of_Z. rewrite Z.mod_small by apply Z_of_byte_bound.
  unfold Z_of_byte. rewrite N2Z.id, Byte.of_to_N. done.
Qed.

Lemma Z_of_byte_inj b1 b2 : Z_of_byte b1 = Z_of_byte b2 -> b1 = b2.
Proof.
  intros E. rewrite <- (byte_of_Z_of_byte b1), E. apply byte_of_Z_of_byte.
Qed.

(** ** Memory as byte lists with C offsets *)

Section slices.
Context {A : Type}.
Implicit Types (m d : list A) (a b c i off : Z).

(** The half-open range [a, b) of [m]. *)
Definition slice a b m : list A := take (Z.to_nat (b - a)) (drop (Z.to_nat a) m).

(** [m] with the cells from [off] on overwritten by [d]. *)
Definition patch off d m : list A :=
  take (Z.to_nat off) m ++ d ++ drop (Z.to_nat off + length d) m.

Definition zlen m : Z := Z.of_nat (length m).

(** [memcpy]/[std::string(ptr, n)]: every byte must lie inside the object. *)
Definition in_range off len m : bool :=
  (0 <=? off) && (0 <=? len) && (off + len <=? zlen m).

Definition mem_read m off len : res (list A) :=
  if in_range off len m then Ok (slice off (off + len) m) else Fail OutOfBounds.

Definition mem_write m off d : res (list A) :=
  if in_range off (zlen d) m then Ok (patch off d m) else Fail OutOfBounds.

Lemma lookup_slice m a b (i : nat) :
  slice a b m !! i = if decide (Z.of_nat i < b - a) then m !! (Z.to_nat a + i)%nat else None.
Proof.
  unfold slice. case_decide.
  - rewrite lookup_take_lt by lia. apply lookup_drop.
  - apply lookup_take_ge. lia.
Qed.

Lemma zlen_nonneg m : 0 <= zlen m.
Proof. unfold zlen. lia. Qed.

Lemma zlen_app m d : zlen (m ++ d) = zlen m + zlen d.
Proof. unfold zlen. rewrite length_app. lia. Qed.

Lemma zlen_slice m a b :
  0 <= a -> a <= b -> b <= zlen m -> zlen (slice a b m) = b - a.
Proof.
  unfold zlen, slice. intros. rewrite length_take, length_drop. lia.
Qed.

Lemma zlen_patch m d off :
  0 <= off -> off + zlen d <= zlen m -> zlen (patch off d m) = zlen m.
Proof.
  unfold zlen, patch. intros.
  rewrite !length_app, length_take, length_drop. lia.
Qed.

Lemma lookup_patch m d off (i : nat) :
  0 <= off -> off + zlen d <= zlen m ->
  patch off d m !! i =
    if decide (off <= Z.of_nat i < off + zlen d)
    then d !! (i - Z.to_nat off)%nat else m !! i.
Proof.
  unfold patch, zlen. intros Ho Hl.
  assert (length (take (Z.to_nat off) m) = Z.to_nat off) as Ht
    by (rewrite length_take; lia).
  case_decide as Hi.
  - rewrite lookup_app_r by lia. rewrite lookup_app_l by lia. by rewrite Ht.
  - destruct (decide (Z.of_nat i < off)).
    + rewrite lookup_app_l by lia. apply lookup_take_lt. lia.
    + rewrite lookup_app_r by lia. rewrite lookup_app_r by lia.
      rewrite lookup_drop. f_equal. lia.
Qed.

Lemma slice_patch_same m d off :
  0 <= off -> off + zlen d <= zlen m ->
  slice off (off + zlen d) (patch off d m) = d.
Proof.
  intros. apply list_eq. intros i. rewrite lookup_slice.
  case_decide; last (symmetry; apply lookup_ge_None_2; unfold zlen in *; lia).
  rewrite lookup_patch by done. rewrite decide_True by lia. f_equal. lia.
Qed.

Lemma slice_patch_disjoint m d off a b :
  0 <= off -> off + zlen d <= zlen m -> 0 <= a ->
  b <= off \/ off + zlen d <= a ->
  slice a b (patch off d m) = slice a b m.
Proof.
  intros ??? Hd. apply list_eq. intros i. rewrite !lookup_slice.
  case_decide; last done. rewrite lookup_patch by done.
  rewrite decide_False; [done | lia].
Qed.

Lemma slice_app_split m a b c :
  0 <= a -> a <= b -> b <= c -> slice a c m = slice a b m ++ slice b c m.
Proof.
  intros. unfold slice.
  replace (Z.to_nat (c - a)) with (Z.to_nat (b - a) + Z.to_nat (c - b))%nat by lia.
  rewrite <- take_take_drop, drop_drop.
  do 3 f_equal. lia.
Qed.

Lemma slice_empty m a b : b <= a -> slice a b m = [].
Proof. intros. unfold slice. by replace (Z.to_nat (b - a)) with 0%nat by lia. Qed.

Lemma slice_drop m a b k :
  0 <= a -> 0 <= k -> drop (Z.to_nat k) (slice a b m) = slice (a + k) b m.
Proof.
  intros. apply list_eq. intros i. rewrite lookup_drop, !lookup_slice.
  repeat case_decide; try lia; [f_equal; lia | done].
Qed.

Lemma slice_take m a b k :
  a + k <= b -> 0 <= k -> take (Z.to_nat k) (slice a b m) = slice a (a + k) m.
Proof.
  intros. unfold slice. rewrite take_take. f_equal. lia.
Qed.

Lemma slice_app_l m d a b :
  0 <= a -> b <= zlen m -> slice a b (m ++ d) = slice a b m.
Proof.
  intros. apply list_eq. intros i. rewrite !lookup_slice. case_decide; last done.
  apply lookup_app_l. unfold zlen in *. lia.
Qed.

Lemma slice_all m : slice 0 (zlen m) m = m.
Proof.
  unfold slice, zlen. rewrite Z.sub_0_r, Nat2Z.id. apply firstn_all.
Qed.

Lemma in_range_true m off len :
  0 <= off -> 0 <= len -> off + len <= zlen m -> in_range off len m = true.
Proof. intros. unfold in_range. rewrite !andb_true_iff, !Z.leb_le. lia. Qed.

Lemma in_range_inv m off len :
  in_range off len m = true -> 0 <= off /\ 0 <= len /\ off + len <= zlen m.
Proof. unfold in_range. rewrite !andb_true_iff, !Z.leb_le. lia. Qed.

Lemma mem_read_ok m off len :
  0 <= off -> 0 <= len -> off + len <= zlen m ->
  mem_read m off len = Ok (slice off (off + len) m).
Proof. intros. unfold mem_read. by rewrite in_range_true. Qed.

Lemma mem_write_ok m off d :
  0 <= off -> off + zlen d <= zlen m -> mem_write m off d = Ok (patch off d m).
Proof.
  intros. unfold mem_write. rewrite in_range_true; auto using zlen_nonneg.
Qed.

End slices.

(** ** Lemmas on the result monad and on wrap-around *)

Lemma bind_Ok {A B} (m : res A) (k : A -> res B) b :
  (m ≫= k) = Ok b <-> exists a, m = Ok a /\ k a = Ok b.
Proof. destruct m; simpl; naive_solver. Qed.

Lemma assert_Ok b u : assert b = Ok u <-> b = true.
Proof. destruct b, u; simpl; naive_solver. Qed.

Lemma assert_true : assert true = Ok ().
Proof. reflexivity. Qed.

Lemma wrap64_small z : 0 <= z < size_max -> wrap64 z = z.
Proof. apply Z.mod_small. Qed.

Lemma wrap64_bound z : 0 <= wrap64 z < size_max.
Proof. apply Z.mod_pos_bound. unfold size_max. lia. Qed.

Lemma wrap64_idemp z : wrap64 (wrap64 z) = wrap64 z.
Proof. apply wrap64_small, wrap64_bound. Qed.

Lemma to_int32_small z : 0 <= z < 2 ^ 31 -> to_int32 z = z.
Proof.
  intros. unfold to_int32. rewrite Z.mod_small by lia.
  destruct (Z.ltb_spec z (2 ^ 31)); lia.
Qed.

(** ** Lists *)

Lemma filter_ext_elem {A} (P Q : A -> Prop) `{forall x, Decision (P x)}
    `{forall x, Decision (Q x)} (l : list A) :
  (forall x, x ∈ l -> (P x <-> Q x)) -> filter P l = filter Q l.
Proof.
  induction l as [|a l IH]; intros HPQ; [done|].
  rewrite !filter_cons, IH by (intros; apply HPQ; by right).
  destruct (HPQ a ltac:(left)). repeat case_decide; naive_solver.
Qed.

Lemma filter_bool_ext {A} (f g : A -> bool) (l : list A) :
  (forall x, x ∈ l -> f x = g x) -> filter f l = filter g l.
Proof.
  induction l as [|a l IH]; intros H; [done|].
  rewrite !filter_cons, IH by (intros; apply H; by right).
  by rewrite (H a) by left.
Qed.

Lemma NoDup_map_inj {A B} (f : A -> B) (l : list A) x y :
  NoDup (map f l) -> x ∈ l -> y ∈ l -> f x = f y -> x = y.
Proof.
  induction l as [|a l IH]; simpl; [set_solver|].
  rewrite NoDup_cons, !elem_of_cons, list_elem_of_fmap. naive_solver.
Qed.

(** ** Reachability *)

(** An invariant of the steps holds in every reachable state. *)
Lemma rtc_invariant {A} (R : relation A) (P : A -> Prop) x y :
  (forall a b, R a b -> P a -> P b) -> rtc R x y -> P x -> P y.
Proof. intros HR. induction 1; eauto. Qed.

(** ** Automation

    [ok_inv] opens every bind and assertion of a successful computation in
    the context; [wrap_simp] discharges wrap-around where the bounds in the
    context rule it out. *)

Create HintDb netpoll discriminated.
Create Rewrite HintDb netpoll.
#[export] Hint Resolve zlen_nonneg wrap64_bound Z_of_byte_bound : netpoll.

Ltac ok_inv :=
  repeat match goal with
  | H : (_ ≫= _) = Ok _ |- _ => apply bind_Ok in H; destruct H as (? & ? & H)
  | H : assert _ = Ok _ |- _ => apply assert_Ok in H
  | H : Ok _ = Ok _ |- _ => injection H as H; subst
  | H : mret _ = Ok _ |- _ => injection H as H; subst
  | H : Fail _ = Ok _ |- _ => discriminate H
  end.

(** Innermost wraps first: the bound of an outer one mentions the inner value. *)
Ltac wrap_simp_with tac :=
  repeat match goal with
  | |- context [wrap64 ?z] =>
      lazymatch z with
      | context [wrap64 _] => fail
      | _ => rewrite (wrap64_small z) by tac
      end
  end.
Ltac wrap_simp := wrap_simp_with ltac:(unfold size_max, ptrdiff_max in *; lia).

(** Split on every boolean integer comparison the goal branches on. *)
Ltac zcase :=
  repeat match goal with
  | |- context [?a <=? ?b] => destruct (Z.leb_spec a b)
  | |- context [?a <? ?b] => destruct (Z.ltb_spec a b)
  | |- context [?a =? ?b] => destruct (Z.eqb_spec a b)
  end.
