(* ===== verification/Funcs.v ===== *)
(** * Helper functions: [netpoll/util/funcs.h]

    Byte order conversion ([hton64], [ntoh64]) on top of the object
    representation of unsigned integers, and [splitString].  The host's byte
    order is a parameter ([endian]): the header decides it at run time. *)

From Stdlib Require Import Strings.Byte.
From S2P Require Import Prelude.

(** ** Object representation of unsigned integers *)

Inductive endian := Little | Big.

#[global] Instance endian_eq_dec : EqDecision endian.
Proof. solve_decision. Defined.

Fixpoint to_le (n : nat) (v : Z) : list byte :=
  match n with
  | O => []
  | S n => byte_of_Z v :: to_le n (v / 256)
  end.

Fixpoint of_le (bs : list byte) : Z :=
  match bs with
  | [] => 0
  | b :: bs => Z_of_byte b + 256 * of_le bs
  end.

(** The [n] bytes of an unsigned integer in memory, lowest address first. *)
Definition object_bytes (e : endian) (n : nat) (v : Z) : list byte :=
  match e with Little => to_le n v | Big => reverse (to_le n v) end.

Definition object_value (e : endian) (bs : list byte) : Z :=
  match e with Little => of_le bs | Big => of_le (reverse bs) end.

(** Network order: most significant byte first. *)
Definition network_bytes (n : nat) (v : Z) : list byte := reverse (to_le n v).
Definition network_value (bs : list byte) : Z := of_le (reverse bs).

(** [htons]/[htonl] ([n] is 2 or 4): the value whose object representation
    is the network representation of the argument. *)
Definition hton (e : endian) (n : nat) (v : Z) : Z :=
  object_value e (network_bytes n v).

Definition ntoh (e : endian) (n : nat) (v : Z) : Z :=
  network_value (object_bytes e n v).

(** [hton64]: the first byte of the [int] 1 tells the host's order. *)
Definition hton64 (e : endian) (n : Z) : Z :=
  let sig := hd x00 (object_bytes e 4 1) in
  if decide (sig = x00) then n
  else object_value e (reverse (object_bytes e 8 n)).

Definition ntoh64 (e : endian) (n : Z) : Z := hton64 e n.

(** ** Searching *)

(** [std::search] / [std::string::find]: the first position where [p] occurs. *)
Fixpoint search (p l : list byte) : option nat :=
  if decide (p `prefix_of` l) then Some 0%nat
  else match l with
       | [] => None
       | _ :: l' => S <$> search p l'
       end.

(** [s.find(delimiter, last)], positions counted from the start of [s]. *)
Definition find_from (p s : list byte) (last : nat) : option nat :=
  if decide (last <= length s)%nat
  then (fun i => last + i)%nat <$> search p (drop last s) else None.

(** [splitString]: the [while] loop, one unit of fuel per delimiter found. *)
Fixpoint split_loop (fuel : nat) (s delimiter : list byte) (acceptEmptyString : bool)
    (last : nat) (v : list (list byte)) : res (list (list byte)) :=
  match fuel with
  | O => Fail Diverged
  | S fuel =>
      match find_from delimiter s last with
      | Some next =>
          let v := if bool_decide (last < next)%nat || acceptEmptyString
                   then v ++ [take (next - last) (drop last s)] else v in
          split_loop fuel s delimiter acceptEmptyString
            (next + length delimiter)%nat v
      | None =>
          Ok (if bool_decide (last < length s)%nat || acceptEmptyString
              then v ++ [drop last s] else v)
      end
  end.

Definition splitString (s delimiter : list byte) (acceptEmptyString : bool)
    : res (list (list byte)) :=
  match delimiter with
  | [] => Ok []
  | _ => split_loop (S (length s)) s delimiter acceptEmptyString 0 []
  end.

(** The pieces joined with the delimiter between them. *)
Fixpoint join (delimiter : list byte) (v : list (list byte)) : list byte :=
  match v with
  | [] => []
  | [x] => x
  | x :: v => x ++ delimiter ++ join delimiter v
  end.

(** ** Facts about the representation *)

Lemma length_to_le n v : length (to_le n v) = n.
Proof. revert v. induction n; simpl; auto. Qed.

Lemma of_to_le n v : of_le (to_le n v) = v mod 256 ^ Z.of_nat n.
Proof.
  revert v. induction n as [|n IH]; intros v; simpl of_le.
  - by rewrite Z.mod_1_r.
  - rewrite IH, Z_of_byte_of_Z, Nat2Z.inj_succ, Z.pow_succ_r by lia.
    rewrite Z.rem_mul_r by lia. lia.
Qed.

Lemma to_of_le bs : to_le (length bs) (of_le bs) = bs.
Proof.
  induction bs as [|b bs IH]; simpl; [done|].
  pose proof (Z_of_byte_bound b).
  rewrite (Z.mul_comm 256), Z_div_plus, Z.div_small by lia. rewrite Z.add_0_l, IH.
  f_equal. apply Z_of_byte_inj. rewrite Z_of_byte_of_Z, Z_mod_plus by lia.
  by rewrite Z.mod_small.
Qed.

Lemma of_le_bound bs : 0 <= of_le bs < 256 ^ zlen bs.
Proof.
  unfold zlen. rewrite <- (to_of_le bs) at 1 2. rewrite of_to_le.
  apply Z.mod_pos_bound. lia.
Qed.

Lemma length_network_bytes n v : length (network_bytes n v) = n.
Proof. unfold network_bytes. by rewrite length_reverse, length_to_le. Qed.

Lemma network_value_bytes n v :
  0 <= v < 256 ^ Z.of_nat n -> network_value (network_bytes n v) = v.
Proof.
  intros. unfold network_value, network_bytes.
  rewrite reverse_involutive, of_to_le. by apply Z.mod_small.
Qed.

Lemma object_bytes_value e bs n : length bs = n -> object_bytes e n (object_value e bs) = bs.
Proof.
  intros <-. destruct e; simpl; [apply to_of_le|].
  rewrite <- (length_reverse bs), to_of_le. apply reverse_involutive.
Qed.

(** Whatever the host's order, [hton] stores the network representation. *)
Lemma object_bytes_hton e n v : object_bytes e n (hton e n v) = network_bytes n v.
Proof. apply object_bytes_value, length_network_bytes. Qed.

Lemma network_value_object e n v :
  0 <= v < 256 ^ Z.of_nat n -> ntoh e n (hton e n v) = v.
Proof.
  intros. unfold ntoh. rewrite object_bytes_hton. by apply network_value_bytes.
Qed.

(** The run-time test of [hton64] tells the two orders apart. *)
Lemma object_bytes_hton64 e v : object_bytes e 8 (hton64 e v) = network_bytes 8 v.
Proof.
  unfold hton64. destruct e.
  - rewrite decide_False by done. apply object_bytes_value, length_network_bytes.
  - rewrite decide_True by done. done.
Qed.

Lemma object_value_range e n bs :
  length bs = n -> 0 <= object_value e bs < 256 ^ Z.of_nat n.
Proof.
  intros <-. destruct e; simpl; [apply of_le_bound|].
  rewrite <- (length_reverse bs). apply of_le_bound.
Qed.

(** Reading back: [ntoh] of the object made of the bytes is their network value. *)
Lemma ntoh_object_value e n bs :
  length bs = n -> ntoh e n (object_value e bs) = network_value bs.
Proof. intros. unfold ntoh. by rewrite object_bytes_value. Qed.

Lemma ntoh64_object_value e bs :
  length bs = 8%nat -> ntoh64 e (object_value e bs) = network_value bs.
Proof.
  intros H. unfold ntoh64, hton64. destruct e.
  - rewrite decide_False by done.
    rewrite (object_bytes_value Little bs 8 H). done.
  - rewrite decide_True by done. done.
Qed.

(** ** Facts about searching *)

Lemma search_Some p l i :
  search p l = Some i ->
  p `prefix_of` drop i l /\ (i <= length l)%nat /\
  forall j, (j < i)%nat -> ~ p `prefix_of` drop j l.
Proof.
  revert i. induction l as [|a l IH]; intros i; simpl; case_decide as Hp.
  - intros [= <-]. split_and!; [done | simpl; lia | lia].
  - done.
  - intros [= <-]. split_and!; [done | simpl; lia | lia].
  - rewrite fmap_Some. intros (j & Hj & ->). destruct (IH _ Hj) as (H1 & H2 & H3).
    split_and!; [done | simpl; lia |]. intros [|k] Hk; simpl; [done | apply H3; lia].
Qed.

Lemma search_None p l i :
  search p l = None -> (i <= length l)%nat -> ~ p `prefix_of` drop i l.
Proof.
  revert i. induction l as [|a l IH]; intros i; simpl; case_decide as Hp; try done.
  - intros _ Hi. by replace i with 0%nat by lia.
  - rewrite fmap_None. intros Hn. destruct i; simpl; [done|].
    intros. apply IH; [done | lia].
Qed.

Lemma find_from_Some p s last next :
  find_from p s last = Some next ->
  (last <= next)%nat /\ p `prefix_of` drop next s /\
  (next + length p <= length s)%nat /\
  forall j, (last <= j < next)%nat -> ~ p `prefix_of` drop j s.
Proof.
  unfold find_from. case_decide; [|done].
  rewrite fmap_Some. intros (i & Hi & ->). apply search_Some in Hi.
  rewrite drop_drop in Hi. destruct Hi as (H1 & H2 & H3). rewrite length_drop in H2.
  split_and!; [lia | done | |].
  - apply prefix_length in H1. rewrite length_drop in H1. lia.
  - intros j Hj. specialize (H3 (j - last)%nat ltac:(lia)). rewrite drop_drop in H3.
    by replace (last + (j - last))%nat with j in H3 by lia.
Qed.

(** ** [splitString] *)

Definition nonempty (p : list byte) : bool := bool_decide (p <> []).

Lemma join_snoc d v x :
  join d (v ++ [x]) = concat (map (fun p => p ++ d) v) ++ x.
Proof.
  induction v as [|y v IH]; simpl; [done|].
  destruct (v ++ [x]) as [|z w] eqn:E; [by destruct v|].
  rewrite IH, <- !app_assoc. done.
Qed.

Lemma piece_no_delim d s last next :
  d <> [] -> find_from d s last = Some next ->
  search d (take (next - last) (drop last s)) = None.
Proof.
  intros Hd Hf. destruct (find_from_Some _ _ _ _ Hf) as (H1 & _ & H2 & H3).
  destruct (search d _) as [i|] eqn:E; [exfalso|done].
  apply search_Some in E. destruct E as (Hp & _ & _).
  pose proof (prefix_length _ _ Hp) as Hl.
  rewrite length_drop, length_take, length_drop in Hl.
  destruct d as [|x d]; [done|]. simpl in Hl.
  apply (H3 (last + i)%nat); [lia|].
  rewrite skipn_firstn_comm, drop_drop in Hp.
  etrans; [exact Hp | apply prefix_take].
Qed.

Lemma find_from_piece d s last next :
  find_from d s last = Some next ->
  drop last s = take (next - last) (drop last s) ++ d ++ drop (next + length d) s.
Proof.
  intros Hf. destruct (find_from_Some _ _ _ _ Hf) as (H1 & (k & Hk) & H2 & _).
  rewrite <- (take_drop (next - last) (drop last s)) at 1. f_equal.
  rewrite drop_drop. replace (last + (next - last))%nat with next by lia.
  rewrite Hk at 1. f_equal. rewrite <- drop_drop, Hk. by rewrite drop_app_length.
Qed.

Lemma split_loop_accept fuel s d last v :
  d <> [] -> (last <= length s)%nat -> (length s - last < fuel)%nat ->
  concat (map (fun p => p ++ d) v) ++ drop last s = s ->
  Forall (fun p => search d p = None) v ->
  exists w, split_loop fuel s d true last v = Ok w /\ join d w = s /\
            Forall (fun p => search d p = None) w.
Proof.
  intros Hd. revert last v. induction fuel as [|fuel IH]; intros last v Hl Hf Hs Hv;
    [lia|]. simpl. destruct (find_from d s last) as [next|] eqn:E.
  - rewrite orb_true_r. destruct (find_from_Some _ _ _ _ E) as (H1 & _ & H2 & _).
    assert (1 <= length d)%nat by (destruct d; [done | simpl; lia]).
    apply IH; try lia.
    + rewrite map_app, concat_app. simpl. rewrite app_nil_r, <- !app_assoc.
      rewrite <- (find_from_piece _ _ _ _ E). exact Hs.
    + apply Forall_app. split; [done|]. constructor; [|done]. by apply piece_no_delim.
  - rewrite orb_true_r. eexists. split; [done|]. split; [by rewrite join_snoc|].
    apply Forall_app. split; [done|]. constructor; [|done].
    unfold find_from in E. rewrite decide_True in E by done.
    by apply fmap_None in E.
Qed.

Lemma split_loop_skip fuel s d last v :
  split_loop fuel s d false last (filter nonempty v) =
  filter nonempty <$> split_loop fuel s d true last v.
Proof.
  revert last v. induction fuel as [|fuel IH]; intros last v; simpl; [done|].
  destruct (find_from d s last) as [next|] eqn:E.
  - rewrite orb_true_r, orb_false_r, <- IH. f_equal.
    destruct (find_from_Some _ _ _ _ E) as (H1 & _ & H2 & _).
    rewrite filter_app, filter_cons, filter_nil. unfold nonempty at 3.
    destruct (decide (last < next)%nat).
    + rewrite bool_decide_true by done. rewrite decide_True; [done|].
      apply Is_true_true, bool_decide_true. intros Hn.
      apply (f_equal length) in Hn. rewrite length_take, length_drop in Hn.
      simpl in Hn. lia.
    + rewrite bool_decide_false by done.
      replace (next - last)%nat with 0%nat by lia. by rewrite app_nil_r.
  - rewrite orb_true_r, orb_false_r. simpl. f_equal.
    rewrite filter_app, filter_cons, filter_nil. unfold nonempty at 3.
    destruct (decide (last < length s)%nat).
    + rewrite bool_decide_true by done. rewrite decide_True; [done|].
      apply Is_true_true, bool_decide_true. intros Hn.
      apply (f_equal length) in Hn. rewrite length_drop in Hn. simpl in Hn. lia.
    + rewrite bool_decide_false by done. rewrite drop_ge by lia.
      by rewrite app_nil_r.
Qed.

(** Splitting and joining are inverse, and skipping empty pieces only
    drops empty pieces: for a non-empty delimiter [splitString] terminates
    with the maximal delimiter-free pieces of the string. *)
Theorem splitString_join s d :
  d <> [] ->
  exists v, splitString s d true = Ok v /\ join d v = s /\
            Forall (fun p => search d p = None) v /\
            splitString s d false = Ok (filter nonempty v).
Proof.
  intros Hd. destruct (split_loop_accept (S (length s)) s d 0 [])
    as (w & H1 & H2 & H3); try done; try lia.
  exists w. pose proof (split_loop_skip (S (length s)) s d 0 []) as Hk.
  rewrite H1 in Hk. unfold splitString. destruct d; [done|]. split_and!; done.
Qed.

Lemma splitString_join_witness :
  exists v, splitString [x61; x2c; x2c; x62] [x2c] true = Ok v /\
            join [x2c] v = [x61; x2c; x2c; x62] /\
            Forall (fun p => search [x2c] p = None) v /\
            splitString [x61; x2c; x2c; x62] [x2c] false = Ok (filter nonempty v).
Proof. apply (splitString_join [x61; x2c; x2c; x62] [x2c]). discriminate. Defined.

(** [hton64] stores a 64-bit value most significant byte first on a host
    of either byte order, and [ntoh64] reads it back. *)
Theorem hton64_ntoh64 e v :
  0 <= v < size_max ->
  object_bytes e 8 (hton64 e v) = network_bytes 8 v /\ ntoh64 e (hton64 e v) = v.
Proof.
  intros Hv. split; [apply object_bytes_hton64|].
  unfold ntoh64, hton64. destruct e.
  - rewrite !decide_False by done.
    rewrite (object_bytes_value Little); [|apply length_network_bytes].
    rewrite reverse_involutive. apply (eq_trans (of_to_le 8 v)).
    apply Z.mod_small. exact Hv.
  - rewrite !decide_True by done. done.
Qed.

Lemma hton64_ntoh64_witness :
  object_bytes Little 8 (hton64 Little 1024) = network_bytes 8 1024 /\
  ntoh64 Little (hton64 Little 1024) = 1024.
Proof. apply (hton64_ntoh64 Little 1024). unfold size_max. lia. Defined.
