(* ===== verification/EncodeUtil.v ===== *)
(** * Wide strings: [netpoll/util/encode_util.{h,cc}]

    Conversions between wide strings, lists of code points, and multibyte
    strings, and of paths (not Windows; since C++17, the standard that the build
    sets, they call [std::wcstombs] and [std::mbstowcs]).

    - How a character is encoded depends on the locale of the C library, the
      interface [Locale]: [wcrtomb] and [mbrtowc] convert one character.  UTF-8 is
      an instance with its laws, the C locale (ASCII) another.
    - [wcstombs] and [mbstowcs] stop at a null character and before a character
      that does not fit; they answer [(size_t)-1], here [None], for one that cannot
      be converted.  [resize] with that number throws. *)

From Stdlib Require Import Strings.Byte.
From S2P Require Import Prelude.
Local Open Scope Z_scope.

Class Locale := {
  wcrtomb : Z -> option (list byte);
  mbrtowc : list byte -> option (Z * list byte)
}.

Class LocaleLaws (L : Locale) : Prop := {
  (* what was written is read back, whatever follows *)
  mbrtowc_wcrtomb : forall c bs rest, wcrtomb c = Some bs -> mbrtowc (bs ++ rest) = Some (c, rest);
  (* a character starts with a byte that is null only for the null character *)
  wcrtomb_head : forall c bs, wcrtomb c = Some bs -> c <> 0 -> exists b bs', bs = b :: bs' /\ b <> x00
}.

Section conversions.
Context `{L : Locale}.

(** [std::wcstombs] into [room] bytes. *)
Fixpoint wcstombs (room : Z) (w : list Z) : option (list byte) :=
  match w with
  | [] => Some []
  | c :: w =>
      if (c =? 0) || (room <=? 0) then Some []
      else
        bs ← wcrtomb c;
        if room <? zlen bs then Some [] else out ← wcstombs (room - zlen bs) w; Some (bs ++ out)
  end.

(** [std::mbstowcs] into [room] wide characters. *)
Fixpoint mbstowcs (room : nat) (bs : list byte) : option (list Z) :=
  match room, bs with
  | O, _ | _, [] => Some []
  | S room, b :: _ =>
      if bool_decide (b = x00) then Some []
      else
        '(c, rest) ← mbrtowc bs;
        out ← mbstowcs room rest; Some (c :: out)
  end.

(** [resize(nLen)]: -1 is longer than any string. *)
Definition resized {A} (r : option (list A)) : res (list A) :=
  match r with Some out => Ok out | None => Fail LengthError end.

Definition toUtf8 (wstr : list Z) : res (list byte) :=
  if bool_decide (wstr = []) then Ok [] else resized (wcstombs (3 * zlen wstr) wstr).

Definition fromUtf8 (str : list byte) : res (list Z) :=
  if bool_decide (str = []) then Ok [] else resized (mbstowcs (length str) str).

Definition toWidePath (strUtf8Path : list byte) : res (list Z) := fromUtf8 strUtf8Path.
Definition fromWidePath (wstrPath : list Z) : res (list byte) := toUtf8 wstrPath.
(** [toNativePath] and [fromNativePath], for strings and wide strings. *)
Definition toNativePath (strPath : list byte) : list byte := strPath.
Definition toNativePath_wide (strPath : list Z) : res (list byte) := fromWidePath strPath.
Definition fromNativePath (strPath : list byte) : list byte := strPath.
Definition fromNativePath_wide (strPath : list Z) : res (list byte) := fromWidePath strPath.

(** ** Round trip *)

(** The characters of [w] can be written, and none is null. *)
Definition writable (w : list Z) : Prop := Forall (fun c => c <> 0 /\ is_Some (wcrtomb c)) w.

Definition encoded (w : list Z) : list byte := concat (map (fun c => default [] (wcrtomb c)) w).

(** [wcstombs] writes the characters that fit. *)
Lemma wcstombs_prefix room w :
  LocaleLaws L -> writable w -> exists k, wcstombs room w = Some (encoded (take k w)) /\ (k <= length w)%nat /\
    (k = length w \/ room < zlen (encoded (take (S k) w))).
Proof.
  intros HL. revert room. induction w as [|c w IH]; intros room Hw; [exists O; split_and!; [done|done|by left]|].
  apply Forall_cons in Hw as [[Hc [bs Hbs]] Hw]. cbn [wcstombs]. destruct (Z.eqb_spec c 0); [done|]. cbn [orb].
  assert (encoded (take 1 (c :: w)) = bs) as E1 by (unfold encoded; cbn; rewrite Hbs; apply app_nil_r).
  destruct (Z.leb_spec room 0).
  - exists O. split; [done|]. split; [lia|]. right. rewrite E1.
    destruct (wcrtomb_head _ _ Hbs Hc) as (b & bs' & -> & _). unfold zlen. cbn. lia.
  - rewrite Hbs. cbn [mbind option_bind]. destruct (Z.ltb_spec room (zlen bs)).
    + exists O. split; [done|]. split; [lia|]. right. rewrite E1. done.
    + destruct (IH (room - zlen bs) Hw) as (k & -> & Hk & Hor). exists (S k). cbn [mbind option_bind].
      assert (forall j, encoded (take (S j) (c :: w)) = bs ++ encoded (take j w)) as E.
      { intros j. unfold encoded. cbn. by rewrite Hbs. }
      rewrite E. split; [done|]. split; [cbn; lia|]. destruct Hor as [->|Hor]; [by left|right].
      rewrite E. unfold zlen in *. rewrite length_app. lia.
Qed.

(** [mbstowcs] reads them back. *)
Lemma mbstowcs_encoded room w :
  LocaleLaws L -> writable w -> (length w <= room)%nat -> mbstowcs room (encoded w) = Some w.
Proof.
  intros HL. revert room. induction w as [|c w IH]; intros room Hw Hr; [by destruct room|].
  apply Forall_cons in Hw as [[Hc [bs Hbs]] Hw]. destruct room as [|room]; [cbn in Hr; lia|].
  destruct (wcrtomb_head _ _ Hbs Hc) as (b & bs' & E & Hb).
  assert (encoded (c :: w) = bs ++ encoded w) as Ee by (unfold encoded; cbn; by rewrite Hbs).
  rewrite Ee. destruct (bs ++ encoded w) as [|b' l] eqn:El; [by rewrite E in El|]. cbn [mbstowcs].
  assert (b' = b) as -> by (rewrite E in El; by injection El). rewrite bool_decide_false by done.
  rewrite <- El, (mbrtowc_wcrtomb _ _ _ Hbs). cbn [mbind option_bind]. rewrite IH; [done|done|cbn in Hr; lia].
Qed.

Lemma encoded_length w : LocaleLaws L -> writable w -> (length w <= length (encoded w))%nat.
Proof.
  intros HL. induction 1 as [|c w [Hc [bs Hbs]] Hw IH]; [done|].
  unfold encoded in *. cbn. rewrite Hbs, length_app. cbn.
  destruct (wcrtomb_head _ _ Hbs Hc) as (b & bs' & -> & _). cbn. lia.
Qed.

Lemma take_writable k w : writable w -> writable (take k w).
Proof. apply Forall_take. Qed.
End conversions.

(** Text survives [toUtf8] and [fromUtf8] as far as it fits.  In every locale
    that can read what it writes, for a text of characters that it can write:
    [toUtf8] answers with the longest prefix whose encoding fits into three bytes
    per character of the text, and [fromUtf8] gives that prefix back.  In
    particular text survives whole where no character needs more than three. *)
Theorem wide_text_roundtrip {L : Locale} w :
  LocaleLaws L -> writable w ->
  exists k bs, toUtf8 w = Ok bs /\ bs = encoded (take k w) /\ fromUtf8 bs = Ok (take k w) /\
    (k = length w \/ 3 * zlen w < zlen (encoded (take (S k) w))) /\
    (Forall (fun c => forall bs, wcrtomb c = Some bs -> zlen bs <= 3) w -> take k w = w).
Proof.
  intros HL Hw. destruct (wcstombs_prefix (3 * zlen w) w HL Hw) as (k & E & Hk & Hor).
  exists k, (encoded (take k w)). split_and!.
  - unfold toUtf8. destruct (bool_decide_reflect (w = [])) as [->|]; [by destruct k|]. by rewrite E.
  - done.
  - unfold fromUtf8. pose proof (take_writable k w Hw) as Hwk. pose proof (encoded_length _ HL Hwk) as Hlen.
    destruct (bool_decide_reflect (encoded (take k w) = [])) as [Ee|_].
      rewrite Ee in Hlen. destruct (take k w); [done|cbn in Hlen; lia].
    + by rewrite mbstowcs_encoded.
  - done.
  - intros H3. apply take_ge. destruct Hor as [->|Hor]; [done|]. exfalso.
    assert (forall v, writable v -> Forall (fun c => forall bs, wcrtomb c = Some bs -> zlen bs <= 3) v -> zlen (encoded v) <= 3 * zlen v) as Hb.
    { induction v as [|c v IH]; intros Hv Hv3; [done|]. apply Forall_cons in Hv as [[_ [bs Hbs]] Hv]. apply Forall_cons in Hv3 as [Hc Hv3].
      specialize (Hc bs Hbs). specialize (IH Hv Hv3). unfold encoded, zlen in *. cbn. rewrite Hbs, length_app. cbn. lia. }
    specialize (Hb (take (S k) w) (take_writable _ _ Hw) (Forall_take _ _ _ H3)).
    unfold zlen in Hb, Hor. rewrite length_take in Hb. lia.
Qed.

(** ** UTF-8 *)

Module Utf8.

(** The scalar values of Unicode. *)
Definition scalar (c : Z) : bool := (0 <=? c) && (c <? 1114112) && negb ((55296 <=? c) && (c <? 57344)).

Definition encode (c : Z) : option (list byte) :=
  if negb (scalar c) then None
  else if c <? 128 then Some [byte_of_Z c]
  else if c <? 2048 then Some [byte_of_Z (192 + c / 64); byte_of_Z (128 + c mod 64)]
  else if c <? 65536 then
    Some [byte_of_Z (224 + c / 4096); byte_of_Z (128 + c / 64 mod 64); byte_of_Z (128 + c mod 64)]
  else
    Some [byte_of_Z (240 + c / 262144); byte_of_Z (128 + c / 4096 mod 64);
          byte_of_Z (128 + c / 64 mod 64); byte_of_Z (128 + c mod 64)].

(** The six bits of a continuation byte. *)
Definition trail (b : byte) : option Z :=
  let z := Z_of_byte b in if (128 <=? z) && (z <? 192) then Some (z - 128) else None.

(** A value has to be in the range of its length. *)
Definition checked (low c : Z) (rest : list byte) : option (Z * list byte) :=
  if (low <=? c) && scalar c then Some (c, rest) else None.

Definition decode (bs : list byte) : option (Z * list byte) :=
  match bs with
  | [] => None
  | b0 :: bs =>
      let z := Z_of_byte b0 in
      if z <? 128 then Some (z, bs)
      else if z <? 192 then None
      else if z <? 224 then
        match bs with
        | b1 :: bs => x ← trail b1; checked 128 ((z - 192) * 64 + x) bs
        | _ => None
        end
      else if z <? 240 then
        match bs with
        | b1 :: b2 :: bs => x ← trail b1; y ← trail b2; checked 2048 ((z - 224) * 4096 + x * 64 + y) bs
        | _ => None
        end
      else if z <? 248 then
        match bs with
        | b1 :: b2 :: b3 :: bs =>
            x ← trail b1; y ← trail b2; u ← trail b3;
            checked 65536 ((z - 240) * 262144 + x * 4096 + y * 64 + u) bs
        | _ => None
        end
      else None
  end.

#[export] Instance utf8 : Locale := {| wcrtomb := encode; mbrtowc := decode |}.

Lemma Z_of_byte_small z : 0 <= z < 256 -> Z_of_byte (byte_of_Z z) = z.
Proof. intros H. rewrite Z_of_byte_of_Z. by apply Z.mod_small. Qed.

Lemma trail_of x : 0 <= x < 64 -> trail (byte_of_Z (128 + x)) = Some x.
Proof.
  intros H. unfold trail. rewrite Z_of_byte_small by lia.
  rewrite (proj2 (Z.leb_le _ _)), (proj2 (Z.ltb_lt _ _)) by lia. cbn [andb]. f_equal. lia.
Qed.

Lemma checked_ok low c c' rest : c' = c -> low <= c -> scalar c = true -> checked low c' rest = Some (c, rest).
Proof. intros -> H Hs. unfold checked. by rewrite Hs, (proj2 (Z.leb_le _ _) H). Qed.

Lemma scalar_bound c : scalar c = true -> 0 <= c < 1114112.
Proof. unfold scalar. rewrite !andb_true_iff. lia. Qed.

Lemma decode_encode c bs rest : encode c = Some bs -> decode (bs ++ rest) = Some (c, rest).
Proof.
  unfold encode. destruct (scalar c) eqn:Hs; [|done]. cbn [negb]. pose proof (scalar_bound _ Hs) as Hc.
  pose proof (Z.mod_pos_bound c 64). pose proof (Z.mod_pos_bound (c / 64) 64). pose proof (Z.mod_pos_bound (c / 4096) 64).
  pose proof (Z.div_mod c 64). pose proof (Z.div_mod (c / 64) 64). pose proof (Z.div_mod (c / 4096) 64).
  assert (c / 64 / 64 = c / 4096) as E1 by (rewrite Z.div_div by lia; done).
  assert (c / 4096 / 64 = c / 262144) as E2 by (rewrite Z.div_div by lia; done).
  rewrite E1, E2 in *.
  destruct (Z.ltb_spec c 128); [|destruct (Z.ltb_spec c 2048); [|destruct (Z.ltb_spec c 65536)]];
    intros [= <-]; cbn [app decode]; rewrite Z_of_byte_small by lia.
  - by rewrite (proj2 (Z.ltb_lt _ _)) by lia.
  - repeat (match goal with |- context [if ?x <? ?y then _ else _] => destruct (Z.ltb_spec x y); [try lia|try lia] end).
    rewrite trail_of by lia. cbn [mbind option_bind]. apply checked_ok; [lia|lia|done].
  - repeat (match goal with |- context [if ?x <? ?y then _ else _] => destruct (Z.ltb_spec x y); [try lia|try lia] end).
    rewrite !trail_of by lia. cbn [mbind option_bind]. apply checked_ok; [lia|lia|done].
  - repeat (match goal with |- context [if ?x <? ?y then _ else _] => destruct (Z.ltb_spec x y); [try lia|try lia] end).
    rewrite !trail_of by lia. cbn [mbind option_bind]. apply checked_ok; [lia|lia|done].
Qed.

Lemma byte_nonzero z : 0 < z < 256 -> byte_of_Z z <> x00.
Proof. intros H E. apply (f_equal Z_of_byte) in E. rewrite Z_of_byte_small in E by lia. change (Z_of_byte x00) with 0 in E. lia. Qed.

#[export] Instance utf8_laws : LocaleLaws utf8.
Proof.
  constructor.
  - intros c bs rest. apply decode_encode.
  - intros c bs. cbn [wcrtomb utf8]. unfold encode. destruct (scalar c) eqn:Hs; [|done]. cbn [negb].
    pose proof (scalar_bound _ Hs). intros E Hc.
    destruct (Z.ltb_spec c 128); [|destruct (Z.ltb_spec c 2048); [|destruct (Z.ltb_spec c 65536)]];
      injection E as <-; eexists _, _; (split; [reflexivity|]); apply byte_nonzero.
    + lia.
    + pose proof (Z.div_pos c 64). pose proof (Z.div_lt_upper_bound c 64 32). lia.
    + pose proof (Z.div_pos c 4096). pose proof (Z.div_lt_upper_bound c 4096 16). lia.
    + pose proof (Z.div_pos c 262144). pose proof (Z.div_lt_upper_bound c 262144 5). lia.
Qed.

Lemma encode_some c : scalar c = true -> is_Some (encode c).
Proof. intros H. unfold encode. rewrite H. cbn [negb]. repeat case_match; by eexists. Qed.

(** A character beyond the basic plane needs four bytes, and the buffer of a text
    of one character has three: the answer is the empty string. *)
Theorem lone_emoji_lost c : 65536 <= c < 1114112 -> toUtf8 [c] = Ok [].
Proof.
  intros H. unfold toUtf8. cbn [wcstombs]. change (3 * zlen [c]) with 3. rewrite bool_decide_false by done.
  destruct (Z.eqb_spec c 0); [lia|]. cbn [orb]. cbn [wcrtomb utf8]. unfold encode.
  assert (scalar c = true) as -> by (unfold scalar; rewrite !andb_true_iff, negb_true_iff, andb_false_iff; lia). cbn [negb].
  repeat (match goal with |- context [if ?x <? ?y then _ else _] => destruct (Z.ltb_spec x y); [lia|] end). reflexivity.
Qed.

End Utf8.
Import Utf8.

(** Characters of one, two, three and four bytes: the last fits, as the others are short. *)
Lemma wide_text_roundtrip_witness :
  exists k bs, toUtf8 [97; 233; 8364; 128512] = Ok bs /\ bs = encoded (take k [97; 233; 8364; 128512]) /\
    fromUtf8 bs = Ok (take k [97; 233; 8364; 128512]) /\
    (k = 4%nat \/ 12 < zlen (encoded (take (S k) [97; 233; 8364; 128512]))) /\
    (Forall (fun c => forall bs, wcrtomb c = Some bs -> zlen bs <= 3) [97; 233; 8364; 128512] ->
     take k [97; 233; 8364; 128512] = [97; 233; 8364; 128512]).
Proof.
  apply (wide_text_roundtrip [97; 233; 8364; 128512] utf8_laws).
  repeat constructor; try discriminate; by eexists.
Defined.

(** In the C locale nothing but ASCII can be converted: the library does not set
    a locale, and both functions throw for other text. *)
Definition posix : Locale := {|
  wcrtomb c := if (0 <=? c) && (c <? 128) then Some [byte_of_Z c] else None;
  mbrtowc bs := match bs with
    | b :: bs => if Z_of_byte b <? 128 then Some (Z_of_byte b, bs) else None
    | [] => None
    end
|}.

Lemma posix_throws c w : 128 <= c -> @toUtf8 posix (c :: w) = Fail LengthError.
Proof.
  intros H. unfold toUtf8. rewrite bool_decide_false by done. cbn [wcstombs]. destruct (Z.eqb_spec c 0); [lia|].
  destruct (Z.leb_spec (3 * zlen (c :: w)) 0) as [Hz|_]; [unfold zlen in Hz; cbn in Hz; lia|]. cbn [orb wcrtomb posix].
  destruct (Z.leb_spec 0 c); [|lia]. destruct (Z.ltb_spec c 128); [lia|]. done.
Qed.
