(* ===== verification/Ownership.v ===== *)
(** * Ownership: [netpoll/util/{make_copy_mv,move_wrapper,mutex_guard}.h]

    Objects whose copy is a move, and the guard of [Mutex<T>].

    - [CopyMoveImpl] and [MoveWrapper] wrap what can only be moved, so that a
      lambda that captures it fits a [std::function], which must be copyable.
      What matters is which of the many copies has the value at the end.  A
      store of objects, each with a value or moved from ([None]); copying makes
      a new object and empties the old one.
    - [Mutex<T>::Guard] can be moved, and tells by [try_lock] whether it still
      has to unlock.  The standard leaves [try_lock] undefined in the thread
      that has a [std::mutex], as every destructor of a guard calls it: what it
      answers is a parameter, [None] when nothing is defined.  Threads
      interleave call by call. *)

From stdpp Require Import list.
From S2P Require Import Prelude.

(** ** Copy is move *)

Module CopyMove.
Section copies.
Context {A : Type}.

(** The objects, by the order in which they are made. *)
Abbreviation store := (list (option A)).

Implicit Types (st : store) (i j : nat).

Definition value st i : option A := mjoin (st !! i).

(** [makeCopyMove] and [makeMoveWrapper]: a new object with the value. *)
Definition makeCopyMove (v : A) st : nat * store := (length st, st ++ [Some v]).

(** The copy constructor of both, and the move constructor of [MoveWrapper]:
    [std::move] of a member of the const source. *)
Definition copy i st : nat * store := (length st, <[i := None]> st ++ [value st i]).

(** [moveConstRef]: the value is taken out. *)
Definition moveConstRef i st : option A * store := (value st i, <[i := None]> st).

(** A functor on its way: every hand-over copies or moves the closure that has
    been made last. *)
Fixpoint hand_over (n : nat) i st : nat * store :=
  match n with
  | O => (i, st)
  | S n => let (j, st) := copy i st in hand_over n j st
  end.

(** ** Lemmas *)

Lemma value_new st (o : option A) : value (st ++ [o]) (length st) = o.
Proof. unfold value. by rewrite list_lookup_middle. Qed.

Lemma value_app st (o : option A) i : i <> length st -> value (st ++ [o]) i = value st i.
Proof.
  intros Hi. unfold value. destruct (decide (i < length st)%nat).
  - by rewrite lookup_app_l.
  - by rewrite !lookup_ge_None_2 by (rewrite ?length_app; cbn; lia).
Qed.

Lemma value_emptied st i j : value (<[i := None]> st) j = if decide (i = j) then None else value st j.
Proof.
  unfold value. case_decide as E.
  - subst j. destruct (decide (i < length st)%nat).
    + by rewrite list_lookup_insert_eq.
    + by rewrite lookup_ge_None_2 by (rewrite length_insert; lia).
  - by rewrite list_lookup_insert_ne.
Qed.

Lemma copy_spec i st :
  (copy i st).1 = length st /\ length (copy i st).2 = S (length st) /\
  forall j, value (copy i st).2 j =
    if decide (j = length st) then value st i else if decide (j = i) then None else value st j.
Proof.
  unfold copy. cbn. split; [done|]. split; [rewrite length_app, length_insert; cbn; lia|]. intros j.
  case_decide as E.
  - subst j. rewrite <- (length_insert st i None). apply value_new.
  - rewrite value_app by (by rewrite length_insert). rewrite value_emptied.
    repeat case_decide; congruence.
Qed.

(** However often it is handed over, one object has the value: the last one. *)
Lemma hand_over_spec n i st :
  (i < length st)%nat ->
  let (k, st') := hand_over n i st in
  (k < length st')%nat /\ value st' k = value st i /\
  forall j, value st' j = if decide (j = k) then value st i else if decide (j = i) then None else value st j.
Proof.
  revert i st. induction n as [|n IH]; intros i st Hi; cbn [hand_over].
  { split; [done|]. split; [done|]. intros j. repeat case_decide; congruence. }
  destruct (copy_spec i st) as (E1 & E2 & E3). destruct (copy i st) as [c st1]. cbn in E1, E2, E3. subst c.
  specialize (IH (length st) st1 ltac:(lia)). destruct (hand_over n (length st) st1) as [k st2].
  destruct IH as (L & V & F). assert (value st1 (length st) = value st i) as Ev by (rewrite E3; by case_decide).
  split; [done|]. split; [by rewrite V|]. intros j. rewrite F, Ev.
  case_decide; [done|]. rewrite E3. repeat case_decide; subst; try done; try lia.
  unfold value. by rewrite lookup_ge_None_2 by lia.
Qed.

(** The object that has it is a new one, or the first. *)
Lemma hand_over_new n i st : (hand_over n i st).1 = i \/ (length st <= (hand_over n i st).1)%nat.
Proof.
  revert i st. induction n as [|n IH]; intros i st; cbn [hand_over]; [by left|right].
  destruct (copy_spec i st) as (E1 & E2 & _). destruct (copy i st) as [c st1]. cbn in E1, E2.
  destruct (IH c st1) as [->|?]; lia.
Qed.
End copies.

(** Copying a second time from the same object: the second copy is empty. *)
Example second_copy_is_empty :
  let (i, st) := makeCopyMove 7%nat [] in
  let (j, st) := copy i st in
  let (k, st) := copy i st in
  (value st i, value st j, value st k) = (None, Some 7%nat, None).
Proof. reflexivity. Qed.
End CopyMove.

(** ** [Mutex<T>] *)

Module Guards.

(** A guard object that has not been destroyed: the thread whose scope it is in. *)
Record Mutex := mkMutex {
  m_mtx : option nat;              (* the thread that has the mutex *)
  guards : list (option nat)       (* guard objects; [None]: destroyed *)
}.

Inductive guard_op :=
  | GLock (t : nat)                (* [into_guard] in thread [t] *)
  | GMove (g : nat)                (* a guard made from guard [g] by moving; [g] stays an object *)
  | GDestroy (g : nat).            (* [g] goes out of scope *)

Definition Mutex_new : Mutex := mkMutex None [].

Section answer.
Variable own_try : option bool.    (* [try_lock] in the thread that has the mutex *)

(** [try_lock] by [t]: whether it got the mutex. *)
Definition try_lock (t : nat) (s : Mutex) : option (bool * Mutex) :=
  match m_mtx s with
  | None => Some (true, mkMutex (Some t) (guards s))
  | Some u => if decide (u = t) then b ← own_try; Some (b, s) else Some (false, s)
  end.

Definition unlock (s : Mutex) : Mutex := mkMutex None (guards s).

(** [into_guard]: blocked while the mutex is taken. *)
Definition into_guard (t : nat) (s : Mutex) : option Mutex :=
  match m_mtx s with
  | None => Some (mkMutex (Some t) (guards s ++ [Some t]))
  | Some _ => None
  end.

(** The defaulted move constructor copies the two references. *)
Definition guard_move (g : nat) (s : Mutex) : option Mutex :=
  t ← mjoin (guards s !! g); Some (mkMutex (m_mtx s) (guards s ++ [Some t])).

(** [~Guard] *)
Definition guard_destroy (g : nat) (s : Mutex) : option Mutex :=
  t ← mjoin (guards s !! g);
  '(b, s) ← try_lock t s;
  let s := if negb b then unlock s else s in
  Some (mkMutex (m_mtx s) (<[g := None]> (guards s))).

Definition guard_step (o : guard_op) (s : Mutex) : option Mutex :=
  match o with
  | GLock t => into_guard t s
  | GMove g => guard_move g s
  | GDestroy g => guard_destroy g s
  end.

Fixpoint guard_run (ops : list guard_op) (s : Mutex) : option Mutex :=
  match ops with
  | [] => Some s
  | o :: ops => s ← guard_step o s; guard_run ops s
  end.

End answer.

(** The answer of the usual implementations, as that of POSIX for a normal
    mutex. *)
Definition busy : option bool := Some false.

(** The guards that are alive, with the threads that use the data through them. *)
Definition inside (s : Mutex) : list nat := omap id (guards s).

Definition never_moved (ops : list guard_op) : Prop := Forall (fun o => match o with GMove _ => False | _ => True end) ops.

(** ** Lemmas *)

(** The mutex is held exactly for the one guard there is. *)
Definition guarded (s : Mutex) : Prop := inside s = option_list (m_mtx s).

Lemma inside_destroy (gs : list (option nat)) g t :
  gs !! g = Some (Some t) -> omap id (<[g := None]> gs) ++ [t] ≡ₚ omap id gs.
Proof.
  intros E. pose proof (lookup_lt_Some _ _ _ E) as Hi.
  rewrite <- (take_drop_middle gs g (Some t) E) at 2. rewrite insert_take_drop by done.
  rewrite !omap_app. cbn. solve_Permutation.
Qed.

Lemma guard_step_guarded o s s' :
  guarded s -> guard_step busy o s = Some s' -> never_moved [o] -> guarded s'.
Proof.
  unfold guarded, inside. intros Hg E Hm. unfold never_moved in Hm. rewrite Forall_singleton in Hm.
  destruct o as [t|g|g]; cbn in Hm, E; [| done |].
  - unfold into_guard in E. destruct (m_mtx s); [done|]. injection E as <-. cbn. by rewrite omap_app, Hg.
  - unfold guard_destroy in E. destruct (guards s !! g) as [[t|]|] eqn:Eg; try done. cbn in E.
    pose proof (inside_destroy _ _ _ Eg) as Hp. rewrite Hg in Hp.
    unfold try_lock in E. destruct (m_mtx s) as [u|]; cbn in E; [destruct (decide (u = t)); cbn in E|]; injection E as <-; cbn in Hp |- *.
    + apply Permutation_length in Hp. rewrite length_app in Hp. cbn in Hp. apply nil_length_inv. lia.
    + apply Permutation_length in Hp. rewrite length_app in Hp. cbn in Hp. apply nil_length_inv. lia.
    + apply Permutation_length in Hp. rewrite length_app in Hp. cbn in Hp. lia.
Qed.

Lemma guard_run_guarded ops s s' :
  guarded s -> guard_run busy ops s = Some s' -> never_moved ops -> guarded s'.
Proof.
  intros Hg E Hm. revert s Hg E. induction Hm as [|o ops Ho Hm IH]; intros s Hg; cbn; [by intros [= <-]|].
  destruct (guard_step busy o s) as [s1|] eqn:E1; [|done]. cbn. apply IH. eapply guard_step_guarded; [done|done|by constructor].
Qed.

(** ** Properties *)

(** The destructor relies on an answer that the standard does not define: where
    nothing is defined, no guard that holds the mutex can be destroyed.  With
    the answer "busy" a guard that is never moved keeps threads apart and lets
    go: at most one guard is alive, its thread is the one that has the mutex,
    and once the guard is gone any thread can lock it. *)
Theorem guard_depends_on_try_lock ops s :
  guard_run busy ops Mutex_new = Some s -> never_moved ops ->
  inside s = option_list (m_mtx s) /\
  forall g t, guards s !! g = Some (Some t) ->
    guard_destroy None g s = None /\
    exists s', guard_destroy busy g s = Some s' /\ m_mtx s' = None /\ forall u, is_Some (into_guard u s').
Proof.
  intros E Hm. assert (guarded s) as Hg by exact (guard_run_guarded ops Mutex_new s eq_refl E Hm). split; [done|].
  intros g t Eg. unfold guard_destroy. rewrite Eg. cbn. unfold guarded in Hg.
  pose proof (inside_destroy _ _ _ Eg) as Hp. unfold inside in Hg. rewrite Hg in Hp.
  destruct (m_mtx s) as [u|] eqn:Em; cbn in Hp.
  - assert (u = t) as ->.
    { pose proof (Permutation_length Hp) as Hl. rewrite length_app in Hl. cbn in Hl.
      destruct (omap id (<[g:=None]> (guards s))); [|cbn in Hl; lia]. by apply Permutation_singleton_inj in Hp. }
    unfold try_lock. rewrite Em, decide_True by done. unfold busy. cbn. split; [done|].
    rewrite decide_True by done. eexists. split; [done|]. cbn. split; [done|]. intros v. by eexists.
  - apply Permutation_length in Hp. rewrite length_app in Hp. cbn in Hp. lia.
Qed.

(** A guard that was moved from is destroyed like any other: it takes the free
    mutex and keeps it, or frees the mutex of another thread, so that two
    threads are inside. *)
Example moved_guard_keeps_mutex :
  match guard_run busy [GLock 3; GMove 0; GDestroy 1; GDestroy 0] Mutex_new with
  | Some s => m_mtx s = Some 3%nat /\ inside s = []
  | None => False
  end.
Proof. by vm_compute. Qed.

Example two_inside :
  match guard_run busy [GLock 1; GMove 0; GDestroy 1; GLock 2; GDestroy 0; GLock 3] Mutex_new with
  | Some s => inside s = [2; 3]%nat
  | None => False
  end.
Proof. reflexivity. Qed.
End Guards.
