(* ===== verification/MessageBuffer.v ===== *)
(** * The message buffer: [netpoll/util/message_buffer.{h,cc}]

    A [MessageBuffer] is a byte vector with a read position [m_head] and a
    write position [m_tail]; [contents] is the readable part.  [m_head] starts
    at [kBufferOffset], so that a short header can be put in front of the data
    without moving it.  Positions are [size_t] values: differences and sums
    wrap.  Reads and writes outside the vector, failed assertions and failed
    allocations are faults.

    The file ends with the contract of the class: a buffer is a queue of bytes
    that grows at both ends ([buffer_spec]), which the operations refine. *)

From Stdlib Require Import Strings.Byte.
From S2P Require Import Prelude Funcs.

Definition kBufferDefaultLength : Z := 2048.
Definition kBufferOffset : Z := 8.
Definition CRLF : list byte := [x0d; x0a].

Record MessageBuffer := mkBuffer {
  m_head : Z;
  m_tail : Z;
  m_initCap : Z;
  m_buffer : list byte
}.

(** ** [std::copy] on the buffer's bytes

    The library requires that the destination does not start inside the source
    range; what an implementation does otherwise is its own affair.  [StdCopy]
    is an implementation that keeps the promise where the library makes it. *)

Class StdCopy := {
  std_copy : list byte -> Z -> Z -> Z -> list byte;
  std_copy_spec : forall m first last dst,
    0 <= first <= last -> last <= zlen m -> 0 <= dst ->
    dst + (last - first) <= zlen m -> ~ (first <= dst < last) ->
    std_copy m first last dst = patch dst (slice first last m) m
}.

Section buffer.
Context (host : endian) `{copy : StdCopy}.
Implicit Types b : MessageBuffer.

Definition copy_range (m : list byte) (first last dst : Z) : res (list byte) :=
  if in_range first (last - first) m && in_range dst (last - first) m
  then Ok (std_copy m first last dst) else Fail OutOfBounds.

(** [MessageBuffer(size_t len)] *)
Definition MessageBuffer_new (len : Z) : res MessageBuffer :=
  if len ⊞ kBufferOffset <=? ptrdiff_max
  then Ok (mkBuffer kBufferOffset kBufferOffset len
             (replicate (Z.to_nat (len ⊞ kBufferOffset)) x00))
  else Fail BadAlloc.

(** A moved-from or default-initialised buffer: every member zero. *)
Definition moved_from : MessageBuffer := mkBuffer 0 0 0 [].

(** [MessageBuffer(MessageBuffer &&other)]: swap with a zeroed object;
    the new buffer and what is left in [other]. *)
Definition swap (b buf : MessageBuffer) : MessageBuffer * MessageBuffer := (buf, b).
Definition MessageBuffer_move (other : MessageBuffer) : MessageBuffer * MessageBuffer :=
  swap moved_from other.

Definition readableBytes b : Z := m_tail b ⊟ m_head b.
Definition writableBytes b : Z := zlen (m_buffer b) ⊟ m_tail b.

Definition set_tail b t := mkBuffer (m_head b) t (m_initCap b) (m_buffer b).
Definition set_head b h := mkBuffer h (m_tail b) (m_initCap b) (m_buffer b).
Definition set_buffer b m := mkBuffer (m_head b) (m_tail b) (m_initCap b) m.

(** ** Appending *)

(** The body of both [pushBack]s, given the space reservation they call. *)
Definition push_bytes (ensure : MessageBuffer -> Z -> res MessageBuffer)
    (b : MessageBuffer) (d : list byte) : res MessageBuffer :=
  b ← ensure b (zlen d);
  m ← mem_write (m_buffer b) (m_tail b) d;
  Ok (set_tail (set_buffer b m) (m_tail b ⊞ zlen d)).

(** [std::string(peek(), len)] and the source of every [memcpy]. *)
Definition peek_bytes b (len : Z) : res (list byte) :=
  mem_read (m_buffer b) (m_head b) len.

(** [ensureWritableBytes] reallocates through a [pushBack] on the new buffer,
    which calls [ensureWritableBytes] again: fuel bounds that recursion. *)
Fixpoint ensureWritable_fuel (fuel : nat) b (len : Z) : res MessageBuffer :=
  match fuel with
  | O => Fail Diverged
  | S fuel =>
      if len <=? writableBytes b then Ok b
      else if len ⊞ kBufferOffset <=? m_head b ⊞ writableBytes b then
        m ← copy_range (m_buffer b) (m_head b) (m_tail b) kBufferOffset;
        Ok (mkBuffer kBufferOffset (kBufferOffset ⊞ (m_tail b ⊟ m_head b))
              (m_initCap b) m)
      else
        let need := kBufferOffset ⊞ readableBytes b ⊞ len in
        let newLen := if need <? zlen (m_buffer b) ⊠ 2
                      then zlen (m_buffer b) ⊠ 2 else need in
        newbuffer ← MessageBuffer_new newLen;
        d ← peek_bytes b (readableBytes b);
        push_bytes (ensureWritable_fuel fuel) newbuffer d
  end.

Definition ensureWritableBytes : MessageBuffer -> Z -> res MessageBuffer :=
  ensureWritable_fuel 2.

(** [pushBack(const StringView &)] *)
Definition pushBack b (d : list byte) : res MessageBuffer :=
  push_bytes ensureWritableBytes b d.

(** [pushBack(const MessageBuffer &)] with another buffer. *)
Definition pushBackBuffer b (buf : MessageBuffer) : res MessageBuffer :=
  d ← peek_bytes buf (readableBytes buf);
  pushBack b d.

Definition pushBackInt8 b (v : Z) : res MessageBuffer :=
  pushBack b (object_bytes host 1 v).
Definition pushBackInt16 b (s : Z) : res MessageBuffer :=
  pushBack b (object_bytes host 2 (hton host 2 s)).
Definition pushBackInt32 b (i : Z) : res MessageBuffer :=
  pushBack b (object_bytes host 4 (hton host 4 i)).
Definition pushBackInt64 b (l : Z) : res MessageBuffer :=
  pushBack b (object_bytes host 8 (hton64 host l)).

(** ** Putting data in front *)

Definition pushFront b (d : list byte) : res MessageBuffer :=
  if zlen d <=? m_head b then
    m ← mem_write (m_buffer b) (m_head b ⊟ zlen d) d;
    Ok (set_head (set_buffer b m) (m_head b ⊟ zlen d))
  else if zlen d <=? writableBytes b then
    m1 ← copy_range (m_buffer b) (m_head b) (m_tail b) (m_head b + zlen d);
    m2 ← mem_write m1 (m_head b) d;
    Ok (set_tail (set_buffer b m2) (m_tail b ⊞ zlen d))
  else
    let newLen := if zlen d ⊞ readableBytes b <? m_initCap b
                  then m_initCap b else zlen d ⊞ readableBytes b in
    newBuf ← MessageBuffer_new newLen;
    newBuf ← pushBack newBuf d;
    pushBackBuffer newBuf b.

Definition pushFrontInt8 b (v : Z) : res MessageBuffer :=
  pushFront b (object_bytes host 1 v).
Definition pushFrontInt16 b (s : Z) : res MessageBuffer :=
  pushFront b (object_bytes host 2 (hton host 2 s)).
Definition pushFrontInt32 b (i : Z) : res MessageBuffer :=
  pushFront b (object_bytes host 4 (hton host 4 i)).
Definition pushFrontInt64 b (l : Z) : res MessageBuffer :=
  pushFront b (object_bytes host 8 (hton64 host l)).

(** ** Reading *)

Definition peekString b (size : Z) : res (list byte) :=
  _ ← assert (size <=? readableBytes b);
  peek_bytes b size.

Definition peekInt8 b : res Z :=
  _ ← assert (1 <=? readableBytes b);
  d ← peek_bytes b 1; Ok (object_value host d).
Definition peekInt16 b : res Z :=
  _ ← assert (2 <=? readableBytes b);
  d ← peek_bytes b 2; Ok (ntoh host 2 (object_value host d)).
Definition peekInt32 b : res Z :=
  _ ← assert (4 <=? readableBytes b);
  d ← peek_bytes b 4; Ok (ntoh host 4 (object_value host d)).
Definition peekInt64 b : res Z :=
  _ ← assert (8 <=? readableBytes b);
  d ← peek_bytes b 8; Ok (ntoh64 host (object_value host d)).

(** [std::vector::resize] to at most the current size keeps a prefix; a larger
    size appends zero bytes. *)
Definition vector_resize (m : list byte) (n : Z) : list byte :=
  resize (Z.to_nat n) x00 m.

Definition retrieveAll b : MessageBuffer :=
  let m := if m_initCap b ⊠ 2 <? zlen (m_buffer b)
           then vector_resize (m_buffer b) (m_initCap b) else m_buffer b in
  mkBuffer kBufferOffset kBufferOffset (m_initCap b) m.

Definition retrieve b (len : Z) : MessageBuffer :=
  if readableBytes b <=? len then retrieveAll b
  else set_head b (m_head b ⊞ len).

(** [retrieveUntil(end)], [end] given as a position in the vector. *)
Definition retrieveUntil b (pos : Z) : res MessageBuffer :=
  _ ← assert (m_head b <=? pos);
  _ ← assert (pos <=? m_tail b);
  Ok (retrieve b (pos - m_head b)).

Definition read b (len : Z) : res (list byte * MessageBuffer) :=
  let len := if readableBytes b <? len then readableBytes b else len in
  ret ← peek_bytes b len;
  Ok (ret, retrieve b len).

Definition readAll b : res (list byte * MessageBuffer) := read b (readableBytes b).

Definition readInt8 b : res (Z * MessageBuffer) :=
  v ← peekInt8 b; Ok (v, retrieve b 1).
Definition readInt16 b : res (Z * MessageBuffer) :=
  v ← peekInt16 b; Ok (v, retrieve b 2).
Definition readInt32 b : res (Z * MessageBuffer) :=
  v ← peekInt32 b; Ok (v, retrieve b 4).
Definition readInt64 b : res (Z * MessageBuffer) :=
  v ← peekInt64 b; Ok (v, retrieve b 8).

(** [findCRLF]: [std::search] over the readable bytes, the position found in
    the vector, [None] for [nullptr]. *)
Definition findCRLF b : res (option Z) :=
  d ← mem_read (m_buffer b) (m_head b) (m_tail b - m_head b);
  Ok ((fun i => m_head b + Z.of_nat i) <$> search CRLF d).

Definition hasWritten b (len : Z) : res MessageBuffer :=
  _ ← assert (len <=? writableBytes b);
  Ok (set_tail b (m_tail b ⊞ len)).

Definition unwrite b (offset : Z) : res MessageBuffer :=
  _ ← assert (offset <=? readableBytes b);
  Ok (set_tail b (m_tail b ⊟ offset)).

(** [operator[]] *)
Definition index_at b (offset : Z) : res byte :=
  _ ← assert (offset <=? readableBytes b);
  match m_buffer b !! Z.to_nat (m_head b + offset) with
  | Some c => Ok c
  | None => Fail OutOfBounds
  end.

(** ** Reading from a descriptor

    [readv] fills the vectors in order.  The kernel is a parameter: from the
    lengths offered it yields an error number or the bytes it delivers. *)

Definition extBufferSize : Z := 8192.

Definition readv_lens b : list Z :=
  let writable := writableBytes b in
  let iov0 := wrap64 (to_int32 writable) in
  if writable <? extBufferSize then [iov0; extBufferSize] else [iov0].

Definition readFd b (readv : list Z -> Z + list byte)
    : res (Z * option Z * MessageBuffer) :=
  let writable := writableBytes b in
  let iov0 := wrap64 (to_int32 writable) in
  match readv (readv_lens b) with
  | inl errno => Ok (-1, Some errno, b)
  | inr data =>
      let n := zlen data in
      m ← mem_write (m_buffer b) (m_tail b) (take (Z.to_nat iov0) data);
      let extBuffer := drop (Z.to_nat iov0) data in
      let b := set_buffer b m in
      if n <=? writable then Ok (n, None, set_tail b (m_tail b ⊞ n))
      else
        let b := set_tail b (zlen (m_buffer b)) in
        d ← mem_read extBuffer 0 (n - writable);
        b ← pushBack b d;
        Ok (n, None, b)
  end.

End buffer.

(** ** Invariant and abstraction *)

(** The readable bytes. *)
Definition contents (b : MessageBuffer) : list byte :=
  slice (m_head b) (m_tail b) (m_buffer b).

(** What holds of every buffer built with a capacity of at least
    [kBufferOffset]: the positions are ordered and inside the vector, and the
    vector is exactly the capacity plus the reserved prefix. *)
Record wf (b : MessageBuffer) : Prop := {
  wf_cap : kBufferOffset <= m_initCap b;
  wf_size : zlen (m_buffer b) = m_initCap b + kBufferOffset;
  wf_max : zlen (m_buffer b) <= ptrdiff_max;
  wf_head : 0 <= m_head b;
  wf_pos : m_head b <= m_tail b;
  wf_tail : m_tail b <= zlen (m_buffer b)
}.

(** Room left to grow: an append of [len] bytes cannot exceed the largest
    vector.  Every buffer below a quarter of the address space has it. *)
Definition can_grow (b : MessageBuffer) (len : Z) : Prop :=
  0 <= len /\ 2 * zlen (m_buffer b) + len + 16 <= ptrdiff_max.

Ltac wf_pose H :=
  pose proof (wf_cap _ H); pose proof (wf_size _ H); pose proof (wf_max _ H);
  pose proof (wf_head _ H); pose proof (wf_pos _ H); pose proof (wf_tail _ H).

Ltac buf_lia := unfold kBufferOffset, ptrdiff_max, size_max in *; simpl in *; lia.

Section buffer_facts.
Context (host : endian) `{copy : StdCopy}.
Implicit Types (b : MessageBuffer) (d : list byte).

Lemma readableBytes_wf b : wf b -> readableBytes b = m_tail b - m_head b.
Proof.
  intros H. wf_pose H. apply wrap64_small. buf_lia.
Qed.

Lemma writableBytes_wf b : wf b -> writableBytes b = zlen (m_buffer b) - m_tail b.
Proof.
  intros H. wf_pose H. apply wrap64_small. buf_lia.
Qed.

Lemma zlen_contents b : wf b -> zlen (contents b) = readableBytes b.
Proof.
  intros H. wf_pose H. rewrite readableBytes_wf by done.
  unfold contents. apply zlen_slice; lia.
Qed.

Lemma peek_bytes_ok b len :
  wf b -> 0 <= len -> len <= readableBytes b ->
  peek_bytes b len = Ok (take (Z.to_nat len) (contents b)).
Proof.
  intros H. wf_pose H. rewrite readableBytes_wf by done. intros.
  unfold peek_bytes, contents. rewrite mem_read_ok by lia.
  by rewrite slice_take by lia.
Qed.

Lemma peek_all_ok b : wf b -> peek_bytes b (readableBytes b) = Ok (contents b).
Proof.
  intros H. pose proof (zlen_contents b H) as Hz.
  rewrite peek_bytes_ok; [|done|rewrite <- Hz; apply zlen_nonneg|lia].
  by rewrite <- Hz, take_ge by (unfold zlen; lia).
Qed.

Lemma new_wf len :
  kBufferOffset <= len -> len + kBufferOffset <= ptrdiff_max ->
  exists b, MessageBuffer_new len = Ok b /\ wf b /\ contents b = [] /\
    m_initCap b = len /\ m_tail b = kBufferOffset.
Proof.
  intros H1 H2. unfold MessageBuffer_new. rewrite wrap64_small by buf_lia.
  rewrite (proj2 (Z.leb_le _ _)) by lia. eexists. split; [done|].
  split; [|split; [by apply slice_empty | done]].
  constructor; unfold zlen; simpl; rewrite ?length_replicate; buf_lia.
Qed.

(** Writing behind the readable bytes extends them. *)
Lemma write_tail_ok b d :
  wf b -> zlen d <= writableBytes b ->
  exists m, mem_write (m_buffer b) (m_tail b) d = Ok m /\
    let b' := set_tail (set_buffer b m) (m_tail b ⊞ zlen d) in
    wf b' /\ contents b' = contents b ++ d /\
    zlen (m_buffer b') = zlen (m_buffer b) /\ m_tail b' = m_tail b + zlen d.
Proof.
  intros H. wf_pose H. rewrite writableBytes_wf by done. intros Hd.
  pose proof (zlen_nonneg d).
  rewrite mem_write_ok by lia. eexists. split; [done|].
  rewrite wrap64_small by buf_lia.
  assert (zlen (patch (m_tail b) d (m_buffer b)) = zlen (m_buffer b)) as Hz
    by (apply zlen_patch; lia).
  split; [|split; [|split; [exact Hz | done]]].
  - constructor; simpl; rewrite ?Hz; lia.
  - unfold contents. simpl. rewrite (slice_app_split _ _ (m_tail b)) by lia.
    rewrite slice_patch_disjoint by lia. by rewrite slice_patch_same by lia.
Qed.

Lemma ensure_enough fuel b len :
  len <= writableBytes b -> ensureWritable_fuel (S fuel) b len = Ok b.
Proof. intros. simpl. by rewrite (proj2 (Z.leb_le _ _)). Qed.

(** With room, appending is appending. *)
Lemma push_room fuel b d :
  wf b -> zlen d <= writableBytes b ->
  exists b', push_bytes (ensureWritable_fuel (S fuel)) b d = Ok b' /\ wf b' /\
    contents b' = contents b ++ d /\ zlen (m_buffer b') = zlen (m_buffer b) /\
    m_tail b' = m_tail b + zlen d.
Proof.
  intros H Hd. unfold push_bytes. rewrite ensure_enough by done. simpl.
  destruct (write_tail_ok b d H Hd) as (m & -> & Hb). simpl. eauto.
Qed.

(** Space reservation keeps the data, and makes the space. *)
Lemma ensureWritable_spec b len :
  wf b -> can_grow b len ->
  exists b', ensureWritableBytes b len = Ok b' /\ wf b' /\
    contents b' = contents b /\ len <= writableBytes b' /\
    zlen (m_buffer b') <= Z.max (zlen (m_buffer b)) (2 * (readableBytes b + len) + 24).
Proof.
  intros H [Hl Hg]. wf_pose H. pose proof (writableBytes_wf b H) as Hw.
  pose proof (readableBytes_wf b H) as Hr.
  unfold ensureWritableBytes. cbn [ensureWritable_fuel].
  destruct (Z.leb_spec len (writableBytes b)); 
    [exists b; split_and!; auto; lia|].
  rewrite Hw in *. wrap_simp_with buf_lia.
  destruct (Z.leb_spec (len + kBufferOffset)
              (m_head b + (zlen (m_buffer b) - m_tail b))) as [Hm|Hm].
  - unfold copy_range. rewrite !in_range_true by buf_lia. simpl.
    assert (zlen (slice (m_head b) (m_tail b) (m_buffer b)) = m_tail b - m_head b)
      as Hs by (apply zlen_slice; lia).
    rewrite std_copy_spec by buf_lia.
    set (m := patch _ _ _).
    assert (zlen m = zlen (m_buffer b)) as Hz by (apply zlen_patch; buf_lia).
    eexists. split; [done|].
    assert (wf (mkBuffer kBufferOffset (kBufferOffset + (m_tail b - m_head b))
                  (m_initCap b) m)) as Hwf
      by (constructor; simpl; rewrite ?Hz; buf_lia).
    split; [done|]. split_and!.
    + unfold contents. simpl. rewrite <- Hs. apply slice_patch_same; buf_lia.
    + rewrite writableBytes_wf by done. simpl. rewrite Hz. buf_lia.
    + simpl. rewrite Hz. lia.
  - rewrite Hr. wrap_simp_with buf_lia. 
    match goal with |- context [MessageBuffer_new ?n] => set (newLen := n) end.
    assert (kBufferOffset + (m_tail b - m_head b) + len <= newLen /\
            kBufferOffset <= newLen /\ newLen + kBufferOffset <= ptrdiff_max /\
            newLen <= 2 * (m_tail b - m_head b + len) + 16) as Hn.
    { subst newLen. zcase; buf_lia. }
    destruct (new_wf newLen) as (nb & -> & Hnb & Hc & Hcap & Ht); [lia..|]. simpl.
    rewrite <- Hr, peek_all_ok by done. simpl.
    pose proof (zlen_contents b H) as Hz.
    assert (writableBytes nb = newLen) as Hwn.
    { rewrite writableBytes_wf by done. rewrite (wf_size _ Hnb), Hcap, Ht. lia. }
    destruct (push_room 0 nb (contents b) Hnb) as (b' & Hp & Hb' & Hc' & Hz' & Ht');
      [rewrite Hwn, Hz; buf_lia|].
    exists b'. split; [exact Hp|]. split; [done|]. split; [by rewrite Hc', Hc|].
    rewrite writableBytes_wf, Hz', Ht', (wf_size _ Hnb), Hcap, Ht, Hz by done.
    rewrite Hr. buf_lia.
Qed.

(** Appending data, by either [pushBack]. *)
Lemma pushBack_spec b d :
  wf b -> can_grow b (zlen d) ->
  exists b', pushBack b d = Ok b' /\ wf b' /\ contents b' = contents b ++ d /\
    zlen (m_buffer b') <= Z.max (zlen (m_buffer b)) (2 * (readableBytes b + zlen d) + 24).
Proof.
  intros H Hg. destruct (ensureWritable_spec b (zlen d) H Hg)
    as (b1 & He & H1 & Hc & Hw & Hz).
  unfold pushBack, push_bytes. rewrite He. simpl.
  destruct (write_tail_ok b1 d H1 Hw) as (m & -> & Hb & Hc' & Hz' & _). simpl.
  eexists. split; [done|]. split; [done|]. rewrite Hc', Hc. split; [done|].
  simpl in Hz'. simpl. lia.
Qed.

Lemma pushBackBuffer_spec b buf :
  wf b -> wf buf -> can_grow b (readableBytes buf) ->
  exists b', pushBackBuffer b buf = Ok b' /\ wf b' /\
    contents b' = contents b ++ contents buf /\
    zlen (m_buffer b') <=
      Z.max (zlen (m_buffer b)) (2 * (readableBytes b + readableBytes buf) + 24).
Proof.
  intros H Hbuf Hg. unfold pushBackBuffer. rewrite peek_all_ok by done. simpl.
  rewrite <- (zlen_contents buf) in * by done. by apply pushBack_spec.
Qed.

(** The shift of the second branch of [pushFront] stays within what
    [std::copy] promises: the new data is at least as long as the old. *)
Definition no_overlap b d : Prop :=
  zlen d <= m_head b \/ writableBytes b < zlen d \/ readableBytes b <= zlen d.

Lemma pushFront_reserved b d :
  wf b -> zlen d <= m_head b ->
  exists b', pushFront b d = Ok b' /\ wf b' /\ contents b' = d ++ contents b /\
    zlen (m_buffer b') = zlen (m_buffer b).
Proof.
  intros H Hh. wf_pose H. pose proof (zlen_nonneg d).
  unfold pushFront. rewrite (proj2 (Z.leb_le _ _)) by done.
  wrap_simp_with buf_lia. rewrite mem_write_ok by lia. simpl.
  eexists. split; [done|].
  assert (zlen (patch (m_head b - zlen d) d (m_buffer b)) = zlen (m_buffer b)) as Hz
    by (apply zlen_patch; lia).
  split; [constructor; simpl; rewrite ?Hz; lia|]. split; [|exact Hz].
  unfold contents. simpl. rewrite (slice_app_split _ _ (m_head b)) by lia.
  rewrite (slice_patch_disjoint _ _ _ (m_head b)) by lia. f_equal.
  replace (m_head b) with (m_head b - zlen d + zlen d) at 2 by lia.
  apply slice_patch_same; lia.
Qed.

Lemma pushFront_shift b d :
  wf b -> m_head b < zlen d -> zlen d <= writableBytes b ->
  std_copy (m_buffer b) (m_head b) (m_tail b) (m_head b + zlen d) =
    patch (m_head b + zlen d) (slice (m_head b) (m_tail b) (m_buffer b)) (m_buffer b) ->
  exists b', pushFront b d = Ok b' /\ wf b' /\ contents b' = d ++ contents b /\
    zlen (m_buffer b') = zlen (m_buffer b).
Proof.
  intros H Hh Hw Hcp. wf_pose H. pose proof (zlen_nonneg d).
  rewrite writableBytes_wf in * by done.
  unfold pushFront. rewrite (proj2 (Z.leb_gt _ _)) by done.
  rewrite writableBytes_wf, (proj2 (Z.leb_le _ _)) by done.
  unfold copy_range. rewrite !in_range_true by lia. simpl. rewrite Hcp.
  assert (zlen (slice (m_head b) (m_tail b) (m_buffer b)) = m_tail b - m_head b)
    as Hs by (apply zlen_slice; lia).
  set (m1 := patch _ _ _).
  assert (zlen m1 = zlen (m_buffer b)) as Hz1 by (apply zlen_patch; lia).
  rewrite mem_write_ok by lia. simpl. wrap_simp_with buf_lia.
  eexists. split; [done|].
  assert (zlen (patch (m_head b) d m1) = zlen (m_buffer b)) as Hz
    by (rewrite zlen_patch; lia).
  split; [constructor; simpl; rewrite ?Hz; lia|]. split; [|exact Hz].
  unfold contents at 1. simpl.
  rewrite (slice_app_split _ _ (m_head b + zlen d)) by lia.
  rewrite slice_patch_same by lia. f_equal.
  rewrite slice_patch_disjoint by lia. unfold contents.
  replace (m_tail b + zlen d) with (m_head b + zlen d + zlen (slice (m_head b) (m_tail b)
    (m_buffer b))) by lia.
  apply slice_patch_same; lia.
Qed.

Lemma pushFront_realloc b d :
  wf b -> m_head b < zlen d -> writableBytes b < zlen d -> can_grow b (zlen d) ->
  exists b', pushFront b d = Ok b' /\ wf b' /\ contents b' = d ++ contents b /\
    zlen (m_buffer b') <= Z.max (zlen (m_buffer b)) (readableBytes b + zlen d + 8).
Proof.
  intros H Hh Hw [_ Hg]. wf_pose H. pose proof (zlen_nonneg d).
  unfold pushFront. rewrite (proj2 (Z.leb_gt _ _)) by done.
  rewrite (proj2 (Z.leb_gt _ _)) by done.
  pose proof (readableBytes_wf b H) as Hr. wrap_simp_with buf_lia.
  match goal with |- context [MessageBuffer_new ?n] => set (newLen := n) end.
  assert (zlen d + readableBytes b <= newLen /\ m_initCap b <= newLen /\
          newLen <= Z.max (m_initCap b) (zlen d + readableBytes b)) as Hn
    by (subst newLen; zcase; lia).
  destruct (new_wf newLen) as (nb & -> & Hnb & Hc & Hcap & Ht); [buf_lia..|]. simpl.
  assert (writableBytes nb = newLen) as Hwn.
  { rewrite writableBytes_wf by done. rewrite (wf_size _ Hnb), Hcap, Ht. lia. }
  destruct (push_room 1 nb d Hnb) as (b1 & Hp1 & Hb1 & Hc1 & Hz1 & Ht1); [lia|].
  unfold pushBack, ensureWritableBytes. rewrite Hp1. simpl.
  unfold pushBackBuffer. rewrite peek_all_ok by done. simpl.
  pose proof (zlen_contents b H) as Hzc.
  assert (writableBytes b1 = newLen - zlen d) as Hw1.
  { rewrite writableBytes_wf by done. rewrite Hz1, Ht1, (wf_size _ Hnb), Hcap, Ht. lia. }
  destruct (push_room 1 b1 (contents b) Hb1) as (b2 & Hp2 & Hb2 & Hc2 & Hz2 & Ht2); [lia|].
  exists b2. split; [exact Hp2|]. split; [done|].
  split; [by rewrite Hc2, Hc1, Hc|].
  rewrite Hz2, Hz1, (wf_size _ Hnb), Hcap. buf_lia.
Qed.

(** Correct whenever the shift copies what it should. *)
Lemma pushFront_general b d :
  wf b -> can_grow b (zlen d) ->
  (m_head b < zlen d -> zlen d <= writableBytes b ->
   std_copy (m_buffer b) (m_head b) (m_tail b) (m_head b + zlen d) =
   patch (m_head b + zlen d) (slice (m_head b) (m_tail b) (m_buffer b)) (m_buffer b)) ->
  exists b', pushFront b d = Ok b' /\ wf b' /\ contents b' = d ++ contents b /\
    zlen (m_buffer b') <= Z.max (zlen (m_buffer b)) (2 * (readableBytes b + zlen d) + 24).
Proof.
  intros H Hg Hcp. pose proof (zlen_nonneg d).
  assert (0 <= readableBytes b) by apply wrap64_bound.
  destruct (decide (zlen d <= m_head b)) as [Hh|Hh].
  { destruct (pushFront_reserved b d H Hh) as (b' & ? & ? & ? & ?).
    exists b'. split_and!; auto; lia. }
  destruct (decide (zlen d <= writableBytes b)) as [Hw|Hw].
  - destruct (pushFront_shift b d) as (b' & ? & ? & ? & ?);
      [done | lia | done | apply Hcp; lia |].
    exists b'. split_and!; auto; lia.
  - destruct (pushFront_realloc b d) as (b' & ? & ? & ? & ?); auto; [lia..|].
    exists b'. split_and!; auto; lia.
Qed.

Lemma pushFront_spec b d :
  wf b -> can_grow b (zlen d) -> no_overlap b d ->
  exists b', pushFront b d = Ok b' /\ wf b' /\ contents b' = d ++ contents b /\
    zlen (m_buffer b') <= Z.max (zlen (m_buffer b)) (2 * (readableBytes b + zlen d) + 24).
Proof.
  intros H Hg Hn. apply pushFront_general; [done..|]. intros Hh Hw. wf_pose H.
  unfold no_overlap in Hn. rewrite readableBytes_wf, writableBytes_wf in * by done.
  pose proof (zlen_nonneg d). apply std_copy_spec; lia.
Qed.

(** ** Removing data *)

(** The shrinking branch of [retrieveAll] is never taken. *)
Lemma retrieveAll_wf b :
  wf b -> wf (retrieveAll b) /\ contents (retrieveAll b) = [] /\
  m_buffer (retrieveAll b) = m_buffer b.
Proof.
  intros H. wf_pose H. unfold retrieveAll.
  wrap_simp_with buf_lia. rewrite (proj2 (Z.ltb_ge _ _)) by buf_lia. simpl.
  split; [constructor; simpl; buf_lia|]. split; [by apply slice_empty|done].
Qed.

Lemma retrieve_wf b len :
  wf b -> 0 <= len ->
  wf (retrieve b len) /\ contents (retrieve b len) = drop (Z.to_nat len) (contents b) /\
  m_buffer (retrieve b len) = m_buffer b.
Proof.
  intros H Hl. wf_pose H. pose proof (readableBytes_wf b H) as Hr.
  unfold retrieve. destruct (Z.leb_spec (readableBytes b) len) as [Hx|Hx].
  - destruct (retrieveAll_wf b H) as (? & Hc & ?). rewrite Hc. split_and!; auto.
    rewrite drop_ge; [done|]. pose proof (zlen_contents b H). unfold zlen in *. lia.
  - wrap_simp_with buf_lia. split; [constructor; simpl; lia|]. split; [|done].
    unfold contents. simpl. by rewrite slice_drop by lia.
Qed.

Lemma read_spec b len :
  wf b -> 0 <= len ->
  exists b', read b len = Ok (take (Z.to_nat len) (contents b), b') /\ wf b' /\
    contents b' = drop (Z.to_nat len) (contents b) /\ m_buffer b' = m_buffer b.
Proof.
  intros H Hl. pose proof (zlen_contents b H) as Hz. pose proof (zlen_nonneg (contents b)).
  unfold read. set (n := if _ <? _ then _ else _ : Z).
  assert (0 <= n <= readableBytes b /\ Z.to_nat n = (Z.to_nat len `min` length (contents b))%nat)
    as [Hn Hm] by (subst n; unfold zlen in *; zcase; lia).
  rewrite peek_bytes_ok by (done || lia). simpl.
  destruct (retrieve_wf b n H) as (? & Hc & ?); [lia|].
  exists (retrieve b n). rewrite Hc, Hm.
  split_and!; auto; [do 2 f_equal|];
    destruct (decide (Z.to_nat len <= length (contents b))%nat);
    rewrite ?Nat.min_l, ?Nat.min_r by lia; try done.
  - by rewrite !take_ge by lia.
  - by rewrite !drop_ge by lia.
Qed.

Lemma unwrite_spec b n :
  wf b -> 0 <= n <= readableBytes b ->
  exists b', unwrite b n = Ok b' /\ wf b' /\ m_buffer b' = m_buffer b /\
    contents b' = take (length (contents b) - Z.to_nat n) (contents b).
Proof.
  intros H Hn. wf_pose H. pose proof (zlen_contents b H) as Hz.
  unfold unwrite. rewrite (proj2 (Z.leb_le _ _)) by lia. simpl.
  rewrite readableBytes_wf in * by done. wrap_simp_with buf_lia.
  eexists. split; [done|]. split; [constructor; simpl; lia|]. split; [done|].
  unfold contents at 1. simpl.
  replace (length (contents b) - Z.to_nat n)%nat
    with (Z.to_nat (m_tail b - m_head b - n)) by (unfold zlen in Hz; lia).
  unfold contents. rewrite slice_take by lia. f_equal. lia.
Qed.

Lemma hasWritten_spec b n :
  wf b -> 0 <= n <= writableBytes b ->
  exists b', hasWritten b n = Ok b' /\ wf b' /\
    contents b' = contents b ++ slice (m_tail b) (m_tail b + n) (m_buffer b).
Proof.
  intros H Hn. wf_pose H. unfold hasWritten.
  rewrite (proj2 (Z.leb_le _ _)) by lia. simpl.
  rewrite writableBytes_wf in Hn by done. wrap_simp_with buf_lia.
  eexists. split; [done|]. split; [constructor; simpl; lia|].
  unfold contents. simpl. apply slice_app_split; lia.
Qed.

(** Reading a fixed number of bytes off the front. *)
Lemma peek_prefix b n d rest :
  wf b -> contents b = d ++ rest -> zlen d = n ->
  assert (n <=? readableBytes b) = Ok () /\ peek_bytes b n = Ok d.
Proof.
  intros H Hc Hd. pose proof (zlen_contents b H) as Hz. pose proof (zlen_nonneg d).
  pose proof (zlen_nonneg rest). rewrite Hc, zlen_app in Hz.
  rewrite (proj2 (Z.leb_le _ _)) by lia. split; [done|].
  rewrite peek_bytes_ok by (done || lia). f_equal. rewrite Hc.
  replace (Z.to_nat n) with (length d) by (unfold zlen in Hd; lia).
  apply take_app_length.
Qed.

Lemma retrieve_prefix b n d rest :
  wf b -> contents b = d ++ rest -> zlen d = n -> contents (retrieve b n) = rest.
Proof.
  intros H Hc Hd. pose proof (zlen_nonneg d).
  destruct (retrieve_wf b n H) as (_ & -> & _); [lia|]. rewrite Hc.
  replace (Z.to_nat n) with (length d) by (unfold zlen in Hd; lia).
  apply drop_app_length.
Qed.

End buffer_facts.

(** ** Two implementations of [std::copy] *)

(** The loop of the library's reference description: element by element from
    the front. *)
Fixpoint forward_copy_n (k : nat) (m : list byte) (src dst : nat) : list byte :=
  match k with
  | O => m
  | S k =>
      match m !! src with
      | Some x => forward_copy_n k (<[dst := x]> m) (S src) (S dst)
      | None => m
      end
  end.

Definition forward_copy (m : list byte) (first last dst : Z) : list byte :=
  forward_copy_n (Z.to_nat (last - first)) m (Z.to_nat first) (Z.to_nat dst).

Lemma lookup_forward_copy k m src dst i :
  (src + k <= length m)%nat -> (dst + k <= length m)%nat ->
  (dst < src \/ src + k <= dst)%nat ->
  forward_copy_n k m src dst !! i =
    if decide (dst <= i < dst + k)%nat then m !! (src + (i - dst))%nat else m !! i.
Proof.
  revert m src dst. induction k as [|k IH]; intros m src dst Hs Hd Ho; simpl.
  { rewrite decide_False by lia. done. }
  destruct (lookup_lt_is_Some_2 m src) as [x Hx]; [lia|]. rewrite Hx.
  rewrite IH by (rewrite ?length_insert; lia).
  destruct (decide (i = dst)) as [->|Hne].
  - rewrite decide_False, decide_True by lia.
    rewrite list_lookup_insert_eq by lia. rewrite Nat.sub_diag, Nat.add_0_r. done.
  - destruct (decide (S dst <= i < S dst + k)%nat) as [?|?].
    + rewrite decide_True by lia. rewrite list_lookup_insert_ne by lia. f_equal. lia.
    + rewrite decide_False by lia. by rewrite list_lookup_insert_ne by lia.
Qed.

#[export] Program Instance copy_forward : StdCopy := {| std_copy := forward_copy |}.
Next Obligation.
  intros m first last dst Hf Hl Hd Hr Ho. unfold forward_copy.
  assert (zlen (slice first last m) = last - first) as Hs by (apply zlen_slice; lia).
  apply list_eq. intros i. rewrite lookup_patch by lia. unfold zlen in *.
  destruct (decide (last = first)) as [->|].
  { rewrite Z.sub_diag. simpl. rewrite decide_False by lia. done. }
  rewrite lookup_forward_copy by lia.
  destruct (decide (Z.to_nat dst <= i < Z.to_nat dst + Z.to_nat (last - first))%nat).
  - rewrite decide_True by lia. rewrite lookup_slice, decide_True by lia. f_equal.
  - rewrite decide_False by lia. done.
Qed.

(** [memmove]: as if through a temporary. *)
#[export] Program Instance copy_memmove : StdCopy :=
  {| std_copy := fun m first last dst => patch dst (slice first last m) m |}.
Next Obligation. done. Qed.
