(* ===== verification/BufferContract.v ===== *)
(** * The contract of the message buffer

    [buffer_spec] states what [MessageBuffer] promises to its users (the
    connections, the codecs): a queue of bytes open at both ends.  The
    theorems show that the operations of [MessageBuffer.v] keep the promise on
    every branch, for single calls and for whole sequences of calls, and where
    the class falls short of it. *)

From Stdlib Require Import Strings.Byte.
From S2P Require Import Prelude Funcs MessageBuffer.

(** ** The contract: a queue of bytes open at both ends *)

Inductive buffer_op :=
  | OpPushBack (d : list byte)
  | OpPushFront (d : list byte)
  | OpEnsureWritable (n : Z)
  | OpPeekString (n : Z)
  | OpRead (n : Z)
  | OpRetrieve (n : Z)
  | OpRetrieveAll
  | OpUnwrite (n : Z).

(** What the class promises: the bytes returned and the bytes left, [None] for
    a call whose assertion fails. *)
Definition buffer_spec (o : buffer_op) (c : list byte) : option (list byte * list byte) :=
  match o with
  | OpPushBack d => Some ([], c ++ d)
  | OpPushFront d => Some ([], d ++ c)
  | OpEnsureWritable _ => Some ([], c)
  | OpPeekString n =>
      if n <=? zlen c then Some (take (Z.to_nat n) c, c) else None
  | OpRead n => Some (take (Z.to_nat n) c, drop (Z.to_nat n) c)
  | OpRetrieve n => Some ([], drop (Z.to_nat n) c)
  | OpRetrieveAll => Some ([], [])
  | OpUnwrite n =>
      if n <=? zlen c then Some ([], take (length c - Z.to_nat n) c) else None
  end.

(** Arguments are [size_t] values. *)
Definition op_args (o : buffer_op) : Prop :=
  match o with
  | OpEnsureWritable n | OpPeekString n | OpRead n | OpRetrieve n | OpUnwrite n => 0 <= n
  | _ => True
  end.

(** The bytes an operation asks room for. *)
Definition op_growth (o : buffer_op) : Z :=
  match o with
  | OpPushBack d | OpPushFront d => zlen d
  | OpEnsureWritable n => n
  | _ => 0
  end.

Section contract.
Context `{copy : StdCopy}.
Implicit Types (b : MessageBuffer) (o : buffer_op).

(** The calls of the class. *)
Definition buffer_exec o b : res (list byte * MessageBuffer) :=
  match o with
  | OpPushBack d => b ← pushBack b d; Ok ([], b)
  | OpPushFront d => b ← pushFront b d; Ok ([], b)
  | OpEnsureWritable n => b ← ensureWritableBytes b n; Ok ([], b)
  | OpPeekString n => d ← peekString b n; Ok (d, b)
  | OpRead n => read b n
  | OpRetrieve n => Ok ([], retrieve b n)
  | OpRetrieveAll => Ok ([], retrieveAll b)
  | OpUnwrite n => b ← unwrite b n; Ok ([], b)
  end.

(** A sequence of calls; the bytes each returned. *)
Fixpoint buffer_run (os : list buffer_op) b : res (list (list byte) * MessageBuffer) :=
  match os with
  | [] => Ok ([], b)
  | o :: os =>
      '(r, b) ← buffer_exec o b;
      '(rs, b) ← buffer_run os b;
      Ok (r :: rs, b)
  end.

(** Where the copying promise is needed. *)
Definition op_ready o b : Prop :=
  match o with OpPushFront d => no_overlap b d | _ => True end.

Definition size_bound b (n : Z) : Z :=
  Z.max (zlen (m_buffer b)) (2 * (readableBytes b + n) + 24).

Lemma exec_assert_fails o b :
  wf b -> buffer_spec o (contents b) = None -> buffer_exec o b = Fail AssertFailed.
Proof.
  intros H. pose proof (zlen_contents b H) as Hz.
  destruct o; simpl; try done; rewrite Hz.
  - unfold peekString. destruct (Z.leb_spec n (readableBytes b)); [done|]. done.
  - unfold unwrite. destruct (Z.leb_spec n (readableBytes b)); [done|]. done.
Qed.

(** Each call refines its specification, given room to grow and, for
    [pushFront], the copying it does. *)
Lemma exec_refines_gen o b r c :
  wf b -> op_args o -> can_grow b (op_growth o) ->
  (forall d, o = OpPushFront d ->
     exists b', pushFront b d = Ok b' /\ wf b' /\ contents b' = d ++ contents b /\
       zlen (m_buffer b') <= size_bound b (zlen d)) ->
  buffer_spec o (contents b) = Some (r, c) ->
  exists b', buffer_exec o b = Ok (r, b') /\ wf b' /\ contents b' = c /\
    zlen (m_buffer b') <= size_bound b (op_growth o).
Proof.
  intros H Ha Hg Hf. pose proof (zlen_contents b H) as Hz.
  assert (0 <= readableBytes b) by apply wrap64_bound.
  destruct o as [d|d|n|n|n|n| |n]; simpl in Ha, Hg |- *.
  - intros [= <- <-]. destruct (pushBack_spec b d H Hg) as (b' & -> & ? & ? & ?).
    simpl. eauto.
  - intros [= <- <-]. destruct (Hf d eq_refl) as (b' & -> & ? & ? & ?). simpl. eauto.
  - intros [= <- <-]. destruct (ensureWritable_spec b n H Hg) as (b' & -> & ? & ? & _ & ?).
    simpl. eauto.
  - destruct (Z.leb_spec n (zlen (contents b))); [|done]. intros [= <- <-].
    unfold peekString. rewrite (proj2 (Z.leb_le _ _)) by lia. simpl.
    rewrite peek_bytes_ok by (done || lia). simpl.
    exists b. unfold size_bound. split_and!; auto; lia.
  - intros [= <- <-]. destruct (read_spec b n H Ha) as (b' & -> & ? & ? & Hm).
    exists b'. unfold size_bound. rewrite Hm. split_and!; auto; lia.
  - intros [= <- <-]. destruct (retrieve_wf b n H Ha) as (? & ? & Hm).
    eexists. unfold size_bound. split; [done|]. rewrite Hm. split_and!; auto; lia.
  - intros [= <- <-]. destruct (retrieveAll_wf b H) as (? & ? & Hm).
    eexists. unfold size_bound. split; [done|]. rewrite Hm. split_and!; auto; lia.
  - destruct (Z.leb_spec n (zlen (contents b))); [|done]. intros [= <- <-].
    destruct (unwrite_spec b n H) as (b' & -> & ? & Hm & ?); [lia|]. simpl.
    exists b'. unfold size_bound. rewrite Hm. split_and!; auto; lia.
Qed.

End contract.

(** The bytes returned by a sequence of calls, by the specification. *)
Fixpoint spec_run (os : list buffer_op) (c : list byte)
    : option (list (list byte) * list byte) :=
  match os with
  | [] => Some ([], c)
  | o :: os =>
      '(r, c) ← buffer_spec o c;
      '(rs, c) ← spec_run os c;
      Some (r :: rs, c)
  end.

(** Along the run never more than [M] bytes are held and asked for at once. *)
Fixpoint run_bounded (M : Z) (os : list buffer_op) (c : list byte) : Prop :=
  match os with
  | [] => True
  | o :: os =>
      op_args o /\ zlen c + op_growth o <= M /\
      match buffer_spec o c with
      | Some (_, c) => run_bounded M os c
      | None => True
      end
  end.

(** With [memmove] semantics the shift of [pushFront] needs no condition. *)
Lemma pushFront_memmove b d :
  wf b -> can_grow b (zlen d) ->
  exists b', @pushFront copy_memmove b d = Ok b' /\ wf b' /\
    contents b' = d ++ contents b /\ zlen (m_buffer b') <= size_bound b (zlen d).
Proof. intros. by apply (@pushFront_general copy_memmove). Qed.

Lemma run_refines_gen M os b c rs c' :
  M <= 2 ^ 59 ->
  wf b -> contents b = c -> zlen (m_buffer b) <= 2 * M + 2080 ->
  run_bounded M os c -> spec_run os c = Some (rs, c') ->
  exists b', @buffer_run copy_memmove os b = Ok (rs, b') /\ wf b' /\
    contents b' = c' /\ zlen (m_buffer b') <= 2 * M + 2080.
Proof.
  intros HM. revert b c rs. induction os as [|o os IH]; intros b c rs H Hc Hb.
  { intros _ [= <- <-]. simpl. eauto. }
  simpl. intros (Ha & Hm & Hr) Hs. subst c.
  destruct (buffer_spec o (contents b)) as [[r c1]|] eqn:E; [|done]. simpl in Hs.
  assert (0 <= op_growth o) by (destruct o; simpl in *; auto using zlen_nonneg; lia).
  pose proof (zlen_nonneg (contents b)).
  assert (can_grow b (op_growth o)) as Hg.
  { split; [done|]. unfold ptrdiff_max. lia. }
  destruct (@exec_refines_gen copy_memmove o b r c1) as (b1 & -> & Hb1 & Hc1 & Hz1); auto.
  { intros d ->. by apply pushFront_memmove. }
  simpl. destruct (spec_run os c1) as [[rs1 c2]|] eqn:E2; [|done]. simpl in Hs.
  injection Hs as <- <-. pose proof (zlen_contents b H).
  destruct (IH b1 c1 rs1) as (b2 & -> & Hb2 & Hc2 & Hz2); auto.
  { unfold size_bound in Hz1. lia. }
  simpl. eauto.
Qed.

(** ** Fixed-width integers *)

Inductive width := W8 | W16 | W32 | W64.
Definition width_bytes (w : width) : nat :=
  match w with W8 => 1 | W16 => 2 | W32 => 4 | W64 => 8 end.

Section integers.
Context (host : endian) `{copy : StdCopy}.
Implicit Types (b : MessageBuffer) (w : width).

Definition pushBackInt w b (v : Z) : res MessageBuffer :=
  match w with
  | W8 => pushBackInt8 host b v | W16 => pushBackInt16 host b v
  | W32 => pushBackInt32 host b v | W64 => pushBackInt64 host b v
  end.
Definition pushFrontInt w b (v : Z) : res MessageBuffer :=
  match w with
  | W8 => pushFrontInt8 host b v | W16 => pushFrontInt16 host b v
  | W32 => pushFrontInt32 host b v | W64 => pushFrontInt64 host b v
  end.
Definition readInt w b : res (Z * MessageBuffer) :=
  match w with
  | W8 => readInt8 host b | W16 => readInt16 host b
  | W32 => readInt32 host b | W64 => readInt64 host b
  end.

Lemma object_bytes_1 v : object_bytes host 1 v = network_bytes 1 v.
Proof. by destruct host. Qed.

(** Every [push...Int] call is the push of the network representation. *)
Lemma pushBackInt_bytes w b v :
  pushBackInt w b v = pushBack b (network_bytes (width_bytes w) v).
Proof.
  destruct w; simpl; unfold pushBackInt8, pushBackInt16, pushBackInt32, pushBackInt64;
    by rewrite ?object_bytes_1, ?object_bytes_hton, ?object_bytes_hton64.
Qed.

Lemma pushFrontInt_bytes w b v :
  pushFrontInt w b v = pushFront b (network_bytes (width_bytes w) v).
Proof.
  destruct w; simpl; unfold pushFrontInt8, pushFrontInt16, pushFrontInt32, pushFrontInt64;
    by rewrite ?object_bytes_1, ?object_bytes_hton, ?object_bytes_hton64.
Qed.

Lemma object_value_1 x : object_value host [x] = network_value [x].
Proof. by destruct host. Qed.

Lemma readInt_spec w b d rest :
  wf b -> contents b = d ++ rest -> length d = width_bytes w ->
  exists b', readInt w b = Ok (network_value d, b') /\ wf b' /\ contents b' = rest.
Proof.
  intros H Hc Hd.
  assert (zlen d = Z.of_nat (width_bytes w)) as Hz by (unfold zlen; by rewrite Hd).
  destruct (peek_prefix b _ d rest H Hc Hz) as [Ha Hp].
  pose proof (retrieve_prefix b _ d rest H Hc Hz) as Hr.
  exists (retrieve b (Z.of_nat (width_bytes w))).
  split; [|split; [apply retrieve_wf; [done | lia] | exact Hr]].
  destruct w;
    [change (Z.of_nat (width_bytes W8)) with 1 in *
    |change (Z.of_nat (width_bytes W16)) with 2 in *
    |change (Z.of_nat (width_bytes W32)) with 4 in *
    |change (Z.of_nat (width_bytes W64)) with 8 in *]; simpl in Hd |- *;
    unfold readInt8, readInt16, readInt32, readInt64, peekInt8, peekInt16, peekInt32, peekInt64;
    rewrite Ha; simpl; rewrite Hp; simpl.
  - destruct d as [|x [|]]; [done| |done]. by rewrite object_value_1.
  - by rewrite ntoh_object_value.
  - by rewrite ntoh_object_value.
  - by rewrite ntoh64_object_value.
Qed.

(** A read on too little data trips the assertion. *)
Lemma readInt_short w b :
  wf b -> readableBytes b < Z.of_nat (width_bytes w) ->
  readInt w b = Fail AssertFailed.
Proof.
  intros H Hr. destruct w; simpl in Hr |- *;
    unfold readInt8, readInt16, readInt32, readInt64, peekInt8, peekInt16, peekInt32, peekInt64;
    by rewrite (proj2 (Z.leb_gt _ _)).
Qed.

End integers.

(** ** Properties *)

(** Every call on a well-formed buffer does exactly what the byte-queue
    contract says, whichever implementation of [std::copy] is used: it returns
    the promised bytes, leaves the promised contents, keeps the invariant, and
    faults only by the assertion the contract names.  [op_ready] is where
    [pushFront] needs more than [std::copy] promises. *)
Theorem buffer_op_refines `{copy : StdCopy} o b :
  wf b -> op_args o -> can_grow b (op_growth o) -> op_ready o b ->
  match buffer_spec o (contents b) with
  | Some (r, c) => exists b', buffer_exec o b = Ok (r, b') /\ wf b' /\ contents b' = c
  | None => buffer_exec o b = Fail AssertFailed
  end.
Proof.
  intros H Ha Hg Hr. destruct (buffer_spec o (contents b)) as [[r c]|] eqn:E.
  - destruct (exec_refines_gen o b r c) as (b' & ? & ? & ? & _); eauto.
    intros d ->. by apply pushFront_spec.
  - by apply exec_assert_fails.
Qed.

(** A small buffer holding ["abc"], used by the witnesses. *)
Definition abc_buffer : MessageBuffer :=
  mkBuffer 8 11 8 (replicate 8 x00 ++ [x61; x62; x63] ++ replicate 5 x00).

Lemma abc_buffer_wf : wf abc_buffer.
Proof. constructor; vm_compute; discriminate || reflexivity. Qed.

Lemma buffer_op_refines_witness :
  exists b', @buffer_exec copy_forward (OpPushFront (replicate 10 x64)) abc_buffer = Ok ([], b') /\
    wf b' /\ contents b' = replicate 10 x64 ++ [x61; x62; x63].
Proof.
  apply (@buffer_op_refines copy_forward (OpPushFront (replicate 10 x64)) abc_buffer).
  - exact abc_buffer_wf.
  - exact I.
  - split; vm_compute; discriminate.
  - right. left. vm_compute. reflexivity.
Defined.

(** C14. A whole sequence of calls on a fresh buffer, with an initial length of
    8 to 2048 bytes, returns what the contract returns, call by call, without
    any fault, as long as the contract allows every call (none takes more than
    is held) and at most [M] bytes are held or asked for at once; the storage
    stays within [2 * M + 2080] bytes.  [std::copy] is taken as [memmove], which
    it is for [char]. *)
Theorem buffer_run_refines M len os rs c :
  kBufferOffset <= len <= kBufferDefaultLength -> 0 <= M <= 2 ^ 59 ->
  run_bounded M os [] -> spec_run os [] = Some (rs, c) ->
  exists b b', MessageBuffer_new len = Ok b /\
    @buffer_run copy_memmove os b = Ok (rs, b') /\ wf b' /\ contents b' = c /\
    zlen (m_buffer b') <= 2 * M + 2080.
Proof.
  intros Hl HM Hb Hs. unfold kBufferDefaultLength in Hl.
  destruct (new_wf len) as (b & Hn & H & Hc & Hcap & _);
    [lia | unfold kBufferOffset, ptrdiff_max in *; lia |].
  destruct (run_refines_gen M os b [] rs c) as (b' & ? & ? & ? & ?); auto; [lia| |].
  - rewrite (wf_size _ H), Hcap. unfold kBufferOffset in *. lia.
  - exists b, b'. auto.
Qed.

Lemma buffer_run_refines_witness :
  exists b b', MessageBuffer_new 8 = Ok b /\
    @buffer_run copy_memmove
      [OpPushBack (replicate 20 x61); OpPushFront [x62; x63]; OpRead 3; OpUnwrite 1] b =
      Ok ([[]; []; [x62; x63; x61]; []], b') /\ wf b' /\
    contents b' = replicate 18 x61 /\ zlen (m_buffer b') <= 2 * 30 + 2080.
Proof.
  apply (buffer_run_refines 30 8).
  - unfold kBufferOffset, kBufferDefaultLength. lia.
  - lia.
  - simpl. unfold zlen. simpl. lia.
  - vm_compute. reflexivity.
Defined.

(** C22. Integers of every width make the round trip in network byte order on
    hosts of either byte order: appending one appends its big-endian bytes,
    prepending puts them in front, and reading yields the value back and
    leaves the rest.  The buffer can grow by their width, and what a prepend
    moves does not overlap its own copy. *)
Theorem int_roundtrip host `{copy : StdCopy} w b v :
  wf b -> can_grow b (Z.of_nat (width_bytes w)) ->
  no_overlap b (network_bytes (width_bytes w) v) ->
  0 <= v < 256 ^ Z.of_nat (width_bytes w) ->
  (exists b1, pushBackInt host w b v = Ok b1 /\ wf b1 /\
     contents b1 = contents b ++ network_bytes (width_bytes w) v) /\
  (exists b1 b2, pushFrontInt host w b v = Ok b1 /\ wf b1 /\
     readInt host w b1 = Ok (v, b2) /\ wf b2 /\ contents b2 = contents b).
Proof.
  intros H Hg Hn Hv.
  assert (zlen (network_bytes (width_bytes w) v) = Z.of_nat (width_bytes w)) as Hz
    by (unfold zlen; by rewrite length_network_bytes).
  rewrite <- Hz in Hg. rewrite pushBackInt_bytes, pushFrontInt_bytes. split.
  - destruct (pushBack_spec b _ H Hg) as (b1 & ? & ? & ? & _). eauto.
  - destruct (pushFront_spec b _ H Hg Hn) as (b1 & ? & H1 & Hc & _).
    destruct (readInt_spec host w b1 _ _ H1 Hc (length_network_bytes _ _))
      as (b2 & Hr & ? & ?).
    rewrite network_value_bytes in Hr by done. exists b1, b2. auto.
Qed.

Lemma int_roundtrip_witness :
  (exists b1, @pushBackInt Little copy_forward W64 abc_buffer 1024 = Ok b1 /\ wf b1 /\
     contents b1 = contents abc_buffer ++ network_bytes 8 1024) /\
  (exists b1 b2, @pushFrontInt Little copy_forward W64 abc_buffer 1024 = Ok b1 /\ wf b1 /\
     readInt Little W64 b1 = Ok (1024, b2) /\ wf b2 /\ contents b2 = contents abc_buffer).
Proof.
  apply (@int_roundtrip Little copy_forward W64 abc_buffer 1024).
  - exact abc_buffer_wf.
  - split; vm_compute; discriminate.
  - left. vm_compute. discriminate.
  - simpl. lia.
Defined.

(** [pushFront] is correct when the shift of its second branch is done
    with [memmove] semantics, but it relies on it: with the element-by-element
    loop that describes [std::copy] the same call overwrites the data it is
    about to move.  (The destination starts inside the source range, which
    [std::copy] excludes.) *)
Theorem pushFront_needs_memmove :
  (forall b d, wf b -> can_grow b (zlen d) ->
     exists b', @pushFront copy_memmove b d = Ok b' /\ wf b' /\
       contents b' = d ++ contents b) /\
  (exists b d b', wf b /\ can_grow b (zlen d) /\ @pushFront copy_forward b d = Ok b' /\
     contents b' <> d ++ contents b).
Proof.
  split.
  - intros b d H Hg. destruct (pushFront_memmove b d H Hg) as (b' & ? & ? & ? & _). eauto.
  - exists (mkBuffer 0 3 8 ([x61; x62; x63] ++ replicate 13 x00)), [x64].
    eexists. split; [constructor; vm_compute; discriminate || reflexivity|].
    split; [split; vm_compute; discriminate|].
    split; [vm_compute; reflexivity|]. vm_compute. discriminate.
Qed.

(** A buffer built with fewer than [kBufferOffset] bytes of capacity is
    destroyed by [retrieveAll]: the vector is resized below [m_head], the
    writable size wraps around to nearly [2 ^ 64], no space is ever reserved
    again and the next append writes outside the vector. *)
Theorem small_capacity_breaks `{copy : StdCopy} len x :
  0 <= len < kBufferOffset ->
  exists b, MessageBuffer_new len = Ok b /\
    let b' := retrieveAll b in
    zlen (m_buffer b') = len /\ readableBytes b' = 0 /\
    writableBytes b' = size_max - (kBufferOffset - len) /\
    pushBack b' [x] = Fail OutOfBounds.
Proof.
  unfold kBufferOffset. intros Hl.
  unfold MessageBuffer_new. unfold kBufferOffset. rewrite wrap64_small by (unfold size_max; lia).
  rewrite (proj2 (Z.leb_le _ _)) by (unfold ptrdiff_max; lia).
  eexists. split; [done|].
  match goal with |- context [retrieveAll ?x] => set (b' := retrieveAll x) end.
  assert (m_buffer b' = replicate (Z.to_nat len) x00) as Hm.
  { subst b'. unfold retrieveAll, vector_resize. simpl.
    unfold zlen. rewrite length_replicate, wrap64_small by (unfold size_max; lia).
    rewrite (proj2 (Z.ltb_lt _ _)) by lia.
    rewrite resize_le by (rewrite length_replicate; lia).
    rewrite take_replicate. f_equal. lia. }
  assert (zlen (replicate (Z.to_nat len) x00) = len) as Hz
    by (unfold zlen; rewrite length_replicate; lia).
  assert (m_head b' = 8 /\ m_tail b' = 8) as [Hh Ht] by done.
  assert (writableBytes b' = size_max - (8 - len)) as Hw.
  { unfold writableBytes. rewrite Hm, Hz, Ht. unfold wrap64.
    rewrite <- (Z_mod_plus_full _ 1), Z.mod_small; unfold size_max; lia. }
  clearbody b'. rewrite Hm. split_and!; [done | | done |].
  - unfold readableBytes. by rewrite Hh, Ht.
  - unfold pushBack, push_bytes, ensureWritableBytes. change (zlen [x]) with 1.
    rewrite ensure_enough by (rewrite Hw; unfold size_max; lia). simpl.
    unfold mem_write. rewrite Hm, Ht. unfold in_range. rewrite Hz.
    change (zlen [x]) with 1.
    rewrite (proj2 (Z.leb_gt (8 + 1) len)) by lia. by rewrite andb_false_r.
Qed.

Lemma small_capacity_breaks_witness :
  exists b, MessageBuffer_new 7 = Ok b /\
    zlen (m_buffer (retrieveAll b)) = 7 /\ readableBytes (retrieveAll b) = 0 /\
    writableBytes (retrieveAll b) = size_max - (kBufferOffset - 7) /\
    @pushBack copy_memmove (retrieveAll b) [x61] = Fail OutOfBounds.
Proof. apply (@small_capacity_breaks copy_memmove 7 x61). unfold kBufferOffset. lia. Defined.

(** The storage of a well-formed buffer is never given back: removing
    data, all of it or a part, leaves the vector as it is.  The branch of
    [retrieveAll] that shrinks it is dead, because a reallocation replaces
    [m_initCap] along with the vector. *)
Theorem retrieve_never_shrinks b n :
  wf b -> 0 <= n ->
  m_buffer (retrieveAll b) = m_buffer b /\ m_buffer (retrieve b n) = m_buffer b.
Proof.
  intros H Hn. split; [apply retrieveAll_wf | apply retrieve_wf]; done.
Qed.

Lemma retrieve_never_shrinks_witness :
  m_buffer (retrieveAll abc_buffer) = m_buffer abc_buffer /\
  m_buffer (retrieve abc_buffer 2) = m_buffer abc_buffer.
Proof. apply (retrieve_never_shrinks abc_buffer 2); [exact abc_buffer_wf | lia]. Defined.

(** [findCRLF] finds the first line end: when it returns a position the
    readable bytes are a line, CRLF and a rest, no shorter line would do, and
    [retrieveUntil] past the line end leaves exactly the rest; when it returns
    [nullptr] there is no CRLF in the readable bytes. *)
Theorem findCRLF_spec b :
  wf b ->
  exists r, findCRLF b = Ok r /\
    match r with
    | Some pos =>
        exists line rest b', contents b = line ++ CRLF ++ rest /\
          pos = m_head b + zlen line /\
          (forall line' rest', contents b = line' ++ CRLF ++ rest' -> zlen line <= zlen line') /\
          retrieveUntil b (pos + 2) = Ok b' /\ wf b' /\ contents b' = rest
    | None => forall line rest, contents b <> line ++ CRLF ++ rest
    end.
Proof.
  intros H. wf_pose H. unfold findCRLF. rewrite mem_read_ok by lia.
  replace (m_head b + (m_tail b - m_head b)) with (m_tail b) by lia.
  fold (contents b). simpl. eexists. split; [done|].
  destruct (search CRLF (contents b)) as [i|] eqn:E; simpl.
  - apply search_Some in E. destruct E as ((rest & Hrest) & Hi & Hmin).
    assert (contents b = take i (contents b) ++ CRLF ++ rest) as Hc
      by (rewrite <- Hrest; symmetry; apply take_drop).
    assert (zlen (take i (contents b)) = Z.of_nat i) as Hz
      by (unfold zlen; rewrite length_take; lia).
    pose proof (zlen_contents b H) as Hl. rewrite readableBytes_wf in Hl by done.
    assert (Z.of_nat i + 2 <= m_tail b - m_head b).
    { rewrite <- Hl, Hc, !zlen_app, Hz. pose proof (zlen_nonneg rest).
      change (zlen CRLF) with 2. lia. }
    exists (take i (contents b)), rest. eexists. rewrite Hz. split_and!.
    + exact Hc.
    + done.
    + intros line' rest' Hc'. destruct (decide (Z.of_nat i <= zlen line')); [done|].
      exfalso. apply (Hmin (length line')); [unfold zlen in *; lia|].
      rewrite Hc', drop_app_length. by exists rest'.
    + unfold retrieveUntil. rewrite !(proj2 (Z.leb_le _ _)) by lia. reflexivity.
    + apply retrieve_wf; [done | lia].
    + apply (retrieve_prefix b _ (take i (contents b) ++ CRLF)); [done| |].
      * by rewrite <- app_assoc.
      * rewrite zlen_app, Hz. change (zlen CRLF) with 2. lia.
  - intros line rest Hc. apply (search_None _ _ (length line)) in E.
    + apply E. rewrite Hc, drop_app_length. by exists rest.
    + rewrite Hc, !length_app. lia.
Qed.

Definition crlf_buffer : MessageBuffer :=
  mkBuffer 8 12 8 (replicate 8 x00 ++ [x61; x0d; x0a; x63] ++ replicate 4 x00).

Lemma findCRLF_spec_witness :
  exists r, findCRLF crlf_buffer = Ok r /\
    match r with
    | Some pos =>
        exists line rest b', contents crlf_buffer = line ++ CRLF ++ rest /\
          pos = m_head crlf_buffer + zlen line /\
          (forall line' rest', contents crlf_buffer = line' ++ CRLF ++ rest' ->
             zlen line <= zlen line') /\
          retrieveUntil crlf_buffer (pos + 2) = Ok b' /\ wf b' /\ contents b' = rest
    | None => forall line rest, contents crlf_buffer <> line ++ CRLF ++ rest
    end.
Proof.
  apply (findCRLF_spec crlf_buffer). constructor; vm_compute; discriminate || reflexivity.
Defined.

(** [readFd] appends exactly the bytes the kernel delivered, also when
    they spill over into the stack buffer, and reports their number; on an
    error the buffer is unchanged and the error number is handed out.  The
    kernel delivers at most the lengths offered. *)
Theorem readFd_spec `{copy : StdCopy} b readv :
  wf b -> zlen (m_buffer b) < 2 ^ 31 -> can_grow b extBufferSize ->
  (forall data, readv (readv_lens b) = inr data ->
     zlen data <= foldr Z.add 0 (readv_lens b)) ->
  match readv (readv_lens b) with
  | inl errno => readFd b readv = Ok (-1, Some errno, b)
  | inr data => exists b', readFd b readv = Ok (zlen data, None, b') /\ wf b' /\
                  contents b' = contents b ++ data
  end.
Proof.
  intros H Hs Hg Hk. unfold readFd.
  destruct (readv (readv_lens b)) as [e|data] eqn:E; [done|].
  clear E. pose proof (Hk data eq_refl) as E. wf_pose H. pose proof (writableBytes_wf b H) as Hw.
  pose proof (zlen_nonneg data).
  assert (wrap64 (to_int32 (writableBytes b)) = writableBytes b) as Hi.
  { rewrite to_int32_small by lia. apply wrap64_small. unfold size_max. lia. }
  rewrite Hi. unfold readv_lens in E. rewrite Hi in E.
  set (d0 := take _ data). set (ext := drop _ data).
  assert (zlen d0 = Z.min (writableBytes b) (zlen data) /\
          zlen ext = Z.max 0 (zlen data - writableBytes b)) as [Hd0 He].
  { subst d0 ext. unfold zlen. rewrite length_take, length_drop. lia. }
  destruct (write_tail_ok b d0 H) as (m & Hm & Hb & Hc & Hz & Ht); [lia|].
  rewrite Hm. simpl.
  destruct (Z.leb_spec (zlen data) (writableBytes b)).
  - replace (m_tail b ⊞ zlen data) with (m_tail b ⊞ zlen d0) by (do 2 f_equal; lia).
    eexists. split; [done|]. split; [exact Hb|]. rewrite Hc. f_equal. subst d0.
    apply take_ge. unfold zlen in *. lia.
  - assert (m_tail b + zlen d0 = zlen (m_buffer b)) as Hend by lia.
    set (b1 := set_tail (set_buffer b m) (m_tail b ⊞ zlen d0)) in *.
    assert (set_tail (set_buffer b m) (zlen m) = b1) as ->.
    { unfold b1. f_equal. simpl in Ht, Hz. rewrite Ht. lia. }
    assert (zlen ext = zlen data - writableBytes b) as He' by lia. rewrite <- He'.
    rewrite mem_read_ok by (rewrite ?Z.add_0_l; auto using zlen_nonneg; lia).
    rewrite Z.add_0_l, slice_all. simpl.
    assert (zlen ext <= extBufferSize) as Hx.
    { destruct (Z.ltb_spec (writableBytes b) extBufferSize); simpl in E; [lia|].
      exfalso. lia. }
    destruct (pushBack_spec b1 ext Hb) as (b2 & -> & Hb2 & Hc2 & _).
    { split; [apply zlen_nonneg|]. rewrite Hz. destruct Hg. lia. }
    simpl. exists b2. split; [done|]. split; [done|].
    rewrite Hc2, Hc, <- app_assoc. f_equal. apply take_drop.
Qed.

(** A kernel with nine bytes to deliver. *)
Definition nine_bytes (lens : list Z) : Z + list byte :=
  inr (take (Z.to_nat (foldr Z.add 0 lens)) (replicate 9 x65)).

Lemma readFd_spec_witness :
  exists b', readFd (copy := copy_memmove) abc_buffer nine_bytes = Ok (9, None, b') /\
    wf b' /\ contents b' = contents abc_buffer ++ replicate 9 x65.
Proof.
  apply (readFd_spec (copy := copy_memmove) abc_buffer nine_bytes).
  - exact abc_buffer_wf.
  - vm_compute. reflexivity.
  - split; vm_compute; discriminate.
  - intros data [= <-]. vm_compute. discriminate.
Defined.

(** [operator[]] returns the byte at an offset below the readable size,
    but its assertion admits the readable size itself: on a buffer filled to
    the end that access lies outside the vector. *)
Theorem index_at_bounds b off :
  wf b ->
  (forall c, contents b !! Z.to_nat off = Some c -> 0 <= off -> index_at b off = Ok c) /\
  (off = readableBytes b -> m_tail b = zlen (m_buffer b) ->
   index_at b off = Fail OutOfBounds).
Proof.
  intros H. wf_pose H. pose proof (zlen_contents b H) as Hz. split.
  - intros c Hc Ho. pose proof (lookup_lt_Some _ _ _ Hc) as Hl.
    unfold index_at. rewrite (proj2 (Z.leb_le _ _)) by (unfold zlen in Hz; lia). simpl.
    unfold contents in Hc. rewrite lookup_slice in Hc. case_decide; [|done].
    replace (Z.to_nat (m_head b + off)) with (Z.to_nat (m_head b) + Z.to_nat off)%nat by lia.
    by rewrite Hc.
  - intros -> Ht. unfold index_at. rewrite Z.leb_refl. simpl.
    rewrite readableBytes_wf by done.
    rewrite lookup_ge_None_2; [done|]. unfold zlen in *. lia.
Qed.

Definition full_buffer : MessageBuffer :=
  mkBuffer 8 16 8 (replicate 16 x61).

Lemma index_at_bounds_witness :
  index_at abc_buffer 1 = Ok x62 /\ index_at full_buffer 8 = Fail OutOfBounds.
Proof.
  split.
  - apply (index_at_bounds abc_buffer 1); [exact abc_buffer_wf | reflexivity | lia].
  - apply (index_at_bounds full_buffer 8); [|reflexivity..].
    constructor; vm_compute; discriminate || reflexivity.
Defined.
