(* ===== verification/TimerQueue.v ===== *)
(** * Timers: [netpoll/net/inner/timer.{h,cc}], [timer_queue.{h,cc}]

    The timer queue of an event loop (Linux branch): a priority queue of
    timers ordered by expiry, the set of timer ids that are still valid, and a
    timerfd armed for the earliest expiry.  [handleRead] runs the callbacks of
    the expired timers and restarts the repeating ones.

    - A time point is in nanoseconds, an interval in microseconds, as in
      [std::chrono::steady_clock] and [std::chrono::microseconds].
    - [steady_clock::now] is a parameter: [clock k] is the [k]-th reading.
    - A callback is what it does to the queue: a list of [addTimer] and
      [cancelTimer] calls, which may depend on the id it is given.
    - [std::priority_queue] is the interface [PriorityQueue]; which of several
      timers with the same expiry comes first is left open, as in the library. *)

From S2P Require Import Prelude.

(** ** [Timer] *)

(** The flags [(h, l)]: [addTimer] asserts that at most one of them is set. *)
Inductive priority := Normal | Highest | Lowest.
Definition flag_h (p : priority) : bool := match p with Highest => true | _ => false end.
Definition flag_l (p : priority) : bool := match p with Lowest => true | _ => false end.

Inductive action :=
  | ActAdd (cb : Z -> list action) (when interval : Z) (p : priority)
  | ActCancel (id : Z).

Abbreviation callback := (Z -> list action).

Record Timer := mkTimer {
  m_callback : callback;
  m_when : Z;
  m_interval : Z;
  m_repeat : bool;
  m_highest : bool;
  m_lowest : bool;
  m_id : Z
}.

(** [Timer::Timer] draws its id from the counter [timersCreated_]; the counter
    is kept as the number of its increments, its value is that modulo 2^64. *)
Definition Timer_new (timersCreated : Z) (cb : callback) (when interval : Z)
    (highest lowest : bool) : Timer :=
  mkTimer cb when interval (0 <? interval) highest lowest (timersCreated ⊞ 1).

(** [Timer::restart]; [clock_now] is what [steady_clock::now] would say.  Time
    points do not wrap: 64 bits of nanoseconds reach for 292 years. *)
Definition restart (now clock_now : Z) (t : Timer) : Timer :=
  mkTimer (m_callback t)
    (if m_repeat t then now + 1000 * m_interval t else clock_now)
    (m_interval t) (m_repeat t) (m_highest t) (m_lowest t) (m_id t).

(** [Timer::operator<], [Timer::operator>] *)
Definition Timer_lt (x y : Timer) : bool := m_when x <? m_when y.
Definition Timer_gt (x y : Timer) : bool := m_when y <? m_when x.

(** ** The timerfd *)

(** [howMuchTimeFromNow]: seconds and nanoseconds of the [timespec]. *)
Definition howMuchTimeFromNow (now when : Z) : Z * Z :=
  let microSeconds := Z.quot (when - now) 1000 in
  let microSeconds := if microSeconds <? 100 then 100 else microSeconds in
  (Z.quot microSeconds 1000000, Z.rem microSeconds 1000000 * 1000).

(** [resetTimerfd]: the instant at which the descriptor becomes readable. *)
Definition resetTimerfd (now expiration : Z) : Z :=
  let '(sec, nsec) := howMuchTimeFromNow now expiration in
  now + sec * 1000000000 + nsec.

(** ** [std::priority_queue] ordered by [TimerPtrComparer] *)

Class PriorityQueue (Q : Type) := {
  pq_empty : Q;
  pq_elems : Q -> list Timer;
  pq_top : Q -> option Timer;
  pq_push : Timer -> Q -> Q;
  pq_pop : Q -> Q;
  pq_elems_empty : pq_elems pq_empty = [];
  pq_elems_push : forall t q, pq_elems (pq_push t q) ≡ₚ t :: pq_elems q;
  pq_top_None : forall q, pq_top q = None -> pq_elems q = [];
  pq_top_Some : forall q t, pq_top q = Some t ->
    pq_elems q ≡ₚ t :: pq_elems (pq_pop q) /\
    forall u, u ∈ pq_elems q -> Timer_gt t u = false
}.

Section timer_queue.
Context `{PQ : PriorityQueue Q} (clock : nat -> Z).

(** ** [TimerQueue] *)

Record TimerQueue := mkTimerQueue {
  m_highestTask : option Timer;
  m_lowestTask : option Timer;
  m_timers : Q;
  m_callingExpiredTimers : bool;
  m_timerIdSet : gset Z;
  (* when the timerfd will fire, [None] while it is disarmed *)
  m_timerFd : option Z;
  (* increments of [Timer::timersCreated_] *)
  timersCreated : Z;
  (* readings of the clock so far *)
  readings : nat;
  (* the ids whose callbacks ran, latest last *)
  fired : list Z
}.

Definition TimerQueue_new : TimerQueue :=
  mkTimerQueue None None pq_empty false ∅ None 0 0 [].

Definition now (s : TimerQueue) : Z := clock (readings s).
Definition set_reading (s : TimerQueue) : TimerQueue :=
  mkTimerQueue (m_highestTask s) (m_lowestTask s) (m_timers s)
    (m_callingExpiredTimers s) (m_timerIdSet s) (m_timerFd s) (timersCreated s)
    (S (readings s)) (fired s).
Definition set_timers (s : TimerQueue) (q : Q) : TimerQueue :=
  mkTimerQueue (m_highestTask s) (m_lowestTask s) q (m_callingExpiredTimers s)
    (m_timerIdSet s) (m_timerFd s) (timersCreated s) (readings s) (fired s).
Definition set_tasks (s : TimerQueue) (h l : option Timer) : TimerQueue :=
  mkTimerQueue h l (m_timers s) (m_callingExpiredTimers s) (m_timerIdSet s)
    (m_timerFd s) (timersCreated s) (readings s) (fired s).
Definition set_calling (s : TimerQueue) (b : bool) : TimerQueue :=
  mkTimerQueue (m_highestTask s) (m_lowestTask s) (m_timers s) b (m_timerIdSet s)
    (m_timerFd s) (timersCreated s) (readings s) (fired s).
Definition set_ids (s : TimerQueue) (ids : gset Z) : TimerQueue :=
  mkTimerQueue (m_highestTask s) (m_lowestTask s) (m_timers s)
    (m_callingExpiredTimers s) ids (m_timerFd s) (timersCreated s) (readings s) (fired s).
Definition set_fired (s : TimerQueue) (id : Z) : TimerQueue :=
  mkTimerQueue (m_highestTask s) (m_lowestTask s) (m_timers s)
    (m_callingExpiredTimers s) (m_timerIdSet s) (m_timerFd s) (timersCreated s)
    (readings s) (fired s ++ [id]).
Definition set_created (s : TimerQueue) (n : Z) : TimerQueue :=
  mkTimerQueue (m_highestTask s) (m_lowestTask s) (m_timers s)
    (m_callingExpiredTimers s) (m_timerIdSet s) (m_timerFd s) n (readings s) (fired s).

(** [resetTimerfd] on the state: one clock reading, then [timerfd_settime]. *)
Definition arm (expiration : Z) (s : TimerQueue) : TimerQueue :=
  let s' := set_reading s in
  mkTimerQueue (m_highestTask s') (m_lowestTask s') (m_timers s')
    (m_callingExpiredTimers s') (m_timerIdSet s') (Some (resetTimerfd (now s) expiration))
    (timersCreated s') (readings s') (fired s').

(** The kernel: the armed timer fires, and is then disarmed (no interval). *)
Definition timerfd_expire (s : TimerQueue) : TimerQueue :=
  mkTimerQueue (m_highestTask s) (m_lowestTask s) (m_timers s)
    (m_callingExpiredTimers s) (m_timerIdSet s) None (timersCreated s) (readings s) (fired s).

(** [TimerQueue::insert] *)
Definition insert (t : Timer) (s : TimerQueue) : bool * TimerQueue :=
  let earliestChanged :=
    match pq_top (m_timers s) with
    | None => true
    | Some top => Timer_lt t top
    end in
  (earliestChanged, set_timers s (pq_push t (m_timers s))).

(** [TimerQueue::addTimerInLoop] *)
Definition addTimerInLoop (t : Timer) (s : TimerQueue) : TimerQueue :=
  let s := set_ids s ({[m_id t]} ∪ m_timerIdSet s) in
  let '(changed, s) := insert t s in
  if changed then arm (m_when t) s else s.

(** The construction of the timer in [TimerQueue::addTimer]. *)
Definition createTimer (cb : callback) (when interval : Z) (p : priority)
    (s : TimerQueue) : Timer * TimerQueue :=
  let t := Timer_new (timersCreated s) cb when interval (flag_h p) (flag_l p) in
  (t, set_created s (timersCreated s + 1)).

(** [TimerQueue::addTimer] called in the loop thread: [runInLoop] runs the
    insertion at once; the id is returned. *)
Definition addTimer (cb : callback) (when interval : Z) (p : priority)
    (s : TimerQueue) : Z * TimerQueue :=
  let '(t, s) := createTimer cb when interval p s in
  (m_id t, addTimerInLoop t s).

(** [TimerQueue::cancelTimer], the functor it runs in the loop. *)
Definition cancelTimer (id : Z) (s : TimerQueue) : TimerQueue :=
  set_ids s (m_timerIdSet s ∖ {[id]}).

(** What a callback does. *)
Definition run_action (s : TimerQueue) (a : action) : TimerQueue :=
  match a with
  | ActAdd cb when interval p => snd (addTimer cb when interval p s)
  | ActCancel id => cancelTimer id s
  end.

(** [Timer::run] *)
Definition run (t : Timer) (s : TimerQueue) : TimerQueue :=
  fold_left run_action (m_callback t (m_id t)) (set_fired s (m_id t)).

(** The body of the loop of [getExpired], with the timer at the top. *)
Definition takeExpired (top : Timer) (s : TimerQueue) (expired : list Timer)
    : TimerQueue * list Timer :=
  if m_highest top && bool_decide (is_Some (m_highestTask s))
  then (set_timers (set_tasks s (Some top) (m_lowestTask s)) (pq_pop (m_timers s)), expired)
  else if m_lowest top && bool_decide (is_Some (m_lowestTask s))
  then (set_timers (set_tasks s (m_highestTask s) (Some top)) (pq_pop (m_timers s)), expired)
  else (set_timers s (pq_pop (m_timers s)), expired ++ [top]).

(** [TimerQueue::getExpired]: one unit of fuel per timer taken out. *)
Fixpoint getExpired_loop (fuel : nat) (at_ : Z) (s : TimerQueue) (expired : list Timer)
    : res (TimerQueue * list Timer) :=
  match pq_top (m_timers s) with
  | None => Ok (s, expired)
  | Some top =>
      if m_when top <? at_ then
        match fuel with
        | O => Fail Diverged
        | S fuel =>
            let '(s, expired) := takeExpired top s expired in
            getExpired_loop fuel at_ s expired
        end
      else Ok (s, expired)
  end.

Definition getExpired (at_ : Z) (s : TimerQueue) : res (TimerQueue * list Timer) :=
  getExpired_loop (length (pq_elems (m_timers s))) at_ s [].

(** Run a timer if its id is still valid. *)
Definition runIfActive (s : TimerQueue) (t : Timer) : TimerQueue :=
  if bool_decide (m_id t ∈ m_timerIdSet s) then run t s else s.

Definition runTask (o : option Timer) (s : TimerQueue) : TimerQueue :=
  match o with Some t => runIfActive s t | None => s end.

(** The loop of [TimerQueue::reset(expired, now)]. *)
Definition resetOne (at_ : Z) (s : TimerQueue) (t : Timer) : TimerQueue :=
  if bool_decide (m_id t ∈ m_timerIdSet s) then
    if m_repeat t then snd (insert (restart at_ (now s) t) s)
    else set_ids s (m_timerIdSet s ∖ {[m_id t]})
  else s.

Definition reset (expired : list Timer) (at_ : Z) (s : TimerQueue) : TimerQueue :=
  let s := fold_left (resetOne at_) expired s in
  match pq_top (m_timers s) with
  | Some top => arm (m_when top) s
  | None => s
  end.

(** [TimerQueue::handleRead] *)
Definition handleRead (s : TimerQueue) : res TimerQueue :=
  let at_ := now s in
  '(s, expired) ← getExpired at_ (set_reading s);
  let s := set_calling s true in
  let s := runTask (m_highestTask s) s in
  let s := fold_left runIfActive expired s in
  let s := runTask (m_lowestTask s) s in
  let s := set_calling s false in
  let expired := expired ++ option_list (m_highestTask s) ++ option_list (m_lowestTask s) in
  Ok (reset expired at_ (set_tasks s None None)).

(** [TimerQueue::reset()]: the timerfd is closed and made anew (the channel
    with it), and armed again if timers wait. *)
Definition reset_fd (s : TimerQueue) : TimerQueue :=
  let s := timerfd_expire s in
  match pq_top (m_timers s) with
  | Some top => arm (m_when top) s
  | None => s
  end.

(** ** The queue in its loop

    Calls from other threads are functors waiting in the loop's queue. *)

Inductive functor :=
  | FAdd (t : Timer)
  | FCancel (id : Z)
  | FReset.

Definition run_functor (f : functor) (s : TimerQueue) : TimerQueue :=
  match f with
  | FAdd t => addTimerInLoop t s
  | FCancel id => cancelTimer id s
  | FReset => reset_fd s
  end.

Inductive tq_step : TimerQueue * list functor -> TimerQueue * list functor -> Prop :=
  | step_add_in_loop s fs cb when interval p :
      tq_step (s, fs) (snd (addTimer cb when interval p s), fs)
  | step_cancel_in_loop s fs id :
      tq_step (s, fs) (cancelTimer id s, fs)
  | step_add_remote s fs cb when interval p t s' :
      createTimer cb when interval p s = (t, s') ->
      tq_step (s, fs) (s', fs ++ [FAdd t])
  | step_cancel_remote s fs id :
      tq_step (s, fs) (s, fs ++ [FCancel id])
  | step_reset_in_loop s fs :
      tq_step (s, fs) (reset_fd s, fs)
  | step_reset_remote s fs :
      tq_step (s, fs) (s, fs ++ [FReset])
  | step_functor s f fs :
      tq_step (s, f :: fs) (run_functor f s, fs)
  | step_fire s fs s' :
      handleRead (timerfd_expire s) = Ok s' -> tq_step (s, fs) (s', fs).

Definition tq_reachable (s : TimerQueue) (fs : list functor) : Prop :=
  rtc tq_step (TimerQueue_new, []) (s, fs).

(** ** Invariant *)

Definition elems (s : TimerQueue) : list Timer := pq_elems (m_timers s).
Definition pending_ids (fs : list functor) : list Z :=
  omap (fun f => match f with FAdd t => Some (m_id t) | _ => None end) fs.

(** [out]: ids of timers that exist outside the priority queue. *)
Record tq_inv (s : TimerQueue) (out : list Z) : Prop := {
  inv_highest : m_highestTask s = None;
  inv_lowest : m_lowestTask s = None;
  inv_nodup : NoDup (map m_id (elems s) ++ out);
  inv_range : Forall (fun id => 0 < id <= timersCreated s) (map m_id (elems s) ++ out);
  inv_valid : forall id, id ∈ m_timerIdSet s -> id ∈ map m_id (elems s) ++ out
}.

(** The earliest expiry of a list of timers. *)
Definition is_min (w : Z) (l : list Timer) : Prop :=
  (exists t, t ∈ l /\ m_when t = w) /\ forall t, t ∈ l -> w <= m_when t.

(** If any timer waits, the timerfd was armed for the earliest one, by a past
    reading of the clock. *)
Definition armed (s : TimerQueue) : Prop :=
  forall w, is_min w (elems s) ->
  exists k, (k < readings s)%nat /\ m_timerFd s = Some (resetTimerfd (clock k) w).

Lemma is_min_unique w1 w2 l : is_min w1 l -> is_min w2 l -> w1 = w2.
Proof.
  intros [(t1 & H1 & <-) L1] [(t2 & H2 & <-) L2]. specialize (L1 _ H2).
  specialize (L2 _ H1). lia.
Qed.

#[global] Instance is_min_proper w : Proper ((≡ₚ) ==> iff) (is_min w).
Proof.
  intros l l' Hl. unfold is_min. by setoid_rewrite Hl.
Qed.

Lemma top_is_min q t : pq_top q = Some t -> is_min (m_when t) (pq_elems q).
Proof.
  intros Ht. destruct (pq_top_Some _ _ Ht) as [Hp Hm]. split.
  - exists t. split; [rewrite Hp; left | done].
  - intros u Hu. specialize (Hm u Hu). unfold Timer_gt in Hm.
    apply Z.ltb_ge in Hm. done.
Qed.

Lemma is_min_cons w t l :
  is_min w (t :: l) -> (w = m_when t /\ (forall w', is_min w' l -> w <= w')) \/
    (is_min w l /\ w <= m_when t).
Proof.
  intros [(u & Hu & Hw) Hl]. apply elem_of_cons in Hu as [->|Hu].
  - left. split; [done|]. intros w' [(v & Hv & <-) _]. apply Hl. by right.
  - right. split; [|apply Hl; left]. split; [eauto|]. intros v Hv. apply Hl. by right.
Qed.

(** ** The invariant is kept *)

Lemma tq_inv_perm s out out' : out ≡ₚ out' -> tq_inv s out -> tq_inv s out'.
Proof.
  intros Hp [????Hv]. constructor; auto; rewrite <- ?Hp; auto.
  intros id Hid. rewrite <- Hp. auto.
Qed.

Lemma insert_inv s t out :
  tq_inv s (m_id t :: out) -> tq_inv (snd (insert t s)) out.
Proof.
  intros [Hh Hl Hn Hr Hv]. unfold insert. simpl.
  assert (map m_id (elems (set_timers s (pq_push t (m_timers s)))) ++ out ≡ₚ
          map m_id (elems s) ++ m_id t :: out) as Hp.
  { unfold elems. simpl. rewrite pq_elems_push. simpl. by rewrite Permutation_middle. }
  constructor; simpl; auto; try (rewrite Hp; done).
  intros id Hid. rewrite Hp. auto.
Qed.

Lemma set_ids_inv s ids out :
  (forall id, id ∈ ids -> id ∈ map m_id (elems s) ++ out) ->
  tq_inv s out -> tq_inv (set_ids s ids) out.
Proof. intros Hi []. by constructor. Qed.

Lemma arm_inv w s out : tq_inv s out -> tq_inv (arm w s) out.
Proof. intros []. by constructor. Qed.

Lemma addTimerInLoop_inv s t out :
  tq_inv s (m_id t :: out) -> tq_inv (addTimerInLoop t s) out.
Proof.
  intros H. unfold addTimerInLoop.
  pose proof (insert_inv (set_ids s ({[m_id t]} ∪ m_timerIdSet s)) t out) as Hi.
  destruct (insert t _) as [ch s']. simpl in Hi.
  assert (tq_inv s' out) as Hs'.
  { apply Hi. apply set_ids_inv; [|done]. intros id Hid.
    apply elem_of_union in Hid as [Hid|Hid].
    - apply elem_of_singleton in Hid as ->. rewrite elem_of_app, elem_of_cons. auto.
    - by apply (inv_valid _ _ H). }
  destruct ch; [by apply arm_inv | done].
Qed.

Lemma cancelTimer_inv s id out : tq_inv s out -> tq_inv (cancelTimer id s) out.
Proof.
  intros H. apply set_ids_inv; [|done]. intros i Hi. apply (inv_valid _ _ H). set_solver.
Qed.

Lemma createTimer_inv cb when interval p s t s' out :
  createTimer cb when interval p s = (t, s') ->
  0 <= timersCreated s -> timersCreated s' < size_max ->
  tq_inv s out -> tq_inv s' (m_id t :: out).
Proof.
  unfold createTimer. intros [= <- <-] H0 Hc [Hh Hl Hn Hr Hv]. simpl in Hc |- *.
  rewrite wrap64_small by lia.
  constructor; simpl; auto.
  - rewrite <- Permutation_middle. constructor; [|done]. intros Hin.
    rewrite Forall_forall in Hr. apply Hr in Hin. lia.
  - rewrite <- Permutation_middle. constructor; [lia|].
    eapply Forall_impl; [done|]. simpl. lia.
  - intros id Hid. rewrite <- Permutation_middle. right. auto.
Qed.

(** ** What running callbacks can do

    [evolves s ids s']: the callbacks of the timers [ids] ran, in this order;
    new timers have new ids, and an id that was not valid does not become so. *)

Record evolves (s : TimerQueue) (ids : list Z) (s' : TimerQueue) : Prop := {
  ev_created : timersCreated s <= timersCreated s';
  ev_fired : fired s' = fired s ++ ids;
  ev_tasks : m_highestTask s' = m_highestTask s /\ m_lowestTask s' = m_lowestTask s;
  ev_old : 0 <= timersCreated s -> timersCreated s' < size_max ->
    forall id, id <= timersCreated s -> id ∈ m_timerIdSet s' -> id ∈ m_timerIdSet s;
  ev_elems : 0 <= timersCreated s -> timersCreated s' < size_max ->
    exists new, elems s' ≡ₚ new ++ elems s /\ Forall (fun t => timersCreated s < m_id t) new;
  ev_inv : 0 <= timersCreated s -> timersCreated s' < size_max ->
    forall out, tq_inv s out -> tq_inv s' out
}.

Lemma evolves_refl s : evolves s [] s.
Proof.
  constructor; try done.
  - by rewrite app_nil_r.
  - intros _ _. exists []. auto.
Qed.

Lemma evolves_trans s1 s2 s3 l1 l2 :
  evolves s1 l1 s2 -> evolves s2 l2 s3 -> evolves s1 (l1 ++ l2) s3.
Proof.
  intros [C1 F1 [T1 T1'] O1 E1 I1] [C2 F2 [T2 T2'] O2 E2 I2]. constructor.
  - lia.
  - by rewrite F2, F1, app_assoc.
  - by rewrite T2, T2'.
  - intros H0 Hm id Hid H3. apply O1; [lia..|]. apply O2; [lia..|done].
  - intros H0 Hm. destruct E1 as (n1 & P1 & L1); [lia..|].
    destruct E2 as (n2 & P2 & L2); [lia..|]. exists (n2 ++ n1). split.
    + by rewrite P2, P1, app_assoc.
    + apply Forall_app. split; [|done]. eapply Forall_impl; [done|]. simpl. lia.
  - intros H0 Hm out Hi. apply I2; [lia..|]. apply I1; [lia..|done].
Qed.

Lemma addTimerInLoop_fields t s :
  let s' := addTimerInLoop t s in
  elems s' ≡ₚ t :: elems s /\ m_timerIdSet s' = {[m_id t]} ∪ m_timerIdSet s /\
  fired s' = fired s /\ timersCreated s' = timersCreated s /\
  m_highestTask s' = m_highestTask s /\ m_lowestTask s' = m_lowestTask s.
Proof.
  unfold addTimerInLoop, insert. simpl.
  destruct (pq_top _) as [top|]; [destruct (Timer_lt t top)|]; simpl;
    split_and!; auto; apply pq_elems_push.
Qed.

Lemma run_action_evolves s a : evolves s [] (run_action s a).
Proof.
  destruct a as [cb when interval p|id]; cbn [run_action].
  - unfold addTimer. destruct (createTimer cb when interval p s) as [t s1] eqn:E.
    assert (m_id t = timersCreated s ⊞ 1 /\ timersCreated s1 = timersCreated s + 1 /\
            elems s1 = elems s /\ m_timerIdSet s1 = m_timerIdSet s /\ fired s1 = fired s /\
            m_highestTask s1 = m_highestTask s /\ m_lowestTask s1 = m_lowestTask s)
      as (Hid & Hc & He & Hs & Hf & Hh & Hl)
      by (unfold createTimer in E; by injection E as <- <-).
    cbn [snd]. destruct (addTimerInLoop_fields t s1) as (P & S' & F' & C' & H' & L').
    constructor.
    + rewrite C', Hc. lia.
    + by rewrite F', Hf, app_nil_r.
    + by rewrite H', L', Hh, Hl.
    + rewrite C', Hc. intros H0 Hm id Hi. rewrite S', Hs, Hid.
      rewrite wrap64_small by lia. intros [He'|He']%elem_of_union; [|done].
      apply elem_of_singleton in He'. lia.
    + rewrite C', Hc. intros H0 Hm. exists [t]. rewrite P, He. split; [done|].
      constructor; [|done]. rewrite Hid, wrap64_small by lia. lia.
    + rewrite C', Hc. intros H0 Hm out Hi. apply addTimerInLoop_inv.
      eapply createTimer_inv; eauto. lia.
  - constructor; simpl; try done.
    + by rewrite app_nil_r.
    + intros _ _ i _. set_solver.
    + intros _ _. exists []. auto.
    + intros _ _ out. apply cancelTimer_inv.
Qed.

Lemma run_actions_evolves acts s : evolves s [] (fold_left run_action acts s).
Proof.
  revert s. induction acts as [|a acts IH]; intros s; simpl; [apply evolves_refl|].
  eapply (evolves_trans _ _ _ [] []); [apply run_action_evolves | apply IH].
Qed.

Lemma run_evolves t s : evolves s [m_id t] (run t s).
Proof.
  eapply (evolves_trans s (set_fired s (m_id t)) _ [m_id t] []);
    [|apply run_actions_evolves].
  constructor; simpl; try done.
  - intros _ _. exists []. auto.
  - intros _ _ out []. by constructor.
Qed.

Lemma runIfActive_evolves s t :
  exists ids, evolves s ids (runIfActive s t) /\
    ((ids = [m_id t] /\ m_id t ∈ m_timerIdSet s) \/ (ids = [] /\ m_id t ∉ m_timerIdSet s)).
Proof.
  unfold runIfActive. case_bool_decide.
  - exists [m_id t]. split; [apply run_evolves | auto].
  - exists []. split; [apply evolves_refl | auto].
Qed.

(** The ids that run are a subsequence of the expired ones, each valid before. *)
Lemma runAll_evolves ts s :
  exists ids, evolves s ids (fold_left runIfActive ts s) /\ ids `sublist_of` map m_id ts /\
    (0 <= timersCreated s -> timersCreated (fold_left runIfActive ts s) < size_max ->
     Forall (fun t => m_id t <= timersCreated s) ts ->
     forall id, id ∈ ids -> id ∈ m_timerIdSet s).
Proof.
  revert s. induction ts as [|t ts IH]; intros s; simpl.
  { exists []. split_and!; [apply evolves_refl | done | set_solver]. }
  destruct (runIfActive_evolves s t) as (i1 & Ev1 & Hi1).
  destruct (IH (runIfActive s t)) as (i2 & Ev2 & Hs2 & Hv2).
  exists (i1 ++ i2). split; [by eapply evolves_trans|]. split.
  - destruct Hi1 as [[-> _]|[-> _]]; simpl; [by apply sublist_skip | by apply sublist_cons].
  - intros H0 Hm Hall id Hid. inversion Hall as [|? ? Ht Hts]; subst.
    pose proof (ev_created _ _ _ Ev1). pose proof (ev_created _ _ _ Ev2).
    apply elem_of_app in Hid as [Hid|Hid].
    + destruct Hi1 as [[-> ?]|[-> ?]]; [|set_solver].
      apply list_elem_of_singleton in Hid as ->. done.
    + assert (id ∈ map m_id ts) as Hin by (eapply elem_of_submseteq; [done|]; by apply sublist_submseteq).
      apply list_elem_of_fmap in Hin as (u & -> & Hu).
      rewrite Forall_forall in Hts. specialize (Hts u Hu).
      apply (ev_old _ _ _ Ev1); [lia..|]. apply Hv2; [lia..| |done].
      apply Forall_forall. intros v Hv. rewrite Forall_forall in Hall.
      specialize (Hall v ltac:(by right)). lia.
Qed.

(** ** Taking out the expired timers *)

Definition when_le (x y : Timer) : Prop := m_when x <= m_when y.

Lemma takeExpired_plain top s expired :
  m_highestTask s = None -> m_lowestTask s = None ->
  takeExpired top s expired = (set_timers s (pq_pop (m_timers s)), expired ++ [top]).
Proof.
  intros Hh Hl. unfold takeExpired. rewrite Hh, Hl.
  rewrite !bool_decide_false by (by intros []). by rewrite !andb_false_r.
Qed.

Lemma getExpired_loop_spec fuel at_ s expired :
  m_highestTask s = None -> m_lowestTask s = None -> (length (elems s) <= fuel)%nat ->
  exists q l, getExpired_loop fuel at_ s expired = Ok (set_timers s q, expired ++ l) /\
    elems s ≡ₚ l ++ pq_elems q /\ StronglySorted when_le l /\
    Forall (fun t => m_when t < at_) l /\ Forall (fun t => at_ <= m_when t) (pq_elems q).
Proof.
  revert s expired. induction fuel as [|fuel IH]; intros s expired Hh Hl Hf;
    (destruct (pq_top (m_timers s)) as [top|] eqn:Et;
     [|exists (m_timers s), []; simpl; rewrite Et, app_nil_r;
       pose proof (pq_top_None _ Et) as He; unfold elems; rewrite He;
       split_and!; [by destruct s | done | constructor..]]);
    simpl; rewrite Et; destruct (pq_top_Some _ _ Et) as [Hp _];
    pose proof (top_is_min _ _ Et) as [_ Hmin];
    (destruct (Z.ltb_spec (m_when top) at_) as [Hw|Hw];
     [|exists (m_timers s), []; rewrite app_nil_r;
       split_and!; [by destruct s | done | constructor | constructor |];
       apply Forall_forall; intros u Hu; specialize (Hmin u Hu); lia]).
  - unfold elems in Hf. rewrite Hp in Hf. simpl in Hf. lia.
  - rewrite takeExpired_plain by done.
    destruct (IH (set_timers s (pq_pop (m_timers s))) (expired ++ [top]))
      as (q & l & Hq & Hperm & Hs & Hlt & Hge); [done..| |].
    { unfold elems in Hf |- *. rewrite Hp in Hf. simpl in Hf |- *. lia. }
    exists q, (top :: l). split; [by rewrite Hq, <- app_assoc|].
    unfold elems in Hperm |- *. simpl in Hperm. rewrite Hp, Hperm.
    split_and!; [done| |by constructor|done].
    constructor; [done|]. apply Forall_forall. intros u Hu. apply Hmin.
    rewrite Hp, Hperm. set_solver.
Qed.

(** ** Restarting *)

(** A restarted timer; the second argument of [restart] is not used. *)
Definition restarted (at_ : Z) (t : Timer) : Timer := restart at_ 0 t.

Lemma restart_repeat at_ n t : m_repeat t = true -> restart at_ n t = restarted at_ t.
Proof. intros H. unfold restarted, restart. by rewrite H. Qed.

Lemma resetOne_spec at_ s t out :
  tq_inv s (m_id t :: out) ->
  let s' := resetOne at_ s t in
  tq_inv s' out /\ fired s' = fired s /\ timersCreated s' = timersCreated s /\
  (forall id, id ∈ m_timerIdSet s' <->
     id ∈ m_timerIdSet s /\ ~ (m_id t = id /\ m_repeat t = false)) /\
  elems s' ≡ₚ (if bool_decide (m_id t ∈ m_timerIdSet s) && m_repeat t
               then [restarted at_ t] else []) ++ elems s.
Proof.
  intros H. unfold resetOne. case_bool_decide as Hid; simpl.
  - destruct (m_repeat t) eqn:Er; simpl.
    + split; [by apply (insert_inv s (restart at_ (now s) t))|]. split_and!; auto.
      * intros id. naive_solver.
      * unfold elems. simpl. rewrite pq_elems_push. by rewrite restart_repeat.
    + split_and!; auto.
      * destruct H as [Hh Hl Hn Hr Hv]. constructor; simpl; auto.
        -- rewrite <- Permutation_middle in Hn. by inversion Hn.
        -- rewrite <- Permutation_middle in Hr. by inversion Hr.
        -- intros id [Hin Hne]%elem_of_difference.
           specialize (Hv id Hin). set_solver.
      * intros id. set_solver.
  - split_and!; auto.
    + destruct H as [Hh Hl Hn Hr Hv]. constructor; simpl; auto.
      * rewrite <- Permutation_middle in Hn. by inversion Hn.
      * rewrite <- Permutation_middle in Hr. by inversion Hr.
      * intros id Hin. specialize (Hv id Hin). set_solver.
    + intros id. split; [|naive_solver]. intros Hin. split; [done|]. intros [Hi _]. by subst.
Qed.

Definition keeps (s : TimerQueue) (t : Timer) : bool :=
  bool_decide (m_id t ∈ m_timerIdSet s) && m_repeat t.

Lemma resetAll_spec at_ ts s out :
  tq_inv s (map m_id ts ++ out) ->
  let s' := fold_left (resetOne at_) ts s in
  tq_inv s' out /\ fired s' = fired s /\ timersCreated s' = timersCreated s /\
  (forall id, id ∈ m_timerIdSet s' <->
     id ∈ m_timerIdSet s /\ forall t, t ∈ ts -> m_id t = id -> m_repeat t = true) /\
  elems s' ≡ₚ map (restarted at_) (filter (keeps s) ts) ++ elems s.
Proof.
  revert s out. induction ts as [|t ts IH]; intros s out H; simpl in H |- *.
  { split_and!; auto. intros id. set_solver. }
  destruct (resetOne_spec at_ s t _ H) as (H1 & F1 & C1 & S1 & E1).
  destruct (IH _ _ H1) as (H2 & F2 & C2 & S2 & E2).
  split_and!; [done | congruence | congruence | |].
  - intros id. rewrite S2, S1. destruct (m_repeat t) eqn:Er.
    + split.
      * intros [[Hin _] Hts]. split; [done|]. intros u [->|Hu]%elem_of_cons; auto.
      * intros [Hin Hts]. split; [naive_solver|]. intros u Hu. apply Hts. by right.
    + split.
      * intros [[Hin Hne] Hts]. split; [done|].
        intros u [->|Hu]%elem_of_cons Hi; [naive_solver | auto].
      * intros [Hin Hts]. split.
        -- split; [done|]. intros [Hi _]. specialize (Hts t ltac:(left) Hi). congruence.
        -- intros u Hu. apply Hts. by right.
  - rewrite E2, E1.
    assert (filter (keeps (resetOne at_ s t)) ts = filter (keeps s) ts) as ->.
    { pose proof (inv_nodup _ _ H) as Hn.
      apply filter_bool_ext. intros u Hu. unfold keeps.
      assert (m_id u <> m_id t) as Hne.
      { intros Heq. rewrite <- Permutation_middle in Hn. apply NoDup_cons in Hn as [Hn _].
        apply Hn. rewrite <- Heq, !elem_of_app. right. left.
        apply list_elem_of_fmap. eauto. }
      rewrite (bool_decide_ext (m_id u ∈ m_timerIdSet (resetOne at_ s t))
                 (m_id u ∈ m_timerIdSet s)); [done|].
      rewrite S1. naive_solver. }
    rewrite filter_cons. fold (keeps s t). destruct (keeps s t) eqn:Ek.
    + rewrite decide_True by done. simpl. by rewrite <- Permutation_middle.
    + by rewrite decide_False by (by intros []).
Qed.

(** ** [handleRead] *)

Lemma arm_armed s top :
  pq_top (m_timers s) = Some top -> armed (arm (m_when top) s).
Proof.
  intros Ht w Hw. pose proof (top_is_min _ _ Ht) as Hm.
  rewrite (is_min_unique _ _ _ Hw Hm). exists (readings s). simpl. split; [lia|done].
Qed.

Lemma empty_armed s : pq_top (m_timers s) = None -> armed s.
Proof.
  intros Et w [(t & Ht & _) _]. unfold elems in Ht. rewrite (pq_top_None _ Et) in Ht. set_solver.
Qed.

Lemma reset_armed expired at_ s : armed (reset expired at_ s).
Proof.
  unfold reset. destruct (pq_top _) as [top|] eqn:Et; [by apply arm_armed | by apply empty_armed].
Qed.

Lemma reset_fd_armed s : armed (reset_fd s).
Proof.
  unfold reset_fd. destruct (pq_top _) as [top|] eqn:Et; [by apply arm_armed | by apply empty_armed].
Qed.

Lemma addTimerInLoop_armed t s : armed s -> armed (addTimerInLoop t s).
Proof.
  intros Ha w Hw. unfold addTimerInLoop, insert in *. simpl in *.
  destruct (pq_top (m_timers s)) as [top|] eqn:Et.
  - pose proof (top_is_min _ _ Et) as Hm. unfold Timer_lt in *.
    destruct (Z.ltb_spec (m_when t) (m_when top)) as [Hlt|Hge];
      unfold elems in Hw; simpl in Hw; rewrite pq_elems_push in Hw;
      apply is_min_cons in Hw as [[-> Hc]|[Hc ?]].
    + exists (readings s). split; [simpl; lia | done].
    + pose proof (is_min_unique _ _ _ Hc Hm). lia.
    + specialize (Hc _ Hm). assert (m_when t = m_when top) as -> by lia.
      destruct (Ha _ Hm) as (k & ? & ?). exists k. auto.
    + destruct (Ha _ Hc) as (k & ? & ?). exists k. auto.
  - unfold elems in Hw. simpl in Hw. rewrite pq_elems_push, (pq_top_None _ Et) in Hw.
    apply is_min_cons in Hw as [[-> _]|[[(u & Hu & _) _] _]]; [|set_solver].
    exists (readings s). split; [simpl; lia | done].
Qed.

Lemma handleRead_phases s :
  m_highestTask s = None -> m_lowestTask s = None ->
  exists q l ids s2,
    elems s ≡ₚ l ++ pq_elems q /\ StronglySorted when_le l /\
    Forall (fun t => m_when t < now s) l /\ Forall (fun t => now s <= m_when t) (pq_elems q) /\
    s2 = fold_left runIfActive l (set_calling (set_timers (set_reading s) q) true) /\
    evolves (set_calling (set_timers (set_reading s) q) true) ids s2 /\
    ids `sublist_of` map m_id l /\
    (0 <= timersCreated s -> timersCreated s2 < size_max ->
     Forall (fun t => m_id t <= timersCreated s) l ->
     forall id, id ∈ ids -> id ∈ m_timerIdSet s) /\
    handleRead s = Ok (reset l (now s) (set_tasks (set_calling s2 false) None None)).
Proof.
  intros Hh Hl. unfold handleRead, getExpired.
  destruct (getExpired_loop_spec (length (pq_elems (m_timers (set_reading s)))) (now s)
              (set_reading s) []) as (q & l & Hg & Hp & Hs & Hlt & Hge); [done..|].
  rewrite Hg. simpl app. cbn [mbind res_bind].
  set (s1 := set_calling (set_timers (set_reading s) q) true).
  destruct (runAll_evolves l s1) as (ids & Ev & Hsub & Hval).
  exists q, l, ids, (fold_left runIfActive l s1).
  split_and!; auto.
  destruct (ev_tasks _ _ _ Ev) as [Th Tl]. simpl in Th, Tl.
  rewrite Hh in Th. rewrite Hl in Tl.
  simpl. rewrite Hh. cbn [runTask]. rewrite Tl. cbn [runTask].
  rewrite Th, Tl. simpl. by rewrite app_nil_r.
Qed.

Lemma reset_spec ts at_ s out :
  tq_inv s (map m_id ts ++ out) ->
  let s' := reset ts at_ s in
  tq_inv s' out /\ fired s' = fired s /\ timersCreated s' = timersCreated s /\
  (forall id, id ∈ m_timerIdSet s' <->
     id ∈ m_timerIdSet s /\ forall t, t ∈ ts -> m_id t = id -> m_repeat t = true) /\
  elems s' ≡ₚ map (restarted at_) (filter (keeps s) ts) ++ elems s.
Proof.
  intros H. destruct (resetAll_spec at_ ts s out H) as (H2 & ?). unfold reset.
  destruct (pq_top _); [|by split]. split; [by apply arm_inv | done].
Qed.

(** What one round of [handleRead] does to the timers. *)
Record round (s : TimerQueue) (expired : list Timer) (ids : list Z) (s' : TimerQueue)
    : Prop := {
  round_sorted : StronglySorted when_le expired;
  round_expired : forall t, t ∈ expired <-> t ∈ elems s /\ m_when t < now s;
  round_fired : fired s' = fired s ++ ids;
  round_order : ids `sublist_of` map m_id expired;
  round_valid : forall id, id ∈ ids -> id ∈ m_timerIdSet s;
  round_once : forall t, t ∈ expired -> m_repeat t = false ->
    (m_id t ∉ m_timerIdSet s') /\ (m_id t ∉ map m_id (elems s'));
  round_restart : forall t, t ∈ expired -> m_repeat t = true -> m_id t ∈ m_timerIdSet s' ->
    restarted (now s) t ∈ elems s';
  round_keep : forall t, t ∈ elems s -> now s <= m_when t -> t ∈ elems s'
}.

Lemma handleRead_round s out :
  tq_inv s out -> 0 <= timersCreated s ->
  exists s' expired ids, handleRead s = Ok s' /\ armed s' /\
    timersCreated s <= timersCreated s' /\
    (timersCreated s' < size_max -> tq_inv s' out /\ round s expired ids s').
Proof.
  intros H H0. destruct (handleRead_phases s (inv_highest _ _ H) (inv_lowest _ _ H))
    as (q & l & ids & s2 & Hp & Hs & Hlt & Hge & Hs2 & Ev & Hsub & Hval & Hr).
  set (s1 := set_calling _ true) in *.
  assert (tq_inv s1 (map m_id l ++ out)) as H1.
  { assert (map m_id (elems s) ++ out ≡ₚ map m_id (elems s1) ++ map m_id l ++ out) as Hq.
    { rewrite Hp, map_app, app_assoc. f_equiv. apply Permutation_app_comm. }
    destruct H as [Hh Hl Hn Hrg Hv]. constructor; auto; try (rewrite <- Hq; done).
    intros id Hid. rewrite <- Hq. auto. }
  pose proof (ev_created _ _ _ Ev) as Hc. change (timersCreated s1) with (timersCreated s) in Hc.
  assert (Forall (fun t => m_id t <= timersCreated s) l) as Hids.
  { pose proof (inv_range _ _ H1) as Hrg. rewrite !Forall_app in Hrg.
    destruct Hrg as (_ & Hrg & _). rewrite Forall_map in Hrg.
    eapply Forall_impl; [exact Hrg|]. intros t [_ ?]. done. }
  set (s3 := set_tasks (set_calling s2 false) None None) in *.
  exists (reset l (now s) s3), l, ids. split; [done|]. split; [apply reset_armed|].
  assert (timersCreated (reset l (now s) s3) = timersCreated s2) as Hc'.
  { unfold reset. assert (timersCreated (fold_left (resetOne (now s)) l s3) = timersCreated s3)
      as Hf.
    { clear. generalize s3. induction l as [|t l IH]; intros s'; [done|]. simpl.
      rewrite IH. unfold resetOne. repeat case_match; done. }
    by destruct (pq_top _). }
  rewrite Hc'. split; [done|]. intros Hm.
  assert (tq_inv s3 (map m_id l ++ out)) as H3.
  { pose proof (ev_inv _ _ _ Ev H0 Hm _ H1) as []. by constructor. }
  destruct (reset_spec l (now s) s3 out H3) as (H4 & F4 & _ & S4 & E4).
  destruct (ev_elems _ _ _ Ev H0 Hm) as (new & En & Hnew).
  change (elems s1) with (pq_elems q) in En. change (elems s3) with (elems s2) in E4.
  split; [done|].
  rewrite Forall_forall in Hlt, Hge.
  constructor; auto.
  - intros t. rewrite Hp, elem_of_app. split; [naive_solver|].
    intros [[?|Ht] Hw]; [done|]. specialize (Hge t Ht). lia.
  - rewrite F4. exact (ev_fired _ _ _ Ev).
  - intros t Ht Hr'. split; [rewrite S4; intros [_ Hx]; specialize (Hx t Ht eq_refl); congruence|].
    rewrite E4, En, !map_app, !elem_of_app. pose proof (inv_nodup _ _ H1) as Hnd.
    change (elems s1) with (pq_elems q) in Hnd.
    intros [Hin|[Hin|Hin]]; apply list_elem_of_fmap in Hin as (u & Hu & Hin).
    + apply list_elem_of_fmap in Hin as (v & -> & Hin). apply list_elem_of_filter in Hin as [Hk Hin].
      apply NoDup_app in Hnd as (_ & _ & Hnd). apply NoDup_app in Hnd as (Hnd & _).
      pose proof (NoDup_map_inj m_id l t v Hnd Ht Hin Hu). subst v.
      unfold keeps in Hk. rewrite Hr', andb_false_r in Hk. done.
    + rewrite Forall_forall in Hnew, Hids. specialize (Hnew u Hin). specialize (Hids t Ht).
      change (timersCreated s1) with (timersCreated s) in Hnew. lia.
    + apply NoDup_app in Hnd as (_ & Hnd & _). apply (Hnd (m_id u)).
      * apply list_elem_of_fmap. eauto.
      * rewrite <- Hu, elem_of_app. left. apply list_elem_of_fmap. eauto.
  - intros t Ht Hr' Hv. rewrite S4 in Hv. destruct Hv as [Hv _].
    rewrite E4, elem_of_app. left. apply list_elem_of_fmap. exists t. split; [done|].
    apply list_elem_of_filter. split; [|done]. unfold keeps. rewrite Hr', bool_decide_true by done.
    done.
  - intros t Ht Hw. rewrite Hp, elem_of_app in Ht. destruct Ht as [Ht|Ht].
    + specialize (Hlt t Ht). lia.
    + rewrite E4, En, !elem_of_app. auto.
Qed.

(** ** Every reachable state *)

Record sys_inv (s : TimerQueue) (fs : list functor) : Prop := {
  sys_created : 0 <= timersCreated s;
  sys_tasks : m_highestTask s = None /\ m_lowestTask s = None;
  sys_armed : armed s;
  sys_inv_tq : timersCreated s < size_max -> tq_inv s (pending_ids fs)
}.

Lemma createTimer_fields cb when interval p s t s' :
  createTimer cb when interval p s = (t, s') ->
  timersCreated s' = timersCreated s + 1 /\ m_highestTask s' = m_highestTask s /\
  m_lowestTask s' = m_lowestTask s /\ (armed s -> armed s').
Proof. unfold createTimer. intros [= <- <-]. auto. Qed.

Lemma pending_ids_app fs gs : pending_ids (fs ++ gs) = pending_ids fs ++ pending_ids gs.
Proof. apply omap_app. Qed.

Lemma run_functor_inv f fs s : sys_inv s (f :: fs) -> sys_inv (run_functor f s) fs.
Proof.
  intros [H0 [Hh Hl] Ha Hi]. destruct f as [t|id|]; simpl in Hi |- *.
  - destruct (addTimerInLoop_fields t s) as (_ & _ & _ & C & Th & Tl).
    constructor; [lia | by rewrite Th, Tl | by apply addTimerInLoop_armed |].
    rewrite C. intros Hm. by apply addTimerInLoop_inv, Hi.
  - constructor; auto. intros Hm. by apply cancelTimer_inv, Hi.
  - pose proof (reset_fd_armed s) as Har. revert Har.
    unfold reset_fd. destruct (pq_top _); intros Har; constructor; auto;
      intros Hm; destruct (Hi Hm); by constructor.
Qed.

Lemma remote_add_inv cb when interval p s t s' fs :
  createTimer cb when interval p s = (t, s') ->
  sys_inv s fs -> sys_inv s' (fs ++ [FAdd t]).
Proof.
  intros E [H0 [Hh Hl] Ha Hi]. destruct (createTimer_fields _ _ _ _ _ _ _ E) as (C & Th & Tl & A).
  constructor; [lia | by rewrite Th, Tl | auto |].
  intros Hm. rewrite pending_ids_app. simpl.
  eapply tq_inv_perm; [apply Permutation_cons_append|].
  eapply createTimer_inv; eauto. apply Hi. lia.
Qed.

Lemma handleRead_total s :
  m_highestTask s = None -> m_lowestTask s = None ->
  exists s', handleRead s = Ok s' /\ timersCreated s <= timersCreated s' /\
    m_highestTask s' = None /\ m_lowestTask s' = None.
Proof.
  intros Hh Hl. destruct (handleRead_phases s Hh Hl)
    as (q & l & ids & s2 & _ & _ & _ & _ & _ & Ev & _ & _ & Hr).
  eexists. split; [exact Hr|]. pose proof (ev_created _ _ _ Ev) as Hc. simpl in Hc.
  set (s3 := set_tasks _ None None) in *.
  assert (timersCreated (reset l (now s) s3) = timersCreated s3 /\
          m_highestTask (reset l (now s) s3) = None /\
          m_lowestTask (reset l (now s) s3) = None) as (-> & -> & ->); [|auto].
  unfold reset.
  assert (forall s', m_highestTask s' = None -> m_lowestTask s' = None ->
    let s'' := fold_left (resetOne (now s)) l s' in
    timersCreated s'' = timersCreated s' /\ m_highestTask s'' = None /\ m_lowestTask s'' = None)
    as Hf.
  { clear. induction l as [|t l IH]; intros s' ? ?; [done|]. simpl.
    destruct (IH (resetOne (now s) s' t)) as (-> & ?);
      unfold resetOne in *; repeat case_match; auto. }
  destruct (Hf s3 eq_refl eq_refl) as (? & ? & ?). by destruct (pq_top _).
Qed.

Lemma tq_step_inv s fs s' fs' :
  tq_step (s, fs) (s', fs') -> sys_inv s fs -> sys_inv s' fs'.
Proof.
  intros Hst H. inversion Hst; subst.
  - change (sys_inv (snd (addTimer cb when interval p s)) fs'). unfold addTimer.
    destruct (createTimer cb when interval p s) as [t s1] eqn:E. cbn [snd].
    apply (run_functor_inv (FAdd t)). pose proof (remote_add_inv _ _ _ _ _ _ _ fs' E H) as H1.
    destruct H1 as [? ? ? Hi]. constructor; auto. intros Hm. simpl.
    eapply tq_inv_perm; [|by apply Hi]. rewrite pending_ids_app. simpl.
    symmetry. apply Permutation_cons_append.
  - destruct H as [? ? ? Hi]. constructor; auto. intros Hm. by apply cancelTimer_inv, Hi.
  - by eapply remote_add_inv.
  - destruct H as [? ? ? Hi]. constructor; auto. rewrite pending_ids_app. simpl.
    by rewrite app_nil_r.
  - apply (run_functor_inv FReset). by destruct H.
  - destruct H as [? ? ? Hi]. constructor; auto. rewrite pending_ids_app. simpl.
    by rewrite app_nil_r.
  - by apply run_functor_inv.
  - destruct H as [H0 [Hh Hl] Ha Hi]. set (s1 := timerfd_expire s) in *.
    destruct (handleRead_total s1 Hh Hl) as (s2 & E & Hc & Th & Tl).
    match goal with E' : handleRead s1 = Ok s' |- _ => rewrite E in E'; injection E' as -> end.
    change (timersCreated s1) with (timersCreated s) in Hc.
    constructor; [lia | done | |].
    + destruct (handleRead_phases s1 Hh Hl) as (?&?&?&?&_&_&_&_&_&_&_&_&Hr).
      rewrite E in Hr. injection Hr as ->. apply reset_armed.
    + intros Hm. assert (tq_inv s1 (pending_ids fs')) as H1.
      { destruct Hi; [lia|]. by constructor. }
      destruct (handleRead_round s1 _ H1 H0) as (s3 & ex & ids & E3 & _ & _ & Hx).
      rewrite E in E3. injection E3 as <-. by apply Hx.
Qed.

Lemma reachable_inv s fs : tq_reachable s fs -> sys_inv s fs.
Proof.
  intros Hr.
  refine (rtc_invariant tq_step (fun x => sys_inv (fst x) (snd x)) _ _ _ Hr _).
  { intros [s1 fs1] [s2 fs2]. apply tq_step_inv. }
  constructor; simpl; auto; try lia.
  - intros w [(t & Ht & _) _]. unfold elems in Ht. simpl in Ht.
    rewrite pq_elems_empty in Ht. set_solver.
  - intros _. constructor; unfold elems; simpl;
      rewrite ?pq_elems_empty; simpl; auto using NoDup_nil_2. set_solver.
Qed.

End timer_queue.

(** ** A priority queue *)

(** The earliest timer of a non-empty list and the others. *)
Fixpoint select (t : Timer) (l : list Timer) : Timer * list Timer :=
  match l with
  | [] => (t, [])
  | u :: l' =>
      let '(m, r) := select u l' in
      if Timer_lt m t then (m, t :: r) else (t, l)
  end.

Lemma select_perm t l : let '(m, r) := select t l in t :: l ≡ₚ m :: r.
Proof.
  revert t. induction l as [|u l IH]; intros t; simpl; [done|].
  specialize (IH u). destruct (select u l) as [m r]. destruct (Timer_lt m t); [|done].
  rewrite IH. apply Permutation_swap.
Qed.

Lemma select_min t l x : x ∈ t :: l -> m_when (fst (select t l)) <= m_when x.
Proof.
  revert t x. induction l as [|u l IH]; intros t x Hx; simpl.
  - apply list_elem_of_singleton in Hx as ->. simpl. lia.
  - specialize (IH u). destruct (select u l) as [m r]. simpl in IH.
    unfold Timer_lt. pose proof (IH u ltac:(left)).
    apply elem_of_cons in Hx as [->|Hx]; [|specialize (IH x Hx)];
      destruct (Z.ltb_spec (m_when m) (m_when t)); simpl; lia.
Qed.

#[export, refine] Instance list_pq : PriorityQueue (list Timer) := {|
  pq_empty := [];
  pq_elems := fun q => q;
  pq_top := fun q => match q with [] => None | t :: l => Some (fst (select t l)) end;
  pq_push := fun t q => q ++ [t];
  pq_pop := fun q => match q with [] => [] | t :: l => snd (select t l) end
|}.
Proof.
  - done.
  - intros t q. by rewrite <- Permutation_cons_append.
  - by intros [|t l].
  - intros [|t l] u; [done|]. intros [= <-]. split.
    + pose proof (select_perm t l) as Hp. by destruct (select t l).
    + intros x Hx. unfold Timer_gt. apply Z.ltb_ge. by apply select_min.
Defined.

(** ** Callbacks that cancel nothing *)

Definition no_cancel (t : Timer) : Prop :=
  Forall (fun a => match a with ActCancel _ => False | _ => True end) (m_callback t (m_id t)).

Section expired_run.
Context `{PQ : PriorityQueue Q} (clock : nat -> Z).

Lemma run_actions_keep (s : TimerQueue) acts :
  Forall (fun a => match a with ActCancel _ => False | _ => True end) acts ->
  m_timerIdSet s ⊆ m_timerIdSet (fold_left (run_action clock) acts s).
Proof.
  intros Ha. revert s. induction Ha as [|a acts Ha _ IH]; intros s; [done|]. simpl.
  etrans; [|apply IH]. destruct a as [cb w i p|]; [|done]. simpl.
  destruct (addTimerInLoop_fields clock
              (Timer_new (timersCreated s) cb w i (flag_h p) (flag_l p))
              (set_created s (timersCreated s + 1))) as (_ & -> & _). simpl. set_solver.
Qed.

Lemma runIfActive_keep (s : TimerQueue) t :
  no_cancel t -> m_timerIdSet s ⊆ m_timerIdSet (runIfActive clock s t).
Proof.
  intros Ht. unfold runIfActive. case_bool_decide; [|done]. apply (run_actions_keep (set_fired s (m_id t)) _ Ht).
Qed.

(** Without cancellations exactly the valid timers run, in order. *)
Lemma runAll_exact ts (s : TimerQueue) :
  Forall no_cancel ts -> 0 <= timersCreated s ->
  timersCreated (fold_left (runIfActive clock) ts s) < size_max ->
  Forall (fun t => m_id t <= timersCreated s) ts ->
  fired (fold_left (runIfActive clock) ts s) =
    fired s ++ filter (fun id => id ∈ m_timerIdSet s) (map m_id ts).
Proof.
  intros Hn. revert s. induction Hn as [|t ts Ht Hn IH]; intros s H0 Hm Hids; simpl in *.
  { by rewrite app_nil_r. }
  inversion Hids as [|? ? Hid Hids']; subst.
  destruct (runIfActive_evolves clock s t) as (i1 & Ev & Hi1).
  destruct (runAll_evolves clock ts (runIfActive clock s t)) as (i2 & Ev2 & _).
  pose proof (ev_created _ _ _ Ev). pose proof (ev_created _ _ _ Ev2).
  rewrite IH; [|lia|done|eapply Forall_impl; [exact Hids'|]; simpl; lia].
  rewrite (ev_fired _ _ _ Ev), <- app_assoc. f_equal.
  assert (filter (fun id => id ∈ m_timerIdSet (runIfActive clock s t)) (map m_id ts) =
          filter (fun id => id ∈ m_timerIdSet s) (map m_id ts)) as ->.
  { apply filter_ext_elem. intros id Hin. apply list_elem_of_fmap in Hin as (u & -> & Hu).
    rewrite Forall_forall in Hids'. specialize (Hids' u Hu).
    split; [apply (ev_old _ _ _ Ev); lia | by apply runIfActive_keep]. }
  rewrite filter_cons. destruct Hi1 as [[-> Hv]|[-> Hv]].
  - by rewrite decide_True.
  - by rewrite decide_False.
Qed.

Lemma handleRead_fires s out :
  tq_inv s out -> 0 <= timersCreated s -> Forall no_cancel (elems s) ->
  exists s' expired, handleRead clock s = Ok s' /\
    StronglySorted when_le expired /\
    (forall t, t ∈ expired <-> t ∈ elems s /\ m_when t < now clock s) /\
    (timersCreated s' < size_max ->
     fired s' = fired s ++ filter (fun id => id ∈ m_timerIdSet s) (map m_id expired)).
Proof.
  intros H H0 Hnc. destruct (handleRead_phases clock s (inv_highest _ _ H) (inv_lowest _ _ H))
    as (q & l & ids & s2 & Hp & Hs & Hlt & Hge & Hs2 & Ev & _ & _ & Hr).
  rewrite Forall_forall in Hlt, Hge.
  exists (reset clock l (now clock s) (set_tasks (set_calling s2 false) None None)), l.
  split_and!; [done | done | |].
  - intros t. rewrite Hp, elem_of_app. split; [naive_solver|].
    intros [[?|Ht] Hw]; [done|]. specialize (Hge t Ht). lia.
  - assert (forall s', timersCreated (fold_left (resetOne clock (now clock s)) l s') =
              timersCreated s' /\ fired (fold_left (resetOne clock (now clock s)) l s') = fired s')
      as Hf.
    { clear. induction l as [|t l IH]; intros s'; [done|]. simpl.
      destruct (IH (resetOne clock (now clock s) s' t)) as [-> ->].
      unfold resetOne. repeat case_match; done. }
    assert (forall s', timersCreated (reset clock l (now clock s) s') = timersCreated s' /\
              fired (reset clock l (now clock s) s') = fired s') as Hf'.
    { intros s'. unfold reset. destruct (Hf s'). by destruct (pq_top _). }
    destruct (Hf' (set_tasks (set_calling s2 false) None None)) as [-> ->].
    intros Hm. simpl in Hm |- *. subst s2. rewrite runAll_exact; [done| |done|done|].
    + rewrite Hp, Forall_app in Hnc. by destruct Hnc.
    + pose proof (inv_range _ _ H) as Hrg. rewrite Forall_app, Hp, map_app, Forall_app in Hrg.
      destruct Hrg as [[Hrg _] _]. rewrite Forall_map in Hrg.
      eapply Forall_impl; [exact Hrg|]. simpl. lia.
Qed.

End expired_run.

(** ** The branch for systems without timerfd

    The loop polls with a timeout, [getTimeout], and calls [processTimers];
    nothing is armed. *)

Section portable.
Context `{PQ : PriorityQueue Q}.
#[local] Abbreviation TimerQueue := (@TimerQueue Q).

(** [howMuchTimeFromNow], in milliseconds *)
Definition howMuchTimeFromNow_ms (now when : Z) : Z :=
  let microSeconds := Z.quot (when - now) 1000 in
  let microSeconds := if microSeconds <? 1000 then 1000 else microSeconds in
  Z.quot microSeconds 1000.

Definition getTimeout (now : Z) (s : TimerQueue) : Z :=
  match pq_top (m_timers s) with
  | None => 10000
  | Some top => howMuchTimeFromNow_ms now (m_when top)
  end.

Definition addTimerInLoop_portable (t : Timer) (s : TimerQueue) : TimerQueue :=
  snd (insert t (set_ids s ({[m_id t]} ∪ m_timerIdSet s))).

Definition run_action_portable (s : TimerQueue) (a : action) : TimerQueue :=
  match a with
  | ActAdd cb when interval p =>
      let '(t, s) := createTimer cb when interval p s in addTimerInLoop_portable t s
  | ActCancel id => cancelTimer id s
  end.

Definition runIfActive_portable (s : TimerQueue) (t : Timer) : TimerQueue :=
  if bool_decide (m_id t ∈ m_timerIdSet s)
  then fold_left run_action_portable (m_callback t (m_id t)) (set_fired s (m_id t))
  else s.

Definition runTask_portable (o : option Timer) (s : TimerQueue) : TimerQueue :=
  match o with Some t => runIfActive_portable s t | None => s end.

Definition resetOne_portable (at_ : Z) (s : TimerQueue) (t : Timer) : TimerQueue :=
  if bool_decide (m_id t ∈ m_timerIdSet s) then
    if m_repeat t then snd (insert (restart at_ at_ t) s)
    else set_ids s (m_timerIdSet s ∖ {[m_id t]})
  else s.

(** [TimerQueue::processTimers]; [at_] is its reading of the clock. *)
Definition processTimers (at_ : Z) (s : TimerQueue) : res TimerQueue :=
  '(s, expired) ← getExpired at_ s;
  let s := set_calling s true in
  let s := runTask_portable (m_highestTask s) s in
  let s := fold_left runIfActive_portable expired s in
  let s := runTask_portable (m_lowestTask s) s in
  let s := set_calling s false in
  let expired := expired ++ option_list (m_highestTask s) ++ option_list (m_lowestTask s) in
  Ok (fold_left (resetOne_portable at_) expired (set_tasks s None None)).

(** What is left of a state when the timerfd and its clock readings go. *)
Definition portable (s : TimerQueue) : TimerQueue :=
  mkTimerQueue (m_highestTask s) (m_lowestTask s) (m_timers s)
    (m_callingExpiredTimers s) (m_timerIdSet s) None (timersCreated s) 0 (fired s).

Lemma portable_fold {A} (f g : TimerQueue -> A -> TimerQueue) :
  (forall s a, portable (f s a) = g (portable s) a) ->
  forall l s, portable (fold_left f l s) = fold_left g l (portable s).
Proof. intros Hf l. induction l as [|a l IH]; intros s; simpl; [done|]. by rewrite IH, Hf. Qed.

Context (clock : nat -> Z).

Lemma portable_run_action s a :
  portable (run_action clock s a) = run_action_portable (portable s) a.
Proof.
  destruct a; [|done]. unfold run_action, run_action_portable, addTimer, createTimer, addTimerInLoop.
  cbn [fst snd insert]. by destruct (pq_top _); [destruct (Timer_lt _ _)|].
Qed.

Lemma portable_runIfActive s t :
  portable (runIfActive clock s t) = runIfActive_portable (portable s) t.
Proof.
  unfold runIfActive, runIfActive_portable. cbn [portable m_timerIdSet].
  case_bool_decide; [|done]. unfold run. by rewrite (portable_fold _ _ portable_run_action).
Qed.

Lemma portable_runTask o s : portable (runTask clock o s) = runTask_portable o (portable s).
Proof. destruct o; [apply portable_runIfActive | done]. Qed.

Lemma portable_resetOne at_ s t :
  portable (resetOne clock at_ s t) = resetOne_portable at_ (portable s) t.
Proof.
  unfold resetOne, resetOne_portable. cbn [portable m_timerIdSet].
  case_bool_decide; [|done]. destruct (m_repeat t) eqn:Hr; [|done].
  unfold restart. by rewrite Hr.
Qed.

Lemma portable_reset expired at_ s :
  portable (reset clock expired at_ s) = fold_left (resetOne_portable at_) expired (portable s).
Proof.
  rewrite <- (portable_fold _ _ (portable_resetOne at_)). unfold reset. by destruct (pq_top _).
Qed.

Lemma portable_getExpired fuel at_ s ex :
  getExpired_loop fuel at_ (portable s) ex =
    match getExpired_loop fuel at_ s ex with
    | Ok (s', l) => Ok (portable s', l)
    | Fail e => Fail e
    end.
Proof.
  revert s ex. induction fuel as [|n IH]; intros s ex; cbn [getExpired_loop portable m_timers];
    (destruct (pq_top _) as [top|]; [|done]); (destruct (_ <? _); [|done]); [done|].
  unfold takeExpired. cbn [portable m_highestTask m_lowestTask].
  destruct (m_highest top && _); [|destruct (m_lowest top && _)]; symmetry;
    (etrans; [symmetry; apply IH | reflexivity]).
Qed.

End portable.

(** ** Properties *)

(** C15. No timer is lost, in any interleaving of calls from the loop, calls
    from other threads and rounds of [handleRead]: ids are unique; every valid
    id belongs to a timer that waits in the priority queue or whose insertion
    waits in the loop's queue; and whenever timers wait, the timerfd is armed
    for the earliest of them.  (Up to the 2^64-th timer.) *)
Theorem timers_never_lost `{PQ : PriorityQueue Q} clock s fs :
  tq_reachable clock s fs -> timersCreated s < size_max ->
  NoDup (map m_id (elems s) ++ pending_ids fs) /\
  (forall id, id ∈ m_timerIdSet s -> id ∈ map m_id (elems s) ++ pending_ids fs) /\
  (forall w, is_min w (elems s) ->
     exists k, (k < readings s)%nat /\ m_timerFd s = Some (resetTimerfd (clock k) w)).
Proof.
  intros Hr Hm. destruct (reachable_inv clock s fs Hr) as [_ _ Ha Hi].
  destruct (Hi Hm) as [_ _ ? _ ?]. auto.
Qed.

(** A clock that advances a millisecond per reading. *)
Definition ms_clock (k : nat) : Z := Z.of_nat k * 1000000.

(** A queue with one repeating and one single timer. *)
Definition two_timers : TimerQueue :=
  snd (addTimer ms_clock (fun _ => []) 500 0 Normal
    (snd (addTimer ms_clock (fun _ => []) 700 2000 Normal TimerQueue_new))).

Lemma two_adds_reachable `{PQ : PriorityQueue Q} clock cb1 w1 i1 p1 cb2 w2 i2 p2 :
  tq_reachable clock (snd (addTimer clock cb2 w2 i2 p2 (snd (addTimer clock cb1 w1 i1 p1 TimerQueue_new)))) [].
Proof.
  eapply rtc_l; [apply step_add_in_loop|]. eapply rtc_l; [apply step_add_in_loop|]. apply rtc_refl.
Qed.

Lemma two_timers_reachable : tq_reachable ms_clock two_timers [].
Proof. unfold two_timers. apply two_adds_reachable. Qed.

Lemma timers_never_lost_witness :
  NoDup (map m_id (elems two_timers) ++ pending_ids []) /\
  (forall id, id ∈ m_timerIdSet two_timers ->
     id ∈ map m_id (elems two_timers) ++ pending_ids []) /\
  (forall w, is_min w (elems two_timers) ->
     exists k, (k < readings two_timers)%nat /\
       m_timerFd two_timers = Some (resetTimerfd (ms_clock k) w)).
Proof.
  apply (timers_never_lost ms_clock two_timers []).
  - exact two_timers_reachable.
  - vm_compute. reflexivity.
Defined.

(** C16. A round of [handleRead] in a reachable state terminates and does what
    a timer queue must: it considers exactly the timers whose expiry has
    passed, earliest first; it runs only callbacks of ids that were valid when
    it began, so a cancelled timer does not run; a single-shot timer that
    expired is gone afterwards, in the id set and in the queue; a repeating
    one that is still valid waits again, one interval from now; the timers
    that have not expired are untouched; and the invariant holds again. *)
Theorem handleRead_correct `{PQ : PriorityQueue Q} clock s fs :
  tq_reachable clock s fs ->
  timersCreated s < size_max ->
  exists s' expired ids, handleRead clock s = Ok s' /\
    (timersCreated s' < size_max ->
     tq_inv s' (pending_ids fs) /\ round clock s expired ids s').
Proof.
  intros Hr Hm. destruct (reachable_inv clock s fs Hr) as [H0 _ _ Hi].
  destruct (handleRead_round clock s _ (Hi Hm) H0) as (s' & ex & ids & E & _ & _ & Hx).
  exists s', ex, ids. auto.
Qed.

Lemma handleRead_correct_witness :
  exists s' expired ids, handleRead ms_clock two_timers = Ok s' /\
    (timersCreated s' < size_max ->
     tq_inv s' (pending_ids []) /\ round ms_clock two_timers expired ids s').
Proof.
  apply (handleRead_correct ms_clock two_timers []).
  - exact two_timers_reachable.
  - vm_compute. reflexivity.
Defined.

(** Every valid timer whose expiry has passed runs, exactly once and in
    the order of expiry, as long as the callbacks of that round cancel
    nothing. *)
Theorem expired_timers_run `{PQ : PriorityQueue Q} clock s fs :
  tq_reachable clock s fs -> timersCreated s < size_max -> Forall no_cancel (elems s) ->
  exists s' expired, handleRead clock s = Ok s' /\
    StronglySorted when_le expired /\
    (forall t, t ∈ expired <-> t ∈ elems s /\ m_when t < now clock s) /\
    (timersCreated s' < size_max ->
     fired s' = fired s ++ filter (fun id => id ∈ m_timerIdSet s) (map m_id expired)).
Proof.
  intros Hr Hm Hn. destruct (reachable_inv clock s fs Hr) as [H0 _ _ Hi].
  by apply (handleRead_fires clock s (pending_ids fs)); [apply Hi| |].
Qed.

Lemma expired_timers_run_witness :
  exists s' expired, handleRead ms_clock two_timers = Ok s' /\
    StronglySorted when_le expired /\
    (forall t, t ∈ expired <-> t ∈ elems two_timers /\ m_when t < now ms_clock two_timers) /\
    (timersCreated s' < size_max ->
     fired s' = fired two_timers ++
       filter (fun id => id ∈ m_timerIdSet two_timers) (map m_id expired)).
Proof.
  apply (expired_timers_run ms_clock two_timers []).
  - exact two_timers_reachable.
  - vm_compute. reflexivity.
  - repeat constructor.
Defined.

(** Two timers due at once: an ordinary one, and a later one asked to run with
    the highest priority. *)
Definition mixed_timers : TimerQueue :=
  snd (addTimer ms_clock (fun _ => []) 700 0 Highest
    (snd (addTimer ms_clock (fun _ => []) 500 0 Normal TimerQueue_new))).

(** The priority flags have no effect: [m_highestTask] and [m_lowestTask]
    are null in every reachable state, because [getExpired] fills them only
    when they are already set.  So a timer asked to run with the highest
    priority runs after an ordinary one with an earlier expiry. *)
Theorem priority_flags_ignored `{PQ : PriorityQueue Q} clock :
  (forall s fs, tq_reachable clock s fs ->
     m_highestTask s = None /\ m_lowestTask s = None) /\
  (tq_reachable ms_clock mixed_timers [] /\
   exists s', handleRead ms_clock mixed_timers = Ok s' /\ fired s' = [1; 2] /\
     map (fun t => (m_id t, m_highest t)) (elems mixed_timers) = [(1, false); (2, true)]).
Proof.
  split; [|split].
  - intros s fs Hr. apply (sys_tasks _ _ _ (reachable_inv clock s fs Hr)).
  - unfold mixed_timers. apply two_adds_reachable.
  - eexists. split; [vm_compute; reflexivity|]. by vm_compute.
Qed.

(** The timerfd is never armed with a zero time, which would disarm it:
    the [timespec] is normalised, and is the distance to the expiry in whole
    microseconds, but at least 100. *)
Theorem howMuchTimeFromNow_bounds now when sec nsec :
  howMuchTimeFromNow now when = (sec, nsec) ->
  0 <= sec /\ 0 <= nsec < 1000000000 /\
  sec * 1000000000 + nsec = 1000 * Z.max 100 (Z.quot (when - now) 1000) /\
  resetTimerfd now when = now + 1000 * Z.max 100 (Z.quot (when - now) 1000).
Proof.
  unfold resetTimerfd. intros E. rewrite E. revert E. unfold howMuchTimeFromNow.
  intros [= <- <-]. set (u := Z.quot (when - now) 1000).
  assert ((if u <? 100 then 100 else u) = Z.max 100 u) as -> by (zcase; lia).
  set (v := Z.max 100 u).
  pose proof (Z.quot_rem' v 1000000). pose proof (Z.rem_bound_pos v 1000000).
  pose proof (Z.quot_pos v 1000000). lia.
Qed.

Lemma howMuchTimeFromNow_bounds_witness :
  0 <= 2 /\ 0 <= 500000000 < 1000000000 /\
  2 * 1000000000 + 500000000 = 1000 * Z.max 100 (Z.quot (2500000999 - 0) 1000) /\
  resetTimerfd 0 2500000999 = 0 + 1000 * Z.max 100 (Z.quot (2500000999 - 0) 1000).
Proof. apply (howMuchTimeFromNow_bounds 0 2500000999). reflexivity. Defined.

(** The two branches of the source agree: a round of [processTimers], for
    systems without timerfd, does to the queue, the valid ids and the callbacks
    exactly what a round of [handleRead] does. *)
Theorem processTimers_handleRead `{PQ : PriorityQueue Q} clock s :
  processTimers (now clock s) (portable s) =
    match handleRead clock s with Ok s' => Ok (portable s') | Fail e => Fail e end.
Proof.
  unfold processTimers, handleRead, getExpired.
  change (portable s) with (portable (set_reading s)).
  rewrite portable_getExpired. cbn [portable m_timers set_reading].
  destruct (getExpired_loop _ _ _ _) as [[s1 l]|e]; [|done]. cbn [mbind res_bind].
  rewrite portable_reset. set (s2 := set_calling s1 true).
  set (s3 := runTask clock (m_lowestTask (fold_left (runIfActive clock) l
               (runTask clock (m_highestTask s2) s2)))
               (fold_left (runIfActive clock) l (runTask clock (m_highestTask s2) s2))).
  assert (runTask_portable (m_lowestTask (fold_left runIfActive_portable l
             (runTask_portable (m_highestTask s2) (portable s2))))
            (fold_left runIfActive_portable l
               (runTask_portable (m_highestTask s2) (portable s2))) = portable s3) as Es.
  { unfold s3. rewrite portable_runTask, (portable_fold _ _ (portable_runIfActive clock)),
      portable_runTask. f_equal. rewrite <- portable_runTask with (clock := clock).
    by rewrite <- (portable_fold _ _ (portable_runIfActive clock)). }
  change (set_calling (portable s1) true) with (portable s2).
  cbn [portable m_highestTask] in Es |- *. rewrite Es. reflexivity.
Qed.
