(* ===== verification/Double.v ===== *)
(** * Doubles and floats

    The arithmetic of [double] and [float] that the code uses, as the IEEE 754
    specification of the standard library computes it ([SpecFloat], with 53 and
    24 bits and round to nearest even), and what is needed of it: conversions of
    integers below 2^53 (2^24) are exact, and a conversion of a larger one, a
    product or a quotient is within one unit in the last place, and exact where
    it can be.

    Positions are kept as integers: a finite number is [m * 2^e], and
    statements about it are scaled by powers of two. *)

From Stdlib Require Import SpecFloat.
From S2P Require Import Prelude.

Definition double := spec_float.

Definition d_of_Z (z : Z) : double := binary_normalize 53 1024 z 0 false.
Definition d_mul (x y : double) : double := SFmul 53 1024 x y.
Definition d_div (x y : double) : double := SFdiv 53 1024 x y.

Definition float := spec_float.

Definition f_of_Z (z : Z) : float := binary_normalize 24 128 z 0 false.
Definition f_div (x y : float) : float := SFdiv 24 128 x y.

(** [1.0F] *)
Definition f_one : float := S754_finite false 8388608 (-23).

(** The integer part, towards zero; nothing for infinities and NaN. *)
Definition d_trunc (x : double) : option Z :=
  match x with
  | S754_zero _ => Some 0
  | S754_finite s m e =>
      let v := if 0 <=? e then Z.pos m * 2 ^ e else Z.pos m / 2 ^ (- e) in
      Some (if s then - v else v)
  | _ => None
  end.

(** ** Digits *)

Lemma digits2_bounds p : 2 ^ (Z.pos (digits2_pos p) - 1) <= Z.pos p < 2 ^ Z.pos (digits2_pos p).
Proof.
  induction p as [p IH|p IH|]; cbn [digits2_pos]; [| |cbn; lia].
  all: rewrite Pos2Z.inj_succ; replace (Z.succ (Z.pos (digits2_pos p)) - 1) with (Z.pos (digits2_pos p)) by lia.
  all: rewrite Z.pow_succ_r by lia; replace (2 ^ Z.pos (digits2_pos p)) with (2 * 2 ^ (Z.pos (digits2_pos p) - 1)) in *
    by (rewrite <- Z.pow_succ_r by lia; f_equal; lia); lia.
Qed.

Lemma digits2_unique p n : 0 < n -> 2 ^ (n - 1) <= Z.pos p < 2 ^ n -> Z.pos (digits2_pos p) = n.
Proof.
  intros Hn H. pose proof (digits2_bounds p) as Hd.
  assert (n - 1 < Z.pos (digits2_pos p)) by (apply (Z.pow_lt_mono_r_iff 2); lia).
  assert (Z.pos (digits2_pos p) - 1 < n) by (apply (Z.pow_lt_mono_r_iff 2); lia). lia.
Qed.

(** ** Shifting right *)

Lemma shr_1_spec r : 0 <= shr_m r ->
  shr_m (shr_1 r) = shr_m r / 2 /\
  (shr_m r mod 2 = 0 -> shr_r r = false -> shr_s r = false -> shr_r (shr_1 r) = false /\ shr_s (shr_1 r) = false).
Proof.
  destruct r as [m r s]; cbn [shr_m shr_r shr_s]. intros Hm.
  destruct m as [|[p|p|]|p]; [| | | |lia]; cbn [shr_1 shr_m shr_r shr_s].
  - split; [done|]. by intros _ -> ->.
  - split; [rewrite Pos2Z.inj_xI, Z.add_comm, Z.mul_comm, Z.div_add by lia; done|].
    rewrite Pos2Z.inj_xI, Z.add_comm, Z.mul_comm, Z.mod_add by lia. done.
  - split; [rewrite Pos2Z.inj_xO, Z.mul_comm, Z.div_mul by lia; done|]. by intros _ -> ->.
  - done.
Qed.

Fixpoint shr_n (n : nat) (r : shr_record) : shr_record :=
  match n with O => r | S n => shr_n n (shr_1 r) end.

Lemma shr_n_add n k r : shr_n (n + k) r = shr_n k (shr_n n r).
Proof. revert r. induction n as [|n IH]; intros r; [done|]. cbn. apply IH. Qed.

Lemma iter_shr p r : SpecFloat.iter_pos shr_1 p r = shr_n (Pos.to_nat p) r.
Proof.
  revert r. induction p as [p IH|p IH|]; intros r; cbn [SpecFloat.iter_pos]; [| |done]; rewrite !IH, <- shr_n_add.
  - rewrite Pos2Nat.inj_xI. replace (S (2 * Pos.to_nat p)) with (S (Pos.to_nat p + Pos.to_nat p)) by lia. done.
  - rewrite Pos2Nat.inj_xO. f_equal. lia.
Qed.

Lemma shr_n_spec n r :
  0 <= shr_m r ->
  shr_m (shr_n n r) = shr_m r / 2 ^ Z.of_nat n /\
  (shr_m r mod 2 ^ Z.of_nat n = 0 -> shr_r r = false -> shr_s r = false ->
     shr_r (shr_n n r) = false /\ shr_s (shr_n n r) = false).
Proof.
  revert r. induction n as [|n IH]; intros r Hr; cbn [shr_n].
  { rewrite Z.pow_0_r, Z.div_1_r. done. }
  destruct (shr_1_spec r Hr) as [H1 H2].
  assert (0 <= shr_m (shr_1 r)) as Hr1 by (rewrite H1; apply Z.div_pos; lia).
  destruct (IH _ Hr1) as [H3 H4]. rewrite Nat2Z.inj_succ, Z.pow_succ_r by lia.
  assert (0 < 2 ^ Z.of_nat n) by (apply Z.pow_pos_nonneg; lia). split.
  - rewrite H3, H1, Z.div_div by lia. done.
  - intros Hm Hf Hs. rewrite Z.rem_mul_r in Hm by lia.
    pose proof (Z.mod_pos_bound (shr_m r) 2). pose proof (Z.mod_pos_bound (shr_m r / 2) (2 ^ Z.of_nat n)).
    destruct H2 as [H2 H2']; [lia|done|done|]. apply H4; [rewrite H1; lia|done|done].
Qed.

(** ** Rounding *)

Lemma shr_record_m m l : shr_m (shr_record_of_loc m l) = m.
Proof. by destruct l as [|[]]. Qed.

Lemma round_even_cases m l : round_nearest_even m l = m \/ round_nearest_even m l = m + 1.
Proof. destruct l as [|[]]; cbn; auto. destruct (Z.even m); auto. Qed.

Lemma iter_xO p d : Z.pos (Pos.iter xO p d) = Z.pos p * 2 ^ Z.pos d.
Proof.
  revert p. induction d as [|d IH] using Pos.peano_ind; intros p; [cbn; lia|].
  rewrite Pos.iter_succ, Pos2Z.inj_xO, IH, Pos2Z.inj_succ, Z.pow_succ_r by lia. lia.
Qed.

(** A format with [prec] bits: [m' * 2^n] for the integer [m].  The distance is
    at most [u], one unit in the last place, and none when [m] can be written
    with [prec] bits. *)
Record rounds (prec m : Z) (exact : Prop) (m' n : Z) : Prop := {
  rd_n : 0 <= n;
  rd_size : 2 ^ (prec - 1) <= m' < 2 ^ prec;
  rd_error : exists u, 0 < u /\ 2 ^ (prec - 1) * u <= m /\ - u <= m' * 2 ^ n - m <= u;
  rd_exact : exact -> m' * 2 ^ n = m
}.

Section format.
Context (prec emax : Z) (Hprec : 1 < prec).

Lemma shr_fexp_spec p e l :
  let n := Z.pos (digits2_pos p) - prec in
  0 <= n -> 3 - emax - prec <= n + e ->
  shr_fexp prec emax (Z.pos p) e l = (shr_n (Z.to_nat n) (shr_record_of_loc (Z.pos p) l), e + n).
Proof.
  intros n Hn He. unfold shr_fexp, fexp, emin. cbn [Zdigits2].
  replace (Z.max (Z.pos (digits2_pos p) + e - prec) (3 - emax - prec) - e) with n by lia.
  unfold shr. destruct n as [|q|q]; [by rewrite Z.add_0_r| |lia]. by rewrite iter_shr, Z2Nat.inj_pos.
Qed.

Definition fits (p : positive) (l : location) : Prop :=
  l = loc_Exact /\ Z.pos p mod 2 ^ (Z.pos (digits2_pos p) - prec) = 0.

Lemma prec_halves : 2 ^ prec = 2 * 2 ^ (prec - 1) /\ 0 < 2 ^ (prec - 1).
Proof.
  split; [|apply Z.pow_pos_nonneg; lia]. rewrite <- Z.pow_succ_r by lia. f_equal. lia.
Qed.

(** The second rounding of [binary_round_aux], for what the first one left. *)
Lemma round_again s k e :
  2 ^ (prec - 1) <= Z.pos k <= 2 ^ prec -> 3 - emax - prec <= e -> e < emax - prec ->
  exists m' c, 0 <= c <= 1 /\ Z.pos m' * 2 ^ c = Z.pos k /\ 2 ^ (prec - 1) <= Z.pos m' < 2 ^ prec /\
    (let '(mrs, e') := shr_fexp prec emax (Z.pos k) e loc_Exact in
     match shr_m mrs with
     | Z0 => S754_zero s
     | Zpos m => if e' <=? emax - prec then S754_finite s m e' else S754_infinity s
     | Zneg _ => S754_nan
     end) = S754_finite s m' (e + c).
Proof.
  intros Hk He He'. destruct prec_halves as [Hh Hp]. destruct (decide (Z.pos k = 2 ^ prec)) as [Hc|Hc].
  - assert (Z.pos (digits2_pos k) = prec + 1) as Hd.
    { apply digits2_unique; [lia|]. replace (prec + 1 - 1) with prec by lia. rewrite Z.pow_add_r by lia. lia. }
    rewrite shr_fexp_spec by (rewrite Hd; lia). rewrite Hd. replace (prec + 1 - prec) with 1 by lia.
    destruct (shr_n_spec (Z.to_nat 1) (shr_record_of_loc (Z.pos k) loc_Exact)) as [H1 _]; [by rewrite shr_record_m|].
    rewrite shr_record_m in H1. change (2 ^ Z.of_nat (Z.to_nat 1)) with 2 in H1.
    assert (Z.pos k / 2 = 2 ^ (prec - 1)) as Hk2 by (rewrite Hc, Hh, Z.mul_comm; apply Z.div_mul; lia). rewrite Hk2 in H1.
    cbv beta iota. destruct (shr_m (shr_n _ _)) as [|m'|m']; [lia| |lia]. rewrite (proj2 (Z.leb_le _ _)) by lia.
    exists m', 1. change (2 ^ 1) with 2. split_and!; try done; lia.
  - assert (Z.pos (digits2_pos k) = prec) as Hd by (apply digits2_unique; lia).
    rewrite shr_fexp_spec by (rewrite Hd; lia). rewrite Hd, Z.sub_diag. cbn [Z.to_nat shr_n shr_record_of_loc shr_m].
    rewrite (proj2 (Z.leb_le _ _)) by lia. exists k, 0. change (2 ^ 0) with 1. rewrite Z.add_0_r. split_and!; try done; try lia.
Qed.

Lemma round_aux_spec s p e l :
  2 ^ (prec - 1) <= Z.pos p -> 3 - emax - prec <= Z.pos (digits2_pos p) - prec + e -> Z.pos (digits2_pos p) + e < emax ->
  exists m' n, binary_round_aux prec emax s (Z.pos p) e l = S754_finite s m' (e + n) /\
    rounds prec (Z.pos p) (fits p l) (Z.pos m') n /\ n <= Z.pos (digits2_pos p) - prec + 1.
Proof.
  intros Hp He He'. set (D := Z.pos (digits2_pos p)) in *. pose proof (digits2_bounds p) as Hd. fold D in Hd.
  destruct prec_halves as [Hh Hpp].
  assert (prec <= D) as HD by (enough (prec - 1 < D) by lia; apply (Z.pow_lt_mono_r_iff 2); lia).
  unfold binary_round_aux. rewrite shr_fexp_spec by (fold D; lia). fold D.
  set (r := shr_n (Z.to_nat (D - prec)) (shr_record_of_loc (Z.pos p) l)).
  destruct (shr_n_spec (Z.to_nat (D - prec)) (shr_record_of_loc (Z.pos p) l)) as [H1 H2]; [by rewrite shr_record_m|].
  fold r in H1, H2. rewrite shr_record_m, Z2Nat.id in H1, H2 by lia.
  set (U := 2 ^ (D - prec)) in *. assert (0 < U) as HU by (apply Z.pow_pos_nonneg; lia).
  assert (2 ^ D = 2 ^ prec * U /\ 2 ^ (D - 1) = 2 ^ (prec - 1) * U) as [E1 E2].
  { unfold U. rewrite <- !Z.pow_add_r by lia. split; f_equal; lia. }
  rewrite E1, E2 in Hd.
  set (fl := shr_m r) in *. assert (2 ^ (prec - 1) <= fl < 2 ^ prec /\ fl * U <= Z.pos p < (fl + 1) * U) as [Hfl Hq].
  { pose proof (Z.div_mod (Z.pos p) U ltac:(lia)) as Hdm. pose proof (Z.mod_pos_bound (Z.pos p) U HU).
    rewrite <- H1 in Hdm. split; [|nia]. nia. }
  set (k := round_nearest_even fl (loc_of_shr_record r)).
  assert (k = fl \/ k = fl + 1) as Hk by apply round_even_cases.
  assert (fits p l -> k * U = Z.pos p) as Hex.
  { intros [-> Hm]. fold D U in Hm. destruct H2 as [Hr Hs]; [done|done|done|]. unfold k.
    destruct r as [rm rr rs]. cbn in Hr, Hs, fl. subst rr rs. cbn.
    rewrite H1. pose proof (Z.div_mod (Z.pos p) U ltac:(lia)). nia. }
  assert (2 ^ (prec - 1) <= k <= 2 ^ prec) as Hkb by lia. destruct k as [|kp|kp] eqn:Ek; [lia| |lia].
  destruct (round_again s kp (e + (D - prec)) Hkb ltac:(lia) ltac:(lia)) as (m' & c & Hc & Hm' & Hb & E).
  exists m', (D - prec + c). split; [rewrite E; f_equal; lia|]. split; [|lia].
  assert (Z.pos m' * 2 ^ (D - prec + c) = Z.pos kp * U) as EU.
  { rewrite (Z.add_comm (D - prec)), Z.pow_add_r by lia. fold U. rewrite <- Hm'. lia. }
  constructor; rewrite ?EU; [lia|done| |done].
  exists U. split; [done|]. split; [lia|]. nia.
Qed.

(** The value for [p] below [2^prec]: [p] itself, with [prec] bits. *)
Lemma round_int_spec s p :
  Z.pos p < 2 ^ prec -> prec < emax ->
  exists m k, 0 <= k < prec /\ Z.pos m = Z.pos p * 2 ^ k /\ 2 ^ (prec - 1) <= Z.pos m < 2 ^ prec /\
    binary_round prec emax s p 0 = S754_finite s m (- k).
Proof.
  intros Hp Hpe. pose proof (digits2_bounds p) as Hd. set (D := Z.pos (digits2_pos p)) in *.
  assert (1 <= D <= prec) as HD.
  { split; [unfold D; lia|]. enough (D - 1 < prec) by lia. apply (Z.pow_lt_mono_r_iff 2); lia. }
  unfold binary_round. fold D.
  assert (exists m, shl_align p 0 (fexp prec emax (D + 0)) = (m, D - prec) /\ Z.pos m = Z.pos p * 2 ^ (prec - D)) as (m & -> & Em).
  { replace (fexp prec emax (D + 0)) with (D - prec) by (unfold fexp, emin; lia). unfold shl_align.
    rewrite Z.sub_0_r. destruct (D - prec) as [|q|q] eqn:E; [|lia|].
    - exists p. split; [done|]. replace (prec - D) with 0 by lia. lia.
    - eexists. split; [reflexivity|]. rewrite iter_xO. do 2 f_equal. lia. }
  assert (2 ^ (prec - 1) <= Z.pos m < 2 ^ prec) as Hm.
  { rewrite Em. assert (0 < 2 ^ (prec - D)) by (apply Z.pow_pos_nonneg; lia).
    assert (2 ^ (prec - 1) = 2 ^ (D - 1) * 2 ^ (prec - D) /\ 2 ^ prec = 2 ^ D * 2 ^ (prec - D)) as [-> ->]
      by (rewrite <- !Z.pow_add_r by lia; split; f_equal; lia). nia. }
  assert (Z.pos (digits2_pos m) = prec) as Hdm by (apply digits2_unique; lia).
  destruct (round_aux_spec s m (D - prec) loc_Exact) as (m' & n & -> & [Hn Hs _ Hx] & _); [lia|lia|lia|].
  assert (Z.pos m' * 2 ^ n = Z.pos m) as E'.
  { apply Hx; split; [done|]. rewrite Hdm, Z.sub_diag. apply Z.mod_1_r. }
  assert (n = 0) as ->.
  { destruct (decide (n = 0)) as [|Hne]; [done|]. assert (2 ^ 1 <= 2 ^ n) by (apply Z.pow_le_mono_r; lia).
    destruct prec_halves. nia. }
  rewrite Z.mul_1_r in E'. apply Pos2Z.inj in E' as ->. exists m, (prec - D). split_and!; try lia. f_equal. lia.
Qed.

(** The value for a larger [p]: within one unit in the last place. *)
Lemma round_large_spec s p :
  2 ^ prec <= Z.pos p -> Z.pos (digits2_pos p) < emax ->
  exists m n, binary_round prec emax s p 0 = S754_finite s m n /\
    rounds prec (Z.pos p) (fits p loc_Exact) (Z.pos m) n /\ n <= Z.pos (digits2_pos p) - prec + 1.
Proof.
  intros Hp HD. pose proof (digits2_bounds p) as Hd. destruct prec_halves as [Hh Hpp].
  assert (prec < Z.pos (digits2_pos p)) as HDp by (apply (Z.pow_lt_mono_r_iff 2); lia).
  unfold binary_round. replace (shl_align p 0 _) with (p, 0); swap 1 2.
  { replace (fexp prec emax (Z.pos (digits2_pos p) + 0)) with (Z.pos (digits2_pos p) - prec) by (unfold fexp, emin; lia).
    unfold shl_align. rewrite Z.sub_0_r. destruct (Z.pos (digits2_pos p) - prec) eqn:E; [lia|done|lia]. }
  destruct (round_aux_spec s p 0 loc_Exact) as (m & n & -> & H & Hn); [lia|lia|lia|].
  exists m, n. by rewrite Z.add_0_l.
Qed.
End format.

(** ** Conversion *)

(** The double for [p] below 2^53: [p] itself, with 53 bits. *)
Lemma binary_round_int s p :
  Z.pos p < 2 ^ 53 ->
  exists m k, 0 <= k <= 52 /\ Z.pos m = Z.pos p * 2 ^ k /\ 2 ^ 52 <= Z.pos m < 2 ^ 53 /\
    binary_round 53 1024 s p 0 = S754_finite s m (- k).
Proof.
  intros Hp. destruct (round_int_spec 53 1024 ltac:(lia) s p Hp ltac:(lia)) as (m & k & Hk & Hm & Hb & E).
  exists m, k. split_and!; try done; try lia; apply Hb.
Qed.

(** The sign that a conversion gives. *)
Definition signed (s : bool) (z : Z) : Z := if s then - z else z.

Lemma d_of_Z_signed s p : d_of_Z (signed s (Z.pos p)) = binary_round 53 1024 s p 0.
Proof. by destruct s. Qed.

Lemma d_trunc_int s p : Z.pos p < 2 ^ 53 -> d_trunc (d_of_Z (signed s (Z.pos p))) = Some (signed s (Z.pos p)).
Proof.
  intros Hp. rewrite d_of_Z_signed. destruct (binary_round_int s p Hp) as (m & k & Hk & Em & _ & ->).
  cbn [d_trunc]. unfold signed. destruct (Z.leb_spec 0 (- k)).
  - replace k with 0 in * by lia. rewrite Em. by rewrite !Z.mul_1_r.
  - rewrite Z.opp_involutive, Em, Z.div_mul; [done|]. apply Z.pow_nonzero; lia.
Qed.

(** ** Products and quotients *)

Lemma d_mul_spec s s' m m' e e' :
  2 ^ 52 <= Z.pos m < 2 ^ 53 -> 2 ^ 52 <= Z.pos m' < 2 ^ 53 -> -1000 <= e + e' <= 800 ->
  exists r n, d_mul (S754_finite s m e) (S754_finite s' m' e') = S754_finite (xorb s s') r (e + e' + n) /\
    rounds 53 (Z.pos m * Z.pos m') (2 ^ 53 | Z.pos m * Z.pos m') (Z.pos r) n.
Proof.
  intros Hm Hm' He. cbn [d_mul SFmul]. pose proof (digits2_bounds (m * m')) as Hd.
  assert (Z.pos (m * m') = Z.pos m * Z.pos m') as Ep by lia.
  assert (2 ^ 104 <= Z.pos (m * m') < 2 ^ 106) as Hp.
  { rewrite Ep. change (2 ^ 104) with (2 ^ 52 * 2 ^ 52). change (2 ^ 106) with (2 ^ 53 * 2 ^ 53). nia. }
  set (D := Z.pos (digits2_pos (m * m'))) in *.
  assert (104 < D) by (apply (Z.pow_lt_mono_r_iff 2); lia).
  assert (D - 1 < 106) by (apply (Z.pow_lt_mono_r_iff 2); lia).
  destruct (round_aux_spec 53 1024 ltac:(lia) (xorb s s') (m * m') (e + e') loc_Exact) as (r & n & E & [H1 H2 H3 H4] & _);
    [lia|fold D; lia|fold D; lia|].
  exists r, n. split; [exact E|]. rewrite Ep in *. constructor; [done|done|done|].
  intros Hdiv. apply H4. split; [done|]. fold D. rewrite Ep.
  apply Z.mod_divide; [apply Z.pow_nonzero; lia|]. eapply Z.divide_trans; [|exact Hdiv].
  exists (2 ^ (106 - D)). rewrite <- Z.pow_add_r by lia. f_equal. lia.
Qed.

Lemma d_div_spec s s' m m' e e' :
  2 ^ 52 <= Z.pos m < 2 ^ 53 -> 2 ^ 52 <= Z.pos m' < 2 ^ 53 -> -900 <= e - e' <= 800 ->
  exists r n q, d_div (S754_finite s m e) (S754_finite s' m' e') = S754_finite (xorb s s') r (e - e' - 53 + n) /\
    rounds 53 q False (Z.pos r) n /\ q * Z.pos m' <= Z.pos m * 2 ^ 53 < (q + 1) * Z.pos m'.
Proof.
  intros Hm Hm' He. cbn [d_div SFdiv]. unfold SFdiv_core_binary. cbn [Zdigits2].
  rewrite (digits2_unique m 53), (digits2_unique m' 53) by lia.
  replace (Z.min (fexp 53 1024 (53 + e - (53 + e'))) (e - e')) with (e - e' - 53) by (unfold fexp, emin; lia).
  replace (e - e' - (e - e' - 53)) with 53 by lia. cbn [Z.shiftl]. change (Z.pos (Pos.iter xO m 53)) with (Z.shiftl (Z.pos m) 53).
  rewrite Z.shiftl_mul_pow2 by lia.
  pose proof (Z.div_eucl_eq (Z.pos m * 2 ^ 53) (Z.pos m') ltac:(lia)) as Hq.
  pose proof (Z.mod_pos_bound (Z.pos m * 2 ^ 53) (Z.pos m') ltac:(lia)) as Hr. unfold Z.modulo in Hr.
  destruct (Z.div_eucl (Z.pos m * 2 ^ 53) (Z.pos m')) as [q r].
  assert (2 ^ 52 <= q < 2 ^ 54) as Hqb.
  { split; [|change (2 ^ 54) with (2 * 2 ^ 53); nia].
    destruct (decide (2 ^ 52 <= q)); [done|exfalso]. assert (q + 1 <= 2 ^ 52) by lia.
    assert ((q + 1) * Z.pos m' <= 2 ^ 52 * Z.pos m') by nia. change (2 ^ 53) with (2 * 2 ^ 52) in Hq. nia. }
  destruct q as [|q|q]; [lia| |lia]. pose proof (digits2_bounds q) as Hd. set (D := Z.pos (digits2_pos q)) in *.
  assert (52 < D) by (apply (Z.pow_lt_mono_r_iff 2); lia).
  assert (D - 1 < 54) by (apply (Z.pow_lt_mono_r_iff 2); lia).
  destruct (round_aux_spec 53 1024 ltac:(lia) (xorb s s') q (e - e' - 53) (new_location (Z.pos m') r)) as (r' & n & E & [H1 H2 H3 _] & _);
    [lia|fold D; lia|fold D; lia|].
  exists r', n, (Z.pos q). split; [exact E|]. split; [by constructor|]. nia.
Qed.

(** The integer part, scaled. *)
Lemma d_trunc_scaled s m n K :
  0 <= n -> 0 <= K -> d_trunc (S754_finite s m (n - K)) = Some (signed s (Z.pos m * 2 ^ n / 2 ^ K)).
Proof.
  intros Hn HK. cbn [d_trunc]. unfold signed.
  assert ((if 0 <=? n - K then Z.pos m * 2 ^ (n - K) else Z.pos m / 2 ^ (- (n - K))) = Z.pos m * 2 ^ n / 2 ^ K) as ->; [|done].
  destruct (Z.leb_spec 0 (n - K)).
  - replace (2 ^ n) with (2 ^ (n - K) * 2 ^ K) by (rewrite <- Z.pow_add_r by lia; f_equal; lia).
    rewrite Z.mul_assoc, Z.div_mul; [done|]. apply Z.pow_nonzero; lia.
  - replace (2 ^ K) with (2 ^ n * 2 ^ (- (n - K))) by (rewrite <- Z.pow_add_r by lia; f_equal; lia).
    rewrite (Z.mul_comm (Z.pos m)), Z.div_mul_cancel_l; [done|apply Z.pow_nonzero; lia..].
Qed.

(** ** Floats *)

(** A cast to [size_t]; one that does not fit is undefined. *)
Definition f_to_size (x : float) : res Z :=
  match d_trunc x with
  | Some v => if (0 <=? v) && (v <? size_max) then Ok v else Fail PreconditionViolated
  | None => Fail PreconditionViolated
  end.

(** Division by [1.0F] changes nothing. *)
Lemma f_div_one s m e :
  2 ^ 23 <= Z.pos m < 2 ^ 24 -> -100 <= e <= 100 -> f_div (S754_finite s m e) f_one = S754_finite s m e.
Proof.
  intros Hm He. cbn [f_div f_one SFdiv]. unfold SFdiv_core_binary. cbn [Zdigits2].
  rewrite (digits2_unique m 24) by lia. change (Z.pos (digits2_pos 8388608)) with 24.
  replace (Z.min (fexp 24 128 (24 + e - (24 + -23))) (e - -23)) with (e - 1) by (unfold fexp, emin; lia).
  replace (e - -23 - (e - 1)) with 24 by lia.
  rewrite Z.shiftl_mul_pow2 by lia.
  replace (Z.pos m * 2 ^ 24) with (2 * Z.pos m * 8388608) by lia.
  assert (Z.div_eucl (2 * Z.pos m * 8388608) 8388608 = (2 * Z.pos m, 0)) as ->.
  { pose proof (Z.div_mul (2 * Z.pos m) 8388608 ltac:(lia)) as E1. pose proof (Z.mod_mul (2 * Z.pos m) 8388608 ltac:(lia)) as E2.
    unfold Z.div, Z.modulo in E1, E2. destruct (Z.div_eucl _ _). congruence. }
  change (new_location 8388608 0) with loc_Exact. rewrite xorb_false_r.
  change (2 * Z.pos m) with (Z.pos m~0). assert (Z.pos (digits2_pos m~0) = 25) as Hd by (apply digits2_unique; lia).
  destruct (round_aux_spec 24 128 ltac:(lia) s m~0 (e - 1) loc_Exact) as (m' & n & -> & [Hn Hs _ Hx] & Hb); [lia|lia|lia|].
  assert (Z.pos m' * 2 ^ n = Z.pos m~0) as E by (apply Hx; split; [done|]; rewrite Hd; rewrite Pos2Z.inj_xO, Z.mul_comm; by apply Z.mod_mul).
  rewrite Hd in Hb. change (24 - 1) with 23 in Hs. assert (n = 0 \/ n = 1 \/ n = 2) as [-> | [-> | ->]] by lia.
  - change (2 ^ 0) with 1 in E. lia.
  - change (2 ^ 1) with 2 in E. f_equal; lia.
  - change (2 ^ 2) with 4 in E. lia.
Qed.

(** A number of seconds, divided by [1.0F] and cast back: exact up to 2^24,
    else within one unit in the last of 24 bits. *)
Lemma f_seconds z :
  0 < z < 2 ^ 63 ->
  exists v, f_to_size (f_div (f_of_Z z) f_one) = Ok v /\ 0 < v /\ (z <= 2 ^ 24 -> v = z) /\
    - z <= 2 ^ 23 * (v - z) <= z.
Proof.
  intros [Hz Hz']. destruct z as [|p|p]; [lia| |lia]. change (f_of_Z (Z.pos p)) with (binary_round 24 128 false p 0).
  destruct (Z.lt_ge_cases (Z.pos p) (2 ^ 24)) as [Hlt|Hge].
  - destruct (round_int_spec 24 128 ltac:(lia) false p Hlt ltac:(lia)) as (m & k & Hk & Em & Hm & ->).
    rewrite f_div_one by (first [exact Hm|lia]). unfold f_to_size.
    rewrite <- (Z.sub_0_l k), (d_trunc_scaled false m 0 k), Z.pow_0_r, Z.mul_1_r, Em, Z.div_mul by (first [lia|apply Z.pow_nonzero; lia]).
    cbn [signed]. unfold size_max. rewrite (proj2 (Z.ltb_lt (Z.pos p) _)) by lia. exists (Z.pos p). split_and!; try done; lia.
  - pose proof (digits2_bounds p) as Hd. assert (Z.pos (digits2_pos p) - 1 < 63) by (apply (Z.pow_lt_mono_r_iff 2); lia).
    destruct (round_large_spec 24 128 ltac:(lia) false p Hge ltac:(lia)) as (m & n & -> & [Hn Hm (u & Hu & Hup & Hmu) Hx] & Hb).
    rewrite f_div_one by (first [exact Hm|lia]). unfold f_to_size.
    rewrite <- (Z.sub_0_r n), (d_trunc_scaled false m n 0), Z.pow_0_r, Z.div_1_r by lia. cbn [signed].
    change (24 - 1) with 23 in Hup. exists (Z.pos m * 2 ^ n).
    assert (0 < Z.pos m * 2 ^ n < size_max) by (unfold size_max; nia).
    rewrite (proj2 (Z.leb_le 0 _)), (proj2 (Z.ltb_lt _ _)) by lia. split_and!; try done; try lia; [|nia..].
    intros Hle. apply Hx. split; [done|]. assert (Z.pos p = 2 ^ 24) as E by lia.
    assert (Z.pos (digits2_pos p) = 25) as -> by (apply digits2_unique; lia). by rewrite E.
Qed.

(** The least number of seconds that a [float] changes. *)
Example f_seconds_rounded : f_to_size (f_div (f_of_Z 16777217) f_one) = Ok 16777216.
Proof. vm_compute. reflexivity. Qed.
