(* ===== verification/Timestamp.v ===== *)
(** * Time stamps and the timers of a loop: [netpoll/util/time_stamp.{h,cc}],
      [EventLoop::runAt], [runAfter], [runEvery] of [netpoll/net/eventloop.cc]

    A [Timestamp] is a signed 64-bit count of microseconds; its difference and
    its sum with seconds go through [double] ([Double.v]).  The loop's timer
    calls turn time stamps and seconds into time points of the steady clock
    for [TimerQueue::addTimer].

    - [gettimeofday], the steady clock and [localtime_r] are parameters.
    - Signed overflow, and a [double] that does not fit [int64_t], are faults. *)

From Stdlib Require Import SpecFloat DecimalN Strings.Byte.
From S2P Require Import Prelude Double TimerQueue.

(** ** [Timestamp] *)

Inductive Time := Seconds | Milliseconds | Microseconds.

Definition kMillisecondsPerSecond : Z := 1000.
Definition kMicroSecondsPerSecond : Z := kMillisecondsPerSecond * 1000.

Record Timestamp := mkTimestamp { m_microSecondsSinceEpoch : Z }.

Definition ts_lt (lhs rhs : Timestamp) : bool := m_microSecondsSinceEpoch lhs <? m_microSecondsSinceEpoch rhs.
Definition ts_gt (lhs rhs : Timestamp) : bool := m_microSecondsSinceEpoch rhs <? m_microSecondsSinceEpoch lhs.
Definition ts_eq (lhs rhs : Timestamp) : bool := m_microSecondsSinceEpoch lhs =? m_microSecondsSinceEpoch rhs.
Definition ts_valid (t : Timestamp) : bool := 0 <? m_microSecondsSinceEpoch t.

(** [Timestamp::swap]: the two objects afterwards. *)
Definition ts_swap (this other : Timestamp) : Timestamp * Timestamp :=
  (mkTimestamp (m_microSecondsSinceEpoch other), mkTimestamp (m_microSecondsSinceEpoch this)).

(** [operator-]: seconds. *)
Definition ts_sub (high low : Timestamp) : res double :=
  diff ← int64 (m_microSecondsSinceEpoch high - m_microSecondsSinceEpoch low);
  Ok (d_div (d_of_Z diff) (d_of_Z kMicroSecondsPerSecond)).

(** [static_cast<int64_t>(seconds * kMicroSecondsPerSecond)] *)
Definition micros_of (seconds : double) : res Z :=
  match d_trunc (d_mul seconds (d_of_Z kMicroSecondsPerSecond)) with
  | Some z => int64 z
  | None => Fail SignedOverflow
  end.

(** [operator+] *)
Definition ts_add (timestamp : Timestamp) (seconds : double) : res Timestamp :=
  delta ← micros_of seconds;
  mkTimestamp <$> int64 (m_microSecondsSinceEpoch timestamp + delta).

Definition sinceEpoch (precision : Time) (t : Timestamp) : Z :=
  match precision with
  | Milliseconds => Z.quot (m_microSecondsSinceEpoch t) kMillisecondsPerSecond
  | Seconds => Z.quot (m_microSecondsSinceEpoch t) kMicroSecondsPerSecond
  | Microseconds => m_microSecondsSinceEpoch t
  end.

Definition fromSinceEpoch (precision : Time) (epoch : Z) : res Timestamp :=
  match precision with
  | Milliseconds => mkTimestamp <$> int64 (epoch * kMillisecondsPerSecond)
  | Seconds => mkTimestamp <$> int64 (epoch * kMicroSecondsPerSecond)
  | Microseconds => Ok (mkTimestamp epoch)
  end.

(** [Timestamp::now], from what [gettimeofday] stores. *)
Record timeval := mkTimeval { tv_sec : Z; tv_usec : Z }.
Definition ts_now (tv : timeval) : res Timestamp :=
  us ← int64 (tv_sec tv * kMicroSecondsPerSecond);
  mkTimestamp <$> int64 (us + tv_usec tv).

(** ** Text *)

Fixpoint uint_bytes (d : Decimal.uint) : list byte :=
  match d with
  | Decimal.Nil => []
  | Decimal.D0 d => x30 :: uint_bytes d
  | Decimal.D1 d => x31 :: uint_bytes d
  | Decimal.D2 d => x32 :: uint_bytes d
  | Decimal.D3 d => x33 :: uint_bytes d
  | Decimal.D4 d => x34 :: uint_bytes d
  | Decimal.D5 d => x35 :: uint_bytes d
  | Decimal.D6 d => x36 :: uint_bytes d
  | Decimal.D7 d => x37 :: uint_bytes d
  | Decimal.D8 d => x38 :: uint_bytes d
  | Decimal.D9 d => x39 :: uint_bytes d
  end.

Definition magnitude (z : Z) : list byte := uint_bytes (N.to_uint (Z.to_N (Z.abs z))).
Definition sign (z : Z) : list byte := if z <? 0 then [x2d] else [].

(** [std::to_string], and the conversions [%<w>d] and [%0<w>d] of [snprintf]. *)
Definition to_string (z : Z) : list byte := sign z ++ magnitude z.
Definition fmt_d (w : nat) (z : Z) : list byte :=
  let s := to_string z in replicate (w - length s) x20 ++ s.
Definition fmt_0d (w : nat) (z : Z) : list byte :=
  sign z ++ replicate (w - (length (sign z) + length (magnitude z))) x30 ++ magnitude z.

(** [snprintf] into a buffer of 64 bytes, read back as a C string. *)
Definition snprintf64 (s : list byte) : list byte := take 63 s.

Definition ts_toString (timePrecision : Time) (t : Timestamp) : list byte :=
  let k := Z.quot kMicroSecondsPerSecond kMillisecondsPerSecond in
  let milliSeconds := Z.quot (m_microSecondsSinceEpoch t) k in
  let seconds := Z.quot milliSeconds k in
  match timePrecision with
  | Microseconds => to_string (m_microSecondsSinceEpoch t)
  | Milliseconds => to_string milliSeconds
  | Seconds => to_string seconds
  end.

Record tm := mkTm {
  tm_sec : Z; tm_min : Z; tm_hour : Z; tm_mday : Z; tm_mon : Z; tm_year : Z
}.

Section format.
Context (localtime_r : Z -> tm).

Definition date_time (m : tm) : list byte :=
  fmt_d 4 (tm_year m + 1900) ++ [x2d] ++ fmt_0d 2 (tm_mon m + 1) ++ [x2d] ++ fmt_0d 2 (tm_mday m) ++ [x20] ++
  fmt_0d 2 (tm_hour m) ++ [x3a] ++ fmt_0d 2 (tm_min m) ++ [x3a] ++ fmt_0d 2 (tm_sec m).

Definition toFormatString (timePrecision : Time) (t : Timestamp) : list byte :=
  let seconds := Z.quot (m_microSecondsSinceEpoch t) kMicroSecondsPerSecond in
  let tm_time := localtime_r seconds in
  match timePrecision with
  | Microseconds =>
      let microseconds := Z.rem (m_microSecondsSinceEpoch t) kMicroSecondsPerSecond in
      snprintf64 (date_time tm_time ++ [x2e] ++ fmt_0d 6 microseconds)
  | Milliseconds =>
      let k := Z.quot kMicroSecondsPerSecond kMillisecondsPerSecond in
      let milliseconds := Z.rem (Z.quot (m_microSecondsSinceEpoch t) k) kMillisecondsPerSecond in
      snprintf64 (date_time tm_time ++ [x2e] ++ fmt_0d 3 milliseconds)
  | Seconds => snprintf64 (date_time tm_time)
  end.
End format.

(** ** Timers of the loop *)

Section loop_timers.
Context `{PQ : PriorityQueue Q} (clock : nat -> Z) (gettimeofday : nat -> timeval).

(** Wall-clock readings are counted beside the queue's steady-clock readings. *)
Definition wall_now (k : nat) : res (Timestamp * nat) :=
  t ← ts_now (gettimeofday k); Ok (t, S k).

(** [EventLoop::runAt]: the time left on the wall clock, on the steady clock. *)
Definition runAt (time : Timestamp) (cb : callback) (p : priority) (k : nat) (s : TimerQueue)
    : res (Z * TimerQueue * nat) :=
  '(wall, k) ← wall_now k;
  microSeconds ← int64 (sinceEpoch Microseconds time - sinceEpoch Microseconds wall);
  delay ← int64 (1000 * microSeconds);
  tp ← int64 (TimerQueue.now clock s + delay);
  Ok (addTimer clock cb tp 0 p (set_reading s), k).

Definition runAfter (delay : double) (cb : callback) (p : priority) (k : nat) (s : TimerQueue)
    : res (Z * TimerQueue * nat) :=
  '(wall, k) ← wall_now k;
  time ← ts_add wall delay;
  runAt time cb p k s.

Definition runEvery (interval : double) (cb : callback) (p : priority) (s : TimerQueue)
    : res (Z * TimerQueue) :=
  dur ← micros_of interval;
  ns ← int64 (1000 * dur);
  tp ← int64 (TimerQueue.now clock s + ns);
  Ok (addTimer clock cb tp dur p (set_reading s)).
End loop_timers.

(** ** Seconds *)

Lemma int64_ok z : - 2 ^ 63 <= z < 2 ^ 63 -> int64 z = Ok z.
Proof. intros H. unfold int64. by rewrite (proj2 (Z.leb_le _ _)), (proj2 (Z.ltb_lt _ _)) by lia. Qed.

Lemma double_million : d_of_Z kMicroSecondsPerSecond = S754_finite false 8589934592000000 (-33).
Proof. reflexivity. Qed.

(** The real quotient and product are off by less than one microsecond. *)
Lemma there_and_back s p :
  Z.pos p < 2 ^ 50 ->
  exists d, micros_of (d_div (d_of_Z (signed s (Z.pos p))) (d_of_Z kMicroSecondsPerSecond)) = Ok (signed s (Z.pos p - d)) /\
    (d = 0 \/ d = 1).
Proof.
  intros Hp. unfold micros_of. rewrite double_million, d_of_Z_signed.
  destruct (binary_round_int s p ltac:(lia)) as (m & k & Hk & Em & Hm & ->).
  set (M := 8589934592000000%positive). assert (2 ^ 52 <= Z.pos M < 2 ^ 53) as HM by (unfold M; lia).
  destruct (d_div_spec s false m M (- k) (-33) Hm HM ltac:(lia)) as (r & n & q & -> & [Hn Hr (u & Hu & Huq & Hru) _] & Hq).
  assert (q < 2 ^ 54) as Hq54.
  { change (2 ^ 54) with (2 * 2 ^ 53). destruct (decide (q < 2 * 2 ^ 53)); [done|]. nia. }
  assert (n <= 3) as Hn3.
  { destruct (decide (n <= 3)); [done|]. assert (2 ^ 4 <= 2 ^ n) by (apply Z.pow_le_mono_r; lia).
    assert (Z.pos r * 2 ^ n <= 2 * 2 ^ 54) by lia. change (2 ^ 4) with 16 in *. nia. }
  destruct (d_mul_spec (xorb s false) false r M (- k - -33 - 53 + n) (-33) Hr HM ltac:(lia))
    as (r' & n' & -> & [Hn' Hr' (u' & Hu' & Huq' & Hru') _]).
  replace (- k - -33 - 53 + n + -33 + n') with (n' + n - (k + 53)) by lia.
  rewrite d_trunc_scaled, Bool.xorb_false_r, Bool.xorb_false_r by lia.
  set (V := 2 ^ (k + 53)). assert (0 < V) as HV by (apply Z.pow_pos_nonneg; lia).
  assert (Z.pos m * 2 ^ 53 = Z.pos p * V) as Epv by (rewrite Em; unfold V; rewrite Z.pow_add_r by lia; lia).
  rewrite Z.pow_add_r by lia. set (P := 2 ^ n) in *. set (P' := 2 ^ n') in *.
  assert (0 < P) as HP by (apply Z.pow_pos_nonneg; lia).
  set (W := Z.pos r' * (P' * P)).
  assert (- V < W - Z.pos p * V < V) as HW.
  { set (B := Z.pos r * P). set (N := Z.pos M) in *.
    assert (- (u' * P) <= W - B * N <= u' * P) as H1 by (unfold W, B; nia).
    assert (- (u * N) <= B * N - q * N <= u * N) as H2 by (unfold B; nia).
    assert (2 ^ 52 * (u' * P) <= B * N) as H3 by (unfold B; nia).
    assert (2 ^ 52 * (u * N) <= q * N) as H4 by nia.
    assert (2 ^ 52 * N <= q * N) as H5 by nia.
    assert (Z.pos p * V <= (2 ^ 50 - 1) * V) as H6 by (apply Z.mul_le_mono_nonneg_r; lia).
    lia. }
  assert (exists d, W / V = Z.pos p - d /\ (d = 0 \/ d = 1)) as (d & -> & Hd).
  { exists (Z.pos p - W / V). split; [lia|]. assert (Z.pos p - 1 <= W / V) by (apply Z.div_le_lower_bound; lia).
    assert (W / V < Z.pos p + 1) by (apply Z.div_lt_upper_bound; lia). lia. }
  exists d. split; [|done]. apply int64_ok. unfold signed. destruct s; lia.
Qed.

Lemma whole_seconds s p : Z.pos p < 2 ^ 39 -> micros_of (d_of_Z (signed s (Z.pos p))) = Ok (signed s (Z.pos p * 1000000)).
Proof.
  intros Hp. unfold micros_of. rewrite double_million, d_of_Z_signed.
  destruct (binary_round_int s p ltac:(lia)) as (m & k & Hk & Em & Hm & ->).
  assert (14 <= k) as Hk14.
  { destruct (decide (14 <= k)); [done|]. assert (2 ^ k <= 2 ^ 13) by (apply Z.pow_le_mono_r; lia).
    change (2 ^ 52) with (2 ^ 39 * 2 ^ 13) in Hm. nia. }
  set (M := 8589934592000000%positive). assert (2 ^ 52 <= Z.pos M < 2 ^ 53) as HM by (unfold M; lia).
  destruct (d_mul_spec s false m M (- k) (-33) Hm HM ltac:(lia)) as (r & n & -> & [Hn Hr _ Hx]).
  replace (- k + -33 + n) with (n - (k + 33)) by lia. rewrite d_trunc_scaled, Bool.xorb_false_r by lia.
  assert (Z.pos m * Z.pos M = Z.pos p * 1000000 * 2 ^ (k + 33)) as Epm.
  { rewrite Em, Z.pow_add_r by lia. unfold M. lia. }
  rewrite Hx.
  - rewrite Epm, Z.div_mul by (apply Z.pow_nonzero; lia). apply int64_ok. unfold signed. destruct s; lia.
  - rewrite Epm. exists (Z.pos p * 15625 * 2 ^ (k - 14)).
    replace (2 ^ (k + 33)) with (2 ^ (k - 14) * 2 ^ 47) by (rewrite <- Z.pow_add_r by lia; f_equal; lia). lia.
Qed.

Lemma micros_of_zero : micros_of (d_of_Z 0) = Ok 0.
Proof. reflexivity. Qed.

Lemma micros_of_nonneg n : 0 <= n < 2 ^ 39 -> micros_of (d_of_Z n) = Ok (n * 1000000).
Proof.
  intros Hn. destruct n as [|p|p]; [reflexivity| |lia]. apply (whole_seconds false p). lia.
Qed.

(** ** Clock readings *)

Definition microseconds (tv : timeval) : Z := tv_sec tv * 1000000 + tv_usec tv.
Definition wf_timeval (tv : timeval) : Prop := 0 <= tv_sec tv < 2 ^ 42 /\ 0 <= tv_usec tv < 1000000.

Lemma microseconds_range tv : wf_timeval tv -> 0 <= microseconds tv < 2 ^ 62.
Proof. unfold wf_timeval, microseconds. lia. Qed.

Lemma ts_now_ok tv : wf_timeval tv -> ts_now tv = Ok (mkTimestamp (microseconds tv)).
Proof.
  intros [Hs Hu]. unfold ts_now, kMicroSecondsPerSecond, kMillisecondsPerSecond.
  rewrite int64_ok by lia. cbn [mbind res_bind]. by rewrite int64_ok by lia.
Qed.

Lemma ts_add_ok t d z :
  micros_of d = Ok z -> - 2 ^ 63 <= m_microSecondsSinceEpoch t + z < 2 ^ 63 ->
  ts_add t d = Ok (mkTimestamp (m_microSecondsSinceEpoch t + z)).
Proof. intros E H. unfold ts_add. rewrite E. cbn [mbind res_bind]. by rewrite int64_ok. Qed.

(** ** Adding a timer *)

Section adding.
Context `{PQ : PriorityQueue Q} (clock : nat -> Z).

(** [s'] is [s] with one more timer, valid under the id returned. *)
Record added (s : TimerQueue) (cb : callback) (when interval : Z) (p : priority) (id : Z) (s' : TimerQueue) : Prop := {
  ad_elems : elems s' ≡ₚ Timer_new (timersCreated s) cb when interval (flag_h p) (flag_l p) :: elems s;
  ad_id : id = timersCreated s ⊞ 1;
  ad_valid : m_timerIdSet s' = {[id]} ∪ m_timerIdSet s
}.

Lemma addTimer_added s cb when interval p id s' :
  addTimer clock cb when interval p (set_reading s) = (id, s') -> added s cb when interval p id s'.
Proof.
  unfold addTimer, createTimer. set (t := Timer_new _ _ _ _ _ _).
  pose proof (addTimerInLoop_fields clock t (set_created (set_reading s) (timersCreated (set_reading s) + 1))) as F.
  intros [= <- <-]. destruct F as (He & Hi & _). constructor; [exact He|done|exact Hi].
Qed.

Lemma runAt_added gettimeofday time cb p k s :
  wf_timeval (gettimeofday k) ->
  let left := m_microSecondsSinceEpoch time - microseconds (gettimeofday k) in
  0 <= left -> 0 <= clock (readings s) -> clock (readings s) + 1000 * left < 2 ^ 63 ->
  exists id s', runAt clock gettimeofday time cb p k s = Ok (id, s', S k) /\
    added s cb (clock (readings s) + 1000 * left) 0 p id s'.
Proof.
  intros Hw left Hl Hc Hb. unfold runAt, wall_now. rewrite ts_now_ok by done.
  cbn [mbind res_bind sinceEpoch m_microSecondsSinceEpoch]. fold left.
  rewrite int64_ok by lia. cbn [mbind res_bind]. rewrite int64_ok by lia. cbn [mbind res_bind].
  unfold TimerQueue.now. rewrite int64_ok by lia. cbn [mbind res_bind].
  destruct (addTimer _ _ _ _ _ _) as [id s'] eqn:E. exists id, s'. split; [done|]. by apply addTimer_added.
Qed.
End adding.

(** ** Claims *)

(** The difference of two time stamps, in seconds as a [double], brings one
    back to the other when it is added again, up to one microsecond towards the
    start, for differences below 2^50 microseconds (35 years).  The microsecond
    is really lost: 249 microseconds come back as 248. *)
Theorem difference_roundtrip a b :
  - 2 ^ 63 <= a < 2 ^ 63 -> - 2 ^ 63 <= b < 2 ^ 63 -> Z.abs (b - a) < 2 ^ 50 ->
  (exists d t, ts_sub (mkTimestamp b) (mkTimestamp a) = Ok d /\ ts_add (mkTimestamp a) d = Ok t /\
     (t = mkTimestamp b \/ t = mkTimestamp (b - Z.sgn (b - a)))) /\
  (b = a + 249 -> exists d, ts_sub (mkTimestamp b) (mkTimestamp a) = Ok d /\
     ts_add (mkTimestamp a) d = Ok (mkTimestamp (a + 248))).
Proof.
  intros Ha Hb Hd. unfold ts_sub. cbn [m_microSecondsSinceEpoch]. rewrite int64_ok by lia. cbn [mbind res_bind].
  split.
  - destruct (decide (b = a)) as [->|Hne].
    { eexists _, (mkTimestamp a). rewrite Z.sub_diag. split; [done|]. split; [|by left]. rewrite (ts_add_ok _ (d_div (d_of_Z 0) (d_of_Z kMicroSecondsPerSecond)) 0 eq_refl);
        cbn [m_microSecondsSinceEpoch]; [|lia]. by rewrite Z.add_0_r. }
    assert (exists s p, b - a = signed s (Z.pos p)) as (s & p & E).
    { destruct (b - a) as [|p|p] eqn:E; [lia|by exists false, p|by exists true, p]. }
    rewrite E in *. assert (Z.pos p < 2 ^ 50) as Hp by (destruct s; cbn in *; lia).
    destruct (there_and_back s p Hp) as (d & Hm & Hd01).
    eexists _, _. split; [reflexivity|]. rewrite (ts_add_ok _ _ _ Hm); cbn [m_microSecondsSinceEpoch]; [|unfold signed in *; destruct s; lia].
    split; [reflexivity|]. destruct Hd01 as [->| ->]; [left|right]; f_equal; unfold signed in *; destruct s; cbn; lia.
  - intros ->. eexists. split; [reflexivity|]. replace (a + 249 - a) with 249 by lia.
    apply (ts_add_ok (mkTimestamp a) _ 248); [reflexivity|]. cbn [m_microSecondsSinceEpoch]. lia.
Qed.

Lemma difference_roundtrip_witness :
  exists d t, ts_sub (mkTimestamp 1700000000000249) (mkTimestamp 1700000000000000) = Ok d /\
    ts_add (mkTimestamp 1700000000000000) d = Ok t /\
    (t = mkTimestamp 1700000000000249 \/ t = mkTimestamp (1700000000000249 - Z.sgn (1700000000000249 - 1700000000000000))).
Proof. apply (difference_roundtrip 1700000000000000 1700000000000249); lia. Defined.

(** C17. A delay of a whole number of seconds reaches the timer queue exactly:
    [runEvery] adds a timer that repeats every [n] seconds, first [n] seconds
    from now on the steady clock; [runAfter] adds one that runs once, [n] seconds
    from now less the time that passed between its two readings of the wall
    clock.  Both return the id under which the new timer is valid. *)
Theorem timers_at_whole_seconds `{PQ : PriorityQueue Q} clock gettimeofday n cb p k (s : TimerQueue) :
  0 < n < 2 ^ 39 -> 0 <= clock (readings s) -> clock (readings s) + n * 1000000000 < 2 ^ 63 ->
  wf_timeval (gettimeofday k) -> wf_timeval (gettimeofday (S k)) ->
  let passed := microseconds (gettimeofday (S k)) - microseconds (gettimeofday k) in
  0 <= passed <= n * 1000000 ->
  (exists id s', runEvery clock (d_of_Z n) cb p s = Ok (id, s') /\
     added s cb (clock (readings s) + n * 1000000000) (n * 1000000) p id s') /\
  (exists id s', runAfter clock gettimeofday (d_of_Z n) cb p k s = Ok (id, s', S (S k)) /\
     added s cb (clock (readings s) + n * 1000000000 - 1000 * passed) 0 p id s').
Proof.
  intros Hn Hc Hb Hw1 Hw2 passed Hp. split.
  - unfold runEvery. rewrite micros_of_nonneg by lia. cbn [mbind res_bind]. rewrite int64_ok by lia.
    cbn [mbind res_bind]. unfold TimerQueue.now. rewrite int64_ok by lia. cbn [mbind res_bind].
    destruct (addTimer _ _ _ _ _ _) as [id s'] eqn:E. exists id, s'. split; [done|].
    apply addTimer_added in E. by replace (n * 1000000000) with (1000 * (n * 1000000)) by lia.
  - unfold runAfter, wall_now. rewrite ts_now_ok by done. cbn [mbind res_bind].
    pose proof (microseconds_range _ Hw1). rewrite (ts_add_ok _ _ (n * 1000000)); [|by apply micros_of_nonneg; lia|cbn; lia].
    cbn [mbind res_bind m_microSecondsSinceEpoch].
    destruct (runAt_added clock gettimeofday (mkTimestamp (microseconds (gettimeofday k) + n * 1000000)) cb p (S k) s)
      as (id & s' & E & Ha); cbn [m_microSecondsSinceEpoch] in *; [done|lia..|].
    exists id, s'. split; [done|]. replace (_ - 1000 * passed) with
      (clock (readings s) + 1000 * (microseconds (gettimeofday k) + n * 1000000 - microseconds (gettimeofday (S k))));
      [done|]. unfold passed. lia.
Qed.

Lemma timers_at_whole_seconds_witness :
  exists id s', runEvery ms_clock (d_of_Z 5) (fun _ => []) Normal two_timers = Ok (id, s') /\
    added two_timers (fun _ => []) (ms_clock (readings two_timers) + 5 * 1000000000) (5 * 1000000) Normal id s'.
Proof.
  apply (timers_at_whole_seconds ms_clock (fun k => mkTimeval 1700000000 (Z.of_nat k)) 5 (fun _ => []) Normal 0 two_timers);
    vm_compute; repeat split; discriminate.
Defined.

(** ** Text *)

(** A time before 1970 is printed with a negative fraction. *)
Example format_before_epoch :
  toFormatString (fun _ => mkTm 0 0 0 1 0 70) Milliseconds (mkTimestamp (-1500)) =
    [x31;x39;x37;x30;x2d;x30;x31;x2d;x30;x31;x20;x30;x30;x3a;x30;x30;x3a;x30;x30;x2e;x2d;x30;x31].
Proof. reflexivity. Qed.
