(* ===== verification/MpscQueue.v ===== *)
(** * The multi-producer queue: [netpoll/util/lockfree_queue.h]

    A linked list of heap nodes between [tail_] (the consumer's end, a node
    whose datum is gone) and [head_] (the last node).  A producer allocates a
    node, exchanges it into [head_] and then links it from the previous head;
    between the last two the list is broken there.

    The atomic operations of all threads interleave (sequential consistency;
    the acquire/release orders are not modelled).  Every access to a node goes
    through the heap and faults when the node has been deleted; an address may
    be reused by the allocator.  The abstract queue keeps, per item, the
    producer that still has to link it. *)

From S2P Require Import Prelude.

Section mpsc_queue.
Context {A : Type}.

Abbreviation addr := positive.
Abbreviation pid := nat.

(** ** State *)

(** [BufferNode]; no datum for the default node and once it is moved out. *)
Record BufferNode := mkNode {
  dataPtr_ : option A;
  next_ : option addr
}.

(** Where a producer stands in [enqueue]. *)
Inductive producer :=
  | PNew (node : addr)                (* node allocated *)
  | PLink (node prevhead : addr).     (* exchanged, not yet linked *)

(** Where the consumer stands in [dequeue]. *)
Inductive consumer :=
  | CIdle
  | CLoaded (tail next : addr)        (* [next] is not null *)
  | CMoved (tail next : addr) (output : A)
  | CStored (tail : addr) (output : A).

Record MpscQueue := mkQueue {
  heap : gmap addr BufferNode;
  head_ : addr;
  tail_ : addr;
  producers : gmap pid producer;
  cons : consumer
}.

Definition set_heap (s : MpscQueue) h := mkQueue h (head_ s) (tail_ s) (producers s) (cons s).
Definition set_head (s : MpscQueue) a := mkQueue (heap s) a (tail_ s) (producers s) (cons s).
Definition set_tail (s : MpscQueue) a := mkQueue (heap s) (head_ s) a (producers s) (cons s).
Definition set_producers (s : MpscQueue) ps := mkQueue (heap s) (head_ s) (tail_ s) ps (cons s).
Definition set_cons (s : MpscQueue) c := mkQueue (heap s) (head_ s) (tail_ s) (producers s) c.

(** [MpscQueue::MpscQueue]; [a] is the address of the default node. *)
Definition MpscQueue_new (a : addr) : MpscQueue :=
  mkQueue {[a := mkNode None None]} a a ∅ CIdle.

(** Access to a node. *)
Definition deref (s : MpscQueue) (a : addr) : res BufferNode :=
  match heap s !! a with Some n => Ok n | None => Fail UseAfterFree end.

(** ** [enqueue], one definition per atomic step *)

(** [new BufferNode(input)]: the allocator returns an address not in use. *)
Definition enqueue_new (p : pid) (input : A) (a : addr) (s : MpscQueue) : MpscQueue :=
  set_producers (set_heap s (<[a := mkNode (Some input) None]> (heap s)))
    (<[p := PNew a]> (producers s)).

(** [prevhead = head_.exchange(node)] *)
Definition enqueue_exchange (p : pid) (node : addr) (s : MpscQueue) : MpscQueue :=
  set_producers (set_head s node) (<[p := PLink node (head_ s)]> (producers s)).

(** [prevhead->next_.store(node)] *)
Definition enqueue_store (p : pid) (node prevhead : addr) (s : MpscQueue) : res MpscQueue :=
  n ← deref s prevhead;
  Ok (set_producers (set_heap s (<[prevhead := mkNode (dataPtr_ n) (Some node)]> (heap s)))
        (delete p (producers s))).

(** ** [dequeue] and [empty] *)

(** [tail = tail_.load(); next = tail->next_.load()]; [false] when null. *)
Definition dequeue_load (s : MpscQueue) : res (bool * MpscQueue) :=
  n ← deref s (tail_ s);
  Ok match next_ n with
     | None => (false, s)
     | Some next => (true, set_cons s (CLoaded (tail_ s) next))
     end.

(** The datum of [next] is moved to [output] and deleted. *)
Definition dequeue_move (tail next : addr) (s : MpscQueue) : res MpscQueue :=
  n ← deref s next;
  match dataPtr_ n with
  | None => Fail UseAfterFree
  | Some x => Ok (set_cons (set_heap s (<[next := mkNode None (next_ n)]> (heap s)))
                    (CMoved tail next x))
  end.

(** [tail_.store(next)] *)
Definition dequeue_store (tail next : addr) (output : A) (s : MpscQueue) : MpscQueue :=
  set_cons (set_tail s next) (CStored tail output).

(** [delete tail; return true;] *)
Definition dequeue_delete (tail : addr) (s : MpscQueue) : res MpscQueue :=
  _ ← deref s tail;
  Ok (set_cons (set_heap s (delete tail (heap s))) CIdle).

Definition empty (s : MpscQueue) : res bool :=
  n ← deref s (tail_ s);
  Ok (bool_decide (next_ n = None)).

(** [dequeue] run without interruption *)
Definition dequeue (s : MpscQueue) : res (option A * MpscQueue) :=
  '(b, s) ← dequeue_load s;
  match cons s with
  | CLoaded tail next =>
      s ← dequeue_move tail next s;
      match cons s with
      | CMoved tail next x =>
          s ← dequeue_delete tail (dequeue_store tail next x s);
          Ok (Some x, s)
      | _ => Fail PreconditionViolated
      end
  | _ => Ok (None, s)
  end.

(** [~MpscQueue]: drain, then delete the node at [head_]. *)
Fixpoint drain (fuel : nat) (s : MpscQueue) : res (list A * MpscQueue) :=
  match fuel with
  | O => Fail Diverged
  | S fuel =>
      '(o, s) ← dequeue s;
      match o with
      | None => Ok ([], s)
      | Some x => '(xs, s) ← drain fuel s; Ok (x :: xs, s)
      end
  end.

Definition destroy (s : MpscQueue) : res (list A * MpscQueue) :=
  '(xs, s) ← drain (size (heap s)) s;
  _ ← deref s (head_ s);
  Ok (xs, set_heap s (delete (head_ s) (heap s))).

(** ** Interleaving

    The calls and returns the threads can observe. *)

Inductive event :=
  | EPublish (p : pid) (x : A)        (* the exchange in [enqueue] *)
  | EReturn (p : pid)                 (* [enqueue] returns *)
  | EDequeue (o : option A)           (* [dequeue] takes an item, or fails *)
  | ETau.

(** A step may fault; [mq_step] gives the outcome. *)
Inductive mq_step (s : MpscQueue) : event -> res MpscQueue -> Prop :=
  | step_new p x a :
      producers s !! p = None -> heap s !! a = None ->
      mq_step s ETau (Ok (enqueue_new p x a s))
  | step_exchange p a x n :
      producers s !! p = Some (PNew a) -> heap s !! a = Some (mkNode (Some x) n) ->
      mq_step s (EPublish p x) (Ok (enqueue_exchange p a s))
  | step_store p a prev :
      producers s !! p = Some (PLink a prev) ->
      mq_step s (EReturn p) (enqueue_store p a prev s)
  | step_load_fault f :
      cons s = CIdle -> dequeue_load s = Fail f -> mq_step s ETau (Fail f)
  | step_load_null s' :
      cons s = CIdle -> dequeue_load s = Ok (false, s') -> mq_step s (EDequeue None) (Ok s')
  | step_load s' :
      cons s = CIdle -> dequeue_load s = Ok (true, s') -> mq_step s ETau (Ok s')
  | step_move_fault tail next f :
      cons s = CLoaded tail next -> dequeue_move tail next s = Fail f -> mq_step s ETau (Fail f)
  | step_move tail next x s' :
      cons s = CLoaded tail next -> dequeue_move tail next s = Ok s' ->
      cons s' = CMoved tail next x -> mq_step s (EDequeue (Some x)) (Ok s')
  | step_tail tail next x :
      cons s = CMoved tail next x -> mq_step s ETau (Ok (dequeue_store tail next x s))
  | step_delete tail x :
      cons s = CStored tail x -> mq_step s ETau (dequeue_delete tail s).

(** ** The abstract queue

    Items in the order of publication, with the producer that still has to
    link the item. *)

Abbreviation aqueue := (list (A * option pid)).

Definition aq_publish (p : pid) (x : A) (q : aqueue) : aqueue := q ++ [(x, Some p)].

Definition unlink (p : pid) (i : A * option pid) : A * option pid :=
  if bool_decide (snd i = Some p) then (fst i, None) else i.

Inductive aq_step (q : aqueue) : event -> aqueue -> Prop :=
  | aq_step_publish p x :
      (forall i, i ∈ q -> snd i <> Some p) -> aq_step q (EPublish p x) (aq_publish p x q)
  | aq_step_return p x :
      (x, Some p) ∈ q -> aq_step q (EReturn p) (map (unlink p) q)
  | aq_step_take x q' :
      q = (x, None) :: q' -> aq_step q (EDequeue (Some x)) q'
  | aq_step_none :
      (forall x q', q <> (x, None) :: q') -> aq_step q (EDequeue None) q
  | aq_step_tau : aq_step q ETau q.

(** A run: the events seen, and the state or the fault it ends in. *)
Inductive mq_run : MpscQueue -> list event -> res MpscQueue -> Prop :=
  | run_nil s : mq_run s [] (Ok s)
  | run_fault s e f : mq_step s e (Fail f) -> mq_run s [e] (Fail f)
  | run_cons s e s' es r : mq_step s e (Ok s') -> mq_run s' es r -> mq_run s (e :: es) r.

Inductive aq_run : aqueue -> list event -> aqueue -> Prop :=
  | arun_nil q : aq_run q [] q
  | arun_cons q e q' es q'' : aq_step q e q' -> aq_run q' es q'' -> aq_run q (e :: es) q''.

(** ** Invariant *)

Record item := mkItem { i_addr : addr; i_val : A; i_owner : option pid }.
Definition abstract (l : list item) : aqueue := map (fun i => (i_val i, i_owner i)) l.

(** The address the list of items hangs from. *)
Definition base (s : MpscQueue) : addr :=
  match cons s with CMoved _ next _ => next | _ => tail_ s end.

(** The link from [prev]: present, or still to be made by its producer. *)
Definition link_ok (s : MpscQueue) (prev : addr) (i : item) : Prop :=
  exists n, heap s !! prev = Some n /\
    match i_owner i with
    | None => next_ n = Some (i_addr i)
    | Some p => next_ n = None /\ producers s !! p = Some (PLink (i_addr i) prev)
    end.

Fixpoint chained (s : MpscQueue) (prev : addr) (l : list item) : Prop :=
  match l with
  | [] => head_ s = prev /\ exists n, heap s !! prev = Some n /\ next_ n = None
  | i :: l' =>
      link_ok s prev i /\
      (exists n, heap s !! i_addr i = Some n /\ dataPtr_ n = Some (i_val i)) /\
      chained s (i_addr i) l'
  end.

(** The old tail, between the move of the datum and its deletion. *)
Definition cons_ok (s : MpscQueue) (l : list item) : Prop :=
  match cons s with
  | CIdle => True
  | CLoaded tail next =>
      tail = tail_ s /\ exists i l', l = i :: l' /\ i_addr i = next /\ i_owner i = None
  | CMoved tail next _ =>
      tail = tail_ s /\ (exists n, heap s !! tail = Some n) /\
      (tail ∉ next :: map i_addr l) /\ forall p, producers s !! p <> Some (PNew tail)
  | CStored tail _ =>
      (exists n, heap s !! tail = Some n) /\
      (tail ∉ tail_ s :: map i_addr l) /\ forall p, producers s !! p <> Some (PNew tail)
  end.

Definition old_tail (s : MpscQueue) : option addr :=
  match cons s with CMoved tail _ _ | CStored tail _ => Some tail | _ => None end.

Record mq_inv (s : MpscQueue) (l : list item) : Prop := {
  inv_chain : chained s (base s) l;
  inv_nodup : NoDup (base s :: map i_addr l);
  inv_link : forall p a prev, producers s !! p = Some (PLink a prev) ->
    exists i, i ∈ l /\ i_addr i = a /\ i_owner i = Some p;
  inv_new : forall p a, producers s !! p = Some (PNew a) ->
    (a ∉ base s :: map i_addr l) /\ exists x, heap s !! a = Some (mkNode (Some x) None);
  inv_new_inj : forall p p' a, producers s !! p = Some (PNew a) ->
    producers s !! p' = Some (PNew a) -> p = p';
  inv_cons : cons_ok s l;
  inv_owned : forall a n, heap s !! a = Some n ->
    a ∈ base s :: map i_addr l \/ (exists p, producers s !! p = Some (PNew a)) \/
    old_tail s = Some a
}.

(** ** The steps keep the invariant *)

Lemma chained_alive s prev l a :
  chained s prev l -> a ∈ prev :: map i_addr l -> exists n, heap s !! a = Some n.
Proof.
  revert prev. induction l as [|i l IH]; intros prev; simpl.
  - intros [_ (n & ? & _)] ->%list_elem_of_singleton. eauto.
  - intros [(n & ? & _) [_ Hc]] [->|Ha]%elem_of_cons; eauto.
Qed.

Lemma chained_head s prev l : chained s prev l -> head_ s ∈ prev :: map i_addr l.
Proof.
  revert prev. induction l as [|i l IH]; intros prev; simpl.
  - intros [-> _]. left.
  - intros (_ & _ & Hc). right. by apply IH.
Qed.

(** The producer of an unlinked item knows the address before it. *)
Lemma chained_owner s prev l i p :
  chained s prev l -> i ∈ l -> i_owner i = Some p ->
  exists pv, pv ∈ prev :: map i_addr l /\ producers s !! p = Some (PLink (i_addr i) pv).
Proof.
  revert prev. induction l as [|j l IH]; intros prev; simpl; [set_solver|].
  intros ((n & _ & Hl) & _ & Hc) [<-|Hi]%elem_of_cons Ho.
  - rewrite Ho in Hl. exists prev. split; [left | apply Hl].
  - destruct (IH _ Hc Hi Ho) as (pv & ? & ?). exists pv. split; [by right | done].
Qed.

(** The list does not depend on other nodes and on other producers. *)
Lemma chained_frame s s' prev l :
  (forall a, a ∈ prev :: map i_addr l -> heap s' !! a = heap s !! a) ->
  (forall i p, i ∈ l -> i_owner i = Some p -> producers s' !! p = producers s !! p) ->
  head_ s' = head_ s -> chained s prev l -> chained s' prev l.
Proof.
  revert prev. induction l as [|i l IH]; intros prev Hh Hp He; simpl.
  - rewrite He, Hh by left. done.
  - intros ((n & Hn & Hl) & Hd & Hc). split_and!.
    + exists n. rewrite Hh by left. split; [done|]. destruct (i_owner i) eqn:Ho; [|done].
      by rewrite (Hp i) by (done || left).
    + by rewrite Hh by (right; left).
    + apply IH; [| |done|done].
      * intros a Ha. apply Hh. by right.
      * intros j p Hj. apply Hp. by right.
Qed.

Lemma chained_publish s s' prev l p a x :
  heap s' = heap s -> head_ s' = a ->
  heap s !! a = Some (mkNode (Some x) None) ->
  producers s' !! p = Some (PLink a (head_ s)) ->
  (forall i p, i ∈ l -> i_owner i = Some p -> producers s' !! p = producers s !! p) ->
  chained s prev l -> chained s' prev (l ++ [mkItem a x (Some p)]).
Proof.
  intros Hh He Ha Hp. revert prev. induction l as [|i l IH]; intros prev Hps; simpl.
  - intros [<- (n & ? & ?)]. rewrite Hh, He. split_and!; eauto.
    exists n. rewrite Hh. simpl. done.
  - intros ((n & Hn & Hl) & Hd & Hc). rewrite Hh. split_and!; [|done|].
    + exists n. rewrite Hh. split; [done|]. destruct (i_owner i) eqn:Ho; [|done].
      by rewrite (Hps i) by (done || left).
    + apply IH; [|done]. intros j q Hj. apply Hps. by right.
Qed.

Definition unlink_item (p : pid) (i : item) : item :=
  if bool_decide (i_owner i = Some p) then mkItem (i_addr i) (i_val i) None else i.

Lemma unlink_item_addr p l : map i_addr (map (unlink_item p) l) = map i_addr l.
Proof.
  rewrite map_map. apply map_ext. intros i. unfold unlink_item. by case_bool_decide.
Qed.

Lemma unlink_item_other p l :
  (forall i, i ∈ l -> i_owner i <> Some p) -> map (unlink_item p) l = l.
Proof.
  induction l as [|i l IH]; intros Hl; simpl; [done|]. rewrite IH by (intros; apply Hl; by right).
  unfold unlink_item. rewrite bool_decide_false by (apply Hl; left). done.
Qed.

Lemma chained_store s s' prev l p a pv n :
  NoDup (prev :: map i_addr l) ->
  heap s !! pv = Some n -> heap s' = <[pv := mkNode (dataPtr_ n) (Some a)]> (heap s) ->
  head_ s' = head_ s -> producers s' = delete p (producers s) ->
  producers s !! p = Some (PLink a pv) ->
  (exists i, i ∈ l /\ i_addr i = a /\ i_owner i = Some p) ->
  chained s prev l -> chained s' prev (map (unlink_item p) l).
Proof.
  intros Hnd Hpv Hh He Hps Hp. revert prev Hnd.
  induction l as [|i l IH]; intros prev Hnd (j & Hj & Ha & Ho); simpl; [set_solver|].
  intros (Hl & (n' & Hn' & Hd) & Hc). pose proof Hl as (n0 & Hn0 & Hl0).
  apply NoDup_cons in Hnd as [Hprev Hnd].
  assert (exists n'', heap s' !! i_addr i = Some n'' /\ dataPtr_ n'' = Some (i_val i)) as Hd'.
  { rewrite Hh. destruct (decide (pv = i_addr i)) as [->|].
    - rewrite lookup_insert_eq. eexists. split; [done|]. simpl. congruence.
    - rewrite lookup_insert_ne by done. eauto. }
  unfold unlink_item at 1 2 3 4. case_bool_decide as Hi.
  - rewrite Hi in Hl0. destruct Hl0 as [_ Hl0]. rewrite Hp in Hl0. injection Hl0 as -> ->.
    assert (forall k, k ∈ l -> i_owner k <> Some p) as Hother.
    { intros k Hk Hko. destruct (chained_owner _ _ _ _ _ Hc Hk Hko) as (v & _ & Hv).
      rewrite Hp in Hv. injection Hv as Hv _. apply NoDup_cons in Hnd as [Hnd _].
      apply Hnd. rewrite Hv. by apply list_elem_of_fmap_2. }
    split_and!; [|done|].
    + eexists. rewrite Hh, lookup_insert_eq. split; [done|]. done.
    + cbn [i_addr]. rewrite unlink_item_other by done.
      apply (chained_frame s); [| |done|done].
      * intros b Hb. rewrite Hh, lookup_insert_ne; [done|]. by intros ->.
      * intros k q Hk Hq. rewrite Hps, lookup_delete_ne; [done|]. intros <-. by apply (Hother k).
  - apply elem_of_cons in Hj as [->|Hj]; [done|].
    destruct (chained_owner _ _ _ _ _ Hc Hj Ho) as (v & Hv & Hv').
    rewrite Hp in Hv'. injection Hv' as _ <-.
    split_and!; [|done|apply IH; eauto].
    exists n0. rewrite Hh, lookup_insert_ne by (intros ->; done). split; [done|].
    destruct (i_owner i) as [q|] eqn:Hq; [|done]. rewrite Hps, lookup_delete_ne by congruence. done.
Qed.

Lemma inv_alive s l a :
  mq_inv s l -> a ∈ base s :: map i_addr l -> exists n, heap s !! a = Some n.
Proof. intros H. apply chained_alive, (inv_chain _ _ H). Qed.

Lemma inv_owner s l i p :
  mq_inv s l -> i ∈ l -> i_owner i = Some p ->
  exists pv, pv ∈ base s :: map i_addr l /\ producers s !! p = Some (PLink (i_addr i) pv).
Proof. intros H. apply chained_owner, (inv_chain _ _ H). Qed.

(** A fresh node. *)
Lemma new_inv s l p x a :
  mq_inv s l -> producers s !! p = None -> heap s !! a = None ->
  mq_inv (enqueue_new p x a s) l.
Proof.
  intros H Hp Ha.
  assert (a ∉ base s :: map i_addr l) as Hfresh.
  { intros Hin. destruct (inv_alive _ _ _ H Hin). congruence. }
  assert (forall q b, producers s !! q = Some (PNew b) -> b <> a) as Hprivate.
  { intros q b Hq ->. destruct (inv_new _ _ H _ _ Hq) as [_ [y Hy]]. congruence. }
  constructor; change (base (enqueue_new p x a s)) with (base s); simpl.
  - apply (chained_frame s); [| |done|apply (inv_chain _ _ H)]; simpl.
    + intros b Hb. apply lookup_insert_ne. by intros ->.
    + intros i q Hi Ho. destruct (inv_owner _ _ _ _ H Hi Ho) as (pv & _ & Hq).
      apply lookup_insert_ne. congruence.
  - apply (inv_nodup _ _ H).
  - intros q b prev. destruct (decide (q = p)) as [->|]; simplify_map_eq; [done|].
    apply (inv_link _ _ H).
  - intros q b. destruct (decide (q = p)) as [->|]; simplify_map_eq.
    + intros [= <-]. split; [done|]. exists x. by simplify_map_eq.
    + intros Hq. destruct (inv_new _ _ H _ _ Hq) as [? [y Hy]]. split; [done|].
      exists y. rewrite lookup_insert_ne by (intros ->; by apply (Hprivate _ _ Hq)). done.
  - intros q q' b. destruct (decide (q = p)) as [->|], (decide (q' = p)) as [->|]; simplify_map_eq;
      [done| | |apply (inv_new_inj _ _ H)].
    + intros [= ->] Hq'. by destruct (Hprivate _ _ Hq').
    + intros Hq [= ->]. by destruct (Hprivate _ _ Hq).
  - pose proof (inv_cons _ _ H) as Hc. unfold cons_ok in *. simpl.
    assert (forall t, (exists n, heap s !! t = Some n) ->
      (exists n, <[a := mkNode (Some x) None]> (heap s) !! t = Some n)) as Hal.
    { intros t [n Hn]. exists n. rewrite lookup_insert_ne by congruence. done. }
    assert (forall t, (exists n, heap s !! t = Some n) ->
      (forall q, producers s !! q <> Some (PNew t)) ->
      forall q, <[p := PNew a]> (producers s) !! q <> Some (PNew t)) as Hnew.
    { intros t [n Hn] Hq q. destruct (decide (q = p)) as [->|]; simplify_map_eq; [congruence|auto]. }
    destruct (cons s); naive_solver.
  - intros b n [[<- _]|[Hne Hb]]%lookup_insert_Some.
    + right. left. exists p. apply lookup_insert_eq.
    + destruct (inv_owned _ _ H _ _ Hb) as [?|[[q Hq]|?]]; [by left| |by do 2 right].
      right. left. exists q. rewrite lookup_insert_ne by congruence. done.
Qed.

(** The exchange. *)
Lemma exchange_inv s l p a x :
  mq_inv s l -> producers s !! p = Some (PNew a) -> heap s !! a = Some (mkNode (Some x) None) ->
  mq_inv (enqueue_exchange p a s) (l ++ [mkItem a x (Some p)]).
Proof.
  intros H Hp Ha. destruct (inv_new _ _ H _ _ Hp) as [Hfresh _].
  assert (forall i q, i ∈ l -> i_owner i = Some q -> q <> p) as Hown.
  { intros i q Hi Ho ->. destruct (inv_owner _ _ _ _ H Hi Ho) as (? & _ & ?). congruence. }
  constructor; change (base (enqueue_exchange p a s)) with (base s); simpl.
  - apply (chained_publish s); try done; [by simplify_map_eq| |apply (inv_chain _ _ H)].
    intros i q Hi Ho. simpl. apply lookup_insert_ne. intros <-. by apply (Hown i p).
  - rewrite map_app. simpl. rewrite app_comm_cons. apply NoDup_app. split_and!.
    + apply (inv_nodup _ _ H).
    + intros b Hb ->%list_elem_of_singleton. done.
    + apply NoDup_singleton.
  - intros q b prev. destruct (decide (q = p)) as [->|]; simplify_map_eq.
    + intros [= <- <-]. eexists. split; [apply elem_of_app; right; left|]. done.
    + intros Hq. destruct (inv_link _ _ H _ _ _ Hq) as (i & ? & ?). exists i. set_solver.
  - intros q b. destruct (decide (q = p)) as [->|]; simplify_map_eq; [done|].
    intros Hq. destruct (inv_new _ _ H _ _ Hq) as [Hb ?]. split; [|done].
    rewrite map_app. simpl. assert (b <> a) by (intros ->; by destruct (inv_new_inj _ _ H _ _ _ Hp Hq)).
    set_solver.
  - intros q q' b. destruct (decide (q = p)) as [->|]; simplify_map_eq; [done|].
    destruct (decide (q' = p)) as [->|]; simplify_map_eq; [done|]. apply (inv_new_inj _ _ H).
  - pose proof (inv_cons _ _ H) as Hc. unfold cons_ok in *. simpl.
    assert (forall t, (forall q, producers s !! q <> Some (PNew t)) ->
      t <> a /\ forall q, <[p := PLink a (head_ s)]> (producers s) !! q <> Some (PNew t)) as Hnew.
    { intros t Hq. split; [intros ->; by apply (Hq p)|]. intros q.
      destruct (decide (q = p)) as [->|]; simplify_map_eq; [congruence|auto]. }
    destruct (cons s) as [|t n|t n o|t o]; [done| | |].
    + destruct Hc as [-> (i & l' & -> & ?)]. split; [done|]. exists i, (l' ++ [mkItem a x (Some p)]). done.
    + destruct Hc as (-> & ? & Hnot & Hq). destruct (Hnew _ Hq). rewrite map_app. simpl.
      split_and!; try done. set_solver.
    + destruct Hc as (? & Hnot & Hq). destruct (Hnew _ Hq). rewrite map_app. simpl.
      split_and!; try done. set_solver.
  - intros b n Hb. rewrite map_app. simpl.
    destruct (inv_owned _ _ H _ _ Hb) as [?|[[q Hq]|?]]; [set_solver| |by do 2 right].
    destruct (decide (q = p)) as [->|]; [set_solver|]. right. left. exists q.
    rewrite lookup_insert_ne by congruence. done.
Qed.

(** The link. *)
Lemma store_inv s l p a pv :
  mq_inv s l -> producers s !! p = Some (PLink a pv) ->
  exists s', enqueue_store p a pv s = Ok s' /\ mq_inv s' (map (unlink_item p) l).
Proof.
  intros H Hp. destruct (inv_link _ _ H _ _ _ Hp) as (i & Hi & Ha & Ho).
  destruct (inv_owner _ _ _ _ H Hi Ho) as (pv' & Hpv & Hp'). rewrite Hp in Hp'. injection Hp' as _ <-.
  destruct (inv_alive _ _ _ H Hpv) as [n Hn].
  eexists. split; [unfold enqueue_store, deref; by rewrite Hn|].
  set (s' := set_producers _ _). assert (base s' = base s) as Hb by done.
  constructor; rewrite ?Hb, ?unlink_item_addr.
  - apply (chained_store s s' _ l p a pv n); try done; [apply (inv_nodup _ _ H)|eauto|].
    apply (inv_chain _ _ H).
  - apply (inv_nodup _ _ H).
  - intros q b prev. simpl. intros [Hne Hq]%lookup_delete_Some.
    destruct (inv_link _ _ H _ _ _ Hq) as (j & Hj & Hja & Hjo). exists (unlink_item p j).
    split; [by apply list_elem_of_fmap_2|]. unfold unlink_item.
    rewrite bool_decide_false by congruence. done.
  - intros q b. simpl. intros [Hne Hq]%lookup_delete_Some.
    destruct (inv_new _ _ H _ _ Hq) as [Hnb Hx]. split; [done|].
    rewrite lookup_insert_ne by (intros ->; done). done.
  - intros q q' b. simpl. intros [_ Hq]%lookup_delete_Some [_ Hq']%lookup_delete_Some.
    by apply (inv_new_inj _ _ H _ _ b).
  - pose proof (inv_cons _ _ H) as Hc. unfold cons_ok in *. simpl.
    assert (forall t, (exists n, heap s !! t = Some n) ->
      (exists n', <[pv := mkNode (dataPtr_ n) (Some a)]> (heap s) !! t = Some n')) as Hal.
    { intros t [m Hm]. destruct (decide (pv = t)) as [->|]; [rewrite lookup_insert_eq|
        rewrite lookup_insert_ne by done]; eauto. }
    assert (forall t q, producers s !! q <> Some (PNew t) ->
      delete p (producers s) !! q <> Some (PNew t)) as Hnew.
    { intros t q Hq [_ ?]%lookup_delete_Some. done. }
    rewrite unlink_item_addr. destruct (cons s) as [|t m|t m o|t o]; [done| |naive_solver|naive_solver].
    destruct Hc as [-> (j & l' & -> & Hj & Hjo)]. split; [done|].
    exists j, (map (unlink_item p) l'). simpl. split; [|done]. f_equal. unfold unlink_item.
    rewrite bool_decide_false by congruence. done.
  - intros b m Hm. simpl in Hm.
    assert (exists m', heap s !! b = Some m') as [m' Hm'].
    { apply lookup_insert_Some in Hm as [[<- _]|[_ ?]]; eauto. }
    destruct (inv_owned _ _ H _ _ Hm') as [?|[[q Hq]|?]]; [by left| |by do 2 right].
    right. left. exists q. simpl. rewrite lookup_delete_ne by congruence. done.
Qed.

(** The load of [next]: what it finds, seen from the list of items. *)
Lemma load_spec s l :
  mq_inv s l -> cons s = CIdle ->
  exists b s', dequeue_load s = Ok (b, s') /\
    if b then (exists i l', l = i :: l' /\ i_owner i = None) /\ mq_inv s' l
    else (forall i l', l = i :: l' -> i_owner i <> None) /\ s' = s.
Proof.
  intros H Hc. pose proof (inv_chain _ _ H) as Hch.
  assert (base s = tail_ s) as Hb by (unfold base; by rewrite Hc). rewrite Hb in Hch.
  unfold dequeue_load, deref. destruct l as [|i l]; simpl in Hch.
  - destruct Hch as [_ (n & -> & Hn)]. cbn [mbind res_bind]. rewrite Hn. by eexists _, _.
  - destruct Hch as [(n & -> & Hn) [Hd Hl]]. cbn [mbind res_bind].
    destruct (i_owner i) as [p|] eqn:Ho.
    + destruct Hn as [-> _]. eexists _, _. split; [done|]. split; [|done].
      intros ? ? [= <- <-]. by rewrite Ho.
    + rewrite Hn. eexists _, _. split; [done|]. simpl. split; [eauto|].
      destruct H as [H1 H2 H3 H4 H5 _ H7]. unfold old_tail in H7. rewrite Hb, Hc in *.
      constructor; try done.
      * by apply (chained_frame s).
      * split; [done|]. eauto.
Qed.

(** The move of the datum takes the first item. *)
Lemma move_inv s i l tail next :
  mq_inv s (i :: l) -> cons s = CLoaded tail next ->
  exists s', dequeue_move tail next s = Ok s' /\ cons s' = CMoved tail next (i_val i) /\
    i_owner i = None /\ mq_inv s' l.
Proof.
  intros H Hc. pose proof (inv_cons _ _ H) as Hco. unfold cons_ok in Hco. rewrite Hc in Hco.
  destruct Hco as [-> (j & l' & [= <- <-] & Ha & Ho)].
  assert (base s = tail_ s) as Hb by (unfold base; by rewrite Hc).
  destruct H as [Hch Hnd Hlk Hnew Hinj _ Hown]. unfold old_tail in Hown. rewrite Hb, ?Hc in *.
  destruct Hch as ((nt & Hnt & _) & (n & Hn & Hd) & Hch). rewrite Ha in *.
  apply NoDup_cons in Hnd as [Htail Hnd]. simpl in Htail, Hnd. rewrite Ha in Htail, Hnd.
  eexists. split; [unfold dequeue_move, deref; rewrite Hn; cbn [mbind res_bind]; by rewrite Hd|].
  split; [done|]. split; [done|]. match goal with |- mq_inv ?x _ => set (s' := x) end.
  assert (base s' = next) as Hbs by done.
  pose proof Hnd as [Hnext Hnd']%NoDup_cons. constructor; try done.
  - assert (forall b, b <> next -> heap s' !! b = heap s !! b) as Hh
      by (intros b Hne; apply lookup_insert_ne; done).
    assert (heap s' !! next = Some (mkNode None (next_ n))) as Hn' by apply lookup_insert_eq.
    destruct l as [|j l]; simpl in Hch |- *.
    + destruct Hch as [? (m & Hm & ?)]. split; [done|]. rewrite Hm in Hn. injection Hn as ->. eauto.
    + destruct Hch as ((m & Hm & Hl) & Hdj & Hch). rewrite Hm in Hn. injection Hn as ->.
      simpl in Hnext. split_and!.
      * exists (mkNode None (next_ n)). done.
      * rewrite Hh by set_solver. done.
      * apply (chained_frame s); try done. intros b Hb'. apply Hh. intros ->. done.
  - intros p b prev Hp. destruct (Hlk _ _ _ Hp) as (k & [->|Hk]%elem_of_cons & ? & ?); [congruence|eauto].
  - intros p b Hp. destruct (Hnew _ _ Hp) as [Hnb Hx]. simpl in Hnb. rewrite Ha in Hnb.
    split; [set_solver|]. simpl. rewrite lookup_insert_ne by set_solver. done.
  - unfold cons_ok. simpl. split_and!; [done| |done|].
    + destruct (decide (next = tail_ s)) as [<-|]; [rewrite lookup_insert_eq; eauto|].
      rewrite lookup_insert_ne by done. eauto.
    + intros p Hp. destruct (Hnew _ _ Hp) as [Hnb _]. apply Hnb. left.
  - intros b m Hm. rewrite Hbs. change (old_tail s') with (Some (tail_ s)). simpl in Hm.
    assert (exists m', heap s !! b = Some m') as [m' Hm'].
    { apply lookup_insert_Some in Hm as [[<- _]|[_ ?]]; eauto. }
    destruct (Hown _ _ Hm') as [Hin|[?|?]]; [|by eauto|done]. simpl in Hin. rewrite Ha in Hin.
    apply elem_of_cons in Hin as [->|?]; auto.
Qed.

Lemma tail_inv s l tail next x :
  mq_inv s l -> cons s = CMoved tail next x -> mq_inv (dequeue_store tail next x s) l.
Proof.
  intros [H1 H2 H3 H4 H5 H6 H7] Hc. unfold cons_ok in H6. unfold base, old_tail in *.
  rewrite Hc in *. constructor; try done.
  - by apply (chained_frame s).
  - apply H6.
Qed.

Lemma delete_inv s l tail x :
  mq_inv s l -> cons s = CStored tail x ->
  exists s', dequeue_delete tail s = Ok s' /\ mq_inv s' l.
Proof.
  intros [H1 H2 H3 H4 H5 H6 H7] Hc. unfold cons_ok in H6. unfold base, old_tail in *.
  rewrite Hc in *. destruct H6 as ([n Hn] & Hnot & Hnew).
  eexists. split; [unfold dequeue_delete, deref; by rewrite Hn|]. constructor; try done.
  - apply (chained_frame s); try done. intros b Hb. apply lookup_delete_ne. intros ->. done.
  - intros p b Hp. destruct (H4 _ _ Hp) as [? Hx]. split; [done|]. simpl.
    rewrite lookup_delete_ne by (intros ->; by apply (Hnew p)). done.
  - simpl. intros b m [Hne Hm]%lookup_delete_Some. destruct (H7 _ _ Hm) as [?|[?|[= ->]]]; by auto.
Qed.

Lemma abstract_unlink p l : abstract (map (unlink_item p) l) = map (unlink p) (abstract l).
Proof.
  unfold abstract. rewrite !map_map. apply map_ext. intros i. unfold unlink_item, unlink. simpl.
  by case_bool_decide.
Qed.

Lemma mq_step_sim s l e r :
  mq_inv s l -> mq_step s e r ->
  exists s' l', r = Ok s' /\ mq_inv s' l' /\ aq_step (abstract l) e (abstract l').
Proof.
  intros H Hst.
  destruct Hst as [p x a Hp Ha|p a x n Hp Ha|p a pv Hp|f Hc Hl|s' Hc Hl|s' Hc Hl|t n f Hc Hm
    |t n x s' Hc Hm Hx|t n x Hc|t x Hc].
  - eexists _, _. split_and!; [done|by apply new_inv|constructor].
  - destruct (inv_new _ _ H _ _ Hp) as [_ [y Hy]]. rewrite Ha in Hy. injection Hy as <- ->.
    eexists _, _. split_and!; [done|by apply exchange_inv|].
    unfold abstract. rewrite map_app. constructor. intros i (j & -> & Hj)%list_elem_of_fmap Ho.
    destruct (inv_owner _ _ _ _ H Hj Ho) as (? & _ & ?). congruence.
  - destruct (store_inv _ _ _ _ _ H Hp) as (s' & -> & H').
    eexists _, _. split_and!; [done|done|]. rewrite abstract_unlink.
    destruct (inv_link _ _ H _ _ _ Hp) as (i & Hi & _ & Ho).
    apply aq_step_return with (i_val i). rewrite <- Ho. by apply (list_elem_of_fmap_2 (fun i => (i_val i, i_owner i))).
  - destruct (load_spec _ _ H Hc) as (? & ? & ? & _). congruence.
  - destruct (load_spec _ _ H Hc) as (b & s2 & Hl' & Hb). rewrite Hl in Hl'. injection Hl' as <- <-.
    destruct Hb as [Hb ->]. exists s, l. split_and!; [done|done|]. constructor.
    intros x q' Hq. destruct l as [|i l]; [done|]. injection Hq as _ Ho _. by apply (Hb i l).
  - destruct (load_spec _ _ H Hc) as (b & s2 & Hl' & Hb). rewrite Hl in Hl'. injection Hl' as <- <-.
    eexists _, _. split_and!; [done|apply Hb|constructor].
  - pose proof (inv_cons _ _ H) as Hco. unfold cons_ok in Hco. rewrite Hc in Hco.
    destruct Hco as [_ (i & l' & -> & _)]. destruct (move_inv _ _ _ _ _ H Hc) as (? & ? & _). congruence.
  - pose proof (inv_cons _ _ H) as Hco. unfold cons_ok in Hco. rewrite Hc in Hco.
    destruct Hco as [_ (i & l' & -> & _)].
    destruct (move_inv _ _ _ _ _ H Hc) as (s2 & Hm' & Hx' & Ho & H'). rewrite Hm in Hm'. injection Hm' as <-.
    rewrite Hx in Hx'. injection Hx' as ->. exists s', l'. split_and!; [done|done|].
    constructor. simpl. by rewrite Ho.
  - eexists _, _. split_and!; [done|by apply tail_inv|constructor].
  - destruct (delete_inv _ _ _ _ H Hc) as (s' & -> & H'). exists s', l. split_and!; [done|done|constructor].
Qed.

Lemma new_queue_inv a : mq_inv (MpscQueue_new a) [].
Proof.
  constructor; unfold base, old_tail; simpl; try done.
  - split; [done|]. exists (mkNode None None). by rewrite lookup_singleton_eq.
  - apply NoDup_singleton.
  - intros b n [-> _]%lookup_singleton_Some. left. left.
Qed.

(** ** Runs *)

(** Items published and items taken. *)
Definition published (es : list event) : list A :=
  omap (fun e => match e with EPublish _ x => Some x | _ => None end) es.
Definition dequeued (es : list event) : list A :=
  omap (fun e => match e with EDequeue o => o | _ => None end) es.

Lemma mq_run_sim s l es r :
  mq_inv s l -> mq_run s es r ->
  exists s' l', r = Ok s' /\ mq_inv s' l' /\ aq_run (abstract l) es (abstract l').
Proof.
  intros H Hr. revert l H. induction Hr as [s|s e f Hs|s e s' es r Hs _ IH]; intros l H.
  - exists s, l. split_and!; [done|done|constructor].
  - by destruct (mq_step_sim _ _ _ _ H Hs) as (? & ? & ? & _).
  - destruct (mq_step_sim _ _ _ _ H Hs) as (s1 & l1 & [= <-] & H1 & Ha).
    destruct (IH _ H1) as (s2 & l2 & -> & H2 & Ha2). exists s2, l2. split_and!; [done|done|].
    by econstructor.
Qed.

Lemma aq_run_fifo q es q' :
  aq_run q es q' -> map fst q ++ published es = dequeued es ++ map fst q'.
Proof.
  induction 1 as [q|q e q1 es q2 Hs _ IH]; [by rewrite app_nil_r|].
  destruct Hs as [p x Hp|p x Hp|x q' ->|Hq|]; simpl.
  - rewrite <- IH. unfold aq_publish. rewrite map_app, <- app_assoc. done.
  - rewrite <- IH. f_equal. rewrite map_map. apply map_ext. intros i. unfold unlink. by case_bool_decide.
  - by rewrite IH.
  - done.
  - done.
Qed.

(** ** [dequeue] in one go *)

Lemma dequeue_spec s l :
  mq_inv s l -> cons s = CIdle ->
  exists o s', dequeue s = Ok (o, s') /\ cons s' = CIdle /\ producers s' = producers s /\
    match o with
    | Some x => exists i l', l = i :: l' /\ i_val i = x /\ i_owner i = None /\ mq_inv s' l'
    | None => s' = s /\ forall i l', l = i :: l' -> i_owner i <> None
    end.
Proof.
  intros H Hc. destruct (load_spec _ _ H Hc) as (b & s1 & E & Hb).
  unfold dequeue. rewrite E. cbn [mbind res_bind]. destruct b.
  - destruct Hb as [(i & l' & -> & Ho) H1].
    assert (exists t n, cons s1 = CLoaded t n /\ producers s1 = producers s) as (t & n & Hc1 & Hp1).
    { unfold dequeue_load in E. ok_inv. case_match; simplify_eq. eauto. }
    destruct (move_inv _ _ _ _ _ H1 Hc1) as (s2 & E2 & Hc2 & _ & H2).
    assert (producers s2 = producers s1) as Hp2.
    { unfold dequeue_move in E2. ok_inv. case_match; by simplify_eq. }
    destruct (delete_inv _ _ t (i_val i) (tail_inv _ _ _ _ _ H2 Hc2) eq_refl) as (s3 & E3 & H3).
    rewrite Hc1, E2. cbn [mbind res_bind]. rewrite Hc2, E3. cbn [mbind res_bind].
    assert (cons s3 = CIdle /\ producers s3 = producers s2) as [? ?].
    { unfold dequeue_delete in E3. ok_inv. done. }
    exists (Some (i_val i)), s3. split_and!; [done|done|congruence|]. by exists i, l'.
  - destruct Hb as [Hb ->]. rewrite Hc. exists None, s. split_and!; done.
Qed.

Lemma drain_spec fuel s l :
  mq_inv s l -> cons s = CIdle -> producers s = ∅ -> (length l < fuel)%nat ->
  exists s', drain fuel s = Ok (map i_val l, s') /\ mq_inv s' [] /\
    cons s' = CIdle /\ producers s' = ∅.
Proof.
  revert s l. induction fuel as [|fuel IH]; intros s l H Hc Hp Hf; [lia|].
  destruct (dequeue_spec _ _ H Hc) as (o & s1 & E & Hc1 & Hp1 & Ho).
  cbn [drain]. rewrite E. cbn [mbind res_bind]. destruct o as [x|].
  - destruct Ho as (i & l' & -> & <- & _ & H1).
    destruct (IH s1 l' H1 Hc1) as (s2 & -> & ?); [congruence|simpl in Hf; lia|].
    exists s2. done.
  - destruct Ho as [-> Ho]. destruct l as [|i l]; [by exists s|].
    destruct (i_owner i) as [p|] eqn:Hi; [|by destruct (Ho i l)].
    destruct (inv_owner _ _ i p H ltac:(left) Hi) as (? & _ & Hq). by rewrite Hp in Hq.
Qed.

Lemma inv_size s l : mq_inv s l -> (length l < size (heap s))%nat.
Proof.
  intros H. pose proof (inv_nodup _ _ H) as Hnd.
  assert (list_to_set (base s :: map i_addr l) ⊆ dom (heap s)) as Hsub.
  { intros a Ha%elem_of_list_to_set. apply elem_of_dom. by apply (inv_alive _ _ _ H). }
  apply subseteq_size in Hsub. rewrite size_list_to_set in Hsub by done.
  rewrite size_dom in Hsub. simpl in Hsub. rewrite length_map in Hsub. lia.
Qed.

Lemma destroy_spec s l :
  mq_inv s l -> cons s = CIdle -> producers s = ∅ ->
  exists s', destroy s = Ok (map i_val l, s') /\ heap s' = ∅.
Proof.
  intros H Hc Hp.
  destruct (drain_spec (size (heap s)) s l H Hc Hp (inv_size _ _ H)) as (s1 & E & H1 & Hc1 & Hp1).
  unfold destroy. rewrite E. cbn [mbind res_bind].
  destruct (inv_chain _ _ H1) as [Hh (n & Hn & _)]. rewrite <- Hh in Hn.
  unfold deref. rewrite Hn. cbn [mbind res_bind]. eexists. split; [done|]. simpl.
  apply map_empty. intros a. apply lookup_delete_None.
  destruct (heap s1 !! a) as [m|] eqn:Ha; [|by right]. left.
  destruct (inv_owned _ _ H1 _ _ Ha) as [Hb|[[p Hq]|Ht]].
  - rewrite Hh. symmetry. by apply list_elem_of_singleton.
  - by rewrite Hp1 in Hq.
  - unfold old_tail in Ht. by rewrite Hc1 in Ht.
Qed.

End mpsc_queue.

(** ** States that runs reach *)

Lemma run_reaches {A} a (es : list (@event A)) s :
  mq_run (MpscQueue_new a) es (Ok s) ->
  exists l, mq_inv s l /\ published es = dequeued es ++ map i_val l.
Proof.
  intros Hr. destruct (mq_run_sim _ _ _ _ (new_queue_inv a) Hr) as (s' & l & [= <-] & H & Ha).
  exists l. split; [done|]. pose proof (aq_run_fifo _ _ _ Ha) as Hf. unfold abstract in Hf.
  rewrite !map_map in Hf. exact Hf.
Qed.

Lemma empty_spec {A} (s : @MpscQueue A) l :
  mq_inv s l -> cons s = CIdle ->
  empty s = Ok (match l with i :: _ => bool_decide (i_owner i <> None) | [] => true end).
Proof.
  intros H Hc. pose proof (inv_chain _ _ H) as Hch. unfold empty, deref. unfold base in Hch.
  rewrite Hc in Hch. destruct l as [|i l]; simpl in Hch.
  - destruct Hch as [_ (n & -> & Hn)]. cbn [mbind res_bind]. by rewrite Hn.
  - destruct Hch as [(n & -> & Hn) _]. cbn [mbind res_bind].
    destruct (i_owner i); [destruct Hn as [-> _] | rewrite Hn]; done.
Qed.

(** ** Properties *)

(** C1. Every run of any number of producers and the consumer is free of
    faults: no thread touches a deleted node or a datum that is gone.  It
    refines the abstract queue step by step, so the items taken are, in order,
    an initial part of the items published: nothing is lost, duplicated or
    reordered. *)
Theorem mpsc_refines_queue {A} a (es : list (@event A)) r :
  mq_run (MpscQueue_new a) es r ->
  exists s q, r = Ok s /\ aq_run [] es q /\ published es = dequeued es ++ map fst q.
Proof.
  intros Hr. destruct (mq_run_sim _ _ _ _ (new_queue_inv a) Hr) as (s & l & -> & _ & Ha).
  exists s, (abstract l). split_and!; [done|done|]. exact (aq_run_fifo _ _ _ Ha).
Qed.

Lemma step_store_Ok {A} (s : @MpscQueue A) p a prev s' :
  producers s !! p = Some (PLink a prev) -> enqueue_store p a prev s = Ok s' ->
  mq_step s (EReturn p) (Ok s').
Proof. intros Hp <-. by apply (step_store _ p a prev). Qed.

(** Producer 1 publishes and links; producer 2 publishes; the consumer takes. *)
Definition mpsc_trace : list (@event Z) :=
  [ETau; EPublish 1 10; EReturn 1; ETau; EPublish 2 20; ETau; EDequeue (Some 10)].

Definition mpsc_after : @MpscQueue Z :=
  mkQueue {[1%positive := mkNode None (Some 2%positive);
            2%positive := mkNode None None;
            3%positive := mkNode (Some 20) None]} 3 1
    {[2%nat := PLink 3 2]} (CMoved 1 2 10).

Lemma mpsc_trace_run : mq_run (MpscQueue_new 1) mpsc_trace (Ok mpsc_after).
Proof.
  eapply run_cons; [apply (step_new _ 1 10 2); reflexivity|].
  eapply run_cons; [eapply (step_exchange _ 1 2); reflexivity|].
  eapply run_cons; [eapply (step_store_Ok _ 1 2 1); reflexivity|].
  eapply run_cons; [apply (step_new _ 2 20 3); reflexivity|].
  eapply run_cons; [eapply (step_exchange _ 2 3); reflexivity|].
  eapply run_cons; [eapply step_load; reflexivity|].
  eapply run_cons; [eapply step_move; reflexivity|].
  apply run_nil.
Qed.

Lemma mpsc_refines_queue_witness :
  exists s q, Ok mpsc_after = Ok s /\ aq_run [] mpsc_trace q /\
    published mpsc_trace = dequeued mpsc_trace ++ map fst q.
Proof. apply (mpsc_refines_queue 1 mpsc_trace (Ok mpsc_after)). exact mpsc_trace_run. Defined.

(** C31. What the consumer sees, at any point of any run: [empty] answers
    exactly whether [dequeue] would fail; [dequeue] returns the oldest item
    not yet taken; it fails only when every published item has been taken, or
    when the oldest one's [enqueue] has exchanged the head and not yet linked
    the node.  So an item whose [enqueue] has returned, and all items before
    it, cannot be missed. *)
Theorem dequeue_complete {A} a (es : list (@event A)) s :
  mq_run (MpscQueue_new a) es (Ok s) -> cons s = CIdle ->
  exists o s', dequeue s = Ok (o, s') /\ empty s = Ok (bool_decide (o = None)) /\
    match o with
    | Some x => exists rest, published es = dequeued es ++ x :: rest
    | None => published es = dequeued es \/
        exists p a n x rest, producers s !! p = Some (PLink a (tail_ s)) /\ heap s !! a = Some n /\
          dataPtr_ n = Some x /\ published es = dequeued es ++ x :: rest
    end.
Proof.
  intros Hr Hc. destruct (run_reaches _ _ _ Hr) as (l & H & Hl).
  destruct (dequeue_spec _ _ H Hc) as (o & s' & E & _ & _ & Ho). exists o, s'.
  rewrite (empty_spec _ _ H Hc), Hl. split; [done|]. destruct o as [x|].
  - destruct Ho as (i & l' & -> & <- & -> & _). split; [done|]. exists (map i_val l'). done.
  - destruct Ho as [_ Ho]. destruct l as [|i l]; [by rewrite app_nil_r; auto|].
    specialize (Ho i l eq_refl). split; [by rewrite bool_decide_true|]. right.
    destruct (i_owner i) as [p|] eqn:Hi; [|done].
    pose proof (inv_chain _ _ H) as Hch. unfold base in Hch. rewrite Hc in Hch. cbn [chained] in Hch. unfold link_ok in Hch.
    rewrite Hi in Hch. destruct Hch as [(_ & _ & _ & Hp) [(n & Hn & Hd) _]].
    exists p, (i_addr i), n, (i_val i), (map i_val l). done.
Qed.

(** The queue of [mpsc_trace] before the consumer takes anything. *)
Definition mpsc_before : @MpscQueue Z :=
  mkQueue {[1%positive := mkNode None (Some 2%positive);
            2%positive := mkNode (Some 10) None]} 2 1 ∅ CIdle.

Lemma mpsc_before_run :
  mq_run (MpscQueue_new 1) [ETau; EPublish 1 10; EReturn 1] (Ok mpsc_before).
Proof.
  eapply run_cons; [apply (step_new _ 1 10 2); reflexivity|].
  eapply run_cons; [eapply (step_exchange _ 1 2); reflexivity|].
  eapply run_cons; [eapply (step_store_Ok _ 1 2 1); reflexivity|].
  apply run_nil.
Qed.

(** Before that, when the producer has published and not linked. *)
Definition mpsc_unlinked : @MpscQueue Z :=
  mkQueue {[1%positive := mkNode None None; 2%positive := mkNode (Some 10) None]} 2 1 {[1%nat := PLink 2 1]} CIdle.

Lemma mpsc_unlinked_run : mq_run (MpscQueue_new 1) [ETau; EPublish 1 10] (Ok mpsc_unlinked).
Proof.
  eapply run_cons; [apply (step_new _ 1 10 2); reflexivity|].
  eapply run_cons; [eapply (step_exchange _ 1 2); reflexivity|].
  apply run_nil.
Qed.

Lemma dequeue_complete_witness :
  (exists s' rest, dequeue mpsc_before = Ok (Some 10, s') /\ empty mpsc_before = Ok false /\ [10] = [] ++ 10 :: rest) /\
  exists s', dequeue mpsc_unlinked = Ok (None, s') /\ empty mpsc_unlinked = Ok true /\
    exists p a n x rest, producers mpsc_unlinked !! p = Some (PLink a (tail_ mpsc_unlinked)) /\
      heap mpsc_unlinked !! a = Some n /\ dataPtr_ n = Some x /\ [10] = [] ++ x :: rest.
Proof.
  split.
  - destruct (dequeue_complete 1 [ETau; EPublish 1 10; EReturn 1] mpsc_before mpsc_before_run eq_refl) as (o & s' & E & He & H).
    vm_compute in E. injection E as <- Es. destruct H as [rest H]. exists s', rest. rewrite <- Es. exact (conj eq_refl (conj He H)).
  - destruct (dequeue_complete 1 [ETau; EPublish 1 10] mpsc_unlinked mpsc_unlinked_run eq_refl) as (o & s' & E & He & H).
    vm_compute in E. injection E as <- Es. exists s'. rewrite <- Es. split; [reflexivity|]. split; [exact He|].
    destruct H as [H|H]; [discriminate H|exact H].
Defined.

(** The destructor, when no call is in progress, terminates, hands out
    every remaining item and deletes every node: the heap is empty. *)
Theorem destroy_frees_all {A} a (es : list (@event A)) s :
  mq_run (MpscQueue_new a) es (Ok s) -> cons s = CIdle -> producers s = ∅ ->
  exists xs s', destroy s = Ok (xs, s') /\ heap s' = ∅ /\ published es = dequeued es ++ xs.
Proof.
  intros Hr Hc Hp. destruct (run_reaches _ _ _ Hr) as (l & H & Hl).
  destruct (destroy_spec _ _ H Hc Hp) as (s' & E & Hh). by exists (map i_val l), s'.
Qed.

Lemma destroy_frees_all_witness :
  exists xs s', destroy mpsc_before = Ok (xs, s') /\ heap s' = ∅ /\ [10] = [] ++ xs.
Proof.
  apply (destroy_frees_all 1 [ETau; EPublish 1 10; EReturn 1] mpsc_before);
    [exact mpsc_before_run | reflexivity | reflexivity].
Defined.
