(* ===== verification/EventLoop.v ===== *)
(** * The event loop: [netpoll/net/eventloop.{h,cc}]

    One thread runs [EventLoop::loop]; any number of other threads call
    [queueInLoop], [runInLoop], [runOnQuit] and [quit].  The functor queues are
    the abstract queue that [MpscQueue] refines; the eventfd is a counter.
    Every access to shared memory is a step of its own.

    The program the loop thread runs (handlers, functors) is a list of the
    calls it makes to the loop; an exception is one of them. *)

From S2P Require Import Prelude MpscQueue TimerQueue.

(** ** What the loop thread runs *)

Inductive act :=
  | AQueueInLoop (f : functor)
  | ARunInLoop (f : functor)
  | ARunOnQuit (f : functor)
  | AQuit
  | AThrow
with functor :=
  | mkFunctor (f_id : Z) (f_code : list act).

Definition f_id (f : functor) : Z := let '(mkFunctor i _) := f in i.
Definition f_code (f : functor) : list act := let '(mkFunctor _ c) := f in c.

(** An active channel: the wakeup descriptor's, or one with a handler. *)
Inductive active :=
  | HWakeup
  | HUser (c : list act).

(** Where the loop thread stands, once the code it runs is done. *)
Inductive phase :=
  | PIdle                             (* outside [loop] *)
  | PEnter                            (* [m_looping] stored, before the store of [m_quit] *)
  | PTop                              (* at the test of [m_quit] *)
  | PPoll                             (* in [m_poller->poll] *)
  | PHandle (todo : list active)      (* the loop over [m_activeChannels] *)
  | PFuncsEmpty                       (* at [m_funcs.empty()] *)
  | PFuncsDequeue                     (* at [m_funcs.dequeue(func)] *)
  | PQuitFuncs.                       (* at [m_funcOnQuit.dequeue(f)] *)

(** Where another thread stands in a call. *)
Inductive remote :=
  | RFuncPublished                    (* [m_funcs.enqueue]: exchanged, not linked *)
  | RFuncLinked                       (* enqueued, before [wakeup] *)
  | ROnQuitPublished
  | RQuitLoaded                       (* [quit]: [m_quit] was false *)
  | RQuitStored.                      (* [m_quit] stored, before [wakeup] *)

#[global] Instance remote_eq_dec : EqDecision remote.
Proof. solve_decision. Defined.

Abbreviation fqueue := (list (functor * option nat)).

Record EventLoop := mkEventLoop {
  m_looping : bool;
  m_quit : bool;
  m_eventHandling : bool;
  m_callingFuncs : bool;
  m_funcs : fqueue;
  m_funcOnQuit : fqueue;
  m_wakeupFd : Z;
  at_phase : phase;
  code : list act;
  thrown : bool;                      (* [loopException] *)
  aborted : bool;                     (* an exception has left an iteration before *)
  remotes : gmap nat remote;
  enqueued : list functor;            (* all functors ever put into [m_funcs] *)
  executed : list functor;            (* all functors taken out and called *)
  ran : list act                      (* all that functors' code has done *)
}.

Definition EventLoop_new : EventLoop :=
  mkEventLoop false false false false [] [] 0 PIdle [] false false ∅ [] [] [].

Section setters.
Implicit Type s : EventLoop.
Definition set_flags (lo q eh cf : bool) s := mkEventLoop lo q eh cf (m_funcs s) (m_funcOnQuit s)
  (m_wakeupFd s) (at_phase s) (code s) (thrown s) (aborted s) (remotes s) (enqueued s) (executed s) (ran s).
Definition set_quit (b : bool) s := set_flags (m_looping s) b (m_eventHandling s) (m_callingFuncs s) s.
Definition set_funcs (q : fqueue) s := mkEventLoop (m_looping s) (m_quit s) (m_eventHandling s)
  (m_callingFuncs s) q (m_funcOnQuit s) (m_wakeupFd s) (at_phase s) (code s) (thrown s)
  (aborted s) (remotes s) (enqueued s) (executed s) (ran s).
Definition set_onquit (q : fqueue) s := mkEventLoop (m_looping s) (m_quit s) (m_eventHandling s)
  (m_callingFuncs s) (m_funcs s) q (m_wakeupFd s) (at_phase s) (code s) (thrown s)
  (aborted s) (remotes s) (enqueued s) (executed s) (ran s).
Definition set_wakeup (c : Z) s := mkEventLoop (m_looping s) (m_quit s) (m_eventHandling s)
  (m_callingFuncs s) (m_funcs s) (m_funcOnQuit s) c (at_phase s) (code s) (thrown s)
  (aborted s) (remotes s) (enqueued s) (executed s) (ran s).
Definition set_phase (p : phase) (c : list act) s := mkEventLoop (m_looping s) (m_quit s)
  (m_eventHandling s) (m_callingFuncs s) (m_funcs s) (m_funcOnQuit s) (m_wakeupFd s) p c
  (thrown s) (aborted s) (remotes s) (enqueued s) (executed s) (ran s).
Definition set_thrown (b : bool) s := mkEventLoop (m_looping s) (m_quit s) (m_eventHandling s)
  (m_callingFuncs s) (m_funcs s) (m_funcOnQuit s) (m_wakeupFd s) (at_phase s) (code s) b
  (aborted s || b) (remotes s) (enqueued s) (executed s) (ran s).
Definition set_remotes (r : gmap nat remote) s := mkEventLoop (m_looping s) (m_quit s)
  (m_eventHandling s) (m_callingFuncs s) (m_funcs s) (m_funcOnQuit s) (m_wakeupFd s)
  (at_phase s) (code s) (thrown s) (aborted s) r (enqueued s) (executed s) (ran s).
Definition log_enqueued (f : functor) s := mkEventLoop (m_looping s) (m_quit s)
  (m_eventHandling s) (m_callingFuncs s) (m_funcs s) (m_funcOnQuit s) (m_wakeupFd s)
  (at_phase s) (code s) (thrown s) (aborted s) (remotes s) (enqueued s ++ [f]) (executed s) (ran s).
Definition log_executed (f : functor) s := mkEventLoop (m_looping s) (m_quit s)
  (m_eventHandling s) (m_callingFuncs s) (m_funcs s) (m_funcOnQuit s) (m_wakeupFd s)
  (at_phase s) (code s) (thrown s) (aborted s) (remotes s) (enqueued s) (executed s ++ [f]) (ran s).
(** What the code of a functor of [m_funcs] does is written down. *)
Definition log_ran (a : act) s := mkEventLoop (m_looping s) (m_quit s)
  (m_eventHandling s) (m_callingFuncs s) (m_funcs s) (m_funcOnQuit s) (m_wakeupFd s)
  (at_phase s) (code s) (thrown s) (aborted s) (remotes s) (enqueued s) (executed s)
  (match at_phase s with PFuncsDequeue => ran s ++ [a] | _ => ran s end).
End setters.

(** [wakeup]: a non-blocking write of 1; it has no effect when the counter is
    at its maximum.  [wakeupRead]: a read resets the counter. *)
Definition wakeup (s : EventLoop) : EventLoop :=
  set_wakeup (if m_wakeupFd s <? size_max - 2 then m_wakeupFd s + 1 else m_wakeupFd s) s.
Definition wakeupRead (s : EventLoop) : EventLoop := set_wakeup 0 s.

(** [isRunning] *)
Definition isRunning (s : EventLoop) : bool := m_looping s && negb (m_quit s).

(** ** Calls made in the loop thread

    An enqueue by the loop thread is linked before that thread, the only
    consumer, goes on. *)

Definition queueInLoop (f : functor) (s : EventLoop) : EventLoop :=
  let s := log_enqueued f (set_funcs (m_funcs s ++ [(f, None)]) s) in
  if m_looping s then s else wakeup s.

Definition runInLoop (f : functor) (s : EventLoop) : EventLoop :=
  set_phase (at_phase s) (f_code f ++ code s) s.

Definition runOnQuit (f : functor) (s : EventLoop) : EventLoop :=
  set_onquit (m_funcOnQuit s ++ [(f, None)]) s.

Definition quit (s : EventLoop) : EventLoop := if m_quit s then s else set_quit true s.

(** An exception: out of the [while] it goes to the functions on quit, with
    the flags cleared by the deferred calls; out of those, or outside of
    [loop], to the caller. *)
Definition throw (s : EventLoop) : EventLoop :=
  match at_phase s with
  | PIdle => set_phase PIdle [] s
  | PQuitFuncs => set_phase PIdle [] s
  | _ => set_thrown true (set_phase PQuitFuncs []
           (set_flags false (m_quit s) (m_eventHandling s) false s))
  end.

Definition run_act (a : act) (s : EventLoop) : EventLoop :=
  match a with
  | AQueueInLoop f => queueInLoop f s
  | ARunInLoop f => runInLoop f s
  | ARunOnQuit f => runOnQuit f s
  | AQuit => quit s
  | AThrow => throw s
  end.

(** ** [EventLoop::loop] *)

(** What [poll] reports: the wakeup channel only when the counter is not zero
    (it may be missing from a report: [epoll_wait] returns at most as many
    events as there is room for, and none when it is interrupted); the other
    channels depend on the world. *)
Definition poll_reports (s : EventLoop) (evs : list active) : Prop :=
  HWakeup ∈ evs -> 0 < m_wakeupFd s.

(** [EventLoop::doRunInLoopFuncs], from the test of [m_funcs.empty()] on. *)
Inductive funcs_step (s : EventLoop) : EventLoop -> Prop :=
  | func_empty : at_phase s = PFuncsEmpty -> code s = [] ->
      aq_step (m_funcs s) (EDequeue None) (m_funcs s) ->
      funcs_step s (set_phase PTop []
        (set_flags (m_looping s) (m_quit s) (m_eventHandling s) false s))
  | func_more : at_phase s = PFuncsEmpty -> code s = [] ->
      ~ aq_step (m_funcs s) (EDequeue None) (m_funcs s) ->
      funcs_step s (set_phase PFuncsDequeue [] s)
  | func_run f q : at_phase s = PFuncsDequeue -> code s = [] ->
      aq_step (m_funcs s) (EDequeue (Some f)) q ->
      funcs_step s (log_executed f (set_phase PFuncsDequeue (f_code f) (set_funcs q s)))
  | func_none : at_phase s = PFuncsDequeue -> code s = [] ->
      aq_step (m_funcs s) (EDequeue None) (m_funcs s) ->
      funcs_step s (set_phase PFuncsEmpty [] s).

(** A step of the loop thread. *)
Inductive loop_step (s : EventLoop) : EventLoop -> Prop :=
  (* code the loop thread runs outside of [loop] *)
  | loop_user c : at_phase s = PIdle -> code s = [] -> loop_step s (set_phase PIdle c s)
  | loop_act a c : code s = a :: c -> loop_step s (run_act a (log_ran a (set_phase (at_phase s) c s)))
  | loop_enter : at_phase s = PIdle -> code s = [] -> m_looping s = false ->
      loop_step s (set_phase PEnter []
        (set_flags true (m_quit s) (m_eventHandling s) (m_callingFuncs s) s))
  | loop_reset : at_phase s = PEnter -> code s = [] ->
      loop_step s (set_thrown false (set_phase PTop []
        (set_flags (m_looping s) false (m_eventHandling s) (m_callingFuncs s) s)))
  | loop_leave : at_phase s = PTop -> code s = [] -> m_quit s = true ->
      loop_step s (set_phase PQuitFuncs []
        (set_flags false (m_quit s) (m_eventHandling s) (m_callingFuncs s) s))
  | loop_poll : at_phase s = PTop -> code s = [] -> m_quit s = false -> loop_step s (set_phase PPoll [] s)
  | loop_events evs : at_phase s = PPoll -> code s = [] -> poll_reports s evs ->
      loop_step s (set_phase (PHandle evs) []
        (set_flags (m_looping s) (m_quit s) true (m_callingFuncs s) s))
  | loop_wakeup evs : at_phase s = PHandle (HWakeup :: evs) -> code s = [] ->
      loop_step s (set_phase (PHandle evs) [] (wakeupRead s))
  | loop_handle c evs : at_phase s = PHandle (HUser c :: evs) -> code s = [] ->
      loop_step s (set_phase (PHandle evs) c s)
  | loop_handled : at_phase s = PHandle [] -> code s = [] ->
      loop_step s (set_phase PFuncsEmpty []
        (set_flags (m_looping s) (m_quit s) false true s))
  | loop_funcs s' : funcs_step s s' -> loop_step s s'
  | loop_onquit f q : at_phase s = PQuitFuncs -> code s = [] ->
      aq_step (m_funcOnQuit s) (EDequeue (Some f)) q ->
      loop_step s (set_phase PQuitFuncs (f_code f) (set_onquit q s))
  | loop_return : at_phase s = PQuitFuncs -> code s = [] ->
      aq_step (m_funcOnQuit s) (EDequeue None) (m_funcOnQuit s) ->
      loop_step s (set_phase PIdle [] s).

(** ** Calls made in other threads *)

Inductive remote_step (s : EventLoop) : EventLoop -> Prop :=
  (* [queueInLoop], and [runInLoop], which forwards to it *)
  | remote_publish t f q : remotes s !! t = None ->
      aq_step (m_funcs s) (EPublish t f) q ->
      remote_step s (log_enqueued f (set_remotes (<[t := RFuncPublished]> (remotes s)) (set_funcs q s)))
  | remote_link t q : remotes s !! t = Some RFuncPublished ->
      aq_step (m_funcs s) (EReturn t) q ->
      remote_step s (set_remotes (<[t := RFuncLinked]> (remotes s)) (set_funcs q s))
  | remote_wakeup t : remotes s !! t = Some RFuncLinked ->
      remote_step s (set_remotes (delete t (remotes s)) (wakeup s))
  (* [runOnQuit] *)
  | remote_onquit_publish t f q : remotes s !! t = None ->
      aq_step (m_funcOnQuit s) (EPublish t f) q ->
      remote_step s (set_remotes (<[t := ROnQuitPublished]> (remotes s)) (set_onquit q s))
  | remote_onquit_link t q : remotes s !! t = Some ROnQuitPublished ->
      aq_step (m_funcOnQuit s) (EReturn t) q ->
      remote_step s (set_remotes (delete t (remotes s)) (set_onquit q s))
  (* [quit]; it returns at once when [m_quit] is set *)
  | remote_quit_load t : remotes s !! t = None -> m_quit s = false ->
      remote_step s (set_remotes (<[t := RQuitLoaded]> (remotes s)) s)
  | remote_quit_store t : remotes s !! t = Some RQuitLoaded ->
      remote_step s (set_remotes (<[t := RQuitStored]> (remotes s)) (set_quit true s))
  | remote_quit_wakeup t : remotes s !! t = Some RQuitStored ->
      remote_step s (set_remotes (delete t (remotes s)) (wakeup s)).

Definition el_step (s s' : EventLoop) : Prop := loop_step s s' \/ remote_step s s'.
Definition el_reachable (s : EventLoop) : Prop := rtc el_step EventLoop_new s.

(** ** Invariant *)

(** [loop] holds [m_looping] in these phases. *)
Definition in_loop (p : phase) : bool :=
  match p with PIdle | PQuitFuncs => false | _ => true end.

(** Phases in which the thread is between two rounds of functors: it can go to
    sleep in [poll] without looking at the queue again. *)
Definition may_sleep (p : phase) : bool :=
  match p with PIdle | PEnter | PTop | PPoll | PQuitFuncs => true | _ => false end.

(** Another thread is inside [queueInLoop]. *)
Definition queueing (s : EventLoop) : Prop :=
  exists t, remotes s !! t = Some RFuncPublished \/ remotes s !! t = Some RFuncLinked.
Definition quitting (s : EventLoop) : Prop :=
  exists t, remotes s !! t = Some RQuitStored.

(** What running an act comes to: [runInLoop] runs its functor on the spot. *)
Fixpoint all_of (a : act) : list act :=
  match a with
  | ARunInLoop (mkFunctor _ c) => a :: flat_map all_of c
  | _ => [a]
  end.

(** All that the code of functors comes to, in their order. *)
Definition work_of (fs : list functor) : list act := flat_map (fun f => flat_map all_of (f_code f)) fs.

(** What is left of the functor that runs. *)
Definition work_left (s : EventLoop) : list act :=
  match at_phase s with PFuncsDequeue => flat_map all_of (code s) | _ => [] end.

Record el_inv (s : EventLoop) : Prop := {
  ei_counter : 0 <= m_wakeupFd s;
  ei_looping : m_looping s = in_loop (at_phase s);
  ei_code : code s <> [] -> match at_phase s with PEnter | PTop | PPoll | PFuncsEmpty => False | _ => True end;
  ei_owner : forall f t, (f, Some t) ∈ m_funcs s -> remotes s !! t = Some RFuncPublished;
  ei_fifo : enqueued s = executed s ++ map fst (m_funcs s);
  ei_sleep : may_sleep (at_phase s) = true -> aborted s = false -> m_funcs s <> [] ->
    0 < m_wakeupFd s \/ queueing s;
  ei_quit : at_phase s = PPoll -> m_quit s = true -> 0 < m_wakeupFd s \/ quitting s;
  ei_ran : aborted s = false -> work_of (executed s) = ran s ++ work_left s
}.

Lemma wakeup_positive s : 0 <= m_wakeupFd s -> 0 < m_wakeupFd (wakeup s).
Proof. unfold wakeup, size_max. simpl. zcase; lia. Qed.

(** An empty-handed [dequeue]: the queue is empty or its head is not linked. *)
Lemma dequeue_none_cases s :
  el_inv s -> aq_step (m_funcs s) (EDequeue None) (m_funcs s) ->
  m_funcs s = [] \/ queueing s.
Proof.
  intros H Hq. inversion Hq as [| | |Hn|]; subst. destruct (m_funcs s) as [|[f [t|]] q] eqn:E.
  - by left.
  - right. exists t. left. apply (ei_owner _ H f). rewrite E. left.
  - by destruct (Hn f q).
Qed.

Lemma linked_append (q : fqueue) f g t :
  (g, Some t) ∈ q ++ [(f, None)] -> (g, Some t) ∈ q.
Proof. rewrite elem_of_app, list_elem_of_singleton. by intros [?|?]. Qed.

(** An act moves from what is left to what has been done. *)
Lemma all_of_act a c :
  flat_map all_of (a :: c) =
  a :: flat_map all_of (match a with ARunInLoop f => f_code f | _ => [] end ++ c).
Proof.
  destruct a as [|f| | |]; try done. destruct f as [i d]. simpl. by rewrite flat_map_app.
Qed.

(** What an act leaves alone, an exception apart. *)
Lemma run_act_frame a s :
  a <> AThrow ->
  executed (run_act a s) = executed s /\ aborted (run_act a s) = aborted s /\
  ran (run_act a s) = ran s /\ at_phase (run_act a s) = at_phase s /\
  code (run_act a s) = match a with ARunInLoop f => f_code f | _ => [] end ++ code s.
Proof.
  intros Ha. destruct a; try done; cbn [run_act].
  - unfold queueInLoop. by destruct (m_looping _).
  - unfold quit. by destruct (m_quit s).
Qed.

Lemma run_act_ran a c s :
  el_inv s -> code s = a :: c ->
  let s' := run_act a (log_ran a (set_phase (at_phase s) c s)) in
  aborted s' = false ->
  work_of (executed s') = ran s' ++ work_left s'.
Proof.
  intros H Hc s' Ha. pose proof (ei_ran _ H) as Hr. unfold s', work_left in *.
  assert (a = AThrow \/ a <> AThrow) as [->|Hne] by (destruct a; first [by left|by right]).
  { cbn in *. unfold throw in *. cbn in *. destruct (at_phase s) eqn:Ep; cbn in *; rewrite ?Ep, ?orb_true_r in *;
      cbn in *; try done; auto. }
  destruct (run_act_frame a (log_ran a (set_phase (at_phase s) c s)) Hne) as (E1 & E2 & E3 & E4 & E5).
  rewrite E1, E3, E4, E5. rewrite E2 in Ha. cbn [log_ran set_phase executed aborted ran at_phase code] in *. specialize (Hr Ha).
  destruct (at_phase s); auto. by rewrite Hr, Hc, all_of_act, <- app_assoc.
Qed.

Lemma run_act_inv a c s :
  el_inv s -> code s = a :: c -> el_inv (run_act a (log_ran a (set_phase (at_phase s) c s))).
Proof.
  intros H Hc. pose proof (run_act_ran a c s H Hc) as H8. destruct H as [H1 H2 H3 H4 H5 H6 H7 _].
  rewrite Hc in H3. specialize (H3 ltac:(done)). destruct a as [f|f|f| |]; cbn [run_act] in *.
  - assert (enqueued s ++ [f] = executed s ++ map fst (m_funcs s ++ [(f, None)])) as Hf.
    { rewrite H5, map_app, <- app_assoc. done. }
    unfold queueInLoop in *. cbn [log_enqueued set_funcs log_ran set_phase m_looping] in *.
    destruct (m_looping s) eqn:El.
    + constructor; simpl; eauto using linked_append; try (by destruct (at_phase s)).
    + pose proof (wakeup_positive s H1). constructor; simpl; eauto using linked_append.
      by apply Z.lt_le_incl.
  - constructor; simpl; auto.
  - constructor; simpl; auto.
  - unfold quit in *. cbn [log_ran set_phase m_quit] in *. destruct (m_quit s) eqn:Eq.
    + constructor; simpl; auto.
    + constructor; simpl; auto. intros Ep; by rewrite Ep in H3.
  - unfold throw in *. cbn [log_ran set_phase at_phase] in *. destruct (at_phase s) eqn:Ep; try done;
      constructor; simpl in *; auto; try done; by rewrite orb_true_r.
Qed.

(** The functor taken out of the queue is what is left to run. *)
Lemma func_run_ran s f :
  el_inv s -> at_phase s = PFuncsDequeue -> code s = [] -> aborted s = false ->
  work_of (executed s ++ [f]) = ran s ++ flat_map all_of (f_code f).
Proof.
  intros H Hp Hc Ha. pose proof (ei_ran _ H Ha) as Hr. unfold work_left in Hr. rewrite Hp, Hc in Hr.
  simpl in Hr. rewrite app_nil_r in Hr. unfold work_of in *. rewrite flat_map_app, Hr. simpl.
  by rewrite app_nil_r.
Qed.

Lemma idle_ran s :
  el_inv s -> code s = [] -> aborted s = false -> work_of (executed s) = ran s.
Proof.
  intros H Hc Ha. rewrite (ei_ran _ H Ha). unfold work_left. rewrite Hc. destruct (at_phase s); apply app_nil_r.
Qed.

Lemma loop_step_inv s s' : loop_step s s' -> el_inv s -> el_inv s'.
Proof.
  intros Hst H. destruct Hst as [c Hp Hc|a c Hc|Hp Hc Hl|Hp Hc|Hp Hc Hq|Hp Hc Hq|evs Hp Hc Hr|evs Hp Hc
    |c evs Hp Hc|Hp Hc|s' [Hp Hc Hq|Hp Hc Hq|f q Hp Hc Hq|Hp Hc Hq]|f q Hp Hc Hq|Hp Hc Hq];
    try (by apply run_act_inv); pose proof (dequeue_none_cases s H) as Hn;
    pose proof (idle_ran s H Hc) as Hi; try pose proof (func_run_ran s f H Hp Hc) as Hf;
    destruct H as [H1 H2 H3 H4 H5 H6 H7 _]; rewrite Hp in *;
    constructor; simpl; unfold work_left; simpl; rewrite ?orb_false_r, ?app_nil_r; auto; try done.
  - intros _ Hq'. by rewrite Hq in Hq'.
  - intros _ _ Hne. destruct (Hn Hq) as [?|?]; [done|by right].
  - inversion Hq; subst. intros g t Hg. apply (H4 g). match goal with E : m_funcs s = _ |- _ => rewrite E end. by right.
  - inversion Hq; subst. rewrite H5. match goal with E : m_funcs s = _ |- _ => rewrite E end. by rewrite <- app_assoc.
Qed.

(** A call of another thread makes progress; what the rest do stays. *)
Definition moves (t : nat) (s s' : EventLoop) : Prop :=
  forall u, u <> t -> remotes s' !! u = remotes s !! u.

Lemma queueing_moves t s s' :
  moves t s s' -> queueing s ->
  remotes s !! t <> Some RFuncPublished -> remotes s !! t <> Some RFuncLinked -> queueing s'.
Proof. intros Hm (u & Hu) H1 H2. exists u. rewrite Hm; [done|]. intros ->. naive_solver. Qed.

Lemma quitting_moves t s s' :
  moves t s s' -> quitting s -> remotes s !! t <> Some RQuitStored -> quitting s'.
Proof. intros Hm (u & Hu) H1. exists u. rewrite Hm; [done|]. by intros ->. Qed.

Lemma moves_insert t s (s' : EventLoop) r :
  remotes s' = <[t := r]> (remotes s) -> moves t s s'.
Proof. intros E u Hu. rewrite E. by apply lookup_insert_ne. Qed.

Lemma moves_delete t s (s' : EventLoop) : remotes s' = delete t (remotes s) -> moves t s s'.
Proof. intros E u Hu. rewrite E. by apply lookup_delete_ne. Qed.

Lemma owner_moves t s s' (q : fqueue) :
  moves t s s' -> remotes s !! t <> Some RFuncPublished ->
  (forall f u, (f, Some u) ∈ q -> remotes s !! u = Some RFuncPublished) ->
  forall f u, (f, Some u) ∈ q -> remotes s' !! u = Some RFuncPublished.
Proof. intros Hm Ht Hq f u Hu. rewrite Hm; [by apply (Hq f)|]. intros ->. by apply Ht, (Hq f). Qed.

(** A step that touches neither the functor queue nor [m_quit]. *)
Lemma moves_inv t s s' :
  el_inv s -> moves t s s' ->
  remotes s !! t <> Some RFuncPublished ->
  (remotes s !! t = Some RFuncLinked -> 0 < m_wakeupFd s') ->
  (remotes s !! t = Some RQuitStored -> 0 < m_wakeupFd s') ->
  m_wakeupFd s <= m_wakeupFd s' ->
  m_looping s' = m_looping s -> m_quit s' = m_quit s \/ remotes s' !! t = Some RQuitStored ->
  at_phase s' = at_phase s -> code s' = code s -> m_funcs s' = m_funcs s ->
  enqueued s' = enqueued s -> executed s' = executed s -> aborted s' = aborted s ->
  ran s' = ran s -> el_inv s'.
Proof.
  intros [H1 H2 H3 H4 H5 H6 H7 H8] Hm Ht Hl Hs Hw El Eq Ep Ec Ef Ee Ex Ea Er.
  constructor; unfold work_left; rewrite ?El, ?Ep, ?Ec, ?Ef, ?Ee, ?Ex, ?Ea, ?Er; auto; [lia|by eapply owner_moves| |].
  - intros Hp Ha Hf. destruct (H6 Hp Ha Hf) as [?|Hq]; [left; lia|].
    destruct (decide (remotes s !! t = Some RFuncLinked)) as [?|?]; [by auto|].
    right. by eapply queueing_moves.
  - intros Hp Hq'. destruct Eq as [Eq|Eq]; [|right; by exists t]. rewrite Eq in Hq'.
    destruct (H7 Hp Hq') as [?|Hq]; [left; lia|].
    destruct (decide (remotes s !! t = Some RQuitStored)) as [?|?]; [by auto|].
    right. by eapply quitting_moves.
Qed.

Lemma wakeup_le s : m_wakeupFd s <= m_wakeupFd (wakeup s).
Proof. unfold wakeup. simpl. zcase; lia. Qed.

(** A functor is enqueued by another thread. *)
Lemma publish_inv s t f q :
  el_inv s -> remotes s !! t = None -> aq_step (m_funcs s) (EPublish t f) q ->
  el_inv (log_enqueued f (set_remotes (<[t := RFuncPublished]> (remotes s)) (set_funcs q s))).
Proof.
  intros [H1 H2 H3 H4 H5 H6 H7 H8] Ht Hq. inversion Hq; subst. constructor; simpl; auto.
  - intros g u. unfold aq_publish. rewrite elem_of_app, list_elem_of_singleton.
    intros [Hin|[= -> ->]]; [|by simplify_map_eq].
    rewrite lookup_insert_ne; [eauto|]. intros ->. rewrite (H4 _ _ Hin) in Ht. done.
  - rewrite H5. unfold aq_publish. rewrite map_app, <- app_assoc. done.
  - intros _ _ _. right. exists t. left. by simplify_map_eq.
  - intros Hp Hqt. destruct (H7 Hp Hqt) as [?|Hqu]; [by left|]. right.
    eapply quitting_moves; [|done|by rewrite Ht]. by eapply moves_insert.
Qed.

Lemma link_inv s t q :
  el_inv s -> remotes s !! t = Some RFuncPublished -> aq_step (m_funcs s) (EReturn t) q ->
  el_inv (set_remotes (<[t := RFuncLinked]> (remotes s)) (set_funcs q s)).
Proof.
  intros [H1 H2 H3 H4 H5 H6 H7 H8] Ht Hq. inversion Hq; subst. constructor; simpl; auto.
  - intros g u ([h o] & Ho & Hin)%list_elem_of_fmap. unfold unlink in Ho. simpl in Ho.
    case_bool_decide as Hb; [done|]. injection Ho as <- <-.
    rewrite lookup_insert_ne by congruence. by apply (H4 g).
  - rewrite H5, map_map. f_equal. apply map_ext. intros i. unfold unlink. by case_bool_decide.
  - intros _ _ _. right. exists t. right. by simplify_map_eq.
  - intros Hp Hqt. destruct (H7 Hp Hqt) as [?|Hqu]; [by left|]. right.
    eapply quitting_moves; [|done|by rewrite Ht]. by eapply moves_insert.
Qed.

Lemma remote_step_inv s s' : remote_step s s' -> el_inv s -> el_inv s'.
Proof.
  intros Hst H. pose proof (ei_counter _ H) as H0.
  pose proof (wakeup_positive s H0) as Hw. pose proof (wakeup_le s) as Hle.
  destruct Hst as [t f q Ht Hq|t q Ht Hq|t Ht|t f q Ht Hq|t q Ht Hq|t Ht Hf|t Ht|t Ht];
    [by apply publish_inv|by apply link_inv|..];
    (eapply (moves_inv t s); [done|first [by eapply moves_insert|by eapply moves_delete]|..];
     rewrite ?Ht; try done; try (by left)).
  right. simpl. apply lookup_insert_eq.
Qed.

Lemma el_reachable_inv s : el_reachable s -> el_inv s.
Proof.
  intros Hr. apply (rtc_invariant el_step el_inv _ _) in Hr; [done| |].
  - intros a b [Hs|Hs]; [by apply loop_step_inv | by apply remote_step_inv].
  - constructor; simpl; try done; try lia. set_solver.
Qed.

(** ** After [quit] *)

(** While [loop] runs, nothing resets [m_quit]; so it does not poll again. *)
Definition will_leave (s : EventLoop) : Prop :=
  at_phase s <> PIdle /\ at_phase s <> PEnter /\ at_phase s <> PPoll /\
  (in_loop (at_phase s) = true -> m_quit s = true).

Lemma run_act_quit a s :
  will_leave s ->
  at_phase (run_act a s) <> PIdle -> will_leave (run_act a s).
Proof.
  intros (H1 & H0 & H2 & H3) Hn. destruct a; cbn [run_act] in *.
  - unfold queueInLoop, will_leave. by destruct (m_looping _).
  - done.
  - done.
  - unfold quit, will_leave. destruct (m_quit s) eqn:E; simpl; auto.
  - unfold throw, will_leave in *. destruct (at_phase s); simpl in *; done.
Qed.

Lemma will_leave_step s s' :
  el_step s s' -> at_phase s' <> PIdle -> will_leave s -> will_leave s'.
Proof.
  intros [Hs|Hs] Hn H.
  - destruct Hs as [| | | | | | | | | |s' Hs| |]; try (by apply run_act_quit); try destruct Hs; destruct H as (? & ? & ? & Hq); unfold will_leave in *;
      simpl in *; repeat match goal with E : at_phase s = _ |- _ => rewrite E in * end; simpl in *;
      split_and!; naive_solver congruence.
  - destruct H as (? & ? & ? & Hq). destruct Hs; unfold will_leave; simpl; auto.
Qed.

(** ** The loop of a thread

    [t_loopInThisThread], one pointer per thread, and per loop [m_tid] and the
    thread whose pointer [m_threadLocalLoopPtr] designates. *)

Record registry := mkRegistry {
  t_loopInThisThread : gmap nat nat;
  loops : gmap nat (nat * nat)
}.

(** [EventLoop::EventLoop] in thread [cur]; aborts if the thread has a loop. *)
Definition construct (l cur : nat) (r : registry) : res registry :=
  match t_loopInThisThread r !! cur with
  | Some _ => Fail AssertFailed
  | None => Ok (mkRegistry (<[cur := l]> (t_loopInThisThread r)) (<[l := (cur, cur)]> (loops r)))
  end.

(** [EventLoop::moveToCurrentThread]; [exit] is a fault. *)
Definition moveToCurrentThread (running : bool) (l cur : nat) (r : registry) : res registry :=
  match loops r !! l with
  | None => Fail UseAfterFree
  | Some (tid, ptr) =>
      if running then Fail AssertFailed
      else if bool_decide (tid = cur) then Ok r
      else match t_loopInThisThread r !! cur with
           | Some _ => Fail AssertFailed
           | None => Ok (mkRegistry (<[cur := l]> (delete ptr (t_loopInThisThread r)))
                           (<[l := (cur, cur)]> (loops r)))
           end
  end.

(** [EventLoop::~EventLoop] in thread [cur]: it clears the pointer of the
    thread it runs in. *)
Definition destruct_loop (l cur : nat) (r : registry) : registry :=
  mkRegistry (delete cur (t_loopInThisThread r)) (delete l (loops r)).

(** Each loop is the loop of its thread, and no pointer dangles. *)
Record registry_ok (r : registry) : Prop := {
  ro_loops : forall l tid ptr, loops r !! l = Some (tid, ptr) ->
    ptr = tid /\ t_loopInThisThread r !! tid = Some l;
  ro_threads : forall t l, t_loopInThisThread r !! t = Some l -> loops r !! l = Some (t, t)
}.

Lemma construct_ok l cur r r' :
  registry_ok r -> loops r !! l = None -> construct l cur r = Ok r' -> registry_ok r'.
Proof.
  intros [H1 H2] Hl. unfold construct. destruct (_ !! cur) eqn:Ec; intros [= <-].
  constructor; simpl.
  - intros k tid ptr [[<- [= <- <-]]|[Hne Hk]]%lookup_insert_Some; [by simplify_map_eq|].
    destruct (H1 _ _ _ Hk) as [-> Ht]. split; [done|]. rewrite lookup_insert_ne by congruence. done.
  - intros t k [[<- <-]|[Hne Hk]]%lookup_insert_Some; [by simplify_map_eq|].
    rewrite lookup_insert_ne by (intros ->; apply H2 in Hk; congruence). auto.
Qed.

Lemma move_ok running l cur r r' :
  registry_ok r -> moveToCurrentThread running l cur r = Ok r' ->
  registry_ok r' /\ running = false /\ loops r' !! l = Some (cur, cur).
Proof.
  intros H. pose proof H as [H1 H2]. unfold moveToCurrentThread.
  destruct (loops r !! l) as [[tid ptr]|] eqn:El; [|done].
  destruct (H1 _ _ _ El) as [-> Ht]. destruct running; [done|].
  case_bool_decide as Hc; [intros [= <-]; by subst|].
  destruct (_ !! cur) eqn:Ec; intros [= <-]. split; [|by simplify_map_eq].
  constructor; simpl.
  - intros k t p [[<- [= <- <-]]|[Hne Hk]]%lookup_insert_Some; [by simplify_map_eq|].
    destruct (H1 _ _ _ Hk) as [-> Hkt]. split; [done|].
    rewrite lookup_insert_ne by congruence. rewrite lookup_delete_ne by congruence. done.
  - intros t k [[<- <-]|[Hne [Hne' Hk]%lookup_delete_Some]]%lookup_insert_Some; [by simplify_map_eq|].
    rewrite lookup_insert_ne; [by auto|]. intros ->. apply H2 in Hk. congruence.
Qed.

Lemma destruct_ok l cur r :
  registry_ok r -> loops r !! l = Some (cur, cur) -> registry_ok (destruct_loop l cur r).
Proof.
  intros [H1 H2] Hl. constructor; simpl.
  - intros k t p [Hne Hk]%lookup_delete_Some. destruct (H1 _ _ _ Hk) as [-> Hkt].
    destruct (H1 _ _ _ Hl) as [_ Hlt]. split; [done|]. rewrite lookup_delete_ne; [done|].
    intros <-. congruence.
  - intros t k [Hne Hk]%lookup_delete_Some. rewrite lookup_delete_ne; [by auto|].
    intros <-. apply H2 in Hk. congruence.
Qed.

(** ** Timers through the loop *)

(** [EventLoop::cancelTimer], in the loop thread: ignored unless running. *)
Definition EventLoop_cancelTimer {Q} (s : EventLoop) (id : Z) (tq : @TimerQueue.TimerQueue Q) :=
  if isRunning s then TimerQueue.cancelTimer id tq else tq.

(** ** Properties *)

(** C2. No wakeup is lost, in any interleaving in which no exception has left
    an iteration before.  When the loop thread sleeps in [poll] with nothing in
    the eventfd: the code of every functor taken out of the queue has been run
    to its end; a functor can only wait in the queue if another thread is
    still inside [queueInLoop], and so will wake the loop; [m_quit] can only be
    set if another thread is still inside [quit], between its store and its
    [wakeup].  So once the other threads' calls have returned, all the code of
    all functors ever queued has been run, in their order, and [m_quit] is not
    set. *)
Theorem no_lost_wakeup s :
  el_reachable s -> at_phase s = PPoll -> m_wakeupFd s = 0 -> aborted s = false ->
  ran s = work_of (executed s) /\
  (m_funcs s <> [] -> queueing s) /\ (m_quit s = true -> quitting s) /\
  (remotes s = ∅ -> m_funcs s = [] /\ enqueued s = executed s /\ ran s = work_of (enqueued s) /\
     m_quit s = false).
Proof.
  intros Hr Hp Hw Ha. pose proof (el_reachable_inv s Hr) as [H1 H2 H3 H4 H5 H6 H7 H8].
  rewrite Hp in H6. assert (ran s = work_of (executed s)) as Hd.
  { rewrite (H8 Ha). unfold work_left. by rewrite Hp, app_nil_r. }
  assert (m_funcs s <> [] -> queueing s) as Hf.
  { intros Hf. destruct (H6 eq_refl Ha Hf); [lia|done]. }
  assert (m_quit s = true -> quitting s) as Hq.
  { intros Hq. destruct (H7 Hp Hq); [lia|done]. }
  split_and!; [done|done|done|]. intros He. assert (m_funcs s = []) as E.
  { destruct (m_funcs s); [done|]. destruct (Hf ltac:(done)) as (t & Ht). rewrite He in Ht. set_solver. }
  assert (enqueued s = executed s) as Ee by (by rewrite H5, E, app_nil_r).
  split_and!; [done|done|by rewrite Ee|].
  destruct (m_quit s); [|done]. destruct (Hq eq_refl) as (t & Ht). by rewrite He in Ht.
Qed.

(** A functor queued from another thread, executed, and the loop asleep. *)
Definition one_functor : functor := mkFunctor 1 [ARunInLoop (mkFunctor 3 [ARunOnQuit (mkFunctor 4 [])])].
Definition asleep_after_one : EventLoop :=
  mkEventLoop true false false false [] [(mkFunctor 4 [], None)] 0 PPoll [] false false ∅
    [one_functor] [one_functor]
    [ARunInLoop (mkFunctor 3 [ARunOnQuit (mkFunctor 4 [])]); ARunOnQuit (mkFunctor 4 [])].

Ltac el_run tac := eapply rtc_l; [tac|].

Lemma aq_take_head {A} (x : A) q : aq_step ((x, None) :: q) (EDequeue (Some x)) q.
Proof. by constructor. Qed.
Lemma aq_empty {A} : @aq_step A [] (EDequeue None) [].
Proof. by constructor. Qed.

Lemma asleep_after_one_reachable : el_reachable asleep_after_one.
Proof.
  el_run ltac:(left; apply loop_enter; done). el_run ltac:(left; apply loop_reset; done).
  el_run ltac:(left; apply loop_poll; done).
  el_run ltac:(right; apply (remote_publish _ 1 one_functor); [done|constructor; set_solver]).
  el_run ltac:(right; apply (remote_link _ 1); [done|eapply aq_step_return; left]).
  el_run ltac:(right; apply (remote_wakeup _ 1); done).
  el_run ltac:(left; apply (loop_events _ [HWakeup]); [done|done|done]).
  el_run ltac:(left; eapply loop_wakeup; done).
  el_run ltac:(left; eapply loop_handled; done).
  el_run ltac:(left; eapply loop_funcs, func_more; [done|done|inversion 1; naive_solver]).
  el_run ltac:(left; eapply loop_funcs, func_run; [done|done|apply aq_take_head]).
  el_run ltac:(left; eapply loop_act; done). el_run ltac:(left; eapply loop_act; done).
  el_run ltac:(left; eapply loop_funcs, func_none; [done|done|apply aq_empty]).
  el_run ltac:(left; eapply loop_funcs, func_empty; [done|done|apply aq_empty]).
  el_run ltac:(left; eapply loop_poll; done).
  apply rtc_refl.
Qed.

Lemma no_lost_wakeup_witness :
  ran asleep_after_one = work_of (executed asleep_after_one) /\
  (m_funcs asleep_after_one <> [] -> queueing asleep_after_one) /\
  (m_quit asleep_after_one = true -> quitting asleep_after_one) /\
  (remotes asleep_after_one = ∅ -> m_funcs asleep_after_one = [] /\
     enqueued asleep_after_one = executed asleep_after_one /\
     ran asleep_after_one = work_of (enqueued asleep_after_one) /\ m_quit asleep_after_one = false).
Proof.
  apply (no_lost_wakeup asleep_after_one); [exact asleep_after_one_reachable|reflexivity..].
Defined.

(** C18. Functors run in the order in which they were enqueued, each exactly
    once, whichever threads enqueue them: those executed followed by those
    waiting are those ever enqueued; and, as long as no exception has left an
    iteration, what the loop thread has done on behalf of functors followed by
    what is left of the running one is all the code of the executed ones, in
    order.  And [m_looping] tells the truth. *)
Theorem functors_fifo s :
  el_reachable s ->
  enqueued s = executed s ++ map fst (m_funcs s) /\
  (aborted s = false -> work_of (executed s) = ran s ++ work_left s) /\
  m_looping s = in_loop (at_phase s).
Proof. intros Hr. by pose proof (el_reachable_inv s Hr) as []. Qed.

Lemma functors_fifo_witness :
  enqueued asleep_after_one = executed asleep_after_one ++ map fst (m_funcs asleep_after_one) /\
  (aborted asleep_after_one = false ->
   work_of (executed asleep_after_one) = ran asleep_after_one ++ work_left asleep_after_one) /\
  m_looping asleep_after_one = in_loop (at_phase asleep_after_one).
Proof. apply (functors_fifo asleep_after_one). exact asleep_after_one_reachable. Defined.

(** Once [m_quit] is set while [loop] runs an iteration, the loop does not
    poll again before it returns, whatever the threads do: [poll] is reachable
    only by calling [loop] anew. *)
Theorem quit_is_final s s' :
  in_loop (at_phase s) = true -> at_phase s <> PEnter -> at_phase s <> PPoll -> m_quit s = true ->
  rtc (fun a b => el_step a b /\ at_phase b <> PIdle) s s' -> at_phase s' <> PPoll.
Proof.
  intros Hl He Hp Hq Hr. assert (will_leave s) as H.
  { split_and!; [by destruct (at_phase s)|done|done|done]. }
  assert (will_leave s') as (_ & _ & ? & _); [|done].
  refine (rtc_invariant _ will_leave _ _ _ Hr H). intros a b [Hab Hb]. by apply will_leave_step.
Qed.

Definition quitting_loop : EventLoop :=
  mkEventLoop true true false false [] [] 0 (PHandle []) [] false false ∅ [] [] [].

Lemma quit_is_final_witness : at_phase (set_phase PFuncsEmpty [] quitting_loop) <> PPoll.
Proof.
  assert (at_phase (set_phase PFuncsEmpty []
    (set_flags true true false true quitting_loop)) <> PPoll); [|done].
  apply (quit_is_final quitting_loop); [reflexivity|discriminate|discriminate|reflexivity|].
  apply rtc_once. split; [left; by apply loop_handled|discriminate].
Defined.

(** The loop sleeps although [quit] returned before [loop] began. *)
Definition asleep_after_quit : EventLoop :=
  mkEventLoop true false false false [] [] 0 PPoll [] false false ∅ [] [] [].

(** A [quit] that returns before [loop] is called is lost: [loop] resets
    [m_quit].  (A thread that wants to stop the loop has to know that it has
    started, as [EventLoopThread::run] does by waiting for a first functor.) *)
Theorem quit_before_loop_lost :
  exists s0, rtc remote_step EventLoop_new s0 /\ m_quit s0 = true /\ remotes s0 = ∅ /\
    rtc loop_step s0 asleep_after_quit.
Proof.
  eexists. split.
  { eapply rtc_l; [apply (remote_quit_load _ 1); done|].
    eapply rtc_l; [apply (remote_quit_store _ 1); done|].
    eapply rtc_l; [apply (remote_quit_wakeup _ 1); done|]. apply rtc_refl. }
  split_and!; [done|done|].
  eapply rtc_l; [apply loop_enter; done|]. eapply rtc_l; [apply loop_reset; done|]. eapply rtc_l; [apply loop_poll; done|].
  eapply rtc_l; [apply (loop_events _ [HWakeup]); [done|done|done]|].
  eapply rtc_l; [eapply loop_wakeup; done|]. eapply rtc_l; [eapply loop_handled; done|].
  eapply rtc_l; [eapply loop_funcs, func_empty; [done|done|apply aq_empty]|].
  eapply rtc_l; [eapply loop_poll; done|]. apply rtc_refl.
Qed.

Definition throwing : functor := mkFunctor 2 [AThrow].

(** The loop sleeps on a functor that is ready. *)
Definition asleep_on_functor : EventLoop :=
  mkEventLoop true false false false [(one_functor, None)] [] 0 PPoll [] false true ∅
    [throwing; one_functor] [throwing] [AThrow].

(** Without that proviso wakeups are lost: a functor that throws out of
    [loop] leaves the functors behind it in the queue with the eventfd already
    read, and a [loop] called again sleeps on them. *)
Theorem exception_loses_wakeup :
  el_reachable asleep_on_functor /\ remotes asleep_on_functor = ∅ /\
  at_phase asleep_on_functor = PPoll /\ m_wakeupFd asleep_on_functor = 0 /\
  map fst (m_funcs asleep_on_functor) = [one_functor].
Proof.
  split; [|done].
  el_run ltac:(left; apply (loop_user _ [AQueueInLoop throwing; AQueueInLoop one_functor]); done).
  el_run ltac:(left; eapply loop_act; done). el_run ltac:(left; eapply loop_act; done).
  el_run ltac:(left; apply loop_enter; done). el_run ltac:(left; apply loop_reset; done). el_run ltac:(left; apply loop_poll; done).
  el_run ltac:(left; apply (loop_events _ [HWakeup]); [done|done|done]).
  el_run ltac:(left; eapply loop_wakeup; done). el_run ltac:(left; eapply loop_handled; done).
  el_run ltac:(left; eapply loop_funcs, func_more; [done|done|inversion 1; naive_solver]).
  el_run ltac:(left; eapply loop_funcs, func_run; [done|done|apply aq_take_head]).
  el_run ltac:(left; eapply loop_act; done).
  el_run ltac:(left; eapply loop_return; [done|done|apply aq_empty]).
  el_run ltac:(left; apply loop_enter; done). el_run ltac:(left; apply loop_reset; done). el_run ltac:(left; eapply loop_poll; done).
  apply rtc_refl.
Qed.

(** A loop's life, with a destructor that runs in the loop's own thread. *)
Inductive reg_step (r : registry) : registry -> Prop :=
  | reg_construct l cur r' : loops r !! l = None -> construct l cur r = Ok r' -> reg_step r r'
  | reg_move running l cur r' : moveToCurrentThread running l cur r = Ok r' -> reg_step r r'
  | reg_destruct l cur : loops r !! l = Some (cur, cur) -> reg_step r (destruct_loop l cur r).

(** One loop per thread: however loops are made, moved between threads and
    destroyed in their threads, a thread's pointer designates a living loop
    that belongs to this thread, every loop is its thread's, and two loops
    never share a thread.  A destructor that runs in another thread breaks
    this: the owner's pointer dangles. *)
Theorem one_loop_per_thread :
  (forall r, rtc reg_step (mkRegistry ∅ ∅) r -> registry_ok r /\
     forall l l' t p p', loops r !! l = Some (t, p) -> loops r !! l' = Some (t, p') -> l = l') /\
  (exists r, rtc reg_step (mkRegistry ∅ ∅) r /\
     t_loopInThisThread (destruct_loop 7 2 r) !! 1%nat = Some 7%nat /\
     loops (destruct_loop 7 2 r) !! 7%nat = None).
Proof.
  split.
  - intros r Hr. assert (registry_ok r) as H.
    { refine (rtc_invariant _ registry_ok _ _ _ Hr _); [|by constructor].
      intros a b [l cur r' Hl Hc|running l cur r' Hm|l cur Hl] Ha;
        [by eapply construct_ok|by eapply move_ok|by apply destruct_ok]. }
    split; [done|]. intros l l' t p p' Hl Hl'.
    destruct (ro_loops _ H _ _ _ Hl) as [_ E], (ro_loops _ H _ _ _ Hl') as [_ E']. congruence.
  - eexists. split; [apply rtc_once, (reg_construct _ 7 1); reflexivity|]. by vm_compute.
Qed.

(** A timer cancelled through the loop while it is not running (before
    [loop], or after [quit]) still fires. *)
Theorem cancel_before_loop_ignored :
  exists id tq, addTimer ms_clock (fun _ => []) 500 0 Normal TimerQueue_new = (id, tq) /\
    isRunning EventLoop_new = false /\
    (exists tq', handleRead ms_clock (EventLoop_cancelTimer EventLoop_new id tq) = Ok tq' /\
       fired tq' = [id]) /\
    (exists tq', handleRead ms_clock (EventLoop_cancelTimer quitting_loop id tq) = Ok tq' /\
       fired tq' = [id]) /\
    (exists tq', handleRead ms_clock (EventLoop_cancelTimer asleep_after_quit id tq) = Ok tq' /\
       fired tq' = []).
Proof.
  eexists _, _. split; [reflexivity|]. split; [reflexivity|].
  split_and!; (eexists; split; [vm_compute; reflexivity|vm_compute; reflexivity]).
Qed.
