(* ===== verification/EventLoopThread.v ===== *)
(** * Loop threads and pools: [netpoll/net/eventloop_thread.{h,cc}],
      [eventloop_threadpool.{h,cc}]

    [EventLoopThread] starts a thread with an event loop; owner and worker
    synchronise by three promises.  The protocol has finitely many states: it
    is given by an executable successor function, and its properties are
    checked on all states it can reach. *)

From S2P Require Import Prelude.

(** ** The protocol *)

(** The worker, [EventLoopThread::threadWorker]. *)
Inductive worker :=
  | WConstruct        (* [EventLoop loop; loop.queueInLoop(...)] *)
  | WSetPointer       (* [m_promiseForLoopPointer.set_value(&loop)] *)
  | WWaitRun          (* [m_promiseForRun.get_future().get()] *)
  | WEnter            (* [loop()]: [m_quit.store(false)] *)
  | WTop              (* the test of [m_quit] *)
  | WPoll             (* asleep until the eventfd is written; the timeout is left out *)
  | WFuncs            (* the queued functors run *)
  | WClear            (* [m_loop.store(nullptr)] *)
  | WDestroy          (* the loop goes out of scope *)
  | WDone.

(** The owner: construction, [run] (by the user, or in the destructor), the
    destructor. *)
Inductive owner :=
  | OWaitPointer      (* the constructor waits for the loop *)
  | OReady
  | OSetRun           (* [run]: [m_promiseForRun.set_value()] *)
  | OWaitLoop         (* [run]: [m_promiseForLoop.get_future().get()] *)
  | ORan
  | OLoad             (* the destructor: [m_loop.load()] *)
  | OQuitLoad         (* [loop->quit()]: [m_quit.load()] *)
  | OQuitStore
  | OWakeup
  | OJoin
  | ODone.

Record thread_state := mkThread {
  w : worker;
  o : owner;
  pointer_set : bool;     (* [m_promiseForLoopPointer] *)
  run_set : bool;         (* [m_promiseForRun] *)
  loop_set : bool;        (* [m_promiseForLoop] *)
  m_loop : bool;          (* [m_loop] is not null *)
  alive : bool;           (* the [EventLoop] object exists *)
  quit_flag : bool;       (* its [m_quit] *)
  eventfd : bool;         (* its eventfd is readable *)
  queued : bool;          (* the functor that sets [m_promiseForLoop] waits *)
  fault_ : option owner   (* the owner used a loop that is gone, and where *)
}.

#[global] Instance worker_eq_dec : EqDecision worker.
Proof. solve_decision. Defined.
#[global] Instance owner_eq_dec : EqDecision owner.
Proof. solve_decision. Defined.
#[global] Instance thread_state_eq_dec : EqDecision thread_state.
Proof. solve_decision. Defined.

Definition thread_new : thread_state :=
  mkThread WConstruct OWaitPointer false false false false false false false false None.

(** [self_quit]: some functor or handler of the loop may call [quit]. *)
Definition worker_next (self_quit : bool) (s : thread_state) : list thread_state :=
  let '(mkThread w o ps rs ls ml al q ev qd f) := s in
  match w with
  | WConstruct => [mkThread WSetPointer o ps rs ls ml true q true true f]
  | WSetPointer => [mkThread WWaitRun o true rs ls ml al q ev qd f]
  | WWaitRun => if rs then [mkThread WEnter o ps rs ls ml al q ev qd f] else []
  | WEnter => [mkThread WTop o ps rs ls ml al false ev qd f]
  | WTop => [mkThread (if q then WClear else WPoll) o ps rs ls ml al q ev qd f]
  | WPoll => if ev then [mkThread WFuncs o ps rs ls ml al q false qd f] else []
  | WFuncs =>
      mkThread WTop o ps rs (ls || qd) ml al q ev false f ::
      (if self_quit then [mkThread WTop o ps rs (ls || qd) ml al true ev false f] else [])
  | WClear => [mkThread WDestroy o ps rs ls false al q ev qd f]
  | WDestroy => [mkThread WDone o ps rs ls ml false q ev qd f]
  | WDone => []
  end.

(** [EventLoopThread::run]: only the first call ([std::call_once]) does this. *)
Definition run_next (s : thread_state) : list thread_state :=
  let '(mkThread w o ps rs ls ml al q ev qd f) := s in
  match o with
  | OSetRun => [mkThread w OWaitLoop ps true ls ml al q ev qd f]
  | OWaitLoop => if ls then [mkThread w ORan ps rs ls ml al q ev qd f] else []
  | _ => []
  end.

(** An access of the owner to the loop. *)
Definition uses (alive : bool) (o : owner) (f : option owner) : option owner := if alive then f else Some o.

(** The constructor and the destructor; the user may call [run] in between, the
    destructor calls it anyway. *)
Definition owner_next (s : thread_state) : list thread_state :=
  let '(mkThread w o ps rs ls ml al q ev qd f) := s in
  match o with
  | OWaitPointer => if ps then [mkThread w OReady ps rs ls true al q ev qd f] else []
  | OReady => [mkThread w OSetRun ps rs ls ml al q ev qd f]
  | OSetRun | OWaitLoop => run_next s
  | ORan => [mkThread w OLoad ps rs ls ml al q ev qd f]
  | OLoad => [mkThread w (if ml then OQuitLoad else OJoin) ps rs ls ml al q ev qd f]
  | OQuitLoad =>
      [mkThread w (if q then OJoin else OQuitStore) ps rs ls ml al q ev qd (uses al OQuitLoad f)]
  | OQuitStore => [mkThread w OWakeup ps rs ls ml al true ev qd (uses al OQuitStore f)]
  | OWakeup => [mkThread w OJoin ps rs ls ml al q true qd (uses al OWakeup f)]
  | OJoin => match w with WDone => [mkThread w ODone ps rs ls ml al q ev qd f] | _ => [] end
  | ODone => []
  end.

(** What comes next; after the use of a loop that is gone nothing is defined. *)
Definition thread_next (self_quit : bool) (s : thread_state) : list thread_state :=
  match fault_ s with
  | None => worker_next self_quit s ++ owner_next s
  | Some _ => []
  end.

Definition thread_step (self_quit : bool) (s s' : thread_state) : Prop :=
  s' ∈ thread_next self_quit s.

Definition finished (s : thread_state) : bool :=
  bool_decide (w s = WDone /\ o s = ODone).

(** ** Exhaustive checks *)

(** Every run from [s] ends, within [fuel] steps, in a state where [ok] holds,
    and passes only through states where [inv] holds. *)
Fixpoint all_runs (next : thread_state -> list thread_state)
    (inv ok : thread_state -> bool) (fuel : nat) (s : thread_state) : bool :=
  inv s &&
  match next s with
  | [] => ok s
  | l => match fuel with O => false | S fuel => forallb (all_runs next inv ok fuel) l end
  end.

Lemma all_runs_step next inv ok fuel s s' :
  all_runs next inv ok (S fuel) s = true -> s' ∈ next s -> all_runs next inv ok fuel s' = true.
Proof.
  cbn [all_runs]. intros [_ H]%andb_true_iff Hs. destruct (next s) as [|x l]; [set_solver|].
  rewrite forallb_forall in H. apply H. by apply list_elem_of_In.
Qed.

Lemma all_runs_nsteps next inv ok fuel s k s' :
  all_runs next inv ok fuel s = true -> nsteps (fun a b => b ∈ next a) k s s' ->
  (k <= fuel)%nat /\ all_runs next inv ok (fuel - k) s' = true.
Proof.
  intros H Hn. revert fuel H. induction Hn as [s|k s s1 s' Hs _ IH]; intros fuel H.
  - rewrite Nat.sub_0_r. split; [lia|done].
  - destruct fuel as [|fuel].
    { cbn [all_runs] in H. apply andb_true_iff in H as [_ H]. by destruct (next s); [set_solver|]. }
    destruct (IH _ (all_runs_step _ _ _ _ _ _ H Hs)). split; [lia|done].
Qed.

(** ** [EventLoopThreadPool] *)

Section pool.
Context {L : Type}.

Record EventLoopThreadPool := mkPool {
  m_loopThreadList : list L;
  m_loopIndex : Z
}.

Definition pool_new (threads : list L) : EventLoopThreadPool := mkPool threads 0.

(** [EventLoopThreadPool::getNextLoop]; [operator[]] is unchecked. *)
Definition getNextLoop (p : EventLoopThreadPool) : res (option L * EventLoopThreadPool) :=
  if bool_decide (m_loopThreadList p = []) then Ok (None, p)
  else match m_loopThreadList p !! Z.to_nat (m_loopIndex p) with
       | None => Fail OutOfBounds
       | Some loop =>
           let i := m_loopIndex p ⊞ 1 in
           let i := if Z.of_nat (length (m_loopThreadList p)) <=? i then 0 else i in
           Ok (Some loop, mkPool (m_loopThreadList p) i)
       end.

Definition getLoop (id : Z) (p : EventLoopThreadPool) : option L :=
  if id <? Z.of_nat (length (m_loopThreadList p)) then m_loopThreadList p !! Z.to_nat id else None.

Definition getLoops (p : EventLoopThreadPool) : list L := m_loopThreadList p.

(** [k] calls in a row. *)
Fixpoint getNextLoops (k : nat) (p : EventLoopThreadPool) : res (list (option L)) :=
  match k with
  | O => Ok []
  | S k => '(l, p) ← getNextLoop p; ls ← getNextLoops k p; Ok (l :: ls)
  end.

Lemma getNextLoop_spec (ts : list L) i :
  ts <> [] -> 0 <= i < Z.of_nat (length ts) -> Z.of_nat (length ts) < size_max ->
  getNextLoop (mkPool ts i) = Ok (ts !! Z.to_nat i, mkPool ts ((i + 1) mod Z.of_nat (length ts))).
Proof.
  intros Hne Hi Hm. unfold getNextLoop. cbn [m_loopThreadList m_loopIndex].
  rewrite bool_decide_false by done.
  destruct (lookup_lt_is_Some_2 ts (Z.to_nat i)) as [x Hx]; [lia|]. rewrite Hx.
  rewrite wrap64_small by lia. do 2 f_equal. f_equal.
  destruct (Z.leb_spec (Z.of_nat (length ts)) (i + 1)).
  - replace (i + 1) with (Z.of_nat (length ts)) by lia. by rewrite Z.mod_same by lia.
  - by rewrite Z.mod_small by lia.
Qed.

Lemma getNextLoops_spec k (ts : list L) i :
  ts <> [] -> 0 <= i < Z.of_nat (length ts) -> Z.of_nat (length ts) < size_max ->
  getNextLoops k (mkPool ts i) =
    Ok (map (fun j => ts !! Z.to_nat ((i + Z.of_nat j) mod Z.of_nat (length ts))) (seq 0 k)).
Proof.
  intros Hne Hi Hm. revert i Hi. induction k as [|k IH]; intros i Hi; [done|].
  cbn [getNextLoops]. rewrite getNextLoop_spec by done. cbn [mbind res_bind].
  assert (0 < Z.of_nat (length ts)) by (destruct ts; [done|simpl; lia]).
  rewrite IH by (apply Z.mod_pos_bound; lia). cbn [mbind res_bind]. f_equal. cbn [seq map]. f_equal.
  - rewrite Z.add_0_r, Z.mod_small by lia. done.
  - rewrite <- seq_shift, map_map. apply map_ext. intros j. do 2 f_equal.
    rewrite Z.add_mod_idemp_l by lia. f_equal. lia.
Qed.

End pool.

(** ** Properties *)

(** C20. The life of a loop thread always ends: in every interleaving of owner
    and worker, whether or not the loop may also stop itself, the protocol stops
    after at most 25 steps, and then both threads are done, unless an access to
    a loop that is gone has made the run undefined: there is no deadlock, and
    the destructor's [quit] is not lost.  When only the owner stops the loop
    ([self_quit] is [false]), the only access that can find the loop gone is the
    wakeup after the store of [m_quit]. *)
Theorem loop_thread_lifecycle self_quit k s :
  nsteps (thread_step self_quit) k thread_new s ->
  (k <= 25)%nat /\ (thread_next self_quit s = [] -> fault_ s = None -> finished s = true) /\
  (self_quit = false -> fault_ s = None \/ fault_ s = Some OWakeup).
Proof.
  intros Hn.
  set (safe := fun s => self_quit || bool_decide (fault_ s = None) || bool_decide (fault_ s = Some OWakeup)).
  set (ok := fun s => negb (bool_decide (fault_ s = None)) || finished s).
  assert (all_runs (thread_next self_quit) safe ok 25 thread_new = true)
    as H by (destruct self_quit; vm_compute; reflexivity).
  destruct (all_runs_nsteps _ _ _ _ _ _ _ H Hn) as [Hk Hr]. split; [done|].
  destruct (25 - k)%nat; cbn [all_runs] in Hr; apply andb_true_iff in Hr as [Hf Hr];
    (split; [intros E Ef; rewrite E in Hr; unfold ok in Hr; by rewrite Ef in Hr|]);
    intros ->; unfold safe in Hf; simpl in Hf;
    apply orb_true_iff in Hf as [?%bool_decide_eq_true|?%bool_decide_eq_true]; auto.
Qed.

(** A run, by the places of its steps among the successors. *)
Fixpoint follow (next : thread_state -> list thread_state) (path : list nat) (s : thread_state) : option thread_state :=
  match path with
  | [] => Some s
  | i :: path => s ← next s !! i; follow next path s
  end.

Lemma follow_nsteps next path s s' :
  follow next path s = Some s' -> nsteps (fun a b => b ∈ next a) (length path) s s'.
Proof.
  revert s. induction path as [|i path IH]; intros s; cbn [follow].
  - intros [= ->]. constructor.
  - destruct (next s !! i) as [s1|] eqn:E; [|done]. cbn. intros H. econstructor; [|by apply IH].
    by eapply list_elem_of_lookup_2.
Qed.

(** The owner makes the thread, runs it and destroys it; both are done after 23 steps. *)
Definition closed_thread : thread_state := mkThread WDone ODone true true true false false true false false None.

Lemma closed_thread_run : nsteps (thread_step false) 23 thread_new closed_thread.
Proof. apply (follow_nsteps (thread_next false) (replicate 23 0%nat)). vm_compute. reflexivity. Qed.

Lemma loop_thread_lifecycle_witness :
  finished closed_thread = true /\ thread_next false closed_thread = [] /\
  (23 <= 25)%nat /\ (thread_next false closed_thread = [] -> fault_ closed_thread = None -> finished closed_thread = true) /\
  (false = false -> fault_ closed_thread = None \/ fault_ closed_thread = Some OWakeup).
Proof.
  split; [reflexivity|]. split; [reflexivity|].
  apply (loop_thread_lifecycle false 23 closed_thread). exact closed_thread_run.
Defined.

(** A path, by search. *)
Fixpoint reaches (next : thread_state -> list thread_state) (ok : thread_state -> bool)
    (fuel : nat) (s : thread_state) : bool :=
  ok s || match fuel with O => false | S fuel => existsb (reaches next ok fuel) (next s) end.

Lemma reaches_sound next ok fuel s :
  reaches next ok fuel s = true -> exists s', rtc (fun a b => b ∈ next a) s s' /\ ok s' = true.
Proof.
  revert s. induction fuel as [|fuel IH]; intros s; cbn [reaches]; intros [H|H]%orb_true_iff;
    [by exists s|done|by exists s|].
  apply existsb_exists in H as (s1 & Hin & H1). destruct (IH s1 H1) as (s' & Hr & Ho).
  exists s'. split; [|done]. eapply rtc_l; [by apply list_elem_of_In|done].
Qed.

(** The destructor can use the event loop after it is gone.  [quit] stores
    [m_quit] and then calls [wakeup]: in between the worker may see the flag,
    leave [loop] and destroy it.  When the loop may stop itself, already the
    call of [quit] can come too late, after the destructor has loaded [m_loop]. *)
Theorem quit_use_after_free :
  (exists s, rtc (thread_step false) thread_new s /\ fault_ s = Some OWakeup) /\
  (exists s, rtc (thread_step true) thread_new s /\ fault_ s = Some OQuitLoad).
Proof.
  split.
  - destruct (reaches_sound (thread_next false) (fun s => bool_decide (fault_ s = Some OWakeup)) 25 thread_new)
      as (s & Hr & Hs%bool_decide_eq_true); [vm_compute; reflexivity|by exists s].
  - destruct (reaches_sound (thread_next true) (fun s => bool_decide (fault_ s = Some OQuitLoad)) 25 thread_new)
      as (s & Hr & Hs%bool_decide_eq_true); [vm_compute; reflexivity|by exists s].
Qed.

(** The pool deals out its loops in turn: [k] calls of [getNextLoop] never
    read outside the list, and the [j]-th returns loop number [j mod n]. *)
Theorem round_robin {L} (ts : list L) k :
  ts <> [] -> Z.of_nat (length ts) < size_max ->
  getNextLoops k (pool_new ts) =
    Ok (map (fun j => ts !! (j mod length ts)%nat) (seq 0 k)).
Proof.
  intros Hne Hm. assert (0 < length ts)%nat by (destruct ts; [done|simpl; lia]).
  unfold pool_new. rewrite getNextLoops_spec by (done || lia).
  f_equal. apply map_ext. intros j. f_equal. rewrite Z.add_0_l, <- Nat2Z.inj_mod. lia.
Qed.

Lemma round_robin_witness :
  getNextLoops 5 (pool_new [10; 20; 30]) =
    Ok (map (fun j => [10; 20; 30] !! (j mod length [10; 20; 30])%nat) (seq 0 5)).
Proof. apply (round_robin [10; 20; 30] 5); [discriminate|vm_compute; reflexivity]. Defined.
