(* ===== verification/Channel.v ===== *)
(** * Channels: [netpoll/net/channel.{h,cc}]

    A channel is a descriptor with the events it is interested in, the events
    the poller reported for it, and callbacks.  This file has the event masks
    and the dispatch of a reported event (Linux values); registration with a
    poller is in [Poller]. *)

From S2P Require Import Prelude.

(** ** Event masks: [poll.h] *)

Definition POLLIN : Z := 1.
Definition POLLPRI : Z := 2.
Definition POLLOUT : Z := 4.
Definition POLLERR : Z := 8.
Definition POLLHUP : Z := 16.
Definition POLLNVAL : Z := 32.
Definition POLLRDHUP : Z := 8192.

Definition kNoneEvent : Z := 0.
Definition kReadEvent : Z := Z.lor POLLIN POLLPRI.
Definition kWriteEvent : Z := POLLOUT.

(** [(m & mask) != 0] *)
Definition has (m mask : Z) : bool := negb (Z.land m mask =? 0).

(** ** [Channel] *)

Record Channel := mkChannel {
  m_fd : Z;
  m_events : Z;
  m_revents : Z;
  m_index : Z;
  m_addedToLoop : bool;
  m_readCallback : bool;      (* which callbacks are set *)
  m_writeCallback : bool;
  m_errorCallback : bool;
  m_closeCallback : bool;
  m_eventCallback : bool;
  m_tied : bool
}.

Definition Channel_new (fd : Z) : Channel :=
  mkChannel fd 0 0 (-1) false false false false false false false.

Definition set_events (e : Z) (c : Channel) : Channel :=
  mkChannel (m_fd c) e (m_revents c) (m_index c) (m_addedToLoop c) (m_readCallback c)
    (m_writeCallback c) (m_errorCallback c) (m_closeCallback c) (m_eventCallback c) (m_tied c).
Definition setRevents (r : Z) (c : Channel) : Channel :=
  mkChannel (m_fd c) (m_events c) r (m_index c) (m_addedToLoop c) (m_readCallback c)
    (m_writeCallback c) (m_errorCallback c) (m_closeCallback c) (m_eventCallback c) (m_tied c).
Definition setIndex (i : Z) (c : Channel) : Channel :=
  mkChannel (m_fd c) (m_events c) (m_revents c) i (m_addedToLoop c) (m_readCallback c)
    (m_writeCallback c) (m_errorCallback c) (m_closeCallback c) (m_eventCallback c) (m_tied c).
Definition tie (c : Channel) : Channel :=
  mkChannel (m_fd c) (m_events c) (m_revents c) (m_index c) (m_addedToLoop c) (m_readCallback c)
    (m_writeCallback c) (m_errorCallback c) (m_closeCallback c) (m_eventCallback c) true.
Definition clear_added (c : Channel) : Channel :=
  mkChannel (m_fd c) (m_events c) (m_revents c) (m_index c) false (m_readCallback c)
    (m_writeCallback c) (m_errorCallback c) (m_closeCallback c) (m_eventCallback c) (m_tied c).

Definition isNoneEvent (c : Channel) : bool := m_events c =? kNoneEvent.
Definition isWriting (c : Channel) : bool := has (m_events c) kWriteEvent.
Definition isReading (c : Channel) : bool := has (m_events c) kReadEvent.

(** What the mutators store into [m_events], before [update]. *)
Inductive interest_op :=
  | EnableReading | DisableReading | EnableWriting | DisableWriting | DisableAll.

Definition apply_interest (op : interest_op) (e : Z) : Z :=
  match op with
  | EnableReading => Z.lor e kReadEvent
  | DisableReading => Z.land e (Z.lnot kReadEvent)
  | EnableWriting => Z.lor e kWriteEvent
  | DisableWriting => Z.land e (Z.lnot kWriteEvent)
  | DisableAll => kNoneEvent
  end.

(** ** Dispatch *)

Inductive callback_kind := CbEvent | CbClose | CbError | CbRead | CbWrite.

#[global] Instance callback_kind_eq_dec : EqDecision callback_kind.
Proof. solve_decision. Defined.

(** [handleEventSafely]: the callbacks it calls, in order. *)
Definition handleEventSafely (c : Channel) : list callback_kind :=
  if m_eventCallback c then [CbEvent] else
    (if has (m_revents c) POLLHUP && negb (has (m_revents c) POLLIN)
     then (if m_closeCallback c then [CbClose] else []) else []) ++
    (if has (m_revents c) (Z.lor POLLNVAL POLLERR)
     then (if m_errorCallback c then [CbError] else []) else []) ++
    (if has (m_revents c) (Z.lor (Z.lor POLLIN POLLPRI) POLLRDHUP)
     then (if m_readCallback c then [CbRead] else []) else []) ++
    (if has (m_revents c) POLLOUT
     then (if m_writeCallback c then [CbWrite] else []) else []).

(** [handleEvent]; [owner] tells whether the tied object still exists. *)
Definition handleEvent (owner : bool) (c : Channel) : list callback_kind :=
  if isNoneEvent c then []
  else if m_tied c then (if owner then handleEventSafely c else [])
  else handleEventSafely c.

(** ** Lemmas *)

Lemma has_spec m mask : has m mask = true <-> exists i, Z.testbit m i && Z.testbit mask i = true.
Proof.
  unfold has. rewrite negb_true_iff, Z.eqb_neq. split.
  - intros H. destruct (Z.eq_dec (Z.land m mask) 0) as [|Hne]; [done|].
    destruct (Z.lt_total (Z.land m mask) 0) as [Hl|[?|Hl]]; [|done|].
    + exists (Z.succ (Z.log2 (Z.lnot (Z.land m mask)))). rewrite <- Z.land_spec.
      rewrite <- negb_involutive at 1. rewrite <- Z.lnot_spec.
      * apply negb_true_iff, Z.bits_above_log2; [unfold Z.lnot; lia|lia].
      * pose proof (Z.log2_nonneg (Z.lnot (Z.land m mask))). lia.
    + exists (Z.log2 (Z.land m mask)). rewrite <- Z.land_spec. apply Z.bit_log2. lia.
  - intros [i Hi] E. rewrite <- Z.land_spec, E, Z.bits_0 in Hi. done.
Qed.

(** A mask built from read and write interest only. *)
Definition two_flags (r w : bool) : Z :=
  Z.lor (if r then kReadEvent else 0) (if w then kWriteEvent else 0).

Definition flags_after (op : interest_op) (rw : bool * bool) : bool * bool :=
  match op with
  | EnableReading => (true, snd rw)
  | DisableReading => (false, snd rw)
  | EnableWriting => (fst rw, true)
  | DisableWriting => (fst rw, false)
  | DisableAll => (false, false)
  end.

Lemma apply_interest_flags op r w :
  apply_interest op (two_flags r w) = two_flags (fst (flags_after op (r, w))) (snd (flags_after op (r, w))).
Proof. destruct op, r, w; reflexivity. Qed.

Lemma two_flags_read r w : has (two_flags r w) kReadEvent = r.
Proof. by destruct r, w. Qed.
Lemma two_flags_write r w : has (two_flags r w) kWriteEvent = w.
Proof. by destruct r, w. Qed.
Lemma two_flags_none r w : (two_flags r w =? kNoneEvent) = negb (r || w).
Proof. by destruct r, w. Qed.

(** The condition under which each callback is called. *)
Definition cb_enabled (c : Channel) (k : callback_kind) : bool :=
  match k with
  | CbEvent => m_eventCallback c
  | CbClose => negb (m_eventCallback c) && m_closeCallback c &&
      has (m_revents c) POLLHUP && negb (has (m_revents c) POLLIN)
  | CbError => negb (m_eventCallback c) && m_errorCallback c &&
      (has (m_revents c) POLLNVAL || has (m_revents c) POLLERR)
  | CbRead => negb (m_eventCallback c) && m_readCallback c &&
      (has (m_revents c) POLLIN || has (m_revents c) POLLPRI || has (m_revents c) POLLRDHUP)
  | CbWrite => negb (m_eventCallback c) && m_writeCallback c && has (m_revents c) POLLOUT
  end.

Lemma has_lor m a b : has m (Z.lor a b) = has m a || has m b.
Proof.
  apply eq_true_iff_eq. rewrite orb_true_iff, !has_spec. setoid_rewrite Z.lor_spec.
  setoid_rewrite andb_orb_distrib_r. setoid_rewrite orb_true_iff. naive_solver.
Qed.

Lemma handleEvent_filter owner c :
  handleEvent owner c =
    if negb (isNoneEvent c) && (negb (m_tied c) || owner)
    then filter (fun k => cb_enabled c k = true) [CbEvent; CbClose; CbError; CbRead; CbWrite]
    else [].
Proof.
  unfold handleEvent. destruct (isNoneEvent c); [done|]. simpl.
  assert (handleEventSafely c =
    filter (fun k => cb_enabled c k = true) [CbEvent; CbClose; CbError; CbRead; CbWrite]) as <-.
  { unfold handleEventSafely. rewrite !has_lor.
    destruct (m_eventCallback c) eqn:E1; unfold filter, list_filter, cb_enabled; rewrite E1; [done|].
    simpl. destruct (m_closeCallback c), (m_errorCallback c), (m_readCallback c), (m_writeCallback c),
      (has (m_revents c) POLLHUP), (has (m_revents c) POLLIN), (has (m_revents c) POLLNVAL || _),
      (has (m_revents c) POLLPRI), (has (m_revents c) POLLRDHUP), (has (m_revents c) POLLOUT); done. }
  by destruct (m_tied c), owner.
Qed.

(** ** Properties *)

(** A reported event reaches exactly the callbacks it is meant for.  If no
    event is enabled, or the tied owner is gone, none is called; otherwise the
    callbacks called are, in the order close, error, read, write and each at
    most once, those that are set and whose condition holds: close on a hang-up
    without pending input, error on POLLNVAL or POLLERR, read on input, urgent
    data or a half-closed peer, write on POLLOUT.  An event callback replaces
    all of them. *)
Theorem dispatch_exact owner c :
  handleEvent owner c =
    if negb (isNoneEvent c) && (negb (m_tied c) || owner)
    then filter (fun k => cb_enabled c k = true) [CbEvent; CbClose; CbError; CbRead; CbWrite]
    else [].
Proof. apply handleEvent_filter. Qed.

(** Read and write interest are independent: after any sequence of the
    mutators on a new channel, [isReading] says whether reading was enabled
    later than last disabled, [isWriting] likewise, and [isNoneEvent] that
    neither is enabled. *)
Theorem interest_flags fd ops :
  let c := set_events (fold_left (fun e op => apply_interest op e) ops 0) (Channel_new fd) in
  let rw := fold_left (fun rw op => flags_after op rw) ops (false, false) in
  isReading c = fst rw /\ isWriting c = snd rw /\ isNoneEvent c = negb (fst rw || snd rw).
Proof.
  cbn zeta. set (rw := fold_left _ ops (false, false)).
  assert (fold_left (fun e op => apply_interest op e) ops 0 = two_flags (fst rw) (snd rw)) as E.
  { subst rw. change 0 with (two_flags (fst (false, false)) (snd (false, false))).
    generalize (false, false). induction ops as [|op ops IH]; intros [r w]; [done|]. cbn [fold_left].
    rewrite <- IH. f_equal. apply apply_interest_flags. }
  unfold isReading, isWriting, isNoneEvent. cbn [set_events m_events]. rewrite E.
  by rewrite two_flags_read, two_flags_write, two_flags_none.
Qed.
