(* ===== verification/Poller.v ===== *)
(** * Pollers: [netpoll/net/inner/poller.h], [poller/epoll_poller.{h,cc}],
      [poller/kqueue.{h,cc}], and the registration part of
      [netpoll/net/channel.{h,cc}]

    A poller keeps what the kernel watches in step with the channels.  Channels
    are shared objects in a store; a poller may write to any of them (its
    index, the reported events).

    [Poller] is the interface: from a poller's state one reads off what the
    kernel watches, and the laws relate [updateChannel] and [removeChannel] to
    an abstract registration table.  [EpollPoller] and [KQueue] implement it;
    the properties of the channels are proved against the interface.
    [PollPoller], in the file of that name, does not implement it fully.
    Assertions are checked, as in a debug build. *)

From S2P Require Import Prelude Channel.

Abbreviation cid := nat.
Abbreviation store := (gmap nat Channel).

Definition kNew : Z := -1.
Definition kAdded : Z := 1.
Definition kDeleted : Z := 2.

(** Comparisons of the index values, for rewriting. *)
Lemma index_nn : bool_decide (kNew = kNew) = true. Proof. reflexivity. Qed.
Lemma index_dn : bool_decide (kDeleted = kNew) = false. Proof. reflexivity. Qed.
Lemma index_dd : bool_decide (kDeleted = kDeleted) = true. Proof. reflexivity. Qed.
Lemma index_an : bool_decide (kAdded = kNew) = false. Proof. reflexivity. Qed.
Lemma index_ad : bool_decide (kAdded = kDeleted) = false. Proof. reflexivity. Qed.
Lemma index_da : bool_decide (kDeleted = kAdded) = false. Proof. reflexivity. Qed.
Lemma index_aa : bool_decide (kAdded = kAdded) = true. Proof. reflexivity. Qed.
#[export] Hint Rewrite index_nn index_dn index_dd index_an index_ad index_da index_aa : netpoll.

(** Runs the assertions and index tests of an operation. *)
Ltac index_simp :=
  autorewrite with netpoll; rewrite ?(bool_decide_true (Some _ = Some _)) by done;
  rewrite ?(bool_decide_true (None = None)) by done; cbn [orb andb assert mbind res_bind].

Definition deref (chs : store) (c : cid) : res Channel :=
  match chs !! c with Some ch => Ok ch | None => Fail UseAfterFree end.

(** ** The registration table

    Descriptor to the channel registered for it and its events at the last
    update. *)

Abbreviation table := (gmap Z (nat * Z)).

(** The entries with events: what the kernel has to watch. *)
Definition nonzero (t : table) : table := filter (fun kv => snd (snd kv) <> 0) t.

Lemma nonzero_lookup t fd x : nonzero t !! fd = Some x <-> t !! fd = Some x /\ snd x <> 0.
Proof. unfold nonzero. by rewrite map_lookup_filter_Some. Qed.

Lemma nonzero_insert t fd c e :
  nonzero (<[fd := (c, e)]> t) =
    if e =? 0 then delete fd (nonzero t) else <[fd := (c, e)]> (nonzero t).
Proof.
  unfold nonzero. destruct (Z.eqb_spec e 0) as [->|Hne].
  - rewrite map_filter_insert_False by (simpl; auto). apply map_filter_delete.
  - by rewrite map_filter_insert_True.
Qed.

Lemma nonzero_delete t fd : nonzero (delete fd t) = delete fd (nonzero t).
Proof. apply map_filter_delete. Qed.

(** Two stores that differ in the poller's fields only. *)
Definition same_channels (chs chs' : store) : Prop :=
  forall c, match chs !! c, chs' !! c with
  | Some ch, Some ch' => m_fd ch' = m_fd ch /\ m_events ch' = m_events ch
  | None, None => True
  | _, _ => False
  end.

(** The masks that the mutators of a channel make. *)
Definition proper (e : Z) : Prop := exists r w, e = two_flags r w.

(** ** The interface *)

Class PollerOps (P : Type) := {
  poller_new : P;
  updateChannel : cid -> store -> P -> res (store * P);
  removeChannel : cid -> store -> P -> res (store * P);
  (* what the kernel watches: descriptor, channel, events *)
  watched : P -> table
}.

Class Poller (P : Type) `{PollerOps P} := {
  (* the state of the poller and of its channels for a registration table *)
  p_inv : store -> table -> P -> Prop;
  p_inv_new : forall chs, (forall c ch, chs !! c = Some ch -> m_index ch = kNew) ->
    p_inv chs ∅ poller_new;
  p_inv_watched : forall chs t p, p_inv chs t p -> watched p = nonzero t;
  (* a change of the channels that the poller does not look at *)
  p_inv_store : forall chs chs' t p, p_inv chs t p ->
    (forall c ch', chs' !! c = Some ch' ->
       (exists ch, chs !! c = Some ch /\ m_fd ch' = m_fd ch /\ m_index ch' = m_index ch) \/
       (m_index ch' = kNew /\ forall fd x, t !! fd = Some x -> fst x <> c)) ->
    (forall c, is_Some (chs !! c) -> is_Some (chs' !! c)) -> p_inv chs' t p;
  updateChannel_ok : forall chs t p c ch,
    p_inv chs t p -> chs !! c = Some ch -> 0 <= m_fd ch -> proper (m_events ch) ->
    match t !! m_fd ch with Some (c', _) => c' = c | None => True end ->
    exists chs' p', updateChannel c chs p = Ok (chs', p') /\ same_channels chs chs' /\
      p_inv chs' (<[m_fd ch := (c, m_events ch)]> t) p';
  removeChannel_ok : forall chs t p c ch e,
    p_inv chs t p -> chs !! c = Some ch -> m_events ch = 0 -> t !! m_fd ch = Some (c, e) ->
    exists chs' p', removeChannel c chs p = Ok (chs', p') /\ same_channels chs chs' /\
      p_inv chs' (delete (m_fd ch) t) p'
}.

(** ** [EpollPoller] *)

Inductive epoll_op := EPOLL_CTL_ADD | EPOLL_CTL_MOD | EPOLL_CTL_DEL.

Record EpollPoller := mkEpoll {
  ep_channels : gmap Z nat;      (* [m_channels], of debug builds *)
  ep_kernel : table;             (* the kernel's interest list *)
  ep_events : Z                  (* [m_events.size()] *)
}.

Definition EpollPoller_new : EpollPoller := mkEpoll ∅ ∅ 16.

(** [epoll_ctl]: an error leaves the list alone ([EEXIST], [ENOENT]); [update]
    only logs it. *)
Definition epoll_update (op : epoll_op) (c : cid) (ch : Channel) (p : EpollPoller) : EpollPoller :=
  let fd := m_fd ch in
  mkEpoll (ep_channels p)
    match op, ep_kernel p !! fd with
    | EPOLL_CTL_ADD, None => <[fd := (c, m_events ch)]> (ep_kernel p)
    | EPOLL_CTL_MOD, Some _ => <[fd := (c, m_events ch)]> (ep_kernel p)
    | EPOLL_CTL_DEL, Some _ => delete fd (ep_kernel p)
    | _, _ => ep_kernel p
    end (ep_events p).

Definition EpollPoller_updateChannel (c : cid) (chs : store) (p : EpollPoller)
    : res (store * EpollPoller) :=
  ch ← deref chs c;
  _ ← assert (0 <=? m_fd ch);
  let index := m_index ch in
  let fd := m_fd ch in
  if bool_decide (index = kNew) || bool_decide (index = kDeleted) then
    p ← (if bool_decide (index = kNew) then
           _ ← assert (bool_decide (ep_channels p !! fd = None));
           Ok (mkEpoll (<[fd := c]> (ep_channels p)) (ep_kernel p) (ep_events p))
         else
           _ ← assert (bool_decide (ep_channels p !! fd = Some c));
           Ok p);
    let ch := setIndex kAdded ch in
    Ok (<[c := ch]> chs, epoll_update EPOLL_CTL_ADD c ch p)
  else
    _ ← assert (bool_decide (ep_channels p !! fd = Some c));
    _ ← assert (bool_decide (index = kAdded));
    if isNoneEvent ch
    then Ok (<[c := setIndex kDeleted ch]> chs, epoll_update EPOLL_CTL_DEL c ch p)
    else Ok (chs, epoll_update EPOLL_CTL_MOD c ch p).

Definition EpollPoller_removeChannel (c : cid) (chs : store) (p : EpollPoller)
    : res (store * EpollPoller) :=
  ch ← deref chs c;
  let fd := m_fd ch in
  _ ← assert (bool_decide (ep_channels p !! fd = Some c));
  _ ← assert (isNoneEvent ch);
  let p := mkEpoll (delete fd (ep_channels p)) (ep_kernel p) (ep_events p) in
  let index := m_index ch in
  _ ← assert (bool_decide (index = kAdded) || bool_decide (index = kDeleted));
  let p := if bool_decide (index = kAdded) then epoll_update EPOLL_CTL_DEL c ch p else p in
  Ok (<[c := setIndex kNew ch]> chs, p).

(** [fillActiveChannels], for the events [epoll_wait] returned. *)
Definition EpollPoller_fillActiveChannels (p : EpollPoller) (evs : list (cid * Z)) (chs : store)
    : res (store * list cid) :=
  _ ← assert (Z.of_nat (length evs) <=? ep_events p);
  foldl (fun acc ev =>
    '(chs, active) ← acc;
    ch ← deref chs (fst ev);
    _ ← assert (bool_decide (ep_channels p !! m_fd ch = Some (fst ev)));
    Ok (<[fst ev := setRevents (snd ev) ch]> chs, active ++ [fst ev]))
    (Ok (chs, [])) evs.

(** [poll]: the event vector doubles when it was full. *)
Definition EpollPoller_poll (numEvents : Z) (evs : list (cid * Z)) (chs : store) (p : EpollPoller)
    : res (store * list cid * EpollPoller) :=
  if 0 <? numEvents then
    '(chs, active) ← EpollPoller_fillActiveChannels p evs chs;
    let size := if numEvents =? ep_events p then ep_events p * 2 else ep_events p in
    Ok (chs, active, mkEpoll (ep_channels p) (ep_kernel p) size)
  else Ok (chs, [], p).

(** How the index of a channel, the debug map and the kernel's list stand for
    a registration table. *)
Record epoll_inv (chs : store) (t : table) (p : EpollPoller) : Prop := {
  epi_channels : forall fd, ep_channels p !! fd = fst <$> t !! fd;
  epi_watched : nonzero (ep_kernel p) = nonzero t;
  epi_table : forall fd c e, t !! fd = Some (c, e) -> exists ch, chs !! c = Some ch /\ m_fd ch = fd /\
    (m_index ch = kAdded /\ ep_kernel p !! fd = Some (c, e) \/
     m_index ch = kDeleted /\ ep_kernel p !! fd = None /\ e = 0);
  epi_unregistered : forall fd, t !! fd = None -> ep_kernel p !! fd = None;
  epi_new : forall c ch, chs !! c = Some ch ->
    (forall fd x, t !! fd = Some x -> fst x <> c) -> m_index ch = kNew
}.

Lemma same_channels_index chs c ch i :
  chs !! c = Some ch -> same_channels chs (<[c := setIndex i ch]> chs).
Proof.
  intros Hc d. destruct (decide (d = c)) as [->|].
  - rewrite Hc. by simplify_map_eq.
  - rewrite lookup_insert_ne by done. by destruct (chs !! d).
Qed.

Lemma same_channels_refl chs : same_channels chs chs.
Proof. intros c. by destruct (chs !! c). Qed.

Lemma epoll_inv_store chs chs' t p :
  epoll_inv chs t p ->
  (forall c ch', chs' !! c = Some ch' ->
     (exists ch, chs !! c = Some ch /\ m_fd ch' = m_fd ch /\ m_index ch' = m_index ch) \/
     (m_index ch' = kNew /\ forall fd x, t !! fd = Some x -> fst x <> c)) ->
  (forall c, is_Some (chs !! c) -> is_Some (chs' !! c)) -> epoll_inv chs' t p.
Proof.
  intros [H1 H2 H3 H4 H5] Hc Hs. constructor; try done.
  - intros fd c e Ht. destruct (H3 _ _ _ Ht) as (ch & Hch & Hfd & Hi).
    destruct (Hs c ltac:(eauto)) as [ch' Hch'].
    destruct (Hc _ _ Hch') as [(ch0 & Hch0 & Ef & Ei)|[_ Hn]]; [|by destruct (Hn _ _ Ht)].
    rewrite Hch in Hch0. injection Hch0 as <-. exists ch'. rewrite Ef, Ei. auto.
  - intros c ch' Hch' Hn. destruct (Hc _ _ Hch') as [(ch0 & Hch0 & _ & ->)|[? _]]; [|done].
    by apply (H5 _ _ Hch0).
Qed.

(** A registered channel is in the table once. *)
Lemma epoll_inv_fd chs t p c ch fd x :
  epoll_inv chs t p -> chs !! c = Some ch -> t !! fd = Some x -> fst x = c -> fd = m_fd ch.
Proof.
  intros H Hc Ht Hx. destruct x as [c' e]. simpl in Hx. subst c'.
  destruct (epi_table _ _ _ H _ _ _ Ht) as (ch' & Hc' & <- & _). congruence.
Qed.

Lemma nonzero_partial_alter k fd c e (ker t : table) :
  (k = Some (c, e) \/ k = None /\ e = 0) -> nonzero ker = nonzero t ->
  nonzero (partial_alter (fun _ => k) fd ker) = nonzero (<[fd := (c, e)]> t).
Proof.
  intros [->|[-> ->]] E.
  - change (partial_alter (fun _ => Some (c, e)) fd ker) with (<[fd := (c, e)]> ker).
    by rewrite !nonzero_insert, E.
  - change (partial_alter (fun _ => None) fd ker) with (delete fd ker).
    by rewrite nonzero_delete, nonzero_insert, E.
Qed.

(** The entry for a channel is written: its index, the kernel's list and the
    table change together. *)
Lemma epoll_inv_set chs t p c ch i e k sz :
  epoll_inv chs t p -> chs !! c = Some ch ->
  match t !! m_fd ch with Some (c', _) => c' = c | None => True end ->
  (i = kAdded /\ k = Some (c, e) \/ i = kDeleted /\ k = None /\ e = 0) ->
  epoll_inv (<[c := setIndex i ch]> chs) (<[m_fd ch := (c, e)]> t)
    (mkEpoll (<[m_fd ch := c]> (ep_channels p))
       (partial_alter (fun _ => k) (m_fd ch) (ep_kernel p)) sz).
Proof.
  intros H Hc Hfree Hk. pose proof (fun fd x => epoll_inv_fd chs t p c ch fd x H Hc) as Hone.
  destruct H as [H1 H2 H3 H4 H5]. constructor; simpl.
  - intros fd. destruct (decide (fd = m_fd ch)) as [->|]; simplify_map_eq; auto.
  - apply nonzero_partial_alter; [|done]. naive_solver.
  - intros fd d x. destruct (decide (fd = m_fd ch)) as [->|Hne].
    + rewrite lookup_insert_eq. intros [= <- <-]. exists (setIndex i ch).
      rewrite lookup_insert_eq, lookup_partial_alter_eq. split_and!; [done|done|]. naive_solver.
    + rewrite lookup_insert_ne, lookup_partial_alter_ne by done. intros Ht.
      destruct (H3 _ _ _ Ht) as (ch' & Hd & ?). exists ch'. rewrite lookup_insert_ne; [done|].
      intros <-. by apply Hne, (Hone _ _ Ht).
  - intros fd Hn. apply lookup_insert_None in Hn as [Hn Hne].
    rewrite lookup_partial_alter_ne by done. auto.
  - intros d ch' Hd Hn. destruct (decide (d = c)) as [->|].
    + exfalso. apply (Hn (m_fd ch) (c, e)); [apply lookup_insert_eq|done].
    + rewrite lookup_insert_ne in Hd by done. apply (H5 _ _ Hd). intros fd x Ht Hx.
      destruct (decide (fd = m_fd ch)) as [->|Hne].
      * rewrite Ht in Hfree. destruct x. simpl in *. congruence.
      * apply (Hn fd x); [rewrite lookup_insert_ne by done; done|done].
Qed.

Lemma epoll_inv_unset chs t p c ch e :
  epoll_inv chs t p -> chs !! c = Some ch -> t !! m_fd ch = Some (c, e) ->
  epoll_inv (<[c := setIndex kNew ch]> chs) (delete (m_fd ch) t)
    (mkEpoll (delete (m_fd ch) (ep_channels p)) (delete (m_fd ch) (ep_kernel p)) (ep_events p)).
Proof.
  intros H Hc Ht. pose proof (fun fd x => epoll_inv_fd chs t p c ch fd x H Hc) as Hone.
  destruct H as [H1 H2 H3 H4 H5]. constructor; simpl.
  - intros fd. destruct (decide (fd = m_fd ch)) as [->|]; simplify_map_eq; auto.
  - by rewrite !nonzero_delete, H2.
  - intros fd d x [Hne Hd]%lookup_delete_Some. destruct (H3 _ _ _ Hd) as (ch' & Hd' & ?). exists ch'.
    rewrite lookup_insert_ne, lookup_delete_ne; [done|done|].
    intros <-. by apply Hne, eq_sym, (Hone _ _ Hd).
  - intros fd Hn. destruct (decide (fd = m_fd ch)) as [->|]; [apply lookup_delete_eq|].
    rewrite lookup_delete_ne in * by done. auto.
  - intros d ch' Hd Hn. destruct (decide (d = c)) as [->|].
    + rewrite lookup_insert_eq in Hd. by injection Hd as <-.
    + rewrite lookup_insert_ne in Hd by done. apply (H5 _ _ Hd). intros fd x Htx Hx.
      destruct (decide (fd = m_fd ch)) as [->|Hne].
      * rewrite Ht in Htx. injection Htx as <-. done.
      * apply (Hn fd x); [rewrite lookup_delete_ne by done; done|done].
Qed.

Lemma setIndex_same ch i : m_index ch = i -> setIndex i ch = ch.
Proof. destruct ch. simpl. by intros ->. Qed.

(** The cases of a channel before an update. *)
Lemma epoll_inv_cases chs t p c ch :
  epoll_inv chs t p -> chs !! c = Some ch ->
  match t !! m_fd ch with Some (c', _) => c' = c | None => True end ->
  (m_index ch = kNew /\ ep_channels p !! m_fd ch = None /\ ep_kernel p !! m_fd ch = None) \/
  (ep_channels p !! m_fd ch = Some c /\
   (m_index ch = kDeleted /\ ep_kernel p !! m_fd ch = None \/
    m_index ch = kAdded /\ exists x, ep_kernel p !! m_fd ch = Some x)).
Proof.
  intros H Hc Hfree. pose proof (fun fd x => epoll_inv_fd chs t p c ch fd x H Hc) as Hone.
  destruct H as [H1 H2 H3 H4 H5]. rewrite H1. destruct (t !! m_fd ch) as [[c' e]|] eqn:Et.
  - right. subst c'. split; [done|]. destruct (H3 _ _ _ Et) as (ch' & Hc' & _ & Hi).
    rewrite Hc in Hc'. injection Hc' as <-. naive_solver.
  - left. split_and!; [|done|auto]. apply (H5 _ _ Hc). intros fd x Hx Hcx.
    rewrite (Hone _ _ Hx Hcx) in Hx. congruence.
Qed.

Lemma EpollPoller_updateChannel_ok chs t p c ch :
  epoll_inv chs t p -> chs !! c = Some ch -> 0 <= m_fd ch ->
  match t !! m_fd ch with Some (c', _) => c' = c | None => True end ->
  exists chs' p', EpollPoller_updateChannel c chs p = Ok (chs', p') /\ same_channels chs chs' /\
    epoll_inv chs' (<[m_fd ch := (c, m_events ch)]> t) p'.
Proof.
  intros H Hc Hfd Hfree. unfold EpollPoller_updateChannel, deref. rewrite Hc. cbn [mbind res_bind].
  replace (0 <=? m_fd ch) with true by (symmetry; by apply Z.leb_le). cbn [assert mbind res_bind].
  destruct (epoll_inv_cases _ _ _ _ _ H Hc Hfree)
    as [(Ei & E1 & E2)|(E1 & [(Ei & E2)|(Ei & x & E2)])]; rewrite ?Ei, ?E1; index_simp; rewrite ?E1; index_simp.
  - eexists _, _. split; [done|]. split; [by apply same_channels_index|].
    unfold epoll_update. cbn [m_fd setIndex ep_kernel ep_channels m_events]. rewrite E2.
    apply (epoll_inv_set chs t p c ch kAdded (m_events ch) (Some _) _ H Hc Hfree). auto.
  - eexists _, _. split; [done|]. split; [by apply same_channels_index|].
    unfold epoll_update. cbn [m_fd setIndex ep_kernel ep_channels m_events]. rewrite E2.
    rewrite <- (insert_id _ _ _ E1).
    apply (epoll_inv_set chs t p c ch kAdded (m_events ch) (Some _) _ H Hc Hfree). auto.
  - unfold isNoneEvent, kNoneEvent. destruct (Z.eqb_spec (m_events ch) 0) as [Ee|Ee].
    + eexists _, _. split; [done|]. split; [by apply same_channels_index|].
      unfold epoll_update. rewrite E2. rewrite <- (insert_id _ _ _ E1).
      apply (epoll_inv_set chs t p c ch kDeleted (m_events ch) None _ H Hc Hfree). auto.
    + eexists _, _. split; [done|]. split; [apply same_channels_refl|].
      unfold epoll_update. rewrite E2. rewrite <- (insert_id _ _ _ E1), <- (insert_id _ _ _ Hc) at 1.
      rewrite <- (setIndex_same ch kAdded) at 1 by done.
      apply (epoll_inv_set chs t p c ch kAdded (m_events ch) (Some _) _ H Hc Hfree). auto.
Qed.

Lemma EpollPoller_removeChannel_ok chs t p c ch e :
  epoll_inv chs t p -> chs !! c = Some ch -> m_events ch = 0 -> t !! m_fd ch = Some (c, e) ->
  exists chs' p', EpollPoller_removeChannel c chs p = Ok (chs', p') /\ same_channels chs chs' /\
    epoll_inv chs' (delete (m_fd ch) t) p'.
Proof.
  intros H Hc He Ht. pose proof (epoll_inv_unset _ _ _ _ _ _ H Hc Ht) as Hu.
  destruct (epoll_inv_cases _ _ _ _ _ H Hc) as [(Ei & E1 & E2)|(E1 & Hcase)]; [by rewrite Ht| |].
  { rewrite (epi_channels _ _ _ H), Ht in E1. done. }
  unfold EpollPoller_removeChannel, deref, isNoneEvent. rewrite Hc. cbn [mbind res_bind].
  rewrite E1, He. index_simp. cbn [Z.eqb kNoneEvent]. index_simp.
  destruct Hcase as [(Ei & E2)|(Ei & x & E2)]; rewrite Ei; index_simp;
    (eexists _, _; split; [reflexivity|]; split; [by apply same_channels_index|]).
  - rewrite (delete_id (ep_kernel p)) in Hu by done. exact Hu.
  - unfold epoll_update. cbn [ep_kernel ep_channels]. rewrite E2. exact Hu.
Qed.

#[export] Instance epoll_ops : PollerOps EpollPoller := {|
  poller_new := EpollPoller_new;
  updateChannel := EpollPoller_updateChannel;
  removeChannel := EpollPoller_removeChannel;
  watched := fun p => nonzero (ep_kernel p)
|}.

#[export, refine] Instance epoll_poller : Poller EpollPoller := {| p_inv := epoll_inv |}.
Proof.
  - intros chs Hn. constructor; try done. intros c ch Hc _. by apply (Hn c).
  - intros chs t p H. apply (epi_watched _ _ _ H).
  - apply epoll_inv_store.
  - intros chs t p c ch H Hc Hfd _. by apply EpollPoller_updateChannel_ok.
  - apply EpollPoller_removeChannel_ok.
Defined.

(** ** [KQueue] *)

Record KQueue := mkKQueue {
  channels_ : gmap Z (Z * nat);  (* events at the last update, channel *)
  kq_read : gmap Z nat;          (* the kernel's EVFILT_READ filters, with udata *)
  kq_write : gmap Z nat;
  events_ : Z                    (* [events_.size()] *)
}.

Definition KQueue_new : KQueue := mkKQueue ∅ ∅ ∅ 16.

(** One filter's entry in the change list: add, delete or nothing. *)
Definition kq_change (old new : bool) (fd : Z) (c : cid) (flt : gmap Z nat) : gmap Z nat :=
  if new && negb old then <[fd := c]> flt
  else if negb new && old then delete fd flt
  else flt.

(** [KQueue::update] *)
Definition kq_update (c : cid) (ch : Channel) (p : KQueue) : KQueue :=
  let events := m_events ch in
  let fd := m_fd ch in
  let oldEvents := match channels_ p !! fd with Some (e, _) => e | None => 0 end in
  mkKQueue (<[fd := (events, c)]> (channels_ p))
    (kq_change (has oldEvents kReadEvent) (has events kReadEvent) fd c (kq_read p))
    (kq_change (has oldEvents kWriteEvent) (has events kWriteEvent) fd c (kq_write p))
    (events_ p).

Definition KQueue_updateChannel (c : cid) (chs : store) (p : KQueue) : res (store * KQueue) :=
  ch ← deref chs c;
  _ ← assert (0 <=? m_fd ch);
  let index := m_index ch in
  let fd := m_fd ch in
  if bool_decide (index = kNew) || bool_decide (index = kDeleted) then
    _ ← (if bool_decide (index = kNew)
         then assert (bool_decide (channels_ p !! fd = None))
         else assert (bool_decide (snd <$> channels_ p !! fd = Some c)));
    Ok (<[c := setIndex kAdded ch]> chs, kq_update c ch p)
  else
    _ ← assert (bool_decide (is_Some (channels_ p !! fd)));
    _ ← assert (bool_decide (index = kAdded));
    if isNoneEvent ch
    then Ok (<[c := setIndex kDeleted ch]> chs, kq_update c ch p)
    else Ok (chs, kq_update c ch p).

Definition KQueue_removeChannel (c : cid) (chs : store) (p : KQueue) : res (store * KQueue) :=
  ch ← deref chs c;
  let fd := m_fd ch in
  _ ← assert (bool_decide (is_Some (channels_ p !! fd)));
  _ ← assert (isNoneEvent ch);
  let index := m_index ch in
  _ ← assert (bool_decide (index = kAdded) || bool_decide (index = kDeleted));
  let p := if bool_decide (index = kAdded) then kq_update c ch p else p in
  Ok (<[c := setIndex kNew ch]> chs,
      mkKQueue (delete fd (channels_ p)) (kq_read p) (kq_write p) (events_ p)).

(** [fillActiveChannels]: an event carries one filter. *)
Inductive kq_filter := EVFILT_READ | EVFILT_WRITE | EVFILT_OTHER.

Definition KQueue_fillActiveChannels (p : KQueue) (evs : list (cid * kq_filter)) (chs : store)
    : res (store * list cid) :=
  _ ← assert (Z.of_nat (length evs) <=? events_ p);
  foldl (fun acc ev =>
    '(chs, active) ← acc;
    ch ← deref chs (fst ev);
    _ ← assert (bool_decide (is_Some (channels_ p !! m_fd ch)));
    match snd ev with
    | EVFILT_READ => Ok (<[fst ev := setRevents POLLIN ch]> chs, active ++ [fst ev])
    | EVFILT_WRITE => Ok (<[fst ev := setRevents POLLOUT ch]> chs, active ++ [fst ev])
    | EVFILT_OTHER => Ok (chs, active)
    end)
    (Ok (chs, [])) evs.

Definition kq_watched (p : KQueue) : table :=
  merge (fun r w => match r, w with
    | None, None => None
    | Some c, None => Some (c, two_flags true false)
    | None, Some c => Some (c, two_flags false true)
    | Some c, Some _ => Some (c, two_flags true true)
    end) (kq_read p) (kq_write p).

(** The filters that stand for a table entry. *)
Definition kq_filters (mask : Z) (x : option (nat * Z)) : option nat :=
  match x with Some (c, e) => if has e mask then Some c else None | None => None end.

Record kq_inv (chs : store) (t : table) (p : KQueue) : Prop := {
  kqi_channels : forall fd, channels_ p !! fd = (fun x => (snd x, fst x)) <$> t !! fd;
  kqi_read : forall fd, kq_read p !! fd = kq_filters kReadEvent (t !! fd);
  kqi_write : forall fd, kq_write p !! fd = kq_filters kWriteEvent (t !! fd);
  kqi_table : forall fd c e, t !! fd = Some (c, e) -> proper e /\ exists ch, chs !! c = Some ch /\
    m_fd ch = fd /\ (m_index ch = kAdded \/ m_index ch = kDeleted /\ e = 0);
  kqi_new : forall c ch, chs !! c = Some ch ->
    (forall fd x, t !! fd = Some x -> fst x <> c) -> m_index ch = kNew
}.

Lemma kq_inv_watched chs t p : kq_inv chs t p -> kq_watched p = nonzero t.
Proof.
  intros [H1 H2 H3 H4 _]. apply map_eq. intros fd. unfold kq_watched, nonzero.
  rewrite lookup_merge, map_lookup_filter, H2, H3. unfold kq_filters.
  destruct (t !! fd) as [[c e]|] eqn:Et; [|done].
  destruct (H4 _ _ _ Et) as [(r & w & ->) _]. simpl. rewrite two_flags_read, two_flags_write.
  by destruct r, w.
Qed.

Lemma kq_inv_store chs chs' t p :
  kq_inv chs t p ->
  (forall c ch', chs' !! c = Some ch' ->
     (exists ch, chs !! c = Some ch /\ m_fd ch' = m_fd ch /\ m_index ch' = m_index ch) \/
     (m_index ch' = kNew /\ forall fd x, t !! fd = Some x -> fst x <> c)) ->
  (forall c, is_Some (chs !! c) -> is_Some (chs' !! c)) -> kq_inv chs' t p.
Proof.
  intros [H1 H2 H3 H4 H5] Hc Hs. constructor; try done.
  - intros fd c e Ht. destruct (H4 _ _ _ Ht) as (Hp & ch & Hch & Hfd & Hi). split; [done|].
    destruct (Hs c ltac:(eauto)) as [ch' Hch'].
    destruct (Hc _ _ Hch') as [(ch0 & Hch0 & Ef & Ei)|[_ Hn]]; [|by destruct (Hn _ _ Ht)].
    rewrite Hch in Hch0. injection Hch0 as <-. exists ch'. rewrite Ef, Ei. auto.
  - intros c ch' Hch' Hn. destruct (Hc _ _ Hch') as [(ch0 & Hch0 & _ & ->)|[? _]]; [|done].
    by apply (H5 _ _ Hch0).
Qed.

Lemma kq_inv_fd chs t p c ch fd x :
  kq_inv chs t p -> chs !! c = Some ch -> t !! fd = Some x -> fst x = c -> fd = m_fd ch.
Proof.
  intros H Hc Ht Hx. destruct x as [c' e]. simpl in Hx. subst c'.
  destruct (kqi_table _ _ _ H _ _ _ Ht) as (_ & ch' & Hc' & <- & _). congruence.
Qed.

(** The change list brings a filter to its new state. *)
Lemma kq_change_lookup mask (t : table) flt fd c e :
  (forall fd, flt !! fd = kq_filters mask (t !! fd)) ->
  match t !! fd with Some (c', _) => c' = c | None => True end -> has 0 mask = false ->
  forall fd', kq_change (has (match t !! fd with Some (_, e') => e' | None => 0 end) mask)
    (has e mask) fd c flt !! fd' = kq_filters mask (<[fd := (c, e)]> t !! fd').
Proof.
  intros Hf Ht H0 fd'. unfold kq_change. destruct (decide (fd' = fd)) as [->|Hne].
  - rewrite lookup_insert_eq. cbn [kq_filters]. pose proof (Hf fd) as Hfd. unfold kq_filters in Hfd.
    destruct (t !! fd) as [[c' e']|]; [subst c'; destruct (has e' mask)|rewrite H0];
      destruct (has e mask); cbn [andb negb];
      rewrite ?lookup_insert_eq, ?lookup_delete_eq, ?Hfd; done.
  - rewrite lookup_insert_ne by done. rewrite <- Hf.
    repeat case_match; rewrite ?lookup_insert_ne, ?lookup_delete_ne by done; done.
Qed.

Lemma kq_inv_set chs t p c ch i :
  kq_inv chs t p -> chs !! c = Some ch -> proper (m_events ch) ->
  match t !! m_fd ch with Some (c', _) => c' = c | None => True end ->
  (i = kAdded \/ i = kDeleted /\ m_events ch = 0) ->
  kq_inv (<[c := setIndex i ch]> chs) (<[m_fd ch := (c, m_events ch)]> t) (kq_update c ch p).
Proof.
  intros H Hc Hpr Hfree Hi. pose proof (fun fd x => kq_inv_fd chs t p c ch fd x H Hc) as Hone.
  destruct H as [H1 H2 H3 H4 H5].
  assert (match channels_ p !! m_fd ch with Some (e, _) => e | None => 0 end =
          match t !! m_fd ch with Some (_, e') => e' | None => 0 end) as Eold.
  { rewrite H1. by destruct (t !! m_fd ch) as [[]|]. }
  constructor; unfold kq_update; cbn [channels_ kq_read kq_write]; rewrite ?Eold.
  - intros fd. destruct (decide (fd = m_fd ch)) as [->|]; simplify_map_eq; auto.
  - by apply kq_change_lookup.
  - by apply kq_change_lookup.
  - intros fd d e. destruct (decide (fd = m_fd ch)) as [->|Hne].
    + rewrite lookup_insert_eq. intros [= <- <-]. split; [done|]. exists (setIndex i ch).
      rewrite lookup_insert_eq. auto.
    + rewrite lookup_insert_ne by done. intros Ht. destruct (H4 _ _ _ Ht) as (? & ch' & Hd & ?).
      split; [done|]. exists ch'. rewrite lookup_insert_ne; [done|]. intros <-.
      by apply Hne, (Hone _ _ Ht).
  - intros d ch' Hd Hn. destruct (decide (d = c)) as [->|].
    + exfalso. apply (Hn (m_fd ch) (c, m_events ch)); [apply lookup_insert_eq|done].
    + rewrite lookup_insert_ne in Hd by done. apply (H5 _ _ Hd). intros fd x Ht Hx.
      destruct (decide (fd = m_fd ch)) as [->|Hne].
      * rewrite Ht in Hfree. destruct x. simpl in *. congruence.
      * apply (Hn fd x); [rewrite lookup_insert_ne by done; done|done].
Qed.

Lemma kq_inv_cases chs t p c ch :
  kq_inv chs t p -> chs !! c = Some ch ->
  match t !! m_fd ch with Some (c', _) => c' = c | None => True end ->
  (m_index ch = kNew /\ channels_ p !! m_fd ch = None) \/
  (snd <$> channels_ p !! m_fd ch = Some c /\
   (m_index ch = kAdded \/
    m_index ch = kDeleted /\ t !! m_fd ch = Some (c, 0))).
Proof.
  intros H Hc Hfree. pose proof (fun fd x => kq_inv_fd chs t p c ch fd x H Hc) as Hone.
  destruct H as [H1 H2 H3 H4 H5]. rewrite H1. destruct (t !! m_fd ch) as [[c' e]|] eqn:Et.
  - right. subst c'. split; [done|]. destruct (H4 _ _ _ Et) as (_ & ch' & Hc' & _ & Hi).
    rewrite Hc in Hc'. injection Hc' as <-. naive_solver.
  - left. split; [|done]. apply (H5 _ _ Hc). intros fd x Hx Hcx.
    rewrite (Hone _ _ Hx Hcx) in Hx. congruence.
Qed.

Lemma KQueue_updateChannel_ok chs t p c ch :
  kq_inv chs t p -> chs !! c = Some ch -> 0 <= m_fd ch -> proper (m_events ch) ->
  match t !! m_fd ch with Some (c', _) => c' = c | None => True end ->
  exists chs' p', KQueue_updateChannel c chs p = Ok (chs', p') /\ same_channels chs chs' /\
    kq_inv chs' (<[m_fd ch := (c, m_events ch)]> t) p'.
Proof.
  intros H Hc Hfd Hpr Hfree. unfold KQueue_updateChannel, deref. rewrite Hc. cbn [mbind res_bind].
  replace (0 <=? m_fd ch) with true by (symmetry; by apply Z.leb_le). cbn [assert mbind res_bind].
  assert (kq_inv (<[c := setIndex kAdded ch]> chs) (<[m_fd ch := (c, m_events ch)]> t)
    (kq_update c ch p)) as Hadd by (apply kq_inv_set; auto).
  destruct (kq_inv_cases _ _ _ _ _ H Hc Hfree) as [(Ei & E1)|(E1 & [Ei|[Ei _]])];
    rewrite ?Ei, ?E1; index_simp; rewrite ?E1; index_simp.
  - eexists _, _. split; [reflexivity|]. split; [by apply same_channels_index|done].
  - rewrite (bool_decide_true (is_Some _)) by (destruct (channels_ p !! m_fd ch); [by eexists|done]). index_simp.
    unfold isNoneEvent, kNoneEvent. destruct (Z.eqb_spec (m_events ch) 0) as [Ee|Ee].
    + eexists _, _. split; [reflexivity|]. split; [by apply same_channels_index|].
      apply kq_inv_set; auto.
    + eexists _, _. split; [reflexivity|]. split; [apply same_channels_refl|].
      rewrite setIndex_same, insert_id in Hadd by done. done.
  - eexists _, _. split; [reflexivity|]. split; [by apply same_channels_index|done].
Qed.

Lemma kq_inv_unset chs t p c ch :
  kq_inv chs t p -> chs !! c = Some ch -> t !! m_fd ch = Some (c, 0) ->
  kq_inv (<[c := setIndex kNew ch]> chs) (delete (m_fd ch) t)
    (mkKQueue (delete (m_fd ch) (channels_ p)) (kq_read p) (kq_write p) (events_ p)).
Proof.
  intros H Hc Ht. pose proof (fun fd x => kq_inv_fd chs t p c ch fd x H Hc) as Hone.
  destruct H as [H1 H2 H3 H4 H5]. constructor; simpl.
  - intros fd. destruct (decide (fd = m_fd ch)) as [->|]; simplify_map_eq; auto.
  - intros fd. rewrite H2. destruct (decide (fd = m_fd ch)) as [->|].
    + by rewrite Ht, lookup_delete_eq.
    + by rewrite lookup_delete_ne.
  - intros fd. rewrite H3. destruct (decide (fd = m_fd ch)) as [->|].
    + by rewrite Ht, lookup_delete_eq.
    + by rewrite lookup_delete_ne.
  - intros fd d x [Hne Hd]%lookup_delete_Some. destruct (H4 _ _ _ Hd) as (? & ch' & Hd' & ?).
    split; [done|]. exists ch'. rewrite lookup_insert_ne; [done|].
    intros <-. by apply Hne, eq_sym, (Hone _ _ Hd).
  - intros d ch' Hd Hn. destruct (decide (d = c)) as [->|].
    + rewrite lookup_insert_eq in Hd. by injection Hd as <-.
    + rewrite lookup_insert_ne in Hd by done. apply (H5 _ _ Hd). intros fd x Htx Hx.
      destruct (decide (fd = m_fd ch)) as [->|Hne].
      * rewrite Ht in Htx. injection Htx as <-. done.
      * apply (Hn fd x); [rewrite lookup_delete_ne by done; done|done].
Qed.

Lemma KQueue_removeChannel_ok chs t p c ch e :
  kq_inv chs t p -> chs !! c = Some ch -> m_events ch = 0 -> t !! m_fd ch = Some (c, e) ->
  exists chs' p', KQueue_removeChannel c chs p = Ok (chs', p') /\ same_channels chs chs' /\
    kq_inv chs' (delete (m_fd ch) t) p'.
Proof.
  intros H Hc He Ht.
  destruct (kq_inv_cases _ _ _ _ _ H Hc) as [(Ei & E1)|(E1 & Hcase)]; [by rewrite Ht| |].
  { rewrite (kqi_channels _ _ _ H), Ht in E1. done. }
  unfold KQueue_removeChannel, deref, isNoneEvent. rewrite Hc. cbn [mbind res_bind].
  rewrite (bool_decide_true (is_Some _)) by (destruct (channels_ p !! m_fd ch); [by eexists|done]).
  rewrite He. index_simp. cbn [Z.eqb kNoneEvent]. index_simp.
  destruct Hcase as [Ei|[Ei Ht0]]; rewrite Ei; index_simp;
    (eexists _, _; split; [reflexivity|]; split; [by apply same_channels_index|]).
  - assert (kq_inv (<[c := setIndex kAdded ch]> chs) (<[m_fd ch := (c, 0)]> t) (kq_update c ch p)) as H1.
    { rewrite <- He. apply kq_inv_set; auto; [by exists false, false; rewrite He|by rewrite Ht]. }
    pose proof (kq_inv_unset _ _ _ c (setIndex kAdded ch) H1 ltac:(apply lookup_insert_eq)
      ltac:(apply lookup_insert_eq)) as H2.
    rewrite insert_insert_eq in H2. cbn [m_fd setIndex] in H2. rewrite delete_insert_eq in H2.
    exact H2.
  - by apply (kq_inv_unset _ _ _ _ _ H).
Qed.

#[export] Instance kqueue_ops : PollerOps KQueue := {|
  poller_new := KQueue_new;
  updateChannel := KQueue_updateChannel;
  removeChannel := KQueue_removeChannel;
  watched := kq_watched
|}.

#[export, refine] Instance kqueue_poller : Poller KQueue := {| p_inv := kq_inv |}.
Proof.
  - intros chs Hn. constructor; try done. intros c ch Hc _. by apply (Hn c).
  - apply kq_inv_watched.
  - apply kq_inv_store.
  - apply KQueue_updateChannel_ok.
  - apply KQueue_removeChannel_ok.
Defined.

(** ** Channels of a poller *)

Inductive channel_op :=
  | ONew (c : cid) (fd : Z)              (* the constructor *)
  | OInterest (c : cid) (op : interest_op)
  | ORemove (c : cid).

Section channels.
Context {P : Type} `{PO : PollerOps P}.

(** [enableReading] and the like: store the events, then [update]. *)
Definition changeInterest (c : cid) (op : interest_op) (chs : store) (p : P) : res (store * P) :=
  ch ← deref chs c;
  updateChannel c (<[c := set_events (apply_interest op (m_events ch)) ch]> chs) p.

(** [Channel::remove] *)
Definition Channel_remove (c : cid) (chs : store) (p : P) : res (store * P) :=
  ch ← deref chs c;
  _ ← assert (m_events ch =? kNoneEvent);
  removeChannel c (<[c := clear_added ch]> chs) p.

Definition channel_step (op : channel_op) (chs : store) (p : P) : res (store * P) :=
  match op with
  | ONew c fd => Ok (<[c := Channel_new fd]> chs, p)
  | OInterest c op => changeInterest c op chs p
  | ORemove c => Channel_remove c chs p
  end.

Fixpoint channel_run (ops : list channel_op) (chs : store) (p : P) : res (store * P) :=
  match ops with
  | [] => Ok (chs, p)
  | op :: ops => '(chs, p) ← channel_step op chs p; channel_run ops chs p
  end.

End channels.

(** What the owner of the channels knows: per channel the descriptor, the two
    flags, and whether it is registered.  [spec_step] is undefined where the
    owner breaks the rules: two registered channels for one descriptor, or a
    removal of a channel that is not registered or has events. *)
Record chan_spec := mkSpec { sp_fd : Z; sp_flags : bool * bool; sp_reg : bool }.

#[global] Instance chan_spec_eq_dec : EqDecision chan_spec.
Proof. solve_decision. Defined.

Definition spec_step (op : channel_op) (a : gmap nat chan_spec) : option (gmap nat chan_spec) :=
  match op with
  | ONew c fd =>
      if bool_decide (a !! c = None) && (0 <=? fd)
      then Some (<[c := mkSpec fd (false, false) false]> a) else None
  | OInterest c op =>
      x ← a !! c;
      if bool_decide (map_Forall (fun c' y => c' = c \/ sp_fd y <> sp_fd x \/ sp_reg y = false) a)
      then Some (<[c := mkSpec (sp_fd x) (flags_after op (sp_flags x)) true]> a) else None
  | ORemove c =>
      x ← a !! c;
      if bool_decide (sp_flags x = (false, false) /\ sp_reg x = true)
      then Some (<[c := mkSpec (sp_fd x) (false, false) false]> a) else None
  end.

Fixpoint spec_run (ops : list channel_op) (a : gmap nat chan_spec) : option (gmap nat chan_spec) :=
  match ops with
  | [] => Some a
  | op :: ops => a ← spec_step op a; spec_run ops a
  end.

Section channels_spec.
Context {P : Type} {PO : PollerOps P} {PP : Poller P}.
Implicit Types (chs : store) (p : P) (a : gmap nat chan_spec) (t : table).

Definition flags_mask (rw : bool * bool) : Z := two_flags (fst rw) (snd rw).

Record chans_ok chs p a t : Prop := {
  co_inv : p_inv chs t p;
  co_chans : forall c, match chs !! c, a !! c with
    | Some ch, Some x => m_fd ch = sp_fd x /\ m_events ch = flags_mask (sp_flags x) /\ 0 <= sp_fd x
    | None, None => True
    | _, _ => False
    end;
  co_table : forall fd c e, t !! fd = Some (c, e) <->
    exists x, a !! c = Some x /\ sp_fd x = fd /\ sp_reg x = true /\ e = flags_mask (sp_flags x)
}.

Lemma co_lookup chs p a t c x :
  chans_ok chs p a t -> a !! c = Some x ->
  exists ch, chs !! c = Some ch /\ m_fd ch = sp_fd x /\ m_events ch = flags_mask (sp_flags x) /\
    0 <= sp_fd x.
Proof.
  intros H Hx. pose proof (co_chans _ _ _ _ H c) as Hc. rewrite Hx in Hc.
  destruct (chs !! c) as [ch|]; [|done]. by exists ch.
Qed.

(** Replacing the entry of one channel. *)
Lemma co_put chs p a t chs0 chs' p' t' c ch x :
  chans_ok chs p a t -> chs0 = <[c := ch]> chs -> same_channels chs0 chs' -> p_inv chs' t' p' ->
  m_fd ch = sp_fd x -> m_events ch = flags_mask (sp_flags x) -> 0 <= sp_fd x ->
  (forall fd d e, t' !! fd = Some (d, e) <->
    exists y, <[c := x]> a !! d = Some y /\ sp_fd y = fd /\ sp_reg y = true /\
      e = flags_mask (sp_flags y)) ->
  chans_ok chs' p' (<[c := x]> a) t'.
Proof.
  intros H -> Hs Hi Hf He H0 Ht. constructor; [done| |done]. intros d. specialize (Hs d).
  pose proof (co_chans _ _ _ _ H d) as Hd. destruct (decide (d = c)) as [->|].
  - rewrite lookup_insert_eq in Hs. rewrite lookup_insert_eq. destruct (chs' !! c); [|done]. destruct Hs as [-> ->]. done.
  - rewrite lookup_insert_ne in Hs by done. rewrite lookup_insert_ne by done.
    destruct (chs !! d), (chs' !! d), (a !! d); try done; by destruct Hs as [-> ->].
Qed.

Lemma channel_new_ok chs p a t c fd :
  chans_ok chs p a t -> a !! c = None -> 0 <= fd ->
  chans_ok (<[c := Channel_new fd]> chs) p (<[c := mkSpec fd (false, false) false]> a) t.
Proof.
  intros H Hc Hfd. pose proof (co_chans _ _ _ _ H c) as Hcc. rewrite Hc in Hcc.
  destruct (chs !! c) eqn:Ech; [done|].
  assert (forall fd' x, t !! fd' = Some x -> fst x <> c) as Hfresh.
  { intros fd' [d e] Ht Hd. simpl in Hd. subst d.
    apply (co_table _ _ _ _ H) in Ht as (x & Hx & _). congruence. }
  eapply (co_put chs p a t); [done|done|apply same_channels_refl| |done|done|done|].
  - apply (p_inv_store chs); [apply (co_inv _ _ _ _ H)| |].
    + intros d ch' [[<- <-]|[_ Hd]]%lookup_insert_Some; [by right|left; eauto].
    + intros d [ch Hd]. destruct (decide (d = c)) as [->|]; [congruence|].
      rewrite lookup_insert_ne by done. eauto.
  - intros fd' d e. rewrite (co_table _ _ _ _ H). split; intros (x & Hx & ?).
    + exists x. rewrite lookup_insert_ne by congruence. done.
    + apply lookup_insert_Some in Hx as [[_ <-]|[_ ?]]; [naive_solver|eauto].
Qed.

(** Writing to a field of a channel that no poller looks at. *)
Lemma p_inv_write chs t p c ch ch' :
  p_inv chs t p -> chs !! c = Some ch -> m_fd ch' = m_fd ch -> m_index ch' = m_index ch ->
  p_inv (<[c := ch']> chs) t p.
Proof.
  intros H Hc Ef Ei. apply (p_inv_store chs); [done| |].
  - intros d x [[<- <-]|[_ Hd]]%lookup_insert_Some; left; eauto.
  - intros d [x Hd]. destruct (decide (d = c)) as [->|];
      [rewrite lookup_insert_eq|rewrite lookup_insert_ne by done]; eauto.
Qed.

Lemma co_registered chs p a t c x :
  chans_ok chs p a t -> a !! c = Some x ->
  map_Forall (fun c' y => c' = c \/ sp_fd y <> sp_fd x \/ sp_reg y = false) a ->
  match t !! sp_fd x with Some (c', _) => c' = c | None => True end.
Proof.
  intros H Hx Hall. destruct (t !! sp_fd x) as [[d e]|] eqn:Et; [|done].
  apply (co_table _ _ _ _ H) in Et as (y & Hy & Hfd & Hr & _).
  destruct (Hall _ _ Hy) as [->|[?|?]]; [done|done|congruence].
Qed.

Lemma channel_interest_ok op chs p a t c x :
  chans_ok chs p a t -> a !! c = Some x ->
  map_Forall (fun c' y => c' = c \/ sp_fd y <> sp_fd x \/ sp_reg y = false) a ->
  exists chs' p' t', changeInterest c op chs p = Ok (chs', p') /\
    chans_ok chs' p' (<[c := mkSpec (sp_fd x) (flags_after op (sp_flags x)) true]> a) t'.
Proof.
  intros H Hx Hall. pose proof (co_registered _ _ _ _ _ _ H Hx Hall) as Hfree.
  destruct (co_lookup _ _ _ _ _ _ H Hx) as (ch & Hch & Hfd & Hev & H0).
  unfold changeInterest, deref. rewrite Hch. cbn [mbind res_bind].
  set (ch' := set_events (apply_interest op (m_events ch)) ch).
  assert (m_events ch' = flags_mask (flags_after op (sp_flags x))) as Hev'.
  { simpl. rewrite Hev. unfold flags_mask. destruct (sp_flags x). apply apply_interest_flags. }
  destruct (updateChannel_ok (<[c := ch']> chs) t p c ch') as (chs' & p' & E & Hs & Hi).
  - by apply (p_inv_write chs t p c ch); [apply (co_inv _ _ _ _ H)|..].
  - apply lookup_insert_eq.
  - simpl. lia.
  - rewrite Hev'. eexists _, _. done.
  - simpl. by rewrite Hfd.
  - exists chs', p', (<[m_fd ch' := (c, m_events ch')]> t). split; [done|].
    eapply (co_put chs p a t); [done|done|done|done|done|done|done|].
    intros fd d e. change (m_fd ch') with (m_fd ch). rewrite Hfd, Hev'.
    destruct (decide (fd = sp_fd x)) as [->|Hne].
    + rewrite lookup_insert_eq. split.
      * intros [= <- <-]. eexists. rewrite lookup_insert_eq. done.
      * intros (y & Hy & Hyfd & Hyr & ->). apply lookup_insert_Some in Hy as [[<- <-]|[Hne Hy]]; [done|].
        destruct (Hall _ _ Hy) as [->|[?|?]]; [done|done|congruence].
    + rewrite lookup_insert_ne by done. rewrite (co_table _ _ _ _ H). split; intros (y & Hy & Hyfd & ?).
      * destruct (decide (d = c)) as [->|]; [congruence|]. exists y. by rewrite lookup_insert_ne.
      * apply lookup_insert_Some in Hy as [[_ <-]|[_ Hy]]; [done|eauto].
Qed.

Lemma channel_remove_ok chs p a t c x :
  chans_ok chs p a t -> a !! c = Some x -> sp_flags x = (false, false) -> sp_reg x = true ->
  exists chs' p' t', Channel_remove c chs p = Ok (chs', p') /\
    chans_ok chs' p' (<[c := mkSpec (sp_fd x) (false, false) false]> a) t'.
Proof.
  intros H Hx Hfl Hr. destruct (co_lookup _ _ _ _ _ _ H Hx) as (ch & Hch & Hfd & Hev & H0).
  rewrite Hfl in Hev. unfold Channel_remove, deref. rewrite Hch. cbn [mbind res_bind].
  rewrite Hev. change (flags_mask (false, false) =? kNoneEvent) with true. cbn [assert mbind res_bind].
  destruct (removeChannel_ok (<[c := clear_added ch]> chs) t p c (clear_added ch) 0)
    as (chs' & p' & E & Hs & Hi).
  - by apply (p_inv_write chs t p c ch); [apply (co_inv _ _ _ _ H)|..].
  - apply lookup_insert_eq.
  - done.
  - simpl. rewrite Hfd. apply (co_table _ _ _ _ H). exists x. by rewrite Hfl.
  - exists chs', p', (delete (m_fd (clear_added ch)) t). split; [done|].
    eapply (co_put chs p a t); [done|done|done|done|done|done|done|].
    intros fd d e. simpl. rewrite Hfd, lookup_delete_Some, (co_table _ _ _ _ H). split.
    + intros (Hne & y & Hy & Hyfd & ?). exists y. rewrite lookup_insert_ne; [done|]. intros <-. congruence.
    + intros (y & Hy & Hyfd & Hyr & He). apply lookup_insert_Some in Hy as [[_ <-]|[Hdc Hy]]; [done|].
      split; [|eauto]. intros <-.
      assert (t !! sp_fd x = Some (d, e)) as E1 by (apply (co_table _ _ _ _ H); eauto).
      assert (t !! sp_fd x = Some (c, flags_mask (sp_flags x))) as E2
        by (apply (co_table _ _ _ _ H); eauto). congruence.
Qed.

Lemma channel_step_ok op chs p a a' t :
  chans_ok chs p a t -> spec_step op a = Some a' ->
  exists chs' p' t', channel_step op chs p = Ok (chs', p') /\ chans_ok chs' p' a' t'.
Proof.
  intros H. destruct op as [c fd|c op|c]; cbn [spec_step channel_step].
  - case_bool_decide as Hn; [|done]. destruct (Z.leb_spec 0 fd); [|done]. intros [= <-].
    eexists _, _, t. split; [done|]. by apply channel_new_ok.
  - destruct (a !! c) as [x|] eqn:Hx; [|done]. cbn [mbind option_bind].
    case_bool_decide as Hall; [|done]. intros [= <-]. by apply (channel_interest_ok _ _ _ _ t).
  - destruct (a !! c) as [x|] eqn:Hx; [|done]. cbn [mbind option_bind].
    case_bool_decide as Hall; [|done]. intros [= <-]. destruct Hall. by apply (channel_remove_ok _ _ _ t).
Qed.

Lemma channel_run_ok ops chs p a a' t :
  chans_ok chs p a t -> spec_run ops a = Some a' ->
  exists chs' p' t', channel_run ops chs p = Ok (chs', p') /\ chans_ok chs' p' a' t'.
Proof.
  revert chs p a t. induction ops as [|op ops IH]; intros chs p a t H Hr; cbn in Hr |- *.
  - injection Hr as <-. by eexists _, _, _.
  - destruct (spec_step op a) as [a1|] eqn:E; [|done].
    destruct (channel_step_ok _ _ _ _ _ _ H E) as (chs1 & p1 & t1 & -> & H1). cbn. by apply (IH _ _ a1 t1).
Qed.

End channels_spec.

(** ** Properties *)

(** C4. Interest is exact, for every poller that implements the interface:
    after any sequence of constructions, interest changes and removals in which
    the owner keeps the rules, no assertion has failed, and the kernel watches
    exactly the registered channels with some interest, each for exactly the
    events that are enabled. *)
Theorem interest_exact {P} {PO : PollerOps P} {PP : Poller P} ops a :
  spec_run ops ∅ = Some a ->
  exists chs p, channel_run ops ∅ poller_new = Ok (chs, p) /\
    forall fd c e, watched p !! fd = Some (c, e) <->
      e <> 0 /\ exists x, a !! c = Some x /\ sp_fd x = fd /\ sp_reg x = true /\
        e = flags_mask (sp_flags x).
Proof.
  intros Hr. destruct (channel_run_ok ops ∅ (poller_new : P) ∅ a ∅) as (chs & p & t & E & H).
  - constructor; [by apply p_inv_new|done|]. intros fd c e. split; [done|]. by intros (x & ? & _).
  - done.
  - exists chs, p. split; [done|]. intros fd c e.
    rewrite (p_inv_watched _ _ _ (co_inv _ _ _ _ H)), nonzero_lookup, (co_table _ _ _ _ H). naive_solver.
Qed.

(** Two channels; the second is switched off and removed. *)
Definition sample_ops : list channel_op :=
  [ONew 1 5; OInterest 1 EnableReading; ONew 2 6; OInterest 2 EnableReading;
   OInterest 1 EnableWriting; OInterest 2 DisableAll; ORemove 2].
Definition sample_spec : gmap nat chan_spec :=
  <[1%nat := mkSpec 5 (true, true) true]> (<[2%nat := mkSpec 6 (false, false) false]> ∅).

Lemma interest_exact_witness :
  exists chs (p : EpollPoller), channel_run sample_ops ∅ poller_new = Ok (chs, p) /\
    forall fd c e, watched p !! fd = Some (c, e) <->
      e <> 0 /\ exists x, sample_spec !! c = Some x /\ sp_fd x = fd /\ sp_reg x = true /\
        e = flags_mask (sp_flags x).
Proof. apply (interest_exact sample_ops sample_spec). vm_compute. reflexivity. Defined.

(** *** A round of [poll] *)

Section fill.
Variable p : EpollPoller.

Lemma fill_fold evs chs active t :
  epoll_inv chs t p ->
  Forall (fun ev => exists fd e, t !! fd = Some (fst ev, e)) evs -> NoDup (map fst evs) ->
  exists chs', foldl (fun acc ev =>
      '(chs, active) ← acc;
      ch ← deref chs (fst ev);
      _ ← assert (bool_decide (ep_channels p !! m_fd ch = Some (fst ev)));
      Ok (<[fst ev := setRevents (snd ev) ch]> chs, active ++ [fst ev]))
      (Ok (chs, active)) evs = Ok (chs', active ++ map fst evs) /\ epoll_inv chs' t p /\
    (forall c, c ∉ map fst evs -> chs' !! c = chs !! c) /\
    (forall c r, (c, r) ∈ evs -> exists ch, chs !! c = Some ch /\ chs' !! c = Some (setRevents r ch)).
Proof.
  revert chs active. induction evs as [|[c r] evs IH]; intros chs active H Hall Hnd; cbn [foldl].
  { exists chs. rewrite app_nil_r. split_and!; [done|done|done|set_solver]. }
  apply Forall_cons in Hall as [(fd & e & Ht) Hall]. apply NoDup_cons in Hnd as [Hc Hnd].
  cbn [fst] in Ht, Hc. destruct (epi_table _ _ _ H _ _ _ Ht) as (ch & Hch & Hfd & _).
  cbn [mbind res_bind fst snd]. unfold deref at 2. rewrite Hch. cbn [mbind res_bind].
  rewrite bool_decide_true by (by rewrite Hfd, (epi_channels _ _ _ H), Ht). cbn [assert mbind res_bind].
  assert (epoll_inv (<[c := setRevents r ch]> chs) t p) as H'.
  { apply (epoll_inv_store chs); [done| |].
    - intros d x [[<- <-]|[_ Hd]]%lookup_insert_Some; left; eauto.
    - intros d [x Hd]. destruct (decide (d = c)) as [->|];
        [rewrite lookup_insert_eq|rewrite lookup_insert_ne by done]; eauto. }
  destruct (IH _ (active ++ [c]) H' Hall Hnd) as (chs' & -> & Hi & Hold & Hnew).
  exists chs'. rewrite <- app_assoc. split_and!; [done|done| |].
  - intros d Hd. simpl in Hd. rewrite Hold by set_solver. apply lookup_insert_ne. set_solver.
  - intros d x [[= -> ->]|Hd]%elem_of_cons.
    + exists ch. split; [done|]. rewrite Hold by done. apply lookup_insert_eq.
    + assert (d <> c). { intros ->. apply Hc. apply list_elem_of_fmap. by exists (c, x). }
      destruct (Hnew _ _ Hd) as (ch' & Hch' & ?). rewrite lookup_insert_ne in Hch' by done. eauto.
Qed.

End fill.

(** A round of [EpollPoller::poll]: the events of [epoll_wait], at most one
    per watched channel, are handed on completely: the active list has exactly
    these channels in order, each with its reported events, and no other
    channel changes.  The registrations stay as they are, and the event vector
    doubles when it was full, so that a busy loop is not limited by it. *)
Theorem epoll_poll_complete chs t p evs :
  epoll_inv chs t p -> evs <> [] -> Z.of_nat (length evs) <= ep_events p ->
  Forall (fun ev => exists fd e, watched p !! fd = Some (fst ev, e)) evs -> NoDup (map fst evs) ->
  exists chs' p', EpollPoller_poll (Z.of_nat (length evs)) evs chs p = Ok (chs', map fst evs, p') /\
    epoll_inv chs' t p' /\
    (forall c, c ∉ map fst evs -> chs' !! c = chs !! c) /\
    (forall c r, (c, r) ∈ evs -> exists ch, chs !! c = Some ch /\ chs' !! c = Some (setRevents r ch)) /\
    (Z.of_nat (length evs) = ep_events p -> ep_events p' = 2 * ep_events p).
Proof.
  intros H Hne Hl Hall Hnd. unfold EpollPoller_poll, EpollPoller_fillActiveChannels.
  destruct (Z.ltb_spec 0 (Z.of_nat (length evs))) as [_|]; [|destruct evs; simpl in *; [done|lia]].
  rewrite (proj2 (Z.leb_le _ _) Hl). cbn [assert mbind res_bind].
  destruct (fill_fold p evs chs [] t H) as (chs' & -> & Hi & Hold & Hnew); [|done|].
  { eapply Forall_impl; [exact Hall|]. intros ev (fd & e & Hw). exists fd, e.
    simpl in Hw. rewrite (epi_watched _ _ _ H) in Hw. by apply nonzero_lookup in Hw as [? _]. }
  cbn [mbind res_bind app]. eexists _, _. split; [reflexivity|]. split_and!; [|done|done|].
  - destruct Hi. by constructor.
  - intros E. simpl. rewrite (proj2 (Z.eqb_eq _ _) E). lia.
Qed.

Definition sample_world : store * EpollPoller :=
  match channel_run sample_ops ∅ poller_new with Ok w => w | Fail _ => (∅, EpollPoller_new) end.
Definition sample_table : table := {[5 := (1%nat, 7)]}.

Lemma sample_world_inv : epoll_inv (fst sample_world) sample_table (snd sample_world).
Proof.
  constructor.
  - intros fd. destruct (decide (fd = 5)) as [->|]; [reflexivity|].
    unfold sample_table. rewrite lookup_singleton_ne by done.
    change (ep_channels (snd sample_world)) with ({[5 := 1%nat]} : gmap Z nat).
    by rewrite lookup_singleton_ne.
  - reflexivity.
  - intros fd c e Ht. unfold sample_table in Ht.
    apply lookup_singleton_Some in Ht as [<- [= <- <-]]. eexists. split; [reflexivity|].
    split; [reflexivity|]. left. split; reflexivity.
  - intros fd Hn. change (ep_kernel (snd sample_world)) with sample_table. done.
  - intros c ch Hc Hn. destruct (decide (c = 1%nat)) as [->|]; [by destruct (Hn 5 (1%nat, 7))|].
    change (fst sample_world) with (<[1%nat := setIndex kAdded (set_events 7 (Channel_new 5))]>
      (<[2%nat := Channel_new 6]> (∅ : store))) in Hc.
    rewrite lookup_insert_ne in Hc by done. by apply lookup_insert_Some in Hc as [[<- <-]|[_ ?]].
Qed.

Lemma epoll_poll_complete_witness :
  exists chs' p', EpollPoller_poll 1 [(1%nat, 1)] (fst sample_world) (snd sample_world) =
      Ok (chs', [1%nat], p') /\
    epoll_inv chs' sample_table p' /\
    (forall c, c ∉ [1%nat] -> chs' !! c = fst sample_world !! c) /\
    (forall c r, (c, r) ∈ [(1%nat, 1)] -> exists ch, fst sample_world !! c = Some ch /\
       chs' !! c = Some (setRevents r ch)) /\
    (1 = ep_events (snd sample_world) -> ep_events p' = 2 * ep_events (snd sample_world)).
Proof.
  apply (epoll_poll_complete (fst sample_world) sample_table (snd sample_world) [(1%nat, 1)]).
  - exact sample_world_inv.
  - discriminate.
  - vm_compute. discriminate.
  - repeat constructor. exists 5, 7. reflexivity.
  - repeat constructor. set_solver.
Defined.

(** [KQueue::fillActiveChannels] loses read events: when the descriptor of
    a channel is readable and writable in the same round, the kernel reports
    one event per filter, the second one overwrites the channel's [m_revents],
    and the channel is listed twice with only POLLOUT: the write callback runs
    twice and the read callback not at all. *)
Theorem kqueue_loses_read chs t p c ch e :
  kq_inv chs t p -> t !! m_fd ch = Some (c, e) -> chs !! c = Some ch -> 2 <= events_ p ->
  m_eventCallback ch = false -> m_writeCallback ch = true -> m_events ch <> 0 ->
  exists chs' ch', KQueue_fillActiveChannels p [(c, EVFILT_READ); (c, EVFILT_WRITE)] chs =
      Ok (chs', [c; c]) /\ chs' !! c = Some ch' /\ m_revents ch' = POLLOUT /\
    forall owner, handleEvent owner ch' = if negb (m_tied ch) || owner then [CbWrite] else [].
Proof.
  intros H Ht Hc Hs Hev Hw Hne. unfold KQueue_fillActiveChannels. cbn [length].
  rewrite (proj2 (Z.leb_le (Z.of_nat 2) (events_ p)) Hs).
  assert (is_Some (channels_ p !! m_fd ch)) as Hreg by (rewrite (kqi_channels _ _ _ H), Ht; by eexists).
  cbn [assert mbind res_bind foldl fst snd]. unfold deref. rewrite Hc. cbn [mbind res_bind].
  rewrite bool_decide_true by done. cbn [assert mbind res_bind]. rewrite lookup_insert_eq.
  cbn [mbind res_bind m_fd setRevents]. rewrite bool_decide_true by done. cbn [assert mbind res_bind].
  eexists _, _. split; [reflexivity|]. rewrite lookup_insert_eq. split_and!; [done|done|].
  intros owner. rewrite handleEvent_filter. unfold isNoneEvent, kNoneEvent. cbn [m_events setRevents m_tied].
  rewrite (proj2 (Z.eqb_neq _ _) Hne). cbn [negb andb].
  destruct (negb (m_tied ch) || owner); [|done].
  unfold filter, list_filter, cb_enabled. cbn [m_eventCallback m_closeCallback m_errorCallback
    m_readCallback m_writeCallback m_revents setRevents]. rewrite Hev, Hw.
  by destruct (m_closeCallback ch), (m_errorCallback ch), (m_readCallback ch).
Qed.

(** A connection's channel, interested in both directions. *)
Definition duplex_channel : Channel :=
  mkChannel 5 7 0 kAdded false true true false false false false.

Lemma kqueue_loses_read_witness :
  exists chs' ch', KQueue_fillActiveChannels (mkKQueue {[5 := (7, 1%nat)]} {[5 := 1%nat]} {[5 := 1%nat]} 16)
      [(1%nat, EVFILT_READ); (1%nat, EVFILT_WRITE)] {[1%nat := duplex_channel]} =
      Ok (chs', [1%nat; 1%nat]) /\ chs' !! 1%nat = Some ch' /\ m_revents ch' = POLLOUT /\
    forall owner, handleEvent owner ch' =
      if negb (m_tied duplex_channel) || owner then [CbWrite] else [].
Proof.
  apply (kqueue_loses_read {[1%nat := duplex_channel]} sample_table _ 1 duplex_channel 7);
    try reflexivity; [|vm_compute; discriminate|discriminate].
  constructor; unfold sample_table.
  - intros fd. destruct (decide (fd = 5)) as [->|]; [reflexivity|]. cbn [channels_].
    by rewrite !lookup_singleton_ne.
  - intros fd. destruct (decide (fd = 5)) as [->|]; [reflexivity|]. cbn [kq_read].
    by rewrite !lookup_singleton_ne.
  - intros fd. destruct (decide (fd = 5)) as [->|]; [reflexivity|]. cbn [kq_write].
    by rewrite !lookup_singleton_ne.
  - intros fd c e [<- [= <- <-]]%lookup_singleton_Some. split; [by exists true, true|].
    exists duplex_channel. split_and!; [reflexivity|reflexivity|left; reflexivity].
  - intros c ch [<- <-]%lookup_singleton_Some Hn. by destruct (Hn 5 (1%nat, 7)).
Defined.
