(* ===== verification/Rounds.v ===== *)
(** * Rounds of a loop: [EventLoop::loop] over [Channel] and [EpollPoller]

    One round polls, calls [handleEvent] of every active channel in order, and
    runs the queued functors.  The callbacks are any function from the state to
    actions on channels; channels are objects that can be destroyed, and
    [m_activeChannels] holds plain pointers.

    Two ways of ending a channel occur in the library:
    - [ARetire]: [disableAll] now, [remove] and the destructor in a functor
      (connections, [TcpServer::handleCloseInLoop]; the connector);
    - [ADestroy]: everything at once (the destructor of [Acceptor]).

    The functors of other origin, which do not touch channels, are left out. *)

From S2P Require Import Prelude Channel Poller.

Inductive action :=
  | AOp (op : channel_op)
  | ARetire (c : cid)
  | ADestroy (c : cid).

(** What happened to an active channel: whether it had been retired before its
    turn came, and the callbacks that ran. *)
Record turn := mkTurn { t_channel : cid; t_late : bool; t_callbacks : list callback_kind }.

Record world := mkWorld {
  w_chans : store;
  w_poller : EpollPoller;
  m_activeChannels : list cid;     (* from the current one on *)
  w_funcs : list cid;              (* queued functors: channels to remove and destroy *)
  turns : list turn;               (* history *)
  retired : list cid;              (* history: the channels that [ARetire] was for *)
  calls : list (cid * callback_kind)   (* history: the callbacks that were called *)
}.

Definition with_chans (x : store * EpollPoller) (w : world) : world :=
  mkWorld (fst x) (snd x) (m_activeChannels w) (w_funcs w) (turns w) (retired w) (calls w).
Definition with_active (l : list cid) (w : world) : world :=
  mkWorld (w_chans w) (w_poller w) l (w_funcs w) (turns w) (retired w) (calls w).
Definition with_funcs (l : list cid) (w : world) : world :=
  mkWorld (w_chans w) (w_poller w) (m_activeChannels w) l (turns w) (retired w) (calls w).
Definition log_turn (t : turn) (w : world) : world :=
  mkWorld (w_chans w) (w_poller w) (m_activeChannels w) (w_funcs w) (turns w ++ [t]) (retired w) (calls w).
Definition log_retired (c : cid) (w : world) : world :=
  mkWorld (w_chans w) (w_poller w) (m_activeChannels w) (w_funcs w) (turns w) (retired w ++ [c]) (calls w).
Definition log_call (c : cid) (k : callback_kind) (w : world) : world :=
  mkWorld (w_chans w) (w_poller w) (m_activeChannels w) (w_funcs w) (turns w) (retired w) (calls w ++ [(c, k)]).

(** [Channel::remove], and the destructor. *)
Definition remove_destroy (c : cid) (w : world) : res world :=
  '(chs, p) ← Channel_remove c (w_chans w) (w_poller w);
  Ok (with_chans (delete c chs, p) w).

Definition run_action (act : action) (w : world) : res world :=
  match act with
  | AOp op => x ← channel_step op (w_chans w) (w_poller w); Ok (with_chans x w)
  | ARetire c =>
      x ← changeInterest c DisableAll (w_chans w) (w_poller w);
      Ok (log_retired c (with_funcs (w_funcs w ++ [c]) (with_chans x w)))
  | ADestroy c =>
      x ← changeInterest c DisableAll (w_chans w) (w_poller w);
      remove_destroy c (with_chans x w)
  end.

Fixpoint run_actions (acts : list action) (w : world) : res world :=
  match acts with
  | [] => Ok w
  | act :: acts => w ← run_action act w; run_actions acts w
  end.

Section loop.
Context (react : world -> cid -> callback_kind -> list action).
Context (owner : world -> cid -> bool).     (* the tied object still exists *)

(** The callbacks of [handleEventSafely]; each is a member of the channel. *)
Fixpoint call_back (c : cid) (kinds : list callback_kind) (w : world) : res world :=
  match kinds with
  | [] => Ok w
  | k :: kinds =>
      _ ← deref (w_chans w) c;
      w ← run_actions (react w c k) (log_call c k w);
      call_back c kinds w
  end.

(** The loop over [m_activeChannels]. *)
Fixpoint handle_active (active : list cid) (w : world) : res world :=
  match active with
  | [] => Ok (with_active [] w)
  | c :: rest =>
      let w := with_active (c :: rest) w in
      ch ← deref (w_chans w) c;
      let kinds := handleEvent (owner w c) ch in
      w ← call_back c kinds (log_turn (mkTurn c (bool_decide (c ∈ w_funcs w)) kinds) w);
      handle_active rest w
  end.

(** [doRunInLoopFuncs] *)
Fixpoint run_funcs (l : list cid) (w : world) : res world :=
  match l with
  | [] => Ok (with_funcs [] w)
  | c :: l => w ← remove_destroy c w; run_funcs l w
  end.

(** One round, for the events that [epoll_wait] answers. *)
Definition loop_round (evs : list (cid * Z)) (w : world) : res world :=
  '(chs, active, p) ← EpollPoller_poll (Z.of_nat (length evs)) evs (w_chans w) (w_poller w);
  w ← handle_active active (with_active active (with_chans (chs, p) w));
  run_funcs (w_funcs w) w.

End loop.

(** ** The rules for callbacks

    [a] is what the owners know of their channels, [r] the retired ones. *)

Definition op_channel (op : channel_op) : cid := match op with ONew c _ | OInterest c _ | ORemove c => c end.

(** The rules: no action on a retired channel, and a channel that is current or
    still to come in the round is not destroyed at once. *)
Definition spec_action (busy : list cid) (act : action) (s : gmap nat chan_spec * list cid)
    : option (gmap nat chan_spec * list cid) :=
  let '(a, r) := s in
  match act with
  | AOp op => if bool_decide (op_channel op ∈ r) then None else a ← spec_step op a; Some (a, r)
  | ARetire c =>
      if bool_decide (c ∈ r) then None else a ← spec_step (OInterest c DisableAll) a; Some (a, r ++ [c])
  | ADestroy c =>
      if bool_decide (c ∈ r) || bool_decide (c ∈ busy) then None
      else a ← spec_step (OInterest c DisableAll) a; a ← spec_step (ORemove c) a; Some (delete c a, r)
  end.

Fixpoint spec_actions (busy : list cid) (acts : list action) (s : gmap nat chan_spec * list cid)
    : option (gmap nat chan_spec * list cid) :=
  match acts with
  | [] => Some s
  | act :: acts => s ← spec_action busy act s; spec_actions busy acts s
  end.

Record round_ok (w : world) (a : gmap nat chan_spec) : Prop := {
  ro_chans : exists t, chans_ok (w_chans w) (w_poller w) a t;
  ro_funcs : forall c, c ∈ w_funcs w -> exists x, a !! c = Some x /\ sp_flags x = (false, false) /\ sp_reg x = true;
  ro_nodup : NoDup (w_funcs w)
}.

(** The channels of the round exist. *)
Definition busy_in (w : world) (a : gmap nat chan_spec) : Prop := forall c, c ∈ m_activeChannels w -> is_Some (a !! c).

(** Callbacks that keep the rules in every state of the loop. *)
Definition disciplined (react : world -> cid -> callback_kind -> list action) : Prop :=
  forall w a c k, round_ok w a -> busy_in w a -> c ∈ m_activeChannels w ->
    exists s, spec_actions (m_activeChannels w) (react w c k) (a, w_funcs w) = Some s.

(** ** Lemmas *)

Lemma spec_step_other op a a' c : spec_step op a = Some a' -> c <> op_channel op -> a' !! c = a !! c.
Proof.
  intros E Hc. destruct op as [d fd|d i|d]; cbn in E, Hc.
  - destruct (_ && _); [|done]. injection E as <-. by apply lookup_insert_ne.
  - destruct (a !! d); [|done]. cbn in E. case_bool_decide; [|done]. injection E as <-. by apply lookup_insert_ne.
  - destruct (a !! d); [|done]. cbn in E. case_bool_decide; [|done]. injection E as <-. by apply lookup_insert_ne.
Qed.

Lemma spec_step_dom op a a' c : spec_step op a = Some a' -> is_Some (a !! c) -> is_Some (a' !! c).
Proof.
  intros E Hc. destruct op as [d fd|d i|d]; cbn in E.
  - destruct (_ && _); [|done]. injection E as <-. apply lookup_insert_is_Some'. by right.
  - destruct (a !! d); [|done]. cbn in E. case_bool_decide; [|done]. injection E as <-.
    apply lookup_insert_is_Some'. by right.
  - destruct (a !! d); [|done]. cbn in E. case_bool_decide; [|done]. injection E as <-.
    apply lookup_insert_is_Some'. by right.
Qed.

(** What [disableAll] leaves. *)
Lemma spec_disable c a a' : spec_step (OInterest c DisableAll) a = Some a' ->
  exists fd, a' !! c = Some (mkSpec fd (false, false) true).
Proof.
  cbn. destruct (a !! c) as [x|]; [|done]. cbn. case_bool_decide; [|done]. intros [= <-].
  exists (sp_fd x). apply lookup_insert_eq.
Qed.

Lemma spec_remove c a a' : spec_step (ORemove c) a = Some a' ->
  exists fd, a' !! c = Some (mkSpec fd (false, false) false).
Proof.
  cbn. destruct (a !! c) as [x|]; [|done]. cbn. case_bool_decide; [|done]. intros [= <-].
  exists (sp_fd x). apply lookup_insert_eq.
Qed.

(** The destructor of a channel that is not registered. *)
Lemma destroy_ok chs p a t c x :
  chans_ok chs p a t -> a !! c = Some x -> sp_reg x = false ->
  @chans_ok EpollPoller _ _ (delete c chs) p (delete c a) t.
Proof.
  intros [[H1 H2 H3 H4 H5] Hc Ht] Hx Hr.
  assert (forall fd d e, t !! fd = Some (d, e) -> d <> c) as Hne.
  { intros fd d e E ->. apply Ht in E as (y & Hy & _ & Hry & _). rewrite Hx in Hy. injection Hy as <-. congruence. }
  constructor.
  - constructor; try done.
    + intros fd d e E. destruct (H3 _ _ _ E) as (ch & Hch & ?). exists ch.
      rewrite lookup_delete_ne; [done|]. intros ->. by apply (Hne _ _ _ E).
    + intros d ch [_ Hd]%lookup_delete_Some. by apply H5.
  - intros d. destruct (decide (d = c)) as [->|]; [by rewrite !lookup_delete_eq|]. rewrite !lookup_delete_ne by done. apply Hc.
  - intros fd d e. rewrite Ht. split; intros (y & Hy & ?); exists y; (split; [|done]).
    + assert (t !! fd = Some (d, e)) as E by (apply Ht; eauto). rewrite lookup_delete_ne; [done|]. by apply not_eq_sym, (Hne _ _ _ E).
    + by apply lookup_delete_Some in Hy as [_ ?].
Qed.

Lemma remove_destroy_ok w a t c a' :
  chans_ok (w_chans w) (w_poller w) a t -> spec_step (ORemove c) a = Some a' ->
  exists chs p, remove_destroy c w = Ok (with_chans (delete c chs, p) w) /\
    exists t', @chans_ok EpollPoller _ _ (delete c chs) p (delete c a') t'.
Proof.
  intros H E. destruct (channel_step_ok (ORemove c) _ _ _ _ _ H E) as (chs & p & t' & E1 & H1).
  unfold remove_destroy. cbn [channel_step] in E1. rewrite E1. cbn [mbind res_bind]. eexists _, _. split; [reflexivity|].
  destruct (spec_remove _ _ _ E) as [fd Hfd]. exists t'. by eapply destroy_ok.
Qed.

(** The parts of the state that actions leave alone. *)
Definition same_round (w w' : world) : Prop :=
  m_activeChannels w' = m_activeChannels w /\ turns w' = turns w /\ calls w' = calls w.

Lemma run_action_ok busy act w a a' r' :
  round_ok w a -> spec_action busy act (a, w_funcs w) = Some (a', r') ->
  exists w', run_action act w = Ok w' /\ round_ok w' a' /\ w_funcs w' = r' /\ same_round w w'.
Proof.
  intros [[t H] Hf Hn] E. destruct act as [op|c|c]; cbn [spec_action run_action] in *.
  - destruct (bool_decide_reflect (op_channel op ∈ w_funcs w)) as [|Hr]; [done|].
    destruct (spec_step op a) as [a1|] eqn:Es; [|done]. injection E as <- <-.
    destruct (channel_step_ok op _ _ _ _ _ H Es) as (chs & p & t' & -> & H'). cbn [mbind res_bind].
    eexists. split; [reflexivity|]. split; [|done]. constructor; cbn; [by exists t'| |done].
    intros c Hc. destruct (Hf c Hc) as (x & Hx & ?). exists x. rewrite (spec_step_other _ _ _ _ Es); [done|]. by intros ->.
  - destruct (bool_decide_reflect (c ∈ w_funcs w)) as [|Hr]; [done|].
    destruct (spec_step (OInterest c DisableAll) a) as [a1|] eqn:Es; [|done]. injection E as <- <-.
    destruct (channel_step_ok _ _ _ _ _ _ H Es) as (chs & p & t' & E1 & H'). cbn [channel_step] in E1. rewrite E1.
    eexists. split; [reflexivity|]. split; [|done]. constructor; cbn; [by exists t'| |].
    + intros d [Hd|Hd]%elem_of_app.
      * destruct (Hf d Hd) as (x & Hx & ?). exists x. rewrite (spec_step_other _ _ _ _ Es); [done|]. by intros ->.
      * apply list_elem_of_singleton in Hd as ->. destruct (spec_disable _ _ _ Es) as [fd Hfd]. by eexists.
    + apply NoDup_app. split; [done|]. split; [|apply NoDup_singleton]. intros d Hd ->%list_elem_of_singleton. done.
  - destruct (bool_decide_reflect (c ∈ w_funcs w)) as [|Hr]; [done|]. cbn [orb] in E.
    destruct (bool_decide (c ∈ busy)); [done|].
    destruct (spec_step (OInterest c DisableAll) a) as [a1|] eqn:Es; [|done]. cbn [mbind option_bind] in E.
    destruct (spec_step (ORemove c) a1) as [a2|] eqn:Es2; [|done]. injection E as <- <-.
    destruct (channel_step_ok _ _ _ _ _ _ H Es) as (chs & p & t' & E1 & H'). cbn [channel_step] in E1. rewrite E1. cbn [mbind res_bind].
    destruct (remove_destroy_ok (with_chans (chs, p) w) a1 t' c a2 H' Es2) as (chs2 & p2 & -> & H2).
    eexists. split; [reflexivity|]. split; [|done]. constructor; cbn; [done| |done].
    intros d Hd. destruct (Hf d Hd) as (x & Hx & ?). exists x.
    assert (d <> c) by (by intros ->). rewrite lookup_delete_ne by done.
    by rewrite (spec_step_other _ _ _ _ Es2), (spec_step_other _ _ _ _ Es).
Qed.

Lemma spec_action_busy busy act a r a' r' c :
  spec_action busy act (a, r) = Some (a', r') -> c ∈ busy -> is_Some (a !! c) -> is_Some (a' !! c).
Proof.
  intros E Hc Ha. destruct act as [op|d|d]; cbn [spec_action] in E.
  - destruct (bool_decide _); [done|]. destruct (spec_step op a) eqn:Es; [|done]. injection E as <- <-. by eapply spec_step_dom.
  - destruct (bool_decide _); [done|]. destruct (spec_step _ a) eqn:Es; [|done]. injection E as <- <-. by eapply spec_step_dom.
  - destruct (bool_decide (d ∈ r)); [done|]. destruct (bool_decide_reflect (d ∈ busy)) as [|Hd]; [done|]. cbn [orb] in E.
    destruct (spec_step _ a) as [a1|] eqn:Es; [|done]. cbn [mbind option_bind] in E.
    destruct (spec_step (ORemove d) a1) as [a2|] eqn:Es2; [|done]. injection E as <- <-.
    rewrite lookup_delete_ne by (by intros ->). by eapply spec_step_dom, spec_step_dom.
Qed.

Lemma run_actions_ok busy acts w a s :
  round_ok w a -> spec_actions busy acts (a, w_funcs w) = Some s ->
  exists w', run_actions acts w = Ok w' /\ round_ok w' s.1 /\ w_funcs w' = s.2 /\ same_round w w' /\
    forall c, c ∈ busy -> is_Some (a !! c) -> is_Some (s.1 !! c).
Proof.
  revert w a. induction acts as [|act acts IH]; intros w a H E; cbn [spec_actions run_actions] in *.
  - injection E as <-. by exists w.
  - destruct (spec_action busy act (a, w_funcs w)) as [[a1 r1]|] eqn:E1; [|done]. cbn [mbind option_bind] in E.
    destruct (run_action_ok _ _ _ _ _ _ H E1) as (w1 & -> & H1 & <- & Hs1). cbn [mbind res_bind].
    destruct (IH _ _ H1 E) as (w' & -> & H' & Hr & Hs & Hb). exists w'. split_and!; try done.
    + unfold same_round in *. intuition congruence.
    + intros c Hc Ha. apply Hb; [done|]. by eapply spec_action_busy.
Qed.

(** What a channel's dispatch depends on besides its interest. *)
Definition dispatch_of (ch : Channel) : Z * Z * (bool * bool * bool * bool * bool) * bool :=
  (m_fd ch, m_revents ch,
   (m_readCallback ch, m_writeCallback ch, m_errorCallback ch, m_closeCallback ch, m_eventCallback ch), m_tied ch).

Lemma channel_step_keeps op chs (p : EpollPoller) chs' p' c ch :
  channel_step op chs p = Ok (chs', p') -> (forall fd, op <> ONew c fd) -> chs !! c = Some ch ->
  exists ch', chs' !! c = Some ch' /\ dispatch_of ch' = dispatch_of ch.
Proof.
  intros E Hop Hc.
  assert (forall d x (X : store), x = ch \/ c <> d ->
    (exists y, X !! c = Some y /\ dispatch_of y = dispatch_of ch) ->
    forall z, dispatch_of z = dispatch_of x \/ c <> d ->
    exists y, <[d := z]> X !! c = Some y /\ dispatch_of y = dispatch_of ch) as Hins.
  { intros d x X Hx HX z Hz. destruct (decide (c = d)) as [->|]; [|by rewrite lookup_insert_ne].
    rewrite lookup_insert_eq. eexists. split; [done|]. destruct Hx as [->|]; [|done]. by destruct Hz. }
  destruct op as [d fd|d i|d]; cbn [channel_step] in E.
  - injection E as <- <-. exists ch. rewrite lookup_insert_ne by (intros ->; by destruct (Hop fd)). done.
  - unfold changeInterest in E. apply bind_Ok in E as (x & Hx & E). unfold deref in Hx.
    destruct (chs !! d) as [x'|] eqn:Hd; [injection Hx as ->|done].
    assert (x = ch \/ c <> d) as Hcd by (destruct (decide (c = d)) as [->|]; [left; congruence|by right]).
    assert (exists y, chs !! c = Some y /\ dispatch_of y = dispatch_of ch) as H0 by eauto.
    pose proof (Hins d x chs Hcd H0) as H1. cbn in E. unfold EpollPoller_updateChannel, deref in E.
    rewrite lookup_insert_eq in E. cbn [mbind res_bind] in E.
    repeat first [apply bind_Ok in E as (? & ? & E) | case_match]; injection E as <- <-; eauto.
  - unfold Channel_remove in E. apply bind_Ok in E as (x & Hx & E). unfold deref in Hx.
    destruct (chs !! d) as [x'|] eqn:Hd; [injection Hx as ->|done].
    assert (x = ch \/ c <> d) as Hcd by (destruct (decide (c = d)) as [->|]; [left; congruence|by right]).
    assert (exists y, chs !! c = Some y /\ dispatch_of y = dispatch_of ch) as H0 by eauto.
    pose proof (Hins d x chs Hcd H0) as H1. cbn in E. unfold EpollPoller_removeChannel, deref in E.
    apply bind_Ok in E as (? & _ & E). rewrite lookup_insert_eq in E. cbn [mbind res_bind] in E.
    repeat first [apply bind_Ok in E as (? & ? & E) | case_match]; injection E as <- <-; eauto.
Qed.

(** Actions within the rules leave the dispatch of the channels of the round alone. *)
Definition keeps_dispatch (busy : list cid) (w w' : world) : Prop :=
  forall c ch, c ∈ busy -> w_chans w !! c = Some ch ->
    exists ch', w_chans w' !! c = Some ch' /\ dispatch_of ch' = dispatch_of ch.

Lemma keeps_dispatch_trans busy w1 w2 w3 :
  keeps_dispatch busy w1 w2 -> keeps_dispatch busy w2 w3 -> keeps_dispatch busy w1 w3.
Proof.
  intros H1 H2 c ch Hc E. destruct (H1 c ch Hc E) as (ch1 & E1 & D1). destruct (H2 c ch1 Hc E1) as (ch2 & E2 & D2).
  exists ch2. split; congruence.
Qed.

Lemma run_action_keeps busy act w a s w' :
  round_ok w a -> spec_action busy act (a, w_funcs w) = Some s -> run_action act w = Ok w' -> keeps_dispatch busy w w'.
Proof.
  intros [[t H] _ _] E Er c ch Hc Hch. destruct act as [op|d|d]; cbn [spec_action run_action] in *.
  - apply bind_Ok in Er as ([chs' p'] & Er & [= <-]). eapply channel_step_keeps; [exact Er| |exact Hch].
    intros fd ->. destruct (bool_decide _); [done|]. pose proof (co_chans _ _ _ _ H c) as Hcc. rewrite Hch in Hcc.
    cbn in E. by destruct (a !! c).
  - apply bind_Ok in Er as ([chs' p'] & Er & [= <-]).
    exact (channel_step_keeps (OInterest d DisableAll) _ _ _ _ c ch Er ltac:(done) Hch).
  - apply bind_Ok in Er as ([chs' p'] & Er & Er2).
    destruct (channel_step_keeps (OInterest d DisableAll) _ _ _ _ c ch Er ltac:(done) Hch) as (ch1 & E1 & D1).
    destruct (bool_decide (d ∈ w_funcs w)); [done|]. cbn [orb] in E.
    destruct (bool_decide_reflect (d ∈ busy)) as [|Hd]; [done|].
    unfold remove_destroy in Er2. apply bind_Ok in Er2 as ([chs2 p2] & Er2 & [= <-]).
    destruct (channel_step_keeps (ORemove d) _ _ _ _ c ch1 Er2 ltac:(done) E1) as (ch2 & E2 & D2).
    exists ch2. cbn. rewrite lookup_delete_ne by (by intros ->). split; congruence.
Qed.

Lemma run_actions_keeps busy acts w a s w' :
  round_ok w a -> spec_actions busy acts (a, w_funcs w) = Some s -> run_actions acts w = Ok w' -> keeps_dispatch busy w w'.
Proof.
  revert w a. induction acts as [|act acts IH]; intros w a H E Er; cbn [spec_actions run_actions] in *.
  - injection Er as <-. intros c ch _ Hch. by exists ch.
  - destruct (spec_action busy act (a, w_funcs w)) as [[a1 r1]|] eqn:E1; [|done]. cbn [mbind option_bind] in E.
    destruct (run_action_ok _ _ _ _ _ _ H E1) as (w1 & Er1 & H1 & <- & _). rewrite Er1 in Er.
    eapply keeps_dispatch_trans; [by eapply run_action_keeps|by eapply IH].
Qed.

(** ** What the turns of a round are

    [runs_callbacks c ks w w'] says that the callbacks [ks] of [c] ran, each
    once and in order, and took the loop from [w] to [w'];
    [turns_taken w0 evs w ts w'] that the channels of [evs] took their turns:
    each still exists when its turn comes, has the reported events and the
    callbacks it had before the round (in [w0]), and what runs is exactly what
    [handleEvent] selects for the channel as it is then. *)
Section turns.
Context (react : world -> cid -> callback_kind -> list action) (owner : world -> cid -> bool).

Inductive runs_callbacks (c : cid) : list callback_kind -> world -> world -> Prop :=
  | runs_none w : runs_callbacks c [] w w
  | runs_one k ks w w1 w2 : is_Some (w_chans w !! c) ->
      run_actions (react w c k) (log_call c k w) = Ok w1 ->
      runs_callbacks c ks w1 w2 -> runs_callbacks c (k :: ks) w w2.

Inductive turns_taken (w0 : world) : list (cid * Z) -> world -> list turn -> world -> Prop :=
  | turns_none w : turns_taken w0 [] w [] (with_active [] w)
  | turns_one c r evs w ch0 ch tn ts w1 w2 :
      w_chans w0 !! c = Some ch0 -> w_chans w !! c = Some ch ->
      dispatch_of ch = dispatch_of (setRevents r ch0) ->
      tn = mkTurn c (bool_decide (c ∈ w_funcs w)) (handleEvent (owner (with_active (c :: map fst evs) w) c) ch) ->
      (t_late tn = true -> t_callbacks tn = []) ->
      runs_callbacks c (t_callbacks tn) (log_turn tn (with_active (c :: map fst evs) w)) w1 ->
      turns_taken w0 evs w1 ts w2 ->
      turns_taken w0 ((c, r) :: evs) w (tn :: ts) w2.

(** The callbacks of a turn. *)
Definition turn_calls (tn : turn) : list (cid * callback_kind) := map (pair (t_channel tn)) (t_callbacks tn).

Lemma run_actions_calls acts w w' : run_actions acts w = Ok w' -> calls w' = calls w.
Proof.
  revert w. induction acts as [|act acts IH]; intros w; cbn [run_actions]; [by intros [= <-]|].
  intros (w1 & E1 & E2)%bind_Ok. rewrite (IH _ E2). destruct act as [op|d|d]; cbn [run_action] in E1.
  - by apply bind_Ok in E1 as (x & _ & [= <-]).
  - by apply bind_Ok in E1 as (x & _ & [= <-]).
  - apply bind_Ok in E1 as (x & _ & (y & _ & E)%bind_Ok). destruct y. by injection E as <-.
Qed.

Lemma runs_callbacks_calls c ks w w' : runs_callbacks c ks w w' -> calls w' = calls w ++ map (pair c) ks.
Proof.
  induction 1 as [w|k ks w w1 w2 _ E%run_actions_calls _ IH]; [by rewrite app_nil_r|].
  rewrite IH, E. cbn. by rewrite <- app_assoc.
Qed.

Lemma turns_taken_calls w0 evs w ts w' : turns_taken w0 evs w ts w' -> calls w' = calls w ++ flat_map turn_calls ts.
Proof.
  induction 1 as [|c r evs w ch0 ch tn ts w1 w2 _ _ _ -> _ H%runs_callbacks_calls _ IH]; [by rewrite app_nil_r|].
  rewrite IH, H. cbn. by rewrite <- app_assoc.
Qed.

Lemma turns_taken_channels w0 evs w ts w' : turns_taken w0 evs w ts w' -> map t_channel ts = map fst evs.
Proof. induction 1 as [|? ? ? ? ? ? ? ? ? ? _ _ _ -> _ _ _ IH]; [done|]. cbn. by rewrite IH. Qed.
End turns.

Section safe.
Context (react : world -> cid -> callback_kind -> list action) (owner : world -> cid -> bool).
Context (Hd : disciplined react).

Lemma call_back_ok c kinds w a :
  round_ok w a -> c ∈ m_activeChannels w -> busy_in w a ->
  exists w' a', call_back react c kinds w = Ok w' /\ round_ok w' a' /\ busy_in w' a' /\
    m_activeChannels w' = m_activeChannels w /\ turns w' = turns w /\
    runs_callbacks react c kinds w w' /\ keeps_dispatch (m_activeChannels w) w w'.
Proof.
  revert w a. induction kinds as [|k kinds IH]; intros w a H Hc Hb; cbn [call_back].
  { exists w, a. split_and!; try done; [constructor|]. intros d ch _ E. by exists ch. }
  destruct (Hb c Hc) as [x Hx]. destruct (ro_chans _ _ H) as [t Ht].
  destruct (co_lookup _ _ _ _ _ _ Ht Hx) as (ch & Hch & _). unfold deref. rewrite Hch. cbn [mbind res_bind].
  destruct (Hd w a c k H Hb Hc) as [s Hs]. assert (round_ok (log_call c k w) a) as Hl by (by destruct H).
  destruct (run_actions_ok _ _ (log_call c k w) _ _ Hl Hs) as (w1 & Er & H1 & _ & (Ha1 & Ht1 & _) & Hb1).
  rewrite Er. cbn [mbind res_bind].
  pose proof (run_actions_keeps _ _ (log_call c k w) _ _ _ Hl Hs Er) as Hk1.
  destruct (IH w1 s.1 H1) as (w' & a' & -> & H' & Hb' & Ha' & Ht' & Hr' & Hk'); [by rewrite Ha1| |].
  - intros d Hdd. rewrite Ha1 in Hdd. by apply Hb1, Hb.
  - rewrite Ha1 in Hk'. exists w', a'. split_and!; try done; [by rewrite Ha', Ha1|by rewrite Ht', Ht1|by econstructor; eauto|].
    exact (keeps_dispatch_trans _ (log_call c k w) _ _ Hk1 Hk').
Qed.

(** A channel without interest gets no callback. *)
Lemma handleEvent_none own ch : m_events ch = 0 -> handleEvent own ch = [].
Proof. intros E. unfold handleEvent, isNoneEvent. by rewrite E. Qed.

(** The channels to come are as they were, but for their interest. *)
Definition as_polled (w0 : world) (evs : list (cid * Z)) (w : world) : Prop :=
  forall c r, (c, r) ∈ evs -> exists ch0 ch, w_chans w0 !! c = Some ch0 /\ w_chans w !! c = Some ch /\
    dispatch_of ch = dispatch_of (setRevents r ch0).

Lemma handle_active_ok w0 evs w a :
  round_ok w a -> (forall c, c ∈ map fst evs -> is_Some (a !! c)) -> as_polled w0 evs w ->
  exists w' a' ts, handle_active react owner (map fst evs) w = Ok w' /\ round_ok w' a' /\
    turns w' = turns w ++ ts /\ turns_taken react owner w0 evs w ts w'.
Proof.
  revert w a. induction evs as [|[c r] evs IH]; intros w a H Hb Hp; cbn [handle_active map fst].
  - exists (with_active [] w), a, []. rewrite app_nil_r. split_and!; try done; [by destruct H|constructor].
  - set (w1 := with_active (c :: map fst evs) w). assert (round_ok w1 a) as H1 by (by destruct H).
    destruct (Hb c ltac:(left)) as [x Hx]. destruct (ro_chans _ _ H1) as [t Ht].
    destruct (co_lookup _ _ _ _ _ _ Ht Hx) as (ch & Hch & _ & He & _). unfold deref. rewrite Hch. cbn [mbind res_bind].
    set (tn := mkTurn _ _ _). assert (t_late tn = true -> t_callbacks tn = []) as Htn.
    { unfold tn. cbn. intros Hl%bool_decide_eq_true. apply handleEvent_none.
      destruct (ro_funcs _ _ H1 c Hl) as (y & Hy & Hfl & _). rewrite Hx in Hy. injection Hy as <-. by rewrite He, Hfl. }
    destruct (call_back_ok c (handleEvent (owner w1 c) ch) (log_turn tn w1) a)
      as (w2 & a2 & -> & H2 & Hb2 & Ha2 & Ht2 & Hr2 & Hk2); [by destruct H1|by left|done|]. cbn [mbind res_bind].
    destruct (Hp c r ltac:(left)) as (ch0 & ch' & Hch0 & Hch' & Hdis).
    change (w_chans w1) with (w_chans w) in Hch. rewrite Hch in Hch'. injection Hch' as <-.
    destruct (IH w2 a2 H2) as (w' & a' & ts & -> & H' & Ht' & Htt).
    { intros d Hdd. apply Hb2. rewrite Ha2. by right. }
    { intros d q Hdq. destruct (Hp d q ltac:(by right)) as (d0 & d1 & Hd0 & Hd1 & HD).
      destruct (Hk2 d d1) as (d2 & Hd2 & HD2); [|done|].
      - cbn. right. apply (list_elem_of_fmap_2 fst _ _ Hdq).
      - exists d0, d2. split_and!; try done. congruence. }
    exists w', a', (tn :: ts). split_and!; try done; [rewrite Ht', Ht2; cbn; by rewrite <- app_assoc|].
    eapply turns_one; eauto.
Qed.
End safe.

Lemma run_funcs_ok l w a t :
  chans_ok (w_chans w) (w_poller w) a t -> NoDup l ->
  (forall c, c ∈ l -> exists x, a !! c = Some x /\ sp_flags x = (false, false) /\ sp_reg x = true) ->
  exists w' a', run_funcs l w = Ok w' /\ round_ok w' a' /\ w_funcs w' = [] /\ turns w' = turns w /\ calls w' = calls w /\
    retired w' = retired w /\ (forall c, c ∈ l \/ a !! c = None -> a' !! c = None).
Proof.
  revert w a t. induction l as [|c l IH]; intros w a t H Hn Hl; cbn [run_funcs].
  - exists (with_funcs [] w), a. split_and!; try done; [constructor; [by exists t|set_solver|by constructor]|].
    intros c [Hc|?]; [by apply elem_of_nil in Hc|done].
  - apply NoDup_cons in Hn as [Hc Hn]. destruct (Hl c ltac:(left)) as (x & Hx & Hfl & Hr).
    destruct (spec_step (ORemove c) a) as [a1|] eqn:E; [|cbn in E; rewrite Hx in E; cbn in E; by rewrite bool_decide_true in E].
    destruct (remove_destroy_ok w a t c a1 H E) as (chs & p & -> & t' & H'). cbn [mbind res_bind].
    destruct (IH (with_chans (delete c chs, p) w) (delete c a1) t' H' Hn) as (w' & a' & -> & ? & ? & ? & ? & ? & Hgone).
    { intros d Hdd. destruct (Hl d ltac:(by right)) as (y & Hy & ?). exists y.
      assert (d <> c) by (by intros ->). by rewrite lookup_delete_ne, (spec_step_other _ _ _ _ E). }
    exists w', a'. split_and!; try done. intros d Hdd. apply Hgone.
    destruct (decide (d = c)) as [-> | Hdc]; [right; apply lookup_delete_eq|].
    destruct Hdd as [[? | Hdd]%elem_of_cons|Hdd]; [done|by left|right].
    by rewrite lookup_delete_ne, (spec_step_other _ _ _ _ E).
Qed.

(** While callbacks run, what is retired is queued. *)
Definition retires (w w' : world) : Prop := exists e, w_funcs w' = w_funcs w ++ e /\ retired w' = retired w ++ e.

Lemma retires_refl w w' : w_funcs w' = w_funcs w -> retired w' = retired w -> retires w w'.
Proof. intros E1 E2. exists []. by rewrite !app_nil_r. Qed.

Lemma retires_trans w1 w2 w3 : retires w1 w2 -> retires w2 w3 -> retires w1 w3.
Proof. intros (e & E1 & E2) (f & F1 & F2). exists (e ++ f). by rewrite F1, F2, E1, E2, !app_assoc. Qed.

Lemma run_action_retires act w w' : run_action act w = Ok w' -> retires w w'.
Proof.
  destruct act as [op|c|c]; cbn [run_action].
  - intros (x & _ & [= <-])%bind_Ok. by apply retires_refl.
  - intros (x & _ & [= <-])%bind_Ok. by exists [c].
  - intros (x & _ & (y & _ & E)%bind_Ok)%bind_Ok. destruct y. injection E as <-. by apply retires_refl.
Qed.

Lemma run_actions_retires acts w w' : run_actions acts w = Ok w' -> retires w w'.
Proof.
  revert w. induction acts as [|act acts IH]; intros w; cbn [run_actions]; [intros [= <-]; by apply retires_refl|].
  intros (w1 & E1%run_action_retires & E2%IH)%bind_Ok. by eapply retires_trans.
Qed.

Lemma call_back_retires react c kinds w w' : call_back react c kinds w = Ok w' -> retires w w'.
Proof.
  revert w. induction kinds as [|k kinds IH]; intros w; cbn [call_back]; [intros [= <-]; by apply retires_refl|].
  intros (x & _ & (w1 & E1%run_actions_retires & E2%IH)%bind_Ok)%bind_Ok. by eapply retires_trans.
Qed.

Lemma handle_active_retires react owner active w w' : handle_active react owner active w = Ok w' -> retires w w'.
Proof.
  revert w. induction active as [|c active IH]; intros w; cbn [handle_active]; [intros [= <-]; by apply retires_refl|].
  intros (x & _ & (w1 & E1%call_back_retires & E2%IH)%bind_Ok)%bind_Ok.
  eapply retires_trans; [|exact E2]. eapply retires_trans; [|exact E1]. by apply retires_refl.
Qed.

(** What [epoll_wait] may answer: registered channels with interest, each once,
    as many as fit into the event vector. *)
Definition answerable (w : world) (evs : list (cid * Z)) : Prop :=
  Z.of_nat (length evs) <= ep_events (w_poller w) /\ NoDup (map fst evs) /\
  Forall (fun ev => exists fd e, watched (w_poller w) !! fd = Some (fst ev, e)) evs.

Lemma poll_ok w a evs :
  round_ok w a -> answerable w evs ->
  exists chs p, EpollPoller_poll (Z.of_nat (length evs)) evs (w_chans w) (w_poller w) = Ok (chs, map fst evs, p) /\
    (exists t, @chans_ok EpollPoller _ _ chs p a t) /\ (forall c, c ∈ map fst evs -> is_Some (a !! c)) /\
    (forall c r, (c, r) ∈ evs -> exists ch, w_chans w !! c = Some ch /\ chs !! c = Some (setRevents r ch)) /\
    (forall c, c ∉ map fst evs -> chs !! c = w_chans w !! c).
Proof.
  intros [[t H] _ _] (Hl & Hn & Hall).
  assert (Forall (fun ev => exists fd e, t !! fd = Some (fst ev, e)) evs) as Ht.
  { eapply Forall_impl; [exact Hall|]. intros ev (fd & e & E). exists fd, e.
    rewrite (p_inv_watched _ _ _ (co_inv _ _ _ _ H)) in E. by apply nonzero_lookup in E as [? _]. }
  destruct (fill_fold (w_poller w) evs (w_chans w) [] t (co_inv _ _ _ _ H) Ht Hn) as (chs & E & Hi & Hold & Hnew).
  assert (forall p, epoll_inv chs t p -> @chans_ok EpollPoller _ _ chs p a t) as Hok.
  { intros p Hp. constructor; [done| |apply (co_table _ _ _ _ H)]. intros c. pose proof (co_chans _ _ _ _ H c) as Hc.
    destruct (decide (c ∈ map fst evs)) as [Hin|Hin]; [|by rewrite Hold].
    apply list_elem_of_fmap in Hin as ([d r] & -> & Hin). destruct (Hnew _ _ Hin) as (ch & Hch & Hch').
    cbn [fst] in *. rewrite Hch in Hc. by rewrite Hch'. }
  assert (forall c, c ∈ map fst evs -> is_Some (a !! c)) as Hdom.
  { intros c Hin. apply list_elem_of_fmap in Hin as (ev & -> & Hin). rewrite Forall_forall in Ht.
    destruct (Ht ev Hin) as (fd & e & E1). apply (co_table _ _ _ _ H) in E1 as (x & -> & _). by eexists. }
  unfold EpollPoller_poll, EpollPoller_fillActiveChannels. destruct (Z.ltb_spec 0 (Z.of_nat (length evs))) as [_|Hz].
  - rewrite (proj2 (Z.leb_le _ _) Hl). cbn [assert mbind res_bind]. rewrite E. cbn [mbind res_bind app].
    eexists _, _. split; [reflexivity|]. split; [|done]. exists t. apply Hok. by destruct Hi.
  - destruct evs; [|cbn in Hz; lia]. cbn. exists (w_chans w), (w_poller w). split; [done|]. split; [by exists t|]. split; set_solver.
Qed.

(** The state after [poll]: the reported events are stored in their channels. *)
Definition polled (evs : list (cid * Z)) (w v : world) : Prop :=
  (forall c r, (c, r) ∈ evs -> exists ch, w_chans w !! c = Some ch /\ w_chans v !! c = Some (setRevents r ch)) /\
  (forall c, c ∉ map fst evs -> w_chans v !! c = w_chans w !! c) /\
  w_funcs v = w_funcs w /\ turns v = turns w /\ calls v = calls w.

(** C3. A round of a loop never meets a dangling channel and calls exactly the
    callbacks it should, as long as callbacks end channels the way the library
    means them to ([disciplined]: nothing is done to a retired channel, and a
    channel that is current or still to come in the round is not destroyed at
    once) and [epoll_wait] answers registered channels.  Whatever else the
    callbacks do: every reported channel takes its turn, in order; it still
    exists then, with the reported events and its callbacks; the callbacks that
    run are exactly those that [handleEvent] selects for it as it is at its
    turn, each called once and in order, and no others are called in the round;
    a channel retired earlier in the round gets none; no assertion fails; the
    retired channels are removed and destroyed by the end of the round; and the
    loop is again in a state in which the next round can start. *)
Theorem round_safe react owner w a evs :
  disciplined react -> round_ok w a -> answerable w evs ->
  exists v w2 w' a' ts, loop_round react owner evs w = Ok w' /\ round_ok w' a' /\ w_funcs w' = [] /\
    polled evs w v /\ turns_taken react owner w evs v ts w2 /\ run_funcs (w_funcs w2) w2 = Ok w' /\
    turns w' = turns w ++ ts /\ map t_channel ts = map fst evs /\ calls w' = calls w ++ flat_map turn_calls ts /\
    exists rs, retired w' = retired w ++ rs /\ forall c, c ∈ w_funcs w ++ rs -> w_chans w' !! c = None.
Proof.
  intros Hd H Hev. destruct (poll_ok w a evs H Hev) as (chs & p & E & Hok & Hdom & Hnew & Hold).
  unfold loop_round. rewrite E. cbn [mbind res_bind].
  set (v := with_active _ _). assert (round_ok v a) as H1 by (destruct H; by constructor).
  destruct (handle_active_ok react owner Hd w evs v a H1 Hdom) as (w2 & a2 & ts & E2 & H2 & Ht & Htt).
  { intros c r Hc. destruct (Hnew c r Hc) as (ch & Hch & Hch'). by exists ch, (setRevents r ch). }
  rewrite E2. cbn [mbind res_bind]. apply handle_active_retires in E2 as (rs & Hfr & Hrr). destruct H2 as [[t2 Hc2] Hf2 Hn2].
  destruct (run_funcs_ok (w_funcs w2) w2 a2 t2 Hc2 Hn2 Hf2) as (w' & a' & E3 & H' & Hf' & Ht' & Hc' & Hr' & Hgone).
  exists v, w2, w', a', ts. split_and!; try done; [by rewrite Ht', Ht|by eapply turns_taken_channels| |].
  { by rewrite Hc', (turns_taken_calls _ _ _ _ _ _ _ Htt). }
  exists rs. split; [by rewrite Hr', Hrr|].
  intros c Hc. destruct (ro_chans _ _ H') as [t' Hk]. pose proof (co_chans _ _ _ _ Hk c) as Hcc.
  rewrite (Hgone c) in Hcc by (left; by rewrite Hfr). by destruct (w_chans w' !! c).
Qed.

(** *** A loop with two connections *)

(** A registered channel is the only one for its descriptor. *)
Lemma registered_only chs p a t c x :
  @chans_ok EpollPoller _ _ chs p a t -> a !! c = Some x -> sp_reg x = true ->
  map_Forall (fun c' y => c' = c \/ sp_fd y <> sp_fd x \/ sp_reg y = false) a.
Proof.
  intros H Hx Hr c' y Hy. destruct (decide (sp_fd y = sp_fd x)) as [E|]; [|auto].
  destruct (sp_reg y) eqn:Hry; [|auto]. left.
  assert (t !! sp_fd x = Some (c, flags_mask (sp_flags x))) as E1 by (apply (co_table _ _ _ _ H); eauto).
  assert (t !! sp_fd x = Some (c', flags_mask (sp_flags y))) as E2 by (apply (co_table _ _ _ _ H); eauto).
  congruence.
Qed.

Lemma disable_spec chs p a t c x :
  @chans_ok EpollPoller _ _ chs p a t -> a !! c = Some x -> sp_reg x = true ->
  spec_step (OInterest c DisableAll) a = Some (<[c := mkSpec (sp_fd x) (false, false) true]> a).
Proof. intros H Hx Hr. cbn. rewrite Hx. cbn. by rewrite bool_decide_true by (by eapply registered_only). Qed.

(** Every callback retires its channel, once. *)
Definition close_react (w : world) (c : cid) (_ : callback_kind) : list action :=
  match w_chans w !! c with
  | Some ch => if bool_decide (c ∈ w_funcs w) || (m_index ch =? kNew) then [] else [ARetire c]
  | None => []
  end.

Lemma close_react_disciplined : disciplined close_react.
Proof.
  intros w a c k [[t H] _ _] Hb Hc. unfold close_react. destruct (w_chans w !! c) as [ch|] eqn:Hch; [|by eexists].
  destruct (bool_decide_reflect (c ∈ w_funcs w)) as [|Hf]; [by eexists|]. cbn [orb].
  destruct (Z.eqb_spec (m_index ch) kNew) as [|Hi]; [by eexists|]. cbn [spec_actions spec_action].
  rewrite bool_decide_false by done. destruct (Hb c Hc) as [x Hx]. rewrite (disable_spec (w_chans w) (w_poller w) a t c x); [by eexists|done|done|].
  destruct (sp_reg x) eqn:Hr; [done|]. destruct Hi. apply (epi_new _ _ _ (co_inv _ _ _ _ H) c ch Hch).
  intros fd [d e] Ht E. cbn in E. subst d. apply (co_table _ _ _ _ H) in Ht as (y & Hy & _ & Hry & _). congruence.
Qed.

(** Setting callbacks leaves the poller in step. *)
Definition with_read_callback (ch : Channel) : Channel :=
  mkChannel (m_fd ch) (m_events ch) (m_revents ch) (m_index ch) (m_addedToLoop ch) true
    (m_writeCallback ch) (m_errorCallback ch) (m_closeCallback ch) (m_eventCallback ch) (m_tied ch).

Lemma callbacks_ok chs p a t :
  @chans_ok EpollPoller _ _ chs p a t -> @chans_ok EpollPoller _ _ (with_read_callback <$> chs) p a t.
Proof.
  intros [H1 H2 H3]. constructor; [| |done].
  - apply (p_inv_store chs); [done| |].
    + intros c ch' Hc. rewrite lookup_fmap in Hc. apply fmap_Some in Hc as (ch & Hc & ->). left. by exists ch.
    + intros c [ch Hc]. rewrite lookup_fmap, Hc. by eexists.
  - intros c. rewrite lookup_fmap. specialize (H2 c). by destruct (chs !! c), (a !! c).
Qed.

Definition two_ops : list channel_op := [ONew 1 5; OInterest 1 EnableReading; ONew 2 6; OInterest 2 EnableReading].
Definition two_spec : gmap nat chan_spec :=
  <[2%nat := mkSpec 6 (true, false) true]> {[1%nat := mkSpec 5 (true, false) true]}.
Definition two_channels : world :=
  match channel_run two_ops ∅ EpollPoller_new with
  | Ok (chs, p) => mkWorld (with_read_callback <$> chs) p [] [] [] [] []
  | Fail _ => mkWorld ∅ EpollPoller_new [] [] [] [] []
  end.

Lemma two_channels_ok : round_ok two_channels two_spec.
Proof.
  destruct (channel_run_ok two_ops ∅ (poller_new : EpollPoller) ∅ two_spec ∅) as (chs & p & t & E & H).
  - constructor; [by apply p_inv_new|done|]. intros fd c e. split; [done|]. by intros (x & ? & _).
  - vm_compute. reflexivity.
  - unfold two_channels. change EpollPoller_new with (poller_new : EpollPoller). rewrite E. constructor; [exists t; by apply callbacks_ok|set_solver|constructor].
Qed.

Lemma two_answerable : answerable two_channels [(1%nat, POLLIN); (2%nat, POLLIN)].
Proof.
  split; [vm_compute; discriminate|]. split; [repeat constructor; set_solver|].
  repeat constructor; [exists 5, 3|exists 6, 3]; vm_compute; reflexivity.
Qed.

Lemma round_safe_witness :
  exists v w2 w' a' ts, loop_round close_react (fun _ _ => true) [(1%nat, POLLIN); (2%nat, POLLIN)] two_channels = Ok w' /\
    round_ok w' a' /\ w_funcs w' = [] /\
    polled [(1%nat, POLLIN); (2%nat, POLLIN)] two_channels v /\
    turns_taken close_react (fun _ _ => true) two_channels [(1%nat, POLLIN); (2%nat, POLLIN)] v ts w2 /\
    run_funcs (w_funcs w2) w2 = Ok w' /\
    turns w' = ts /\ map t_channel ts = [1%nat; 2%nat] /\ calls w' = flat_map turn_calls ts /\
    exists rs, retired w' = rs /\ forall c, c ∈ rs -> w_chans w' !! c = None.
Proof.
  apply (round_safe close_react (fun _ _ => true) two_channels two_spec);
    [exact close_react_disciplined|exact two_channels_ok|exact two_answerable].
Defined.

(** Both channels had their callback, and are gone. *)
Example two_closed :
  match loop_round close_react (fun _ _ => true) [(1%nat, POLLIN); (2%nat, POLLIN)] two_channels with
  | Ok w => bool_decide (w_chans w = ∅) && bool_decide (calls w = [(1%nat, CbRead); (2%nat, CbRead)])
  | Fail _ => false
  end = true.
Proof. vm_compute. reflexivity. Qed.

Lemma handle_active_cons react owner c rest w ch :
  w_chans w !! c = Some ch ->
  handle_active react owner (c :: rest) w =
    (let w1 := with_active (c :: rest) w in
     let kinds := handleEvent (owner w1 c) ch in
     w2 ← call_back react c kinds (log_turn (mkTurn c (bool_decide (c ∈ w_funcs w)) kinds) w1);
     handle_active react owner rest w2).
Proof. intros E. cbn [handle_active with_active w_chans]. unfold deref. by rewrite E. Qed.

Lemma call_back_cons react c k kinds w ch :
  w_chans w !! c = Some ch ->
  call_back react c (k :: kinds) w = (w1 ← run_actions (react w c k) (log_call c k w); call_back react c kinds w1).
Proof. intros E. cbn [call_back]. unfold deref. by rewrite E. Qed.

(** [ADestroy] of a registered channel: it is gone. *)
Lemma destroy_now w a t d y :
  chans_ok (w_chans w) (w_poller w) a t -> a !! d = Some y -> sp_reg y = true ->
  exists chs p, run_action (ADestroy d) w = Ok (with_chans (delete d chs, p) w).
Proof.
  intros H Hy Hr.
  destruct (channel_step_ok _ _ _ _ _ _ H (disable_spec _ _ _ _ _ _ H Hy Hr)) as (chs & p & t2 & E & H2).
  cbn [run_action channel_step] in *. rewrite E. cbn [mbind res_bind].
  assert (spec_step (ORemove d) (<[d := mkSpec (sp_fd y) (false, false) true]> a) = Some (<[d := mkSpec (sp_fd y) (false, false) false]> a)) as E3.
  { cbn. rewrite lookup_insert_eq. cbn. rewrite bool_decide_true by done. by rewrite insert_insert_eq. }
  destruct (remove_destroy_ok (with_chans (chs, p) w) _ t2 d _ H2 E3) as (chs3 & p3 & -> & _). by eexists _, _.
Qed.

(** [TcpServer::stop] called from a callback of the server's own loop can
    leave a dangling channel.  It destroys the acceptor with its channel at
    once; if a client is waiting to be accepted in the same round, after the
    connection whose callback called [stop], the loop goes on with the destroyed
    channel. *)
Theorem stop_in_callback_dangles owner w a c d x y ch r :
  round_ok w a -> w_funcs w = [] -> c <> d ->
  a !! c = Some x -> sp_reg x = true -> sp_flags x = (true, false) ->
  a !! d = Some y -> sp_reg y = true -> sp_flags y = (true, false) ->
  w_chans w !! c = Some ch -> m_readCallback ch = true -> m_eventCallback ch = false -> m_tied ch = false ->
  2 <= ep_events (w_poller w) ->
  loop_round (fun _ c' k => if bool_decide (c' = c) && bool_decide (k = CbRead) then [ADestroy d] else [])
    owner [(c, POLLIN); (d, r)] w = Fail UseAfterFree.
Proof.
  intros H Hf Hne Hx Hrx Hfx Hy Hry Hfy Hch Hrd Hev Htie Hsz. set (react := fun _ _ _ => _).
  destruct (ro_chans _ _ H) as [t Ht].
  assert (answerable w [(c, POLLIN); (d, r)]) as Hans.
  { split; [cbn; lia|]. split; [cbn; repeat constructor; set_solver|].
    assert (forall e z, a !! e = Some z -> sp_reg z = true -> sp_flags z = (true, false) ->
      exists fd m, watched (w_poller w) !! fd = Some (e, m)) as Hw.
    { intros e z Hz Hrz Hfz. exists (sp_fd z), (flags_mask (sp_flags z)). rewrite (p_inv_watched _ _ _ (co_inv _ _ _ _ Ht)).
      apply nonzero_lookup. split; [apply (co_table _ _ _ _ Ht); eauto|by rewrite Hfz]. }
    repeat constructor; cbn; eauto. }
  destruct (poll_ok _ _ _ H Hans) as (chs & p & E & [t1 H1] & _ & Hrev & _). unfold loop_round. rewrite E. cbn [mbind res_bind map fst].
  destruct (Hrev c POLLIN ltac:(left)) as (ch' & Hch' & Hc). rewrite Hch in Hch'. injection Hch' as <-.
  set (w1 := with_active [c; d] (with_chans (chs, p) w)).
  rewrite (handle_active_cons _ _ _ _ w1 (setRevents POLLIN ch)) by exact Hc. cbv zeta.
  assert (handleEvent (owner (with_active [c; d] w1) c) (setRevents POLLIN ch) = [CbRead]) as ->.
  { destruct (co_lookup _ _ _ _ _ _ Ht Hx) as (ch0 & Hch0 & _ & He & _). rewrite Hch in Hch0. injection Hch0 as <-.
    unfold handleEvent, isNoneEvent, handleEventSafely. cbn. rewrite He, Hfx, Htie, Hev, Hrd. cbn. by destruct (m_closeCallback ch), (m_errorCallback ch). }
  rewrite (call_back_cons _ _ _ _ _ (setRevents POLLIN ch)) by exact Hc.
  assert (forall v, react v c CbRead = [ADestroy d]) as -> by (intros v; unfold react; by rewrite !bool_decide_true by done).
  cbn [run_actions].
  match goal with |- context [run_action (ADestroy d) ?v] => destruct (destroy_now v a t1 d y H1 Hy Hry) as (chs3 & p3 & ->) end.
  cbn [mbind res_bind call_back handle_active]. unfold deref. cbn [with_active with_chans w_chans fst].
  by rewrite lookup_delete_eq.
Qed.

Lemma stop_in_callback_dangles_witness :
  loop_round (fun _ c' k => if bool_decide (c' = 1%nat) && bool_decide (k = CbRead) then [ADestroy 2] else [])
    (fun _ _ => true) [(1%nat, POLLIN); (2%nat, POLLIN)] two_channels = Fail UseAfterFree.
Proof.
  eapply (stop_in_callback_dangles (fun _ _ => true) two_channels two_spec 1 2);
    [exact two_channels_ok|reflexivity|discriminate|reflexivity|reflexivity|reflexivity|reflexivity|reflexivity|reflexivity
    |vm_compute; reflexivity|reflexivity|reflexivity|reflexivity|vm_compute; discriminate].
Defined.
