(* ===== verification/AfterFork.v ===== *)
(** * After [fork]: [resetAfterFork] and [resetTimerQueue]

    [EventLoop::resetAfterFork] hands the poller a new descriptor in the child:
    [KQueue] makes its kernel queue anew, since a child does not inherit it; the
    other pollers do nothing ([Poller::resetAfterFork]).
    [EventLoop::resetTimerQueue] replaces the timerfd and its channel (Linux).
    The rest of [KQueue::poll] is here too.

    An epoll instance is inherited: parent and child share its interest list,
    whose entries are keyed by descriptor and open file.  In [Shared] each
    process has its own channels, poller and descriptors, and one list is
    between them. *)

From S2P Require Import Prelude Channel Poller.

(** ** [KQueue] *)

(** The timeout of [KQueue::poll] as a [timespec]. *)
Definition kq_timespec (timeoutMs : Z) : Z * Z :=
  (Z.quot timeoutMs 1000, Z.rem timeoutMs 1000 * 1000000).

Lemma kq_timespec_exact timeoutMs : 0 <= timeoutMs ->
  let '(sec, nsec) := kq_timespec timeoutMs in
  0 <= nsec < 1000000000 /\ sec * 1000000000 + nsec = timeoutMs * 1000000.
Proof.
  intros H. unfold kq_timespec. pose proof (Z.rem_bound_pos timeoutMs 1000). pose proof (Z.quot_rem' timeoutMs 1000). lia.
Qed.

(** [KQueue::poll], for the number of events that [kevent] answers (negative for
    an error) and the events themselves. *)
Definition KQueue_poll (numEvents : Z) (evs : list (cid * kq_filter)) (chs : store) (p : KQueue)
    : res (store * list cid * KQueue) :=
  if 0 <? numEvents then
    '(chs, active) ← KQueue_fillActiveChannels p evs chs;
    let size := if numEvents =? events_ p then events_ p * 2 else events_ p in
    Ok (chs, active, mkKQueue (channels_ p) (kq_read p) (kq_write p) size)
  else Ok (chs, [], p).

(** One turn of the loop of [KQueue::resetAfterFork]. *)
Definition kq_reset_one (chs : store) (p : KQueue) (fd : Z) : res KQueue :=
  match channels_ p !! fd with
  | None => Ok p
  | Some (_, c) =>
      let p := mkKQueue (<[fd := (0, c)]> (channels_ p)) (kq_read p) (kq_write p) (events_ p) in
      ch ← deref chs c;
      Ok (if isReading ch || isWriting ch then kq_update c ch p else p)
  end.

Fixpoint kq_reset_all (chs : store) (fds : list Z) (p : KQueue) : res KQueue :=
  match fds with
  | [] => Ok p
  | fd :: fds => p ← kq_reset_one chs p fd; kq_reset_all chs fds p
  end.

(** [KQueue::resetAfterFork]: the new queue has no filters; [fds] is the order
    in which the map is walked. *)
Definition KQueue_resetAfterFork (fds : list Z) (chs : store) (p : KQueue) : res KQueue :=
  kq_reset_all chs fds (mkKQueue (channels_ p) ∅ ∅ (events_ p)).

(** The map is complete, and the filters of the channels in [done] are back. *)
Record restoring (t : table) (done : gset Z) (p : KQueue) : Prop := {
  rs_channels : forall fd, channels_ p !! fd = (fun x => (snd x, fst x)) <$> t !! fd;
  rs_read : forall fd, kq_read p !! fd = if bool_decide (fd ∈ done) then kq_filters kReadEvent (t !! fd) else None;
  rs_write : forall fd, kq_write p !! fd = if bool_decide (fd ∈ done) then kq_filters kWriteEvent (t !! fd) else None
}.

(** What a filter that is off becomes. *)
Lemma kq_change_off new fd c flt fd' :
  kq_change false new fd c flt !! fd' = if bool_decide (fd' = fd) && new then Some c else flt !! fd'.
Proof.
  unfold kq_change. rewrite andb_true_r. destruct new; cbn [negb andb]; [|by rewrite andb_false_r].
  case_bool_decide as E; [subst; apply lookup_insert_eq|by apply lookup_insert_ne].
Qed.

Lemma restoring_step chs t done p c ch fd :
  restoring t done p -> chs !! c = Some ch -> m_fd ch = fd -> proper (m_events ch) ->
  t !! fd = Some (c, m_events ch) -> fd ∉ done ->
  exists p', kq_reset_one chs p fd = Ok p' /\ restoring t (done ∪ {[fd]}) p'.
Proof.
  intros [H1 H2 H3] Hc Hfd (r & w & He) Ht Hd. unfold kq_reset_one, deref. rewrite H1, Ht. cbn [fmap option_fmap option_map fst snd].
  rewrite Hc. cbn [mbind res_bind]. eexists. split; [reflexivity|]. unfold isReading, isWriting. rewrite He, two_flags_read, two_flags_write.
  assert (forall fd', (if bool_decide (fd' ∈ done ∪ {[fd]}) then kq_filters kReadEvent (t !! fd') else None) =
    if bool_decide (fd' = fd) && r then Some c else kq_read p !! fd') as Er.
  { intros fd'. rewrite H2. destruct (decide (fd' = fd)) as [->|].
    - rewrite (bool_decide_true (fd ∈ _)), (bool_decide_true (fd = fd)), (bool_decide_false (fd ∈ done)), Ht by set_solver.
      cbn [kq_filters]. rewrite He, two_flags_read. by destruct r.
    - rewrite (bool_decide_false (fd' = fd)) by done. cbn [andb]. by rewrite (bool_decide_ext (fd' ∈ _) (fd' ∈ done)) by set_solver. }
  assert (forall fd', (if bool_decide (fd' ∈ done ∪ {[fd]}) then kq_filters kWriteEvent (t !! fd') else None) =
    if bool_decide (fd' = fd) && w then Some c else kq_write p !! fd') as Ew.
  { intros fd'. rewrite H3. destruct (decide (fd' = fd)) as [->|].
    - rewrite (bool_decide_true (fd ∈ _)), (bool_decide_true (fd = fd)), (bool_decide_false (fd ∈ done)), Ht by set_solver.
      cbn [kq_filters]. rewrite He, two_flags_write. by destruct w.
    - rewrite (bool_decide_false (fd' = fd)) by done. cbn [andb]. by rewrite (bool_decide_ext (fd' ∈ _) (fd' ∈ done)) by set_solver. }
  destruct (r || w) eqn:Erw.
  - constructor; unfold kq_update; cbn [channels_ kq_read kq_write]; rewrite Hfd, ?lookup_insert_eq, He.
    + intros fd'. destruct (decide (fd' = fd)) as [->|].
      * by rewrite lookup_insert_eq, Ht, He.
      * rewrite !lookup_insert_ne by done. apply H1.
    + intros fd'. rewrite Er, two_flags_read. apply (kq_change_off r fd c).
    + intros fd'. rewrite Ew, two_flags_write. apply (kq_change_off w fd c).
  - apply orb_false_iff in Erw as [-> ->]. constructor; cbn [channels_ kq_read kq_write].
    + intros fd'. destruct (decide (fd' = fd)) as [->|].
      * by rewrite lookup_insert_eq, Ht, He.
      * rewrite !lookup_insert_ne by done. apply H1.
    + intros fd'. by rewrite Er, andb_false_r.
    + intros fd'. by rewrite Ew, andb_false_r.
Qed.

Lemma restoring_all chs t fds done p :
  (forall fd c e, t !! fd = Some (c, e) -> exists ch, chs !! c = Some ch /\ m_fd ch = fd /\ m_events ch = e /\ proper e) ->
  restoring t done p -> NoDup fds -> (forall fd, fd ∈ fds -> fd ∉ done) -> (forall fd, fd ∈ fds -> is_Some (t !! fd)) ->
  exists p', kq_reset_all chs fds p = Ok p' /\ restoring t (done ∪ list_to_set fds) p'.
Proof.
  intros Hch. revert done p. induction fds as [|fd fds IH]; intros done p H Hnd Hdis Hin; cbn [kq_reset_all].
  - exists p. split; [done|]. by replace (done ∪ list_to_set []) with done by set_solver.
  - apply NoDup_cons in Hnd as [Hfd Hnd]. destruct (Hin fd) as [[c e] Ht]; [set_solver|].
    destruct (Hch _ _ _ Ht) as (ch & Hc & Hf & <- & Hp).
    destruct (restoring_step chs t done p c ch fd) as (p1 & -> & H1); try done; [set_solver|]. cbn [mbind res_bind].
    destruct (IH (done ∪ {[fd]}) p1) as (p' & -> & H'); try done; [set_solver|set_solver|].
    exists p'. split; [done|]. replace (done ∪ list_to_set (fd :: fds)) with (done ∪ {[fd]} ∪ list_to_set fds) by set_solver. done.
Qed.

(** C32. After a fork [KQueue::resetAfterFork] restores what the kernel watches.
    For the channels and poller that any run of the owner's calls leads to, in
    whatever order the map is walked: the call meets no dangling channel, and
    the new queue, which starts empty, ends with exactly the registered channels
    that have some interest, each for exactly the events enabled; the state is
    the one that further calls expect. *)
Theorem kqueue_reset_restores ops a chs p fds :
  spec_run ops ∅ = Some a -> channel_run ops ∅ (poller_new : KQueue) = Ok (chs, p) ->
  fds ≡ₚ map fst (map_to_list (channels_ p)) ->
  exists p', KQueue_resetAfterFork fds chs p = Ok p' /\
    (exists t, chans_ok chs p' a t) /\
    forall fd c e, kq_watched p' !! fd = Some (c, e) <->
      e <> 0 /\ exists x, a !! c = Some x /\ sp_fd x = fd /\ sp_reg x = true /\ e = flags_mask (sp_flags x).
Proof.
  intros Hs Hr Hp. destruct (channel_run_ok ops ∅ (poller_new : KQueue) ∅ a ∅) as (chs1 & p1 & t & E & H).
  { constructor; [by apply p_inv_new|done|]. intros fd c e. split; [done|]. by intros (x & ? & _). }
  { done. }
  rewrite Hr in E. injection E as <- <-. pose proof (co_inv _ _ _ _ H) as [H1 _ _ H4 H5].
  assert (forall fd, fd ∈ fds <-> is_Some (t !! fd)) as Hin.
  { intros fd. rewrite Hp, list_elem_of_fmap. split.
    - intros ([fd' x] & -> & Hx). apply elem_of_map_to_list in Hx. rewrite H1 in Hx. cbn. by destruct (t !! fd').
    - intros [[c e] Ht]. exists (fd, (e, c)). split; [done|]. apply elem_of_map_to_list. by rewrite H1, Ht. }
  destruct (restoring_all chs t fds ∅ (mkKQueue (channels_ p) ∅ ∅ (events_ p))) as (p' & E & [R1 R2 R3]).
  - intros fd c e Ht. destruct (H4 _ _ _ Ht) as (Hpr & ch & Hc & Hf & _). exists ch. split_and!; try done.
    destruct (proj1 (co_table _ _ _ _ H fd c e) Ht) as (x & Hx & _ & _ & ->).
    pose proof (co_chans _ _ _ _ H c) as Hcc. rewrite Hc, Hx in Hcc. apply Hcc.
  - constructor; [exact H1|intros fd; by rewrite bool_decide_false by set_solver..].
  - rewrite Hp. apply NoDup_fst_map_to_list.
  - set_solver.
  - intros fd. apply Hin.
  - assert (kq_inv chs t p') as Hi.
    { constructor; try done.
      - intros fd. rewrite R2. case_bool_decide as Hd; [done|]. destruct (t !! fd) eqn:Et; [|done].
        destruct Hd. apply elem_of_union_r, elem_of_list_to_set, Hin. rewrite Et. by eexists.
      - intros fd. rewrite R3. case_bool_decide as Hd; [done|]. destruct (t !! fd) eqn:Et; [|done].
        destruct Hd. apply elem_of_union_r, elem_of_list_to_set, Hin. rewrite Et. by eexists. }
    assert (chans_ok chs p' a t) as Ho by (destruct H; by constructor).
    exists p'. split; [exact E|]. split; [by exists t|]. intros fd c e.
    rewrite (kq_inv_watched _ _ _ Hi), nonzero_lookup, (co_table _ _ _ _ Ho). naive_solver.
Qed.

Definition sample_kqueue : store * KQueue :=
  match channel_run sample_ops ∅ (poller_new : KQueue) with Ok w => w | Fail _ => (∅, KQueue_new) end.

Lemma kqueue_reset_restores_witness :
  exists p', KQueue_resetAfterFork [5] (fst sample_kqueue) (snd sample_kqueue) = Ok p' /\
    (exists t, chans_ok (fst sample_kqueue) p' sample_spec t) /\
    forall fd c e, kq_watched p' !! fd = Some (c, e) <->
      e <> 0 /\ exists x, sample_spec !! c = Some x /\ sp_fd x = fd /\ sp_reg x = true /\ e = flags_mask (sp_flags x).
Proof. apply (kqueue_reset_restores sample_ops); vm_compute; reflexivity. Defined.

(** ** Parent and child share an epoll instance *)

Module Shared.

(** The interest list: descriptor and open file, to channel and events. *)
Abbreviation interest := (gmap (Z * nat) (nat * Z)).

Record process := mkProcess {
  chans : store;
  ep : EpollPoller;              (* its list is what the process sees of the shared one *)
  files : gmap Z nat             (* open descriptors *)
}.

(** What the entries of a process's own descriptors say. *)
Definition view (fs : gmap Z nat) (k : interest) : table := map_imap (fun fd file => k !! (fd, file)) fs.

Definition store_view (fs : gmap Z nat) (t : table) (k : interest) : interest :=
  map_fold (fun fd file k => partial_alter (fun _ => t !! fd) (fd, file) k) k fs.

(** A call on a channel in one of the processes. *)
Definition process_step (op : channel_op) (pr : process) (k : interest) : res (process * interest) :=
  '(chs, p) ← channel_step op (chans pr)
     (mkEpoll (ep_channels (ep pr)) (view (files pr) k) (ep_events (ep pr)));
  Ok (mkProcess chs p (files pr), store_view (files pr) (ep_kernel p) k).

Fixpoint process_run (ops : list channel_op) (pr : process) (k : interest) : res (process * interest) :=
  match ops with
  | [] => Ok (pr, k)
  | op :: ops => '(pr, k) ← process_step op pr k; process_run ops pr k
  end.

(** [close], and a call that answers with a new descriptor of a new file. *)
Definition close_fd (fd : Z) (pr : process) : process := mkProcess (chans pr) (ep pr) (delete fd (files pr)).
Definition open_fd (fd : Z) (file : nat) (pr : process) : process :=
  mkProcess (chans pr) (ep pr) (<[fd := file]> (files pr)).

(** [TimerQueue::reset()] with the channel [t] of the timerfd and the new
    channel [t']; [createTimerfd] answers [fd']. *)
Definition reset_timerfd (t t' : cid) (fd' : Z) (file' : nat) (pr : process) (k : interest)
    : res (process * interest) :=
  ch ← deref (chans pr) t;
  '(pr, k) ← process_run [OInterest t DisableAll; ORemove t] pr k;
  let pr := open_fd fd' file' (close_fd (m_fd ch) pr) in
  process_run [ONew t' fd'; OInterest t' EnableReading] pr k.

(** [EventLoop::resetTimerQueue], of a loop that does not run, in its thread,
    where [runInLoop] calls at once. *)
Definition resetTimerQueue (looping : bool) (t t' : cid) (fd' : Z) (file' : nat) (pr : process) (k : interest)
    : res (process * interest) :=
  _ ← assert (negb looping);
  reset_timerfd t t' fd' file' pr k.

(** *** The shared list *)

Lemma view_lookup fs k fd : view fs k !! fd = file ← fs !! fd; k !! (fd, file).
Proof. unfold view. by rewrite map_lookup_imap. Qed.

Lemma store_view_lookup fs t k fd file :
  store_view fs t k !! (fd, file) = if bool_decide (fs !! fd = Some file) then t !! fd else k !! (fd, file).
Proof.
  unfold store_view. revert fd file.
  refine (map_fold_weak_ind (fun (k' : interest) (fs' : gmap Z nat) => forall fd file, k' !! (fd, file) =
    if bool_decide (fs' !! fd = Some file) then t !! fd else k !! (fd, file)) _ k _ _ fs).
  - intros fd file. by rewrite lookup_empty, bool_decide_false.
  - intros fd0 file0 fs' k' Hn IH fd file. destruct (decide ((fd, file) = (fd0, file0))) as [[= -> ->]|Hne].
    + by rewrite lookup_partial_alter_eq, lookup_insert_eq, bool_decide_true.
    + rewrite lookup_partial_alter_ne, IH by done. destruct (decide (fd = fd0)) as [->|].
      * rewrite lookup_insert_eq, Hn. rewrite !bool_decide_false; [done| |done]. intros [= ->]. done.
      * by rewrite lookup_insert_ne.
Qed.

(** A process sees its own writes. *)
Lemma view_store_view fs t k : (forall fd, is_Some (t !! fd) -> is_Some (fs !! fd)) -> view fs (store_view fs t k) = t.
Proof.
  intros Hd. apply map_eq. intros fd. rewrite view_lookup. destruct (fs !! fd) as [file|] eqn:Ef; cbn [mbind option_bind].
  - by rewrite store_view_lookup, bool_decide_true.
  - destruct (t !! fd) eqn:Et; [|done]. destruct (Hd fd) as [? E]; [rewrite Et; by eexists|congruence].
Qed.

(** *** A process whose poller is in step with its channels *)

Definition poller_of (pr : process) (k : interest) : EpollPoller :=
  mkEpoll (ep_channels (ep pr)) (view (files pr) k) (ep_events (ep pr)).

Record loop_ok (pr : process) (k : interest) (a : gmap nat chan_spec) : Prop := {
  lo_chans : exists t, chans_ok (chans pr) (poller_of pr k) a t;
  lo_open : forall c x, a !! c = Some x -> sp_reg x = true -> is_Some (files pr !! sp_fd x)
}.

Lemma process_step_ok op pr k a a' :
  loop_ok pr k a -> spec_step op a = Some a' ->
  match op with OInterest c _ => forall x, a !! c = Some x -> is_Some (files pr !! sp_fd x) | _ => True end ->
  exists pr' k', process_step op pr k = Ok (pr', k') /\ loop_ok pr' k' a' /\ files pr' = files pr /\
    forall fd file, files pr !! fd <> Some file -> k' !! (fd, file) = k !! (fd, file).
Proof.
  intros [[t H] Ho] Hs Hop. destruct (channel_step_ok op _ _ a a' t H Hs) as (chs & p & t' & E & H').
  assert (forall c x, a' !! c = Some x -> sp_reg x = true -> is_Some (files pr !! sp_fd x)) as Ho'.
  { intros c x Hx Hr. destruct op as [d fd|d i|d]; cbn in Hs.
    - destruct (_ && _); [|done]. injection Hs as <-. apply lookup_insert_Some in Hx as [[<- <-]|[_ Hx]]; [done|by apply (Ho c)].
    - destruct (a !! d) as [y|] eqn:Ey; [|done]. cbn in Hs. case_bool_decide; [|done]. injection Hs as <-.
      apply lookup_insert_Some in Hx as [[<- <-]|[_ Hx]]; [by apply (Hop y)|by apply (Ho c)].
    - destruct (a !! d) as [y|] eqn:Ey; [|done]. cbn in Hs. case_bool_decide; [|done]. injection Hs as <-.
      apply lookup_insert_Some in Hx as [[<- <-]|[_ Hx]]; [done|by apply (Ho c)]. }
  assert (forall fd, is_Some (ep_kernel p !! fd) -> is_Some (files pr !! fd)) as Hd.
  { intros fd [y Hy]. destruct (t' !! fd) as [[c e]|] eqn:Et.
    - destruct (proj1 (co_table _ _ _ _ H' fd c e) Et) as (x & Hx & <- & Hr & _). by apply (Ho' c).
    - pose proof (epi_unregistered _ _ _ (co_inv _ _ _ _ H') fd Et). congruence. }
  unfold process_step. unfold poller_of in E. rewrite E. cbn [mbind res_bind].
  eexists _, _. split; [reflexivity|]. split; [|split; [done|]].
  - constructor; [|done]. exists t'. unfold poller_of. cbn [chans ep files]. rewrite view_store_view by done. by destruct p.
  - intros fd file Hf. by rewrite store_view_lookup, bool_decide_false.
Qed.

(** Descriptors that no registered channel uses come and go unseen. *)
Lemma files_ok fs pr k a :
  loop_ok pr k a ->
  (forall c x, a !! c = Some x -> sp_reg x = true -> fs !! sp_fd x = files pr !! sp_fd x) ->
  (forall fd file, fs !! fd = Some file -> files pr !! fd <> Some file -> k !! (fd, file) = None) ->
  loop_ok (mkProcess (chans pr) (ep pr) fs) k a.
Proof.
  intros [[t H] Ho] Hk Hn. constructor; [|intros c x Hx Hr; cbn; rewrite (Hk c) by done; by apply (Ho c)].
  exists t. enough (view fs k = view (files pr) k) as E by (unfold poller_of; cbn; by rewrite E).
  apply map_eq. intros fd. destruct (t !! fd) as [[c e]|] eqn:Et.
  - destruct (proj1 (co_table _ _ _ _ H fd c e) Et) as (x & Hx & <- & Hr & _). by rewrite !view_lookup, (Hk c).
  - pose proof (epi_unregistered _ _ _ (co_inv _ _ _ _ H) fd Et) as E0. cbn [ep_kernel poller_of] in E0. rewrite E0.
    rewrite view_lookup in E0 |- *. destruct (fs !! fd) as [file|] eqn:Ef; [|done]. cbn [mbind option_bind].
    destruct (decide (files pr !! fd = Some file)) as [E1|]; [by rewrite E1 in E0|by apply Hn].
Qed.

(** The owner of a registered channel is the only one for its descriptor. *)
Lemma registered_alone pr k a c x :
  loop_ok pr k a -> a !! c = Some x -> sp_reg x = true ->
  forall c' y, a !! c' = Some y -> c' = c \/ sp_fd y <> sp_fd x \/ sp_reg y = false.
Proof.
  intros [[t H] _] Hx Hr c' y Hy. destruct (decide (sp_fd y = sp_fd x)) as [E|]; [|auto].
  destruct (sp_reg y) eqn:Hry; [|auto]. left.
  assert (t !! sp_fd x = Some (c, flags_mask (sp_flags x))) as E1 by (apply (co_table _ _ _ _ H); eauto).
  assert (t !! sp_fd x = Some (c', flags_mask (sp_flags y))) as E2 by (apply (co_table _ _ _ _ H); eauto).
  congruence.
Qed.

Lemma loop_watches pr k a c x :
  loop_ok pr k a -> a !! c = Some x -> sp_reg x = true -> flags_mask (sp_flags x) <> 0 ->
  view (files pr) k !! sp_fd x = Some (c, flags_mask (sp_flags x)).
Proof.
  intros [[t H] _] Hx Hr Hne. pose proof (p_inv_watched _ _ _ (co_inv _ _ _ _ H)) as Hw.
  assert (nonzero t !! sp_fd x = Some (c, flags_mask (sp_flags x))) as E.
  { apply nonzero_lookup. split; [apply (co_table _ _ _ _ H); eauto|done]. }
  rewrite <- Hw in E. cbn [watched epoll_ops] in E. by apply nonzero_lookup in E as [E _].
Qed.

Lemma loop_ignores pr k a fd :
  loop_ok pr k a -> (forall c x, a !! c = Some x -> sp_reg x = true -> sp_fd x <> fd) -> view (files pr) k !! fd = None.
Proof.
  intros [[t H] _] Hn. apply (epi_unregistered _ _ _ (co_inv _ _ _ _ H)). destruct (t !! fd) as [[c e]|] eqn:Et; [|done].
  destruct (proj1 (co_table _ _ _ _ H fd c e) Et) as (x & Hx & E & Hr & _). by destruct (Hn c x Hx Hr).
Qed.

(** *** The parent does not touch the timer channel again *)

(** Calls on other channels and other descriptors. *)
Definition spares (tm : cid) (T : Z) (op : channel_op) : Prop :=
  match op with ONew c fd => c <> tm /\ fd <> T | OInterest c _ | ORemove c => c <> tm end.

Definition others_elsewhere (tm : cid) (T : Z) (chs : store) : Prop :=
  forall c ch, chs !! c = Some ch -> c <> tm -> m_fd ch <> T.

Lemma elsewhere_insert tm T chs c ch :
  others_elsewhere tm T chs -> m_fd ch <> T -> others_elsewhere tm T (<[c := ch]> chs).
Proof. intros H Hf d x [[<- <-]|[_ Hx]]%lookup_insert_Some Hd; [done|by apply (H d)]. Qed.

Lemma epoll_update_other op c ch p T : m_fd ch <> T -> ep_kernel (epoll_update op c ch p) !! T = ep_kernel p !! T.
Proof.
  intros H. unfold epoll_update. cbn [ep_kernel]. destruct op, (ep_kernel p !! m_fd ch);
    rewrite ?lookup_insert_ne, ?lookup_delete_ne by done; done.
Qed.

Lemma channel_step_spares tm T op chs (p : EpollPoller) chs' p' :
  others_elsewhere tm T chs -> spares tm T op -> channel_step op chs p = Ok (chs', p') ->
  others_elsewhere tm T chs' /\ ep_kernel p' !! T = ep_kernel p !! T.
Proof.
  intros H Hs. destruct op as [c fd|c i|c]; cbn [channel_step spares] in *.
  - intros [= <- <-]. split; [|done]. apply elsewhere_insert; [done|apply Hs].
  - unfold changeInterest, updateChannel, epoll_ops, EpollPoller_updateChannel, deref.
    destruct (chs !! c) as [ch|] eqn:Hc; [|done]. cbn [mbind res_bind].
    rewrite lookup_insert_eq. cbn [mbind res_bind]. intros E. ok_inv.
    assert (m_fd ch <> T) as Hf by (by apply (H c)).
    repeat match type of E with (if ?b then _ else _) = Ok _ => destruct b end; ok_inv;
      repeat match goal with Hx : (if ?b then _ else _) = Ok _ |- _ => destruct b; ok_inv end; simplify_eq;
      (split; [rewrite ?insert_insert_eq; by apply elsewhere_insert|rewrite epoll_update_other by done; done]).
  - unfold Channel_remove, removeChannel, epoll_ops, EpollPoller_removeChannel, deref.
    destruct (chs !! c) as [ch|] eqn:Hc; [|done]. cbn [mbind res_bind].
    intros E. ok_inv. rewrite lookup_insert_eq in *. cbn [mbind res_bind] in *. ok_inv.
    assert (m_fd ch <> T) as Hf by (by apply (H c)). split; [rewrite insert_insert_eq; by apply elsewhere_insert|].
    case_bool_decide; [by rewrite epoll_update_other|done].
Qed.

Lemma process_run_spares tm T ops pr k pr' k' :
  others_elsewhere tm T (chans pr) -> Forall (spares tm T) ops -> process_run ops pr k = Ok (pr', k') ->
  view (files pr) k !! T = None -> view (files pr') k' !! T = None.
Proof.
  revert pr k. induction ops as [|op ops IH]; intros pr k H Hs E Hv; cbn [process_run] in E; [by simplify_eq|].
  apply Forall_cons in Hs as [Ho Hs]. unfold process_step in E. ok_inv.
  match goal with E : @channel_step _ _ _ _ _ = Ok ?x |- _ => destruct x as [chs1 p1]; destruct (channel_step_spares _ _ _ _ _ _ _ H Ho E) as [Hother Hk] end.
  simplify_eq. cbn [ep_kernel] in Hk. rewrite Hv in Hk.
  refine (IH _ _ _ Hs E _); [exact Hother|]. cbn [files]. rewrite view_lookup in *.
  destruct (files pr !! T) as [file|] eqn:Ef; [|done]. cbn [mbind option_bind]. by rewrite store_view_lookup, bool_decide_true.
Qed.

(** The first half in the child: the timer channel goes. *)
Lemma drop_timer_channel pr k a tm T :
  loop_ok pr k a -> a !! tm = Some (mkSpec T (true, false) true) ->
  exists pr1 k1, process_run [OInterest tm DisableAll; ORemove tm] pr k = Ok (pr1, k1) /\
    loop_ok pr1 k1 (<[tm := mkSpec T (false, false) false]> a) /\ files pr1 = files pr /\
    forall fd file, files pr !! fd <> Some file -> k1 !! (fd, file) = k !! (fd, file).
Proof.
  intros H Ha. assert (spec_step (OInterest tm DisableAll) a = Some (<[tm := mkSpec T (false, false) true]> a)) as S1.
  { cbn. rewrite Ha. cbn. rewrite bool_decide_true; [done|]. intros c y Hy. by apply (registered_alone pr k a tm (mkSpec T (true, false) true)). }
  destruct (process_step_ok _ pr k a _ H S1) as (pr1 & k1 & E1 & H1 & F1 & K1); [intros y Hy; by apply (lo_open _ _ _ H tm y Hy); simplify_eq|].
  assert (spec_step (ORemove tm) (<[tm := mkSpec T (false, false) true]> a) = Some (<[tm := mkSpec T (false, false) false]> a)) as S2.
  { cbn. rewrite lookup_insert_eq. cbn. rewrite bool_decide_true by done. by rewrite insert_insert_eq. }
  destruct (process_step_ok _ pr1 k1 _ _ H1 S2 I) as (pr2 & k2 & E2 & H2 & F2 & K2).
  exists pr2, k2. cbn [process_run]. rewrite E1. cbn [mbind res_bind]. rewrite E2. split; [done|]. split; [done|].
  split; [congruence|]. intros fd file Hf. rewrite K2 by (by rewrite F1). by apply K1.
Qed.

(** The second half: a channel for the new timerfd. *)
Lemma add_timer_channel pr k a t' fd' file' :
  loop_ok pr k a -> a !! t' = None -> 0 <= fd' -> files pr !! fd' = Some file' ->
  (forall c x, a !! c = Some x -> sp_reg x = true -> sp_fd x <> fd') ->
  exists pr1 k1, process_run [ONew t' fd'; OInterest t' EnableReading] pr k = Ok (pr1, k1) /\
    loop_ok pr1 k1 (<[t' := mkSpec fd' (true, false) true]> a) /\ files pr1 = files pr /\
    forall fd file, files pr !! fd <> Some file -> k1 !! (fd, file) = k !! (fd, file).
Proof.
  intros H Ha Hfd Hf Hn. assert (spec_step (ONew t' fd') a = Some (<[t' := mkSpec fd' (false, false) false]> a)) as S1.
  { cbn. by rewrite bool_decide_true, (proj2 (Z.leb_le 0 fd')). }
  destruct (process_step_ok _ pr k a _ H S1 I) as (pr1 & k1 & E1 & H1 & F1 & K1).
  assert (spec_step (OInterest t' EnableReading) (<[t' := mkSpec fd' (false, false) false]> a) =
    Some (<[t' := mkSpec fd' (true, false) true]> a)) as S2.
  { cbn. rewrite lookup_insert_eq. cbn. rewrite bool_decide_true; [by rewrite insert_insert_eq|].
    intros c y [[<- <-]|[Hc Hy]]%lookup_insert_Some; [by left|]. right.
    destruct (sp_reg y) eqn:Er; [left; by apply (Hn c)|by right]. }
  destruct (process_step_ok _ pr1 k1 _ _ H1 S2) as (pr2 & k2 & E2 & H2 & F2 & K2).
  { intros x Hx. rewrite lookup_insert_eq in Hx. injection Hx as <-. cbn [sp_fd]. rewrite F1, Hf. by eexists. }
  exists pr2, k2. cbn [process_run]. rewrite E1. cbn [mbind res_bind]. rewrite E2. split; [done|]. split; [done|].
  split; [congruence|]. intros fd file Hx. rewrite K2 by (by rewrite F1). by apply K1.
Qed.

(** C33. [resetTimerQueue] in the child stops the timers of the parent.  Before
    the call the parent's epoll instance watches its timerfd.  The child, whose
    poller is left as it is by [resetAfterFork], removes the channel of the
    inherited timerfd from the list that both share, and registers its own.  The
    child then works; the parent's timerfd is not watched, and stays so in every
    run of the parent that goes on using its other channels. *)
Theorem child_reset_stops_parent_timers pr k a tm t' T fileT fd' file' :
  loop_ok pr k a -> a !! tm = Some (mkSpec T (true, false) true) ->
  (forall c x, a !! c = Some x -> sp_fd x = T -> c = tm) ->
  files pr !! T = Some fileT -> a !! t' = None -> 0 <= fd' -> (fd' = T \/ files pr !! fd' = None) ->
  (forall fd, files pr !! fd <> Some file' /\ k !! (fd, file') = None) ->
  view (files pr) k !! T = Some (tm, kReadEvent) /\
  exists child k', resetTimerQueue false tm t' fd' file' pr k = Ok (child, k') /\
    loop_ok child k' (<[t' := mkSpec fd' (true, false) true]> (<[tm := mkSpec T (false, false) false]> a)) /\
    view (files child) k' !! fd' = Some (t', kReadEvent) /\
    forall ops pr' k'', Forall (spares tm T) ops -> process_run ops pr k' = Ok (pr', k'') ->
      view (files pr') k'' !! T = None.
Proof.
  intros H Ha Hone HT Ht' Hfd' Hfree Hnew. split; [by apply (loop_watches pr k a tm (mkSpec T (true, false) true))|].
  destruct (drop_timer_channel pr k a tm T H Ha) as (pr1 & k1 & E1 & H1 & F1 & K1).
  set (a1 := <[tm := mkSpec T (false, false) false]> a) in *.
  assert (forall c x, a1 !! c = Some x -> sp_reg x = true -> sp_fd x <> T /\ sp_fd x <> fd') as Haway.
  { intros c x [[<- <-]|[Hc Hx]]%lookup_insert_Some Hr; [done|]. assert (sp_fd x <> T) by (intros E; by apply Hc, eq_sym, (Hone c x)).
    split; [done|]. destruct Hfree as [->|Hfr]; [done|]. intros E.
    destruct (lo_open _ _ _ H c x Hx Hr) as [f Ef]. congruence. }
  assert (k1 !! (T, fileT) = None) as Hgone.
  { assert (view (files pr1) k1 !! T = None) as Hv by (apply (loop_ignores _ _ a1); [done|]; intros c x Hx Hr; by apply (Haway c)).
    rewrite view_lookup, F1, HT in Hv. exact Hv. }
  set (pr2 := open_fd fd' file' (close_fd T pr1)).
  assert (loop_ok pr2 k1 a1) as H2.
  { apply (files_ok _ pr1 k1 a1 H1); cbn [files open_fd close_fd].
    - intros c x Hx Hr. destruct (Haway c x Hx Hr). cbn. by rewrite lookup_insert_ne, lookup_delete_ne by done.
    - intros fd file [[<- <-]|[_ [_ E]%lookup_delete_Some]]%lookup_insert_Some Hne; [|done].
      rewrite K1 by apply Hnew. apply Hnew. }
  destruct (add_timer_channel pr2 k1 a1 t' fd' file' H2) as (pr3 & k3 & E3 & H3 & F3 & K3); try done.
  { unfold a1. rewrite lookup_insert_ne; [done|]. intros ->. congruence. }
  { apply lookup_insert_eq. }
  { intros c x Hx Hr. by apply (Haway c). }
  exists pr3, k3. split; [|split; [exact H3|split]].
  - unfold resetTimerQueue, reset_timerfd. destruct H as [[t Hok] _]. destruct (co_lookup _ _ _ _ _ _ Hok Ha) as (ch & Hch & Hf & _).
    unfold deref. cbn [negb assert mbind res_bind]. rewrite Hch. cbn [mbind res_bind]. rewrite E1. cbn [mbind res_bind]. cbn in Hf. rewrite Hf. exact E3.
  - refine (loop_watches pr3 k3 _ t' (mkSpec fd' (true, false) true) H3 _ eq_refl _); [apply lookup_insert_eq|done].
  - intros ops pr' k'' Hs Hr. refine (process_run_spares tm T ops pr k3 pr' k'' _ Hs Hr _).
    + intros c ch Hc Hne Hf. destruct H as [[t Hok] _]. pose proof (co_chans _ _ _ _ Hok c) as Hcc. rewrite Hc in Hcc.
      destruct (a !! c) as [x|] eqn:Ex; [|done]. destruct Hcc as (E & _). apply Hne, (Hone c x Ex). congruence.
    + rewrite view_lookup, HT. cbn [mbind option_bind]. rewrite K3; [done|]. cbn. intros [[_ E]|[_ [Hx _]%lookup_delete_Some]]%lookup_insert_Some.
      * by destruct (proj1 (Hnew T)); rewrite HT, <- E.
      * done.
Qed.

(** A loop with a timerfd on descriptor 3, which is open file 30. *)
Definition bare : process := mkProcess ∅ EpollPoller_new {[3 := 30%nat]}.
Definition parent : process * interest :=
  match process_run [ONew 1 3; OInterest 1 EnableReading] bare ∅ with Ok w => w | Fail _ => (bare, ∅) end.
Definition timer_spec : gmap nat chan_spec := {[1%nat := mkSpec 3 (true, false) true]}.

Lemma parent_ok : loop_ok (fst parent) (snd parent) timer_spec /\ files (fst parent) = {[3 := 30%nat]} /\
  forall fd, snd parent !! (fd, 31%nat) = None.
Proof.
  assert (loop_ok bare ∅ ∅) as H.
  { constructor; [|done]. exists ∅. replace (poller_of bare ∅) with (poller_new : EpollPoller) by reflexivity.
    constructor; [by apply p_inv_new|done|].
    intros fd c e. split; [done|]. by intros (x & ? & _). }
  destruct (add_timer_channel bare ∅ ∅ 1 3 30 H) as (pr & k & E & H1 & F & K); try done.
  unfold parent. rewrite E. split; [exact H1|]. split; [exact F|]. intros fd. cbn [snd]. rewrite K; [done|].
  cbn. by intros [_ ?]%lookup_singleton_Some.
Qed.

Lemma child_reset_stops_parent_timers_witness :
  view (files (fst parent)) (snd parent) !! 3 = Some (1%nat, kReadEvent) /\
  exists child k', resetTimerQueue false 1 2 3 31 (fst parent) (snd parent) = Ok (child, k') /\
    loop_ok child k' (<[2%nat := mkSpec 3 (true, false) true]> (<[1%nat := mkSpec 3 (false, false) false]> timer_spec)) /\
    view (files child) k' !! 3 = Some (2%nat, kReadEvent) /\
    forall ops pr' k'', Forall (spares 1 3) ops -> process_run ops (fst parent) k' = Ok (pr', k'') ->
      view (files pr') k'' !! 3 = None.
Proof.
  destruct parent_ok as (H & F & K).
  apply (child_reset_stops_parent_timers (fst parent) (snd parent) timer_spec 1 2 3 30 3 31); try done.
  - intros c x Hx _. unfold timer_spec in Hx. by apply lookup_singleton_Some in Hx as [<- _].
  - by left.
  - intros fd. split; [|apply K]. rewrite F. by intros [_ ?]%lookup_singleton_Some.
Defined.

End Shared.
