(* ===== verification/PollPoller.v ===== *)
(** * [netpoll/net/inner/poller/poll_poller.{h,cc}]

    The poller on [poll(2)]: a vector of [pollfd] entries, where a channel's
    index is its position, and a map from descriptors to channels.  An entry
    with descriptor [-fd - 1] is ignored by the kernel.  A removal moves the
    last entry into the gap and corrects the index of its channel. *)

From S2P Require Import Prelude Channel Poller.

Record pollfd := mkPollfd { pf_fd : Z; pf_events : Z; pf_revents : Z }.

Record PollPoller := mkPollPoller {
  pollfds_ : list pollfd;
  pp_channels : gmap Z nat
}.

Definition PollPoller_new : PollPoller := mkPollPoller [] ∅.

Definition PollPoller_updateChannel (c : cid) (chs : store) (p : PollPoller)
    : res (store * PollPoller) :=
  ch ← deref chs c;
  _ ← assert (0 <=? m_fd ch);
  let fd := m_fd ch in
  if m_index ch <? 0 then
    _ ← assert (bool_decide (pp_channels p !! fd = None));
    let pfds := pollfds_ p ++ [mkPollfd fd (to_int16 (m_events ch)) 0] in
    let idx := to_int32 (Z.of_nat (length pfds)) - 1 in
    Ok (<[c := setIndex idx ch]> chs, mkPollPoller pfds (<[fd := c]> (pp_channels p)))
  else
    _ ← assert (bool_decide (pp_channels p !! fd = Some c));
    let idx := m_index ch in
    _ ← assert ((0 <=? idx) && (idx <? to_int32 (Z.of_nat (length (pollfds_ p)))));
    match pollfds_ p !! Z.to_nat idx with
    | None => Fail OutOfBounds
    | Some pfd =>
        _ ← assert ((pf_fd pfd =? fd) || (pf_fd pfd =? - fd - 1));
        let fd' := if isNoneEvent ch then - fd - 1 else fd in
        Ok (chs, mkPollPoller
              (<[Z.to_nat idx := mkPollfd fd' (to_int16 (m_events ch)) 0]> (pollfds_ p))
              (pp_channels p))
    end.

Definition PollPoller_removeChannel (c : cid) (chs : store) (p : PollPoller)
    : res (store * PollPoller) :=
  ch ← deref chs c;
  let fd := m_fd ch in
  _ ← assert (bool_decide (pp_channels p !! fd = Some c));
  _ ← assert (isNoneEvent ch);
  let idx := m_index ch in
  let size := length (pollfds_ p) in
  _ ← assert ((0 <=? idx) && (idx <? to_int32 (Z.of_nat size)));
  match pollfds_ p !! Z.to_nat idx with
  | None => Fail OutOfBounds
  | Some pfd =>
      _ ← assert ((pf_fd pfd =? - fd - 1) && (pf_events pfd =? m_events ch));
      let channels := delete fd (pp_channels p) in
      if idx =? Z.of_nat size - 1
      then Ok (chs, mkPollPoller (take (size - 1) (pollfds_ p)) channels)
      else match last (pollfds_ p) with
           | None => Fail OutOfBounds
           | Some back =>
               let channelAtEnd := if pf_fd back <? 0 then - pf_fd back - 1 else pf_fd back in
               let pfds := take (size - 1) (<[Z.to_nat idx := back]> (pollfds_ p)) in
               match channels !! channelAtEnd with
               | None => Fail NullDereference
               | Some d =>
                   chd ← deref chs d;
                   Ok (<[d := setIndex idx chd]> chs, mkPollPoller pfds channels)
               end
           end
  end.

(** [fillActiveChannels]: the entries with reported events, until [numEvents]
    have been found. *)
Fixpoint fill_loop (pfds : list pollfd) (numEvents processed : Z) (p : PollPoller)
    (chs : store) (active : list cid) : res (Z * store * list cid) :=
  match pfds with
  | [] => Ok (processed, chs, active)
  | pfd :: pfds =>
      if 0 <? pf_revents pfd then
        match pp_channels p !! pf_fd pfd with
        | None => Fail AssertFailed
        | Some c =>
            ch ← deref chs c;
            _ ← assert (m_fd ch =? pf_fd pfd);
            let chs := <[c := setRevents (pf_revents pfd) ch]> chs in
            let active := active ++ [c] in
            if processed + 1 =? numEvents then Ok (processed + 1, chs, active)
            else fill_loop pfds numEvents (processed + 1) p chs active
        end
      else fill_loop pfds numEvents processed p chs active
  end.

Definition PollPoller_fillActiveChannels (numEvents : Z) (p : PollPoller) (chs : store)
    : res (store * list cid) :=
  '(processed, chs, active) ← fill_loop (pollfds_ p) numEvents 0 p chs [];
  _ ← assert (processed =? numEvents);
  Ok (chs, active).

(** What the kernel watches: the entries that are not ignored and ask for
    something. *)
Definition pp_watched (p : PollPoller) : table :=
  list_to_map (omap (fun pfd =>
    if (0 <=? pf_fd pfd) && negb (pf_events pfd =? 0)
    then c ← pp_channels p !! pf_fd pfd; Some (pf_fd pfd, (c, pf_events pfd)) else None) (pollfds_ p)).

#[export] Instance poll_ops : PollerOps PollPoller := {|
  poller_new := PollPoller_new;
  updateChannel := PollPoller_updateChannel;
  removeChannel := PollPoller_removeChannel;
  watched := pp_watched
|}.

(** ** Invariant *)

(** The entry of a registered channel. *)
Definition entry_ok (fd e : Z) (pfd : pollfd) : Prop :=
  pf_events pfd = e /\ (pf_fd pfd = fd \/ pf_fd pfd = - fd - 1 /\ e = 0).

Record pp_inv (chs : store) (t : table) (p : PollPoller) : Prop := {
  ppi_channels : forall fd, pp_channels p !! fd = fst <$> t !! fd;
  ppi_table : forall fd c e, t !! fd = Some (c, e) -> 0 <= fd /\ proper e /\
    exists ch i pfd, chs !! c = Some ch /\ m_fd ch = fd /\ m_index ch = Z.of_nat i /\
      pollfds_ p !! i = Some pfd /\ entry_ok fd e pfd;
  ppi_entries : forall i pfd, pollfds_ p !! i = Some pfd ->
    exists fd c e ch, t !! fd = Some (c, e) /\ chs !! c = Some ch /\ m_index ch = Z.of_nat i;
  ppi_size : Z.of_nat (length (pollfds_ p)) < 2 ^ 31 - 1
}.

Lemma to_int16_proper e : proper e -> to_int16 e = e.
Proof. by intros ([] & [] & ->). Qed.

(** A channel is registered once, and indices of different channels differ. *)
Lemma pp_inv_fd chs t p c ch fd e :
  pp_inv chs t p -> chs !! c = Some ch -> t !! fd = Some (c, e) -> fd = m_fd ch.
Proof.
  intros H Hc Ht. destruct (ppi_table _ _ _ H _ _ _ Ht) as (_ & _ & ch' & i & pfd & Hc' & <- & _).
  congruence.
Qed.

Lemma pp_inv_index chs t p c d ch chd fd fd' e e' :
  pp_inv chs t p -> t !! fd = Some (c, e) -> t !! fd' = Some (d, e') ->
  chs !! c = Some ch -> chs !! d = Some chd -> m_index ch = m_index chd -> fd = fd' /\ c = d.
Proof.
  intros H Ht Ht' Hc Hd Ei.
  destruct (ppi_table _ _ _ H _ _ _ Ht) as (F0 & _ & x & i & pfd & Hx & Hf & Hi & Hp & _ & Hent).
  destruct (ppi_table _ _ _ H _ _ _ Ht') as (F0' & _ & y & j & pfd' & Hy & Hf' & Hj & Hp' & _ & Hent').
  simplify_eq. assert (i = j) as -> by lia. simplify_eq.
  assert (m_fd ch = m_fd chd) as E by lia. split; [done|]. rewrite E in Ht. congruence.
Qed.

Lemma pp_update_new chs t p c ch :
  pp_inv chs t p -> chs !! c = Some ch -> 0 <= m_fd ch -> proper (m_events ch) ->
  t !! m_fd ch = None -> m_index ch < 0 -> Z.of_nat (length (pollfds_ p)) < 2 ^ 31 - 2 ->
  exists chs' p', PollPoller_updateChannel c chs p = Ok (chs', p') /\ same_channels chs chs' /\
    pp_inv chs' (<[m_fd ch := (c, m_events ch)]> t) p'.
Proof.
  intros H Hc Hfd Hpr Ht Hi Hsz. unfold PollPoller_updateChannel, deref. rewrite Hc. cbn [mbind res_bind].
  rewrite (proj2 (Z.leb_le _ _) Hfd), (proj2 (Z.ltb_lt _ _) Hi). cbn [assert mbind res_bind].
  rewrite (ppi_channels _ _ _ H), Ht. cbn [fmap option_fmap option_map]. index_simp.
  rewrite to_int16_proper by done. rewrite length_app. cbn [length].
  rewrite to_int32_small by lia. eexists _, _. split; [reflexivity|].
  split; [by apply same_channels_index|]. set (n := length (pollfds_ p)) in *.
  replace (Z.of_nat (n + 1) - 1) with (Z.of_nat n) by lia.
  assert (forall fd d e, t !! fd = Some (d, e) -> d <> c) as Hdc.
  { intros fd d e Hd ->. rewrite (pp_inv_fd _ _ _ _ _ _ _ H Hc Hd) in Hd. congruence. }
  destruct H as [H1 H2 H3 H4]. constructor; cbn [pollfds_ pp_channels].
  - intros fd. destruct (decide (fd = m_fd ch)) as [->|]; simplify_map_eq; auto.
  - intros fd d e [[<- [= <- <-]]|[Hne Hd]]%lookup_insert_Some.
    + split_and!; [done|done|]. eexists _, n, _. rewrite lookup_insert_eq.
      split_and!; [done|done|done| |].
      * rewrite lookup_app_r by done. by rewrite Nat.sub_diag.
      * split; [done|by left].
    + destruct (H2 _ _ _ Hd) as (? & ? & chd & i & pfd & Hchd & ? & ? & Hp & ?).
      split_and!; [done|done|]. exists chd, i, pfd. rewrite lookup_insert_ne by (intros <-; by apply (Hdc fd c e)).
      rewrite lookup_app_l by (by apply lookup_lt_Some in Hp). done.
  - intros i pfd Hp. destruct (decide (i < n)%nat) as [Hlt|Hge].
    + rewrite lookup_app_l in Hp by done. destruct (H3 _ _ Hp) as (fd & d & e & chd & Hd & Hchd & ?).
      exists fd, d, e, chd. rewrite !lookup_insert_ne; [done|intros <-; by apply (Hdc fd c e)|congruence].
    + assert (i = n) as ->. { apply lookup_lt_Some in Hp. rewrite length_app in Hp. simpl in Hp. lia. }
      eexists (m_fd ch), c, _, _. rewrite !lookup_insert_eq. done.
  - rewrite length_app. simpl. fold n. lia.
Qed.

Lemma pp_update_existing chs t p c ch e0 :
  pp_inv chs t p -> chs !! c = Some ch -> proper (m_events ch) -> t !! m_fd ch = Some (c, e0) ->
  exists p', PollPoller_updateChannel c chs p = Ok (chs, p') /\
    pp_inv chs (<[m_fd ch := (c, m_events ch)]> t) p' /\
    (m_events ch = 0 -> exists i, m_index ch = Z.of_nat i /\
       pf_fd <$> pollfds_ p' !! i = Some (- m_fd ch - 1)).
Proof.
  intros H Hc Hpr Ht. pose proof (ppi_size _ _ _ H) as Hsz.
  destruct (ppi_table _ _ _ H _ _ _ Ht) as (Hfd & _ & x & i & pfd & Hx & _ & Ei & Hp & Hent).
  rewrite Hc in Hx. injection Hx as <-. pose proof (lookup_lt_Some _ _ _ Hp) as Hil.
  unfold PollPoller_updateChannel, deref. rewrite Hc. cbn [mbind res_bind].
  rewrite (proj2 (Z.leb_le _ _) Hfd). cbn [assert mbind res_bind].
  rewrite (ppi_channels _ _ _ H), Ht. cbn [fmap option_fmap option_map fst]. rewrite Ei.
  replace (Z.of_nat i <? 0) with false by (symmetry; apply Z.ltb_ge; lia). index_simp.
  rewrite to_int32_small by lia.
  replace ((0 <=? Z.of_nat i) && (Z.of_nat i <? Z.of_nat (length (pollfds_ p)))) with true
    by (symmetry; apply andb_true_iff; split; [apply Z.leb_le|apply Z.ltb_lt]; lia).
  cbn [assert mbind res_bind]. rewrite Nat2Z.id, Hp.
  replace ((pf_fd pfd =? m_fd ch) || (pf_fd pfd =? - m_fd ch - 1)) with true
    by (destruct Hent as [_ [->|[-> _]]]; rewrite Z.eqb_refl, ?orb_true_r; done).
  cbn [assert mbind res_bind]. rewrite to_int16_proper by done.
  eexists. split; [reflexivity|]. cbn [pollfds_]. split.
  - destruct H as [H1 H2 H3 H4]. constructor; cbn [pollfds_ pp_channels].
    + intros fd. destruct (decide (fd = m_fd ch)) as [->|]; [|by rewrite lookup_insert_ne].
      rewrite lookup_insert_eq, H1, Ht. done.
    + intros fd d e [[<- [= <- <-]]|[Hne Hd]]%lookup_insert_Some.
      * split_and!; [done|done|]. eexists ch, i, _. rewrite list_lookup_insert_eq by done.
        split_and!; [done|done|done|done|]. split; [done|]. cbn [pf_fd]. unfold isNoneEvent, kNoneEvent.
        destruct (Z.eqb_spec (m_events ch) 0); auto.
      * destruct (H2 _ _ _ Hd) as (? & ? & chd & j & pfd' & Hchd & ? & Ej & Hp' & ?).
        split_and!; [done|done|]. exists chd, j, pfd'. rewrite list_lookup_insert_ne; [done|].
        intros <-. destruct (pp_inv_index chs t p c d ch chd (m_fd ch) fd e0 e) as [? _]; try done.
        congruence.
    + intros j pfd' Hj. assert (exists q, pollfds_ p !! j = Some q) as [q Hq].
      { apply list_lookup_insert_Some in Hj as [(-> & _ & _)|[_ ?]]; eauto. }
      destruct (H3 _ _ Hq) as (fd & d & e & chd & Hd & Hchd & ?).
      destruct (decide (fd = m_fd ch)) as [->|].
      * exists (m_fd ch), c, (m_events ch), chd. rewrite lookup_insert_eq. split_and!; congruence.
      * exists fd, d, e, chd. by rewrite lookup_insert_ne.
    + by rewrite length_insert.
  - intros He. exists i. split; [done|]. rewrite list_lookup_insert_eq by done. simpl.
    unfold isNoneEvent. by rewrite He.
Qed.

(** Removing the entry at the end, and moving the last one into a gap. *)
Lemma pp_inv_pop chs t p c ch e i :
  pp_inv chs t p -> chs !! c = Some ch -> t !! m_fd ch = Some (c, e) -> m_index ch = Z.of_nat i ->
  S i = length (pollfds_ p) ->
  pp_inv chs (delete (m_fd ch) t)
    (mkPollPoller (take i (pollfds_ p)) (delete (m_fd ch) (pp_channels p))).
Proof.
  intros H Hc Ht Ei Hn. constructor; cbn [pollfds_ pp_channels].
  - intros fd. destruct (decide (fd = m_fd ch)) as [->|]; [by rewrite !lookup_delete_eq|].
    rewrite !lookup_delete_ne by done. apply (ppi_channels _ _ _ H).
  - intros fd d x [Hne Hd]%lookup_delete_Some.
    destruct (ppi_table _ _ _ H _ _ _ Hd) as (? & ? & chd & j & pfd & Hchd & Hf & Ej & Hp & ?).
    split_and!; [done|done|]. exists chd, j, pfd. split_and!; try done. rewrite lookup_take_lt; [done|].
    pose proof (lookup_lt_Some _ _ _ Hp). assert (j <> i); [|lia]. intros ->.
    destruct (pp_inv_index _ _ _ _ _ _ _ _ _ _ _ H Ht Hd Hc Hchd) as [? _]; [congruence|done].
  - intros j pfd Hj. pose proof (lookup_lt_Some _ _ _ Hj) as Hl. rewrite length_take in Hl.
    rewrite lookup_take_lt in Hj by lia. destruct (ppi_entries _ _ _ H _ _ Hj) as (fd & d & x & chd & Hd & Hchd & ?).
    exists fd, d, x, chd. rewrite lookup_delete_ne; [done|]. intros <-.
    assert (d = c) as -> by congruence. simplify_eq. lia.
  - rewrite length_take. pose proof (ppi_size _ _ _ H). lia.
Qed.

Lemma pp_inv_swap chs t p c ch e i back :
  pp_inv chs t p -> chs !! c = Some ch -> t !! m_fd ch = Some (c, e) -> m_index ch = Z.of_nat i ->
  (S i < length (pollfds_ p))%nat -> last (pollfds_ p) = Some back ->
  exists d chd fd' e', fd' = (if pf_fd back <? 0 then - pf_fd back - 1 else pf_fd back) /\
    t !! fd' = Some (d, e') /\ fd' <> m_fd ch /\ chs !! d = Some chd /\
    pp_inv (<[d := setIndex (Z.of_nat i) chd]> chs) (delete (m_fd ch) t)
      (mkPollPoller (take (length (pollfds_ p) - 1) (<[i := back]> (pollfds_ p)))
         (delete (m_fd ch) (pp_channels p))).
Proof.
  intros H Hc Ht Ei Hn Hb. set (n := length (pollfds_ p)) in *.
  rewrite last_lookup in Hb. fold n in Hb.
  destruct (ppi_entries _ _ _ H _ _ Hb) as (fd' & d & e' & chd & Hd & Hchd & Ed).
  destruct (ppi_table _ _ _ H _ _ _ Hd) as (F0 & Hpr & x & j & pfd & Hx & Hfx & Ej & Hp & Hent).
  rewrite Hchd in Hx. injection Hx as <-. assert (j = pred n) as -> by lia.
  rewrite Hb in Hp. injection Hp as <-.
  assert (forall fd1 d1 e1 ch1, t !! fd1 = Some (d1, e1) -> chs !! d1 = Some ch1 ->
    m_index ch1 = Z.of_nat (pred n) -> fd1 = fd' /\ d1 = d) as Huniq.
  { intros fd1 d1 e1 ch1 Ht1 Hch1 E1.
    apply (pp_inv_index chs t p d1 d ch1 chd fd1 fd' e1 e'); try done. congruence. }
  assert (fd' <> m_fd ch) as Hne.
  { intros ->. rewrite Ht in Hd. injection Hd as -> ->. rewrite Hc in Hchd. injection Hchd as ->. lia. }
  exists d, chd, fd', e'. split.
  { destruct Hent as [_ [->|[-> _]]]; zcase; lia. }
  split_and!; [done|done|done|]. constructor; cbn [pollfds_ pp_channels].
  - intros fd. destruct (decide (fd = m_fd ch)) as [->|]; [by rewrite !lookup_delete_eq|].
    rewrite !lookup_delete_ne by done. apply (ppi_channels _ _ _ H).
  - intros fd d1 x [Hne1 Hd1]%lookup_delete_Some.
    destruct (ppi_table _ _ _ H _ _ _ Hd1) as (? & ? & ch1 & j & pfd & Hch1 & Hf & Ej1 & Hp & ?).
    split_and!; [done|done|]. destruct (decide (d1 = d)) as [->|Hdd].
    + assert (fd = fd') as ->.
      { rewrite (pp_inv_fd _ _ _ _ _ _ _ H Hchd Hd1). by rewrite Hfx. }
      assert (e' = x) as <- by congruence.
      exists (setIndex (Z.of_nat i) chd), i, back. rewrite lookup_insert_eq.
      split_and!; [done|done|done| |].
      * rewrite lookup_take_lt by lia. rewrite list_lookup_insert_eq by lia. done.
      * done.
    + exists ch1, j, pfd. rewrite lookup_insert_ne by done.
      assert (j <> i) as Hji. { intros ->.
        destruct (pp_inv_index _ _ _ _ _ _ _ _ _ _ _ H Ht Hd1 Hc Hch1) as [? _]; [congruence|done]. }
      assert (j <> pred n) as Hjn by (intros ->; destruct (Huniq _ _ _ _ Hd1 Hch1 Ej1); congruence).
      pose proof (lookup_lt_Some _ _ _ Hp) as Hl. fold n in Hl.
      rewrite lookup_take_lt by lia. rewrite list_lookup_insert_ne by done. done.
  - intros j pfd Hj. pose proof (lookup_lt_Some _ _ _ Hj) as Hl.
    rewrite length_take, length_insert in Hl. fold n in Hl. rewrite lookup_take_lt in Hj by lia.
    destruct (decide (j = i)) as [->|Hji].
    + exists fd', d, e', (setIndex (Z.of_nat i) chd). rewrite lookup_insert_eq, lookup_delete_ne by done. done.
    + rewrite list_lookup_insert_ne in Hj by done.
      destruct (ppi_entries _ _ _ H _ _ Hj) as (fd1 & d1 & x & ch1 & Hd1 & Hch1 & Ej1).
      exists fd1, d1, x, ch1. rewrite lookup_delete_ne; [rewrite lookup_insert_ne; [done|]|].
      * intros <-. simplify_eq. lia.
      * intros <-. assert (d1 = c) as -> by congruence. simplify_eq. lia.
  - rewrite length_take, length_insert. pose proof (ppi_size _ _ _ H). lia.
Qed.

Lemma pp_remove chs t p c ch i pfd :
  pp_inv chs t p -> chs !! c = Some ch -> m_events ch = 0 -> t !! m_fd ch = Some (c, 0) ->
  m_index ch = Z.of_nat i -> pollfds_ p !! i = Some pfd -> pf_fd pfd = - m_fd ch - 1 ->
  exists chs' p', PollPoller_removeChannel c chs p = Ok (chs', p') /\ same_channels chs chs' /\
    pp_inv chs' (delete (m_fd ch) t) p'.
Proof.
  intros H Hc He Ht Ei Hp Hig. pose proof (ppi_size _ _ _ H) as Hsz.
  pose proof (lookup_lt_Some _ _ _ Hp) as Hil.
  destruct (ppi_table _ _ _ H _ _ _ Ht) as (Hfd & _ & x & j & q & Hx & _ & Ej & Hq & Hqe & _).
  rewrite Hc in Hx. injection Hx as <-. assert (j = i) as -> by lia. rewrite Hp in Hq. injection Hq as <-.
  unfold PollPoller_removeChannel, deref, isNoneEvent. rewrite Hc. cbn [mbind res_bind].
  rewrite (ppi_channels _ _ _ H), Ht. cbn [fmap option_fmap option_map fst]. index_simp.
  rewrite He. change (0 =? kNoneEvent) with true. cbn [assert mbind res_bind]. rewrite Ei.
  rewrite to_int32_small by lia.
  replace ((0 <=? Z.of_nat i) && (Z.of_nat i <? Z.of_nat (length (pollfds_ p)))) with true
    by (symmetry; apply andb_true_iff; split; [apply Z.leb_le|apply Z.ltb_lt]; lia).
  cbn [assert mbind res_bind]. rewrite Nat2Z.id, Hp, Hig, Hqe, !Z.eqb_refl. cbn [andb assert mbind res_bind].
  destruct (Z.eqb_spec (Z.of_nat i) (Z.of_nat (length (pollfds_ p)) - 1)) as [Elast|Elast].
  - eexists _, _. split; [reflexivity|]. split; [apply same_channels_refl|].
    replace (length (pollfds_ p) - 1)%nat with i by lia. apply (pp_inv_pop chs t p c ch 0 i); try done. lia.
  - destruct (last (pollfds_ p)) as [back|] eqn:Eb.
    2:{ apply last_None in Eb. rewrite Eb in Hil. simpl in Hil. lia. }
    destruct (pp_inv_swap _ _ _ _ _ _ _ _ H Hc Ht Ei ltac:(lia) Eb)
      as (d & chd & fd' & e' & Efd & Hd & Hne & Hchd & Hinv).
    rewrite <- Efd, lookup_delete_ne, (ppi_channels _ _ _ H), Hd by done.
    cbn [fmap option_fmap option_map fst]. rewrite Hchd. cbn [mbind res_bind].
    eexists _, _. split; [reflexivity|]. split; [by apply same_channels_index|done].
Qed.

Lemma pp_inv_write chs t p c ch ch' :
  pp_inv chs t p -> chs !! c = Some ch -> m_fd ch' = m_fd ch -> m_index ch' = m_index ch ->
  pp_inv (<[c := ch']> chs) t p.
Proof.
  intros [H1 H2 H3 H4] Hc Ef Ei. constructor; try done.
  - intros fd d e Hd. destruct (H2 _ _ _ Hd) as (? & ? & x & i & pfd & Hx & ? & ? & ?).
    split_and!; [done|done|]. destruct (decide (d = c)) as [->|].
    + exists ch', i, pfd. rewrite lookup_insert_eq. simplify_eq. split_and!; congruence || tauto.
    + exists x, i, pfd. by rewrite lookup_insert_ne.
  - intros i pfd Hp. destruct (H3 _ _ Hp) as (fd & d & e & x & Hd & Hx & ?).
    destruct (decide (d = c)) as [->|].
    + exists fd, c, e, ch'. rewrite lookup_insert_eq. split_and!; congruence.
    + exists fd, d, e, x. by rewrite lookup_insert_ne.
Qed.

(** ** Properties *)

(** C28. The way the library uses it, [PollPoller] keeps its vector, the
    descriptor map and the indices of the channels in step: a new channel is
    appended, a change rewrites the channel's own entry, and [disableAll]
    followed by [remove] takes the entry out, moving the last one into the gap
    and correcting its channel's index; no assertion fails. *)
Theorem pollpoller_keeps_index chs t p c ch :
  pp_inv chs t p -> chs !! c = Some ch -> 0 <= m_fd ch -> proper (m_events ch) ->
  Z.of_nat (length (pollfds_ p)) < 2 ^ 31 - 2 ->
  (t !! m_fd ch = None -> m_index ch < 0 ->
   exists chs' p', PollPoller_updateChannel c chs p = Ok (chs', p') /\
     pp_inv chs' (<[m_fd ch := (c, m_events ch)]> t) p') /\
  (forall e, t !! m_fd ch = Some (c, e) ->
   (exists p', PollPoller_updateChannel c chs p = Ok (chs, p') /\
      pp_inv chs (<[m_fd ch := (c, m_events ch)]> t) p') /\
   exists chs1 p1 chs2 p2, changeInterest c DisableAll chs p = Ok (chs1, p1) /\
     Channel_remove c chs1 p1 = Ok (chs2, p2) /\ pp_inv chs2 (delete (m_fd ch) t) p2).
Proof.
  intros H Hc Hfd Hpr Hsz. split.
  - intros Ht Hi. destruct (pp_update_new _ _ _ _ _ H Hc Hfd Hpr Ht Hi Hsz) as (chs' & p' & ? & _ & ?).
    eauto.
  - intros e Ht. split.
    { destruct (pp_update_existing _ _ _ _ _ _ H Hc Hpr Ht) as (p' & ? & ? & _). eauto. }
    set (ch0 := set_events 0 ch).
    assert (pp_inv (<[c := ch0]> chs) t p) as H0 by (by apply (pp_inv_write _ _ _ _ ch)).
    destruct (pp_update_existing _ _ _ c ch0 e H0) as (p1 & E1 & H1 & Hig);
      [apply lookup_insert_eq|by exists false, false|done|].
    destruct (Hig eq_refl) as (i & Ei & Hp). simpl in Ei, Hp.
    destruct (pollfds_ p1 !! i) as [pfd|] eqn:Epf; [|done]. injection Hp as Hp.
    set (ch1 := clear_added ch0).
    assert (pp_inv (<[c := ch1]> (<[c := ch0]> chs)) (<[m_fd ch := (c, 0)]> t) p1) as H2.
    { apply (pp_inv_write _ _ _ _ ch0); [done|apply lookup_insert_eq|done|done]. }
    destruct (pp_remove _ _ p1 c ch1 i pfd H2) as (chs2 & p2 & E2 & _ & H3);
      [apply lookup_insert_eq|done|apply lookup_insert_eq|done|done|done|].
    exists (<[c := ch0]> chs), p1, chs2, p2. split_and!.
    + unfold changeInterest, deref. rewrite Hc. exact E1.
    + unfold Channel_remove, deref. rewrite lookup_insert_eq. exact E2.
    + simpl in H3. by rewrite delete_insert_eq in H3.
Qed.

Definition pp_store : store := {[1%nat := set_events 3 (Channel_new 5)]}.

Lemma pp_empty_inv : pp_inv pp_store ∅ PollPoller_new.
Proof. constructor; try done. Qed.

Lemma pollpoller_keeps_index_witness :
  ((∅ : table) !! 5 = None -> -1 < 0 ->
   exists chs' p', PollPoller_updateChannel 1 pp_store PollPoller_new = Ok (chs', p') /\
     pp_inv chs' (<[5 := (1%nat, 3)]> ∅) p') /\
  (forall e, (∅ : table) !! 5 = Some (1%nat, e) ->
   (exists p', PollPoller_updateChannel 1 pp_store PollPoller_new = Ok (pp_store, p') /\
      pp_inv pp_store (<[5 := (1%nat, 3)]> ∅) p') /\
   exists chs1 p1 chs2 p2, changeInterest 1 DisableAll pp_store PollPoller_new = Ok (chs1, p1) /\
     Channel_remove 1 chs1 p1 = Ok (chs2, p2) /\ pp_inv chs2 (delete 5 ∅) p2).
Proof.
  apply (pollpoller_keeps_index pp_store ∅ PollPoller_new 1 (set_events 3 (Channel_new 5))).
  - exact pp_empty_inv.
  - reflexivity.
  - vm_compute. discriminate.
  - exists true, false. reflexivity.
  - vm_compute. reflexivity.
Defined.

(** A channel that was never interested in anything, and one that comes back. *)
Definition idle_ops : list channel_op := [ONew 1 5; OInterest 1 DisableAll; ORemove 1].
Definition return_ops : list channel_op :=
  [ONew 1 5; OInterest 1 EnableReading; OInterest 1 DisableAll; ORemove 1;
   OInterest 1 EnableReading].

(** [PollPoller] does not implement the interface the other pollers do.  A
    channel registered with no events is entered with its real descriptor, and
    its removal then fails an assertion; and a removed channel keeps its index,
    so that registering it again fails one.  The same calls are within the
    rules, and work, with the other pollers. *)
Theorem pollpoller_not_a_poller :
  Forall (fun ops => is_Some (spec_run ops ∅) /\
    is_ok (channel_run ops ∅ (poller_new : EpollPoller)) /\
    is_ok (channel_run ops ∅ (poller_new : KQueue)) /\
    channel_run ops ∅ (poller_new : PollPoller) = Fail AssertFailed) [idle_ops; return_ops].
Proof.
  repeat constructor; try (eexists; vm_compute; reflexivity); vm_compute; reflexivity.
Qed.
