(* ===== verification/TcpConnection.v ===== *)
(** * Connections: [netpoll/net/inner/tcp_connection_impl.{h,cc}]

    A connection of an event loop (Linux branch): the status, the list of
    buffers, files and streams still to be written, the channel's write
    interest, and the order in which [send] calls from the loop thread and from
    other threads are served.

    - The socket answers each [write], [sendfile] and [readv] with the next
      element of a script, any list of outcomes; [EAGAIN] once it is used up.
    - A [MessageBuffer] of the write list is its readable bytes (the contract
      of [BufferContract]).
    - A file is the bytes left from its offset on; a stream is the list of
      chunks its callback returns, an empty one or the end of the list being
      the end of the stream.
    - The user's callbacks are functions on the connection, parameters of the
      operations that call them.
    - Fields under "history" record what happened; no operation reads them. *)

From S2P Require Import Prelude.

Definition EAGAIN : Z := 11.
Definition EPIPE : Z := 32.
Definition ECONNRESET : Z := 104.

(** ** Data *)

Inductive ConnStatus := Disconnected | Connecting | Connected | Disconnecting.

#[global] Instance ConnStatus_eq_dec : EqDecision ConnStatus.
Proof. solve_decision. Defined.

(** [BufferNode]; the number is [fileBytesToSend_]. *)
Inductive node :=
  | NBuf (readable : list byte)
  | NFile (rest : list byte) (toSend : Z)
  | NStream (chunks : list (list byte)) (toSend : Z).

Definition isFile (n : node) : bool :=
  match n with NBuf _ => false | _ => true end.

(** What a system call on the socket answers. *)
Inductive outcome :=
  | Done (n : Z)          (* bytes taken, at most the number offered *)
  | Err (errno : Z).

(** A functor that [send] and its like have queued in the loop. *)
Inductive request :=
  | RSend (msg : list byte)
  | RNode (n : node).

(** What the user and the peer can observe. *)
Inductive event :=
  | EvConnection (up : bool)
  | EvMessage
  | EvWriteComplete
  | EvHighWater (n : Z)
  | EvClose
  | EvCloseWrite (unsent : list byte).

Record conn := mkConn {
  m_status : ConnStatus;
  isReading : bool;                     (* the channel's interest *)
  isWriting : bool;
  registered : bool;                    (* the channel is in the poller *)
  m_writeBufferList : list node;
  m_fileBufferPtr : list byte;
  m_readBuffer : list byte;
  m_sendNum : Z;
  m_sendNumMutex : bool;                (* held *)
  m_highWaterMarkLen : option Z;        (* set with its callback *)
  m_bytesSent : Z;
  m_bytesReceived : Z;
  m_idleTimeout : Z;
  m_kickoffEntry : bool;                (* the entry exists *)
  m_lastTimingWheelUpdateTime : Z;
  wheel_inserts : list Z;               (* delays of insertions into the wheel *)
  functors : list request;              (* queued in the loop, in order *)
  inflight : Z;                         (* other threads between the two steps of [send] *)
  script : list outcome;                (* answers of the socket *)
  (* history *)
  sent : list byte;                     (* bytes the socket took *)
  called : list (list byte);            (* data of the send calls, in order *)
  handled : list (list byte);           (* data that reached the loop, in order *)
  dropped : bool;                       (* data was given up *)
  fatal : bool;                         (* a write failed for good *)
  events : list event
}.

Section setters.
Implicit Type s : conn.
Definition set_status (v : ConnStatus) s : conn := mkConn v (isReading s) (isWriting s)
  (registered s) (m_writeBufferList s) (m_fileBufferPtr s) (m_readBuffer s) (m_sendNum s)
  (m_sendNumMutex s) (m_highWaterMarkLen s) (m_bytesSent s) (m_bytesReceived s) (m_idleTimeout s)
  (m_kickoffEntry s) (m_lastTimingWheelUpdateTime s) (wheel_inserts s) (functors s) (inflight s)
  (script s) (sent s) (called s) (handled s) (dropped s) (fatal s) (events s).
Definition set_reading (v : bool) s : conn := mkConn (m_status s) v (isWriting s) (registered s)
  (m_writeBufferList s) (m_fileBufferPtr s) (m_readBuffer s) (m_sendNum s) (m_sendNumMutex s)
  (m_highWaterMarkLen s) (m_bytesSent s) (m_bytesReceived s) (m_idleTimeout s) (m_kickoffEntry s)
  (m_lastTimingWheelUpdateTime s) (wheel_inserts s) (functors s) (inflight s) (script s) (sent s)
  (called s) (handled s) (dropped s) (fatal s) (events s).
Definition set_writing (v : bool) s : conn := mkConn (m_status s) (isReading s) v (registered s)
  (m_writeBufferList s) (m_fileBufferPtr s) (m_readBuffer s) (m_sendNum s) (m_sendNumMutex s)
  (m_highWaterMarkLen s) (m_bytesSent s) (m_bytesReceived s) (m_idleTimeout s) (m_kickoffEntry s)
  (m_lastTimingWheelUpdateTime s) (wheel_inserts s) (functors s) (inflight s) (script s) (sent s)
  (called s) (handled s) (dropped s) (fatal s) (events s).
Definition set_registered (v : bool) s : conn := mkConn (m_status s) (isReading s) (isWriting s) v
  (m_writeBufferList s) (m_fileBufferPtr s) (m_readBuffer s) (m_sendNum s) (m_sendNumMutex s)
  (m_highWaterMarkLen s) (m_bytesSent s) (m_bytesReceived s) (m_idleTimeout s) (m_kickoffEntry s)
  (m_lastTimingWheelUpdateTime s) (wheel_inserts s) (functors s) (inflight s) (script s) (sent s)
  (called s) (handled s) (dropped s) (fatal s) (events s).
Definition set_list (v : list node) s : conn := mkConn (m_status s) (isReading s) (isWriting s)
  (registered s) v (m_fileBufferPtr s) (m_readBuffer s) (m_sendNum s) (m_sendNumMutex s)
  (m_highWaterMarkLen s) (m_bytesSent s) (m_bytesReceived s) (m_idleTimeout s) (m_kickoffEntry s)
  (m_lastTimingWheelUpdateTime s) (wheel_inserts s) (functors s) (inflight s) (script s) (sent s)
  (called s) (handled s) (dropped s) (fatal s) (events s).
Definition set_fileBuffer (v : list byte) s : conn := mkConn (m_status s) (isReading s)
  (isWriting s) (registered s) (m_writeBufferList s) v (m_readBuffer s) (m_sendNum s)
  (m_sendNumMutex s) (m_highWaterMarkLen s) (m_bytesSent s) (m_bytesReceived s) (m_idleTimeout s)
  (m_kickoffEntry s) (m_lastTimingWheelUpdateTime s) (wheel_inserts s) (functors s) (inflight s)
  (script s) (sent s) (called s) (handled s) (dropped s) (fatal s) (events s).
Definition set_readBuffer (v : list byte) s : conn := mkConn (m_status s) (isReading s)
  (isWriting s) (registered s) (m_writeBufferList s) (m_fileBufferPtr s) v (m_sendNum s)
  (m_sendNumMutex s) (m_highWaterMarkLen s) (m_bytesSent s) (m_bytesReceived s) (m_idleTimeout s)
  (m_kickoffEntry s) (m_lastTimingWheelUpdateTime s) (wheel_inserts s) (functors s) (inflight s)
  (script s) (sent s) (called s) (handled s) (dropped s) (fatal s) (events s).
Definition set_sendNum (v : Z) s : conn := mkConn (m_status s) (isReading s) (isWriting s)
  (registered s) (m_writeBufferList s) (m_fileBufferPtr s) (m_readBuffer s) v (m_sendNumMutex s)
  (m_highWaterMarkLen s) (m_bytesSent s) (m_bytesReceived s) (m_idleTimeout s) (m_kickoffEntry s)
  (m_lastTimingWheelUpdateTime s) (wheel_inserts s) (functors s) (inflight s) (script s) (sent s)
  (called s) (handled s) (dropped s) (fatal s) (events s).
Definition set_mutex (v : bool) s : conn := mkConn (m_status s) (isReading s) (isWriting s)
  (registered s) (m_writeBufferList s) (m_fileBufferPtr s) (m_readBuffer s) (m_sendNum s) v
  (m_highWaterMarkLen s) (m_bytesSent s) (m_bytesReceived s) (m_idleTimeout s) (m_kickoffEntry s)
  (m_lastTimingWheelUpdateTime s) (wheel_inserts s) (functors s) (inflight s) (script s) (sent s)
  (called s) (handled s) (dropped s) (fatal s) (events s).
Definition set_highWaterMark (v : option Z) s : conn := mkConn (m_status s) (isReading s)
  (isWriting s) (registered s) (m_writeBufferList s) (m_fileBufferPtr s) (m_readBuffer s)
  (m_sendNum s) (m_sendNumMutex s) v (m_bytesSent s) (m_bytesReceived s) (m_idleTimeout s)
  (m_kickoffEntry s) (m_lastTimingWheelUpdateTime s) (wheel_inserts s) (functors s) (inflight s)
  (script s) (sent s) (called s) (handled s) (dropped s) (fatal s) (events s).
Definition set_bytesReceived (v : Z) s : conn := mkConn (m_status s) (isReading s) (isWriting s)
  (registered s) (m_writeBufferList s) (m_fileBufferPtr s) (m_readBuffer s) (m_sendNum s)
  (m_sendNumMutex s) (m_highWaterMarkLen s) (m_bytesSent s) v (m_idleTimeout s) (m_kickoffEntry s)
  (m_lastTimingWheelUpdateTime s) (wheel_inserts s) (functors s) (inflight s) (script s) (sent s)
  (called s) (handled s) (dropped s) (fatal s) (events s).
Definition set_idleTimeout (v : Z) s : conn := mkConn (m_status s) (isReading s) (isWriting s)
  (registered s) (m_writeBufferList s) (m_fileBufferPtr s) (m_readBuffer s) (m_sendNum s)
  (m_sendNumMutex s) (m_highWaterMarkLen s) (m_bytesSent s) (m_bytesReceived s) v
  (m_kickoffEntry s) (m_lastTimingWheelUpdateTime s) (wheel_inserts s) (functors s) (inflight s)
  (script s) (sent s) (called s) (handled s) (dropped s) (fatal s) (events s).
Definition set_kickoffEntry (v : bool) s : conn := mkConn (m_status s) (isReading s) (isWriting s)
  (registered s) (m_writeBufferList s) (m_fileBufferPtr s) (m_readBuffer s) (m_sendNum s)
  (m_sendNumMutex s) (m_highWaterMarkLen s) (m_bytesSent s) (m_bytesReceived s) (m_idleTimeout s)
  v (m_lastTimingWheelUpdateTime s) (wheel_inserts s) (functors s) (inflight s) (script s)
  (sent s) (called s) (handled s) (dropped s) (fatal s) (events s).
Definition set_lastUpdate (v : Z) s : conn := mkConn (m_status s) (isReading s) (isWriting s)
  (registered s) (m_writeBufferList s) (m_fileBufferPtr s) (m_readBuffer s) (m_sendNum s)
  (m_sendNumMutex s) (m_highWaterMarkLen s) (m_bytesSent s) (m_bytesReceived s) (m_idleTimeout s)
  (m_kickoffEntry s) v (wheel_inserts s) (functors s) (inflight s) (script s) (sent s) (called s)
  (handled s) (dropped s) (fatal s) (events s).
Definition set_wheel_inserts (v : list Z) s : conn := mkConn (m_status s) (isReading s)
  (isWriting s) (registered s) (m_writeBufferList s) (m_fileBufferPtr s) (m_readBuffer s)
  (m_sendNum s) (m_sendNumMutex s) (m_highWaterMarkLen s) (m_bytesSent s) (m_bytesReceived s)
  (m_idleTimeout s) (m_kickoffEntry s) (m_lastTimingWheelUpdateTime s) v (functors s) (inflight s)
  (script s) (sent s) (called s) (handled s) (dropped s) (fatal s) (events s).
Definition set_functors (v : list request) s : conn := mkConn (m_status s) (isReading s)
  (isWriting s) (registered s) (m_writeBufferList s) (m_fileBufferPtr s) (m_readBuffer s)
  (m_sendNum s) (m_sendNumMutex s) (m_highWaterMarkLen s) (m_bytesSent s) (m_bytesReceived s)
  (m_idleTimeout s) (m_kickoffEntry s) (m_lastTimingWheelUpdateTime s) (wheel_inserts s) v
  (inflight s) (script s) (sent s) (called s) (handled s) (dropped s) (fatal s) (events s).
Definition set_inflight (v : Z) s : conn := mkConn (m_status s) (isReading s) (isWriting s)
  (registered s) (m_writeBufferList s) (m_fileBufferPtr s) (m_readBuffer s) (m_sendNum s)
  (m_sendNumMutex s) (m_highWaterMarkLen s) (m_bytesSent s) (m_bytesReceived s) (m_idleTimeout s)
  (m_kickoffEntry s) (m_lastTimingWheelUpdateTime s) (wheel_inserts s) (functors s) v (script s)
  (sent s) (called s) (handled s) (dropped s) (fatal s) (events s).
Definition set_script (v : list outcome) s : conn := mkConn (m_status s) (isReading s)
  (isWriting s) (registered s) (m_writeBufferList s) (m_fileBufferPtr s) (m_readBuffer s)
  (m_sendNum s) (m_sendNumMutex s) (m_highWaterMarkLen s) (m_bytesSent s) (m_bytesReceived s)
  (m_idleTimeout s) (m_kickoffEntry s) (m_lastTimingWheelUpdateTime s) (wheel_inserts s)
  (functors s) (inflight s) v (sent s) (called s) (handled s) (dropped s) (fatal s) (events s).
Definition set_called (v : list (list byte)) s : conn := mkConn (m_status s) (isReading s)
  (isWriting s) (registered s) (m_writeBufferList s) (m_fileBufferPtr s) (m_readBuffer s)
  (m_sendNum s) (m_sendNumMutex s) (m_highWaterMarkLen s) (m_bytesSent s) (m_bytesReceived s)
  (m_idleTimeout s) (m_kickoffEntry s) (m_lastTimingWheelUpdateTime s) (wheel_inserts s)
  (functors s) (inflight s) (script s) (sent s) v (handled s) (dropped s) (fatal s) (events s).
Definition set_handled (v : list (list byte)) s : conn := mkConn (m_status s) (isReading s)
  (isWriting s) (registered s) (m_writeBufferList s) (m_fileBufferPtr s) (m_readBuffer s)
  (m_sendNum s) (m_sendNumMutex s) (m_highWaterMarkLen s) (m_bytesSent s) (m_bytesReceived s)
  (m_idleTimeout s) (m_kickoffEntry s) (m_lastTimingWheelUpdateTime s) (wheel_inserts s)
  (functors s) (inflight s) (script s) (sent s) (called s) v (dropped s) (fatal s) (events s).
Definition set_dropped (v : bool) s : conn := mkConn (m_status s) (isReading s) (isWriting s)
  (registered s) (m_writeBufferList s) (m_fileBufferPtr s) (m_readBuffer s) (m_sendNum s)
  (m_sendNumMutex s) (m_highWaterMarkLen s) (m_bytesSent s) (m_bytesReceived s) (m_idleTimeout s)
  (m_kickoffEntry s) (m_lastTimingWheelUpdateTime s) (wheel_inserts s) (functors s) (inflight s)
  (script s) (sent s) (called s) (handled s) v (fatal s) (events s).
Definition set_fatal (v : bool) s : conn := mkConn (m_status s) (isReading s) (isWriting s)
  (registered s) (m_writeBufferList s) (m_fileBufferPtr s) (m_readBuffer s) (m_sendNum s)
  (m_sendNumMutex s) (m_highWaterMarkLen s) (m_bytesSent s) (m_bytesReceived s) (m_idleTimeout s)
  (m_kickoffEntry s) (m_lastTimingWheelUpdateTime s) (wheel_inserts s) (functors s) (inflight s)
  (script s) (sent s) (called s) (handled s) (dropped s) v (events s).
Definition set_events (v : list event) s : conn := mkConn (m_status s) (isReading s) (isWriting s)
  (registered s) (m_writeBufferList s) (m_fileBufferPtr s) (m_readBuffer s) (m_sendNum s)
  (m_sendNumMutex s) (m_highWaterMarkLen s) (m_bytesSent s) (m_bytesReceived s) (m_idleTimeout s)
  (m_kickoffEntry s) (m_lastTimingWheelUpdateTime s) (wheel_inserts s) (functors s) (inflight s)
  (script s) (sent s) (called s) (handled s) (dropped s) (fatal s) v.
Definition set_sent (b : list byte) (n : Z) s : conn := mkConn (m_status s) (isReading s)
  (isWriting s) (registered s) (m_writeBufferList s) (m_fileBufferPtr s) (m_readBuffer s)
  (m_sendNum s) (m_sendNumMutex s) (m_highWaterMarkLen s) n (m_bytesReceived s) (m_idleTimeout s)
  (m_kickoffEntry s) (m_lastTimingWheelUpdateTime s) (wheel_inserts s) (functors s) (inflight s)
  (script s) b (called s) (handled s) (dropped s) (fatal s) (events s).
End setters.

Definition log (e : event) (s : conn) : conn := set_events (events s ++ [e]) s.

(** ** The socket *)

(** The next answer of the socket. *)
Definition answer (s : conn) : outcome * conn :=
  match script s with
  | [] => (Err EAGAIN, s)
  | o :: os => (o, set_script os s)
  end.

(** [writeInLoop]: the number written, or the error; [write] takes at most
    what it is offered. *)
Definition writeInLoop (data : list byte) (s : conn) : outcome * conn :=
  let '(o, s) := answer s in
  match o with
  | Done n =>
      let n := Z.max 0 (Z.min n (zlen data)) in
      (Done n, set_sent (sent s ++ take (Z.to_nat n) data) (m_bytesSent s ⊞ n) s)
  | Err e => (Err e, s)
  end.

(** [util::WriteSocketError]: true for every error but a full buffer. *)
Definition WriteSocketError (e : Z) : bool := negb (e =? EAGAIN).

(** ** Keeping an idle connection alive *)

Definition enableKickingOff (timeout : Z) (s : conn) : res conn :=
  _ ← assert (0 <? timeout);
  Ok (set_wheel_inserts (wheel_inserts s ++ [timeout]) (set_kickoffEntry true s)).

(** [extendLife]; times in microseconds. *)
Definition extendLife (now : Z) (s : conn) : conn :=
  if 0 <? m_idleTimeout s then
    if now <? m_lastTimingWheelUpdateTime s + 1000000 then s
    else
      let s := set_lastUpdate now s in
      if m_kickoffEntry s then set_wheel_inserts (wheel_inserts s ++ [m_idleTimeout s]) s else s
  else s.

(** [keepAlive] resets the entry, which then kicks nothing off. *)
Definition keepAlive (s : conn) : conn := set_kickoffEntry false (set_idleTimeout 0 s).
Definition isKeepAlive (s : conn) : bool := m_idleTimeout s =? 0.

(** ** User code *)

(** The callbacks that are set, as what they do to the connection. *)
Record callbacks := mkCallbacks {
  m_connectionCallback : conn -> res conn;
  m_recvMsgCallback : conn -> res conn;
  m_writeCompleteCallback : conn -> res conn;
  m_highWaterMarkCallback : Z -> conn -> res conn;
  m_closeCallback : conn -> res conn
}.

(** Callbacks that leave the connection alone. *)
Definition no_callbacks : callbacks := mkCallbacks Ok Ok Ok (fun _ => Ok) Ok.

Section operations.
Variable cb : callbacks.
Variable now : Z.

(** ** Closing *)

(** The bytes that a stream will still produce, and that a node stands for. *)
Fixpoint stream_bytes (chunks : list (list byte)) : list byte :=
  match chunks with
  | [] => []
  | [] :: _ => []
  | c :: chunks => c ++ stream_bytes chunks
  end.

Definition node_bytes (n : node) : list byte :=
  match n with
  | NBuf b => b
  | NFile rest toSend => take (Z.to_nat toSend) rest
  | NStream chunks toSend => if 0 <? toSend then stream_bytes chunks else []
  end.

Definition unsent (s : conn) : list byte :=
  m_fileBufferPtr s ++ concat (map node_bytes (m_writeBufferList s)).

(** [Socket::closeWrite]; what is still unsent at that moment is recorded. *)
Definition closeWrite (s : conn) : conn := log (EvCloseWrite (unsent s)) s.

Definition disableAll (s : conn) : conn :=
  set_registered true (set_reading false (set_writing false s)).
Definition enableWriting (s : conn) : conn := set_registered true (set_writing true s).
Definition disableWriting (s : conn) : conn := set_registered true (set_writing false s).

Definition connectEstablished (s : conn) : res conn :=
  _ ← assert (bool_decide (m_status s = Connecting));
  let s := set_registered true (set_reading true s) in
  let s := set_status Connected s in
  m_connectionCallback cb (log (EvConnection true) s).

Definition handleClose (s : conn) : res conn :=
  let s := disableAll (set_status Disconnected s) in
  s ← m_connectionCallback cb (log (EvConnection false) s);
  m_closeCallback cb (log EvClose s).

(** [m_connectionCallback] is called without a test; the identity stands for
    a user who sets one that does nothing, an unset one would throw
    [std::bad_function_call]. *)
Definition connectDestroyed (s : conn) : res conn :=
  s ← (if bool_decide (m_status s = Connected) then
         m_connectionCallback cb (log (EvConnection false) (disableAll (set_status Disconnected s)))
       else Ok s);
  (* [Channel::remove] *)
  _ ← assert (negb (isReading s) && negb (isWriting s));
  _ ← assert (registered s);
  Ok (set_registered false s).

Definition shutdown (s : conn) : conn :=
  if bool_decide (m_status s = Connected) then
    let s := set_status Disconnecting s in
    if isWriting s then s else closeWrite s
  else s.

Definition forceClose (s : conn) : res conn :=
  if bool_decide (m_status s = Connected) || bool_decide (m_status s = Disconnecting)
  then handleClose (set_status Disconnecting s) else Ok s.

(** ** Receiving *)

(** [readFd] delivers bytes, the end of the stream, or an error. *)
Inductive received :=
  | RBytes (b : list byte)
  | RError (errno : Z).

Definition handleRead (r : received) (s : conn) : res conn :=
  match r with
  | RError e =>
      if bool_decide (e = EPIPE) || bool_decide (e = ECONNRESET) then Ok s
      else if bool_decide (e = EAGAIN) then Ok s
      else handleClose s
  | RBytes b =>
      s ← (if bool_decide (b = []) then handleClose s else Ok s);
      let s := extendLife now s in
      if bool_decide (b = []) then Ok s
      else
        let s := set_bytesReceived (m_bytesReceived s ⊞ zlen b)
                   (set_readBuffer (m_readBuffer s ++ b) s) in
        m_recvMsgCallback cb (log EvMessage s)
  end.

(** ** Sending *)

Definition put_front (n : node) (s : conn) : conn :=
  set_list match m_writeBufferList s with [] => [] | _ :: l => n :: l end s.

(** [sendFileInLoop] on the front node, a file: [sendfile]. *)
Definition sendFile_kernel (rest : list byte) (toSend : Z) (s : conn) : conn :=
  let '(o, s) := answer s in
  match o with
  | Err e =>
      if bool_decide (e = EAGAIN) then s
      else set_fatal true (if isWriting s then disableWriting s else s)
  | Done n =>
      let n := Z.max 0 (Z.min n (Z.min toSend (zlen rest))) in
      if (n <? toSend) && (n =? 0) then s
      else
        let s := set_sent (sent s ++ take (Z.to_nat n) rest) (m_bytesSent s) s in
        let s := put_front (NFile (drop (Z.to_nat n) rest) (toSend - n)) s in
        if isWriting s then s else enableWriting s
  end.

(** The next chunk of a stream, if the buffer is empty. *)
Definition stream_fetch (chunks : list (list byte)) (toSend : Z) (s : conn)
    : list (list byte) * Z * conn :=
  if bool_decide (m_fileBufferPtr s = []) then
    match chunks with
    | [] => ([], 0, s)
    | c :: chunks => (chunks, if bool_decide (c = []) then 0 else toSend, set_fileBuffer c s)
    end
  else (chunks, toSend, s).

(** The loop of [sendFileInLoop] for a stream: each turn fetches a chunk if the
    buffer is empty, and writes the buffer. *)
Fixpoint stream_loop (fuel : nat) (chunks : list (list byte)) (toSend : Z) (s : conn) : res conn :=
  if (0 <? toSend) || negb (bool_decide (m_fileBufferPtr s = [])) then
    match fuel with
    | O => Fail Diverged
    | S fuel =>
        let '(chunks, toSend, s) := stream_fetch chunks toSend s in
        let s := put_front (NStream chunks toSend) s in
        if bool_decide (m_fileBufferPtr s = [])
        then Ok (if isWriting s then s else enableWriting s)
        else
          let nToWrite := zlen (m_fileBufferPtr s) in
          let '(o, s) := writeInLoop (m_fileBufferPtr s) s in
          match o with
          | Done n =>
              if n <? nToWrite then
                let s := set_fileBuffer (drop (Z.to_nat n) (m_fileBufferPtr s)) s in
                Ok (if isWriting s then s else enableWriting s)
              else stream_loop fuel chunks toSend (set_fileBuffer [] s)
          | Err e =>
              if WriteSocketError e then Ok (set_fatal true s)
              else Ok (if isWriting s then s else enableWriting s)
          end
    end
  else Ok (if isWriting s then s else enableWriting s).

(** [sendFileInLoop], for the front of the list. *)
Definition sendFileInLoop (s : conn) : res conn :=
  match m_writeBufferList s with
  | NFile rest toSend :: _ => Ok (sendFile_kernel rest toSend s)
  | NStream chunks toSend :: _ => stream_loop (S (S (length chunks))) chunks toSend s
  | _ => Fail AssertFailed
  end.

(** [writeInLoop] of the front buffer and [retrieve], in [sendNext] and
    [handleWrite]. *)
Definition write_front (b : list byte) (s : conn) : conn :=
  let '(o, s) := writeInLoop b s in
  match o with
  | Done n => put_front (NBuf (drop (Z.to_nat n) b)) s
  | Err e => if WriteSocketError e then set_fatal true s else s
  end.

Definition sendNext (s : conn) : res conn :=
  match m_writeBufferList s with
  | [] => Fail AssertFailed
  | NBuf b :: _ => Ok (write_front b s)
  | _ => sendFileInLoop s
  end.

(** The front node is finished: [pop_front], and on to the next, or done. *)
Definition pop_finished (s : conn) : res conn :=
  let s := set_list (tail (m_writeBufferList s)) s in
  match m_writeBufferList s with
  | [] =>
      let s := disableWriting s in
      s ← m_writeCompleteCallback cb (log EvWriteComplete s);
      Ok (if bool_decide (m_status s = Disconnecting) then closeWrite s else s)
  | _ => sendNext s
  end.

Definition handleWrite (s : conn) : res conn :=
  let s := extendLife now s in
  if isWriting s then
    match m_writeBufferList s with
    | [] => Fail AssertFailed
    | NBuf b :: _ =>
        if bool_decide (b = []) then pop_finished s else Ok (write_front b s)
    | NFile _ toSend :: _ | NStream _ toSend :: _ =>
        if toSend <=? 0 then pop_finished s else sendFileInLoop s
    end
  else Ok s.

(** The end of [sendInLoop]: queue what is left. *)
Definition queue_rest (rest : list byte) (s : conn) : res conn :=
  let l := m_writeBufferList s in
  let s := match last l with
           | Some (NBuf b) => set_list (take (length l - 1) l ++ [NBuf (b ++ rest)]) s
           | _ => set_list (l ++ [NBuf rest]) s
           end in
  let s := if isWriting s then s else enableWriting s in
  match m_highWaterMarkLen s, last (m_writeBufferList s) with
  | Some mark, Some (NBuf b) =>
      if mark <? zlen b
      then m_highWaterMarkCallback cb (zlen b) (log (EvHighWater (zlen b)) s) else Ok s
  | _, _ => Ok s
  end.

Definition sendInLoop (msg : list byte) (s : conn) : res conn :=
  let s := set_handled (handled s ++ [msg]) s in
  if bool_decide (m_status s = Connected) then
    let s := extendLife now s in
    let '(o, s) :=
      if negb (isWriting s) && bool_decide (m_writeBufferList s = [])
      then writeInLoop msg s else (Done 0, s) in
    let '(sendLen, failed) :=
      match o with
      | Done n => (n, false)
      | Err e => (0, WriteSocketError e)
      end in
    if failed : bool then Ok (set_fatal true (set_dropped true s))
    else
      let rest := drop (Z.to_nat sendLen) msg in
      if bool_decide (rest = []) then Ok s else queue_rest rest s
  else Ok (set_dropped true s).

(** A file or stream reaches the loop. *)
Definition pushNode (n : node) (s : conn) : res conn :=
  let s := set_handled (handled s ++ [node_bytes n]) s in
  let s := set_list (m_writeBufferList s ++ [n]) s in
  if bool_decide (length (m_writeBufferList s) = 1%nat) then sendFileInLoop s else Ok s.

Definition request_bytes (r : request) : list byte :=
  match r with RSend m => m | RNode n => node_bytes n end.

(** ** Calls of [send] and its like *)

Definition getSendNumByGuard (s : conn) : res Z :=
  if m_sendNumMutex s then Fail Deadlock else Ok (m_sendNum s).
Definition plusSendNumByGuard (s : conn) : res conn :=
  if m_sendNumMutex s then Fail Deadlock else Ok (set_sendNum (m_sendNum s ⊞ 1) s).
Definition minusSendNumByGuard (s : conn) : res conn :=
  if m_sendNumMutex s then Fail Deadlock else Ok (set_sendNum (m_sendNum s ⊟ 1) s).

Definition handle_request (r : request) (s : conn) : res conn :=
  match r with RSend m => sendInLoop m s | RNode n => pushNode n s end.

(** [queueInLoop] allocates a node per functor: their number is bounded by the
    size of memory. *)
Definition enqueue (r : request) (s : conn) : res conn :=
  if Z.of_nat (length (functors s)) <? ptrdiff_max
  then Ok (set_functors (functors s ++ [r]) s) else Fail BadAlloc.

Definition record_call (r : request) (s : conn) : conn :=
  set_called (called s ++ [request_bytes r]) s.

(** [send(StringView)], [send(MessageBuffer &&)], [sendFile], [sendStream] in
    the loop thread: the mutex is free while the data is handled. *)
Definition send_in_loop (r : request) (s : conn) : res conn :=
  let s := record_call r s in
  n ← getSendNumByGuard s;
  if n =? 0 then handle_request r s
  else s ← plusSendNumByGuard s; enqueue r s.

(** [send(const MessageBuffer &)], [send(shared_ptr)] in the loop thread: the
    mutex is held throughout. *)
Definition send_in_loop_locked (msg : list byte) (s : conn) : res conn :=
  let s := record_call (RSend msg) s in
  if m_sendNumMutex s then Fail Deadlock
  else
    let s := set_mutex true s in
    s ← (if m_sendNum s =? 0 then sendInLoop msg s
         else enqueue (RSend msg) (set_sendNum (m_sendNum s ⊞ 1) s));
    Ok (set_mutex false s).

(** The number of threads that can be inside a call. *)
Definition max_threads : Z := 2 ^ 32.

(** In another thread: the counter is raised, then the functor is queued; the
    variants with the mutex do both under it. *)
Definition send_remote_begin (s : conn) : res conn :=
  s ← plusSendNumByGuard s;
  if inflight s <? max_threads then Ok (set_inflight (inflight s + 1) s) else Fail BadAlloc.
Definition send_remote_queue (r : request) (s : conn) : res conn :=
  _ ← assert (0 <? inflight s);
  enqueue r (record_call r (set_inflight (inflight s - 1) s)).

(** The queued functor. *)
Definition run_functor (s : conn) : res conn :=
  match functors s with
  | [] => Ok s
  | r :: fs => s ← handle_request r (set_functors fs s); minusSendNumByGuard s
  end.

(** ** The calls of the interface

    In another thread nothing separates the two steps here; in a run, other
    steps may come between them.  A shared buffer is taken to be left alone
    until it has been sent. *)

Definition send_remote (r : request) (s : conn) : res conn :=
  s ← send_remote_begin s; send_remote_queue r s.

(** [send(const StringView &)] *)
Definition send_view (inLoop : bool) (msg : list byte) : conn -> res conn :=
  if inLoop then send_in_loop (RSend msg) else send_remote (RSend msg).
(** [send(MessageBuffer &&)] *)
Definition send_moved (inLoop : bool) (msg : list byte) : conn -> res conn :=
  if inLoop then send_in_loop (RSend msg) else send_remote (RSend msg).
(** [send(const MessageBuffer &)] *)
Definition send_copied (inLoop : bool) (msg : list byte) : conn -> res conn :=
  if inLoop then send_in_loop_locked msg else send_remote (RSend msg).
(** [send(const std::shared_ptr<MessageBuffer> &)] *)
Definition send_shared (inLoop : bool) (msg : list byte) : conn -> res conn :=
  if inLoop then send_in_loop_locked msg else send_remote (RSend msg).
(** [sendFile] of an open file; [rest] is what follows the offset. *)
Definition sendFile (inLoop : bool) (rest : list byte) (length : Z) (s : conn) : res conn :=
  _ ← assert (0 <? length);
  (if inLoop then send_in_loop (RNode (NFile rest length))
   else send_remote (RNode (NFile rest length))) s.
(** [sendStream]: the number is 1 until the stream has ended. *)
Definition sendStream (inLoop : bool) (chunks : list (list byte)) : conn -> res conn :=
  if inLoop then send_in_loop (RNode (NStream chunks 1)) else send_remote (RNode (NStream chunks 1)).

End operations.

(** ** Invariant

    [k] is 1 while a queued functor runs (it has left the queue, and its count
    is still in [m_sendNum]), and 0 otherwise. *)

Definition idle_ok (s : conn) : Prop :=
  m_status s = Connected \/ m_status s = Disconnecting.

Record cinv (k : Z) (s : conn) : Prop := {
  (* calls are handled in order *)
  ci_order : called s = handled s ++ map request_bytes (functors s);
  ci_sendNum : m_sendNum s = wrap64 (Z.of_nat (length (functors s)) + inflight s + k);
  (* nothing is lost or reordered *)
  ci_bytes : dropped s = false -> concat (handled s) = sent s ++ unsent s;
  ci_fileBuffer : m_fileBufferPtr s <> [] ->
    exists chunks toSend l, m_writeBufferList s = NStream chunks toSend :: l /\ 0 < toSend;
  (* write interest only with something to write *)
  ci_writing : isWriting s = true -> m_writeBufferList s <> [];
  ci_bounds : 0 <= k <= 1 /\ Z.of_nat (length (functors s)) <= ptrdiff_max /\
    0 <= inflight s <= max_threads
}.

(** Two states with the same queues and output. *)
Record same_data (s s' : conn) : Prop := {
  sd_list : m_writeBufferList s' = m_writeBufferList s;
  sd_fileBuffer : m_fileBufferPtr s' = m_fileBufferPtr s;
  sd_sent : sent s' = sent s;
  sd_sendNum : m_sendNum s' = m_sendNum s;
  sd_functors : functors s' = functors s;
  sd_inflight : inflight s' = inflight s;
  sd_called : called s' = called s;
  sd_handled : handled s' = handled s;
  sd_dropped : dropped s' = dropped s \/ dropped s' = true
}.

Lemma cinv_same k s s' :
  same_data s s' -> (isWriting s' = true -> m_writeBufferList s <> []) -> cinv k s -> cinv k s'.
Proof.
  intros [E1 E2 E3 E4 E5 E6 E7 E8 E9] Hw [H1 H2 H3 H4 H5 H6].
  constructor; unfold unsent; rewrite ?E1, ?E2, ?E3, ?E4, ?E5, ?E6, ?E7, ?E8; auto.
  destruct E9 as [E9|E9]; rewrite E9; [done|discriminate].
Qed.

(** From the invariant [H] of one state to that of another with the same data. *)
Ltac same H :=
  refine (cinv_same _ _ _ _ _ H); [constructor; cbn; try reflexivity; auto|]; cbn; auto.

Lemma extendLife_same now s : same_data s (extendLife now s) /\
  isWriting (extendLife now s) = isWriting s /\ m_status (extendLife now s) = m_status s /\
  m_sendNumMutex (extendLife now s) = m_sendNumMutex s /\ script (extendLife now s) = script s /\
  fatal (extendLife now s) = fatal s /\ dropped (extendLife now s) = dropped s.
Proof. unfold extendLife. repeat case_match; cbn; split_and!; auto; constructor; cbn; auto. Qed.

Lemma extendLife_inv k now s : cinv k s -> cinv k (extendLife now s).
Proof.
  intros H. destruct (extendLife_same now s) as (Hs & Hw & _).
  eapply cinv_same; [exact Hs| |exact H]. rewrite Hw. apply (ci_writing _ _ H).
Qed.

(** [write] moves bytes from the front of [data] to the socket, and touches
    nothing else. *)
Lemma writeInLoop_spec data s o s' :
  writeInLoop data s = (o, s') ->
  exists n m os, (match o with Done x => x = n | Err _ => n = 0 end) /\ 0 <= n <= zlen data /\
    s' = set_sent (sent s ++ take (Z.to_nat n) data) m (set_script os s).
Proof.
  pose proof (zlen_nonneg data). unfold writeInLoop, answer.
  destruct (script s) as [|[n|e] os] eqn:Es; intros [= <- <-].
  - exists 0, (m_bytesSent s), []. rewrite app_nil_r, <- Es. split_and!; [done|lia|lia|]. by destruct s.
  - eexists _, _, _. split; [done|]. split; [lia|]. done.
  - exists 0, (m_bytesSent s), os. rewrite app_nil_r. split_and!; [done|lia|lia|]. done.
Qed.

(** Bytes move from the front node to the socket. *)
Lemma cinv_move k s s' n n' l moved :
  cinv k s -> m_writeBufferList s = n :: l -> m_writeBufferList s' = n' :: l ->
  m_fileBufferPtr s ++ node_bytes n = moved ++ m_fileBufferPtr s' ++ node_bytes n' ->
  sent s' = sent s ++ moved ->
  (m_fileBufferPtr s' <> [] -> exists chunks toSend, n' = NStream chunks toSend /\ 0 < toSend) ->
  m_sendNum s' = m_sendNum s -> functors s' = functors s -> inflight s' = inflight s ->
  called s' = called s -> handled s' = handled s -> dropped s' = dropped s ->
  cinv k s'.
Proof.
  intros [H1 H2 H3 H4 H5 H6] El El' Hm Es Hf E4 E5 E6 E7 E8 E9.
  constructor; unfold unsent; rewrite ?El', ?Es, ?E4, ?E5, ?E6, ?E7, ?E8, ?E9; auto.
  - intros Hd. rewrite (H3 Hd). unfold unsent. rewrite El. cbn [map concat].
    rewrite !app_assoc, <- (app_assoc (sent s)), Hm, !app_assoc. done.
  - intros Hne. destruct (Hf Hne) as (ch & ts & -> & ?). eauto 6.
Qed.

Lemma no_fileBuffer k s n l :
  cinv k s -> m_writeBufferList s = n :: l -> (forall ch ts, n = NStream ch ts -> ts <= 0) ->
  m_fileBufferPtr s = [].
Proof.
  intros H El Hn. destruct (m_fileBufferPtr s) eqn:E; [done|].
  destruct (ci_fileBuffer _ _ H) as (ch & ts & l' & El' & Hts); [by rewrite E|].
  rewrite El in El'. injection El' as -> _. specialize (Hn _ _ eq_refl). lia.
Qed.

Lemma write_front_inv k s b l :
  cinv k s -> m_writeBufferList s = NBuf b :: l -> cinv k (write_front b s).
Proof.
  intros H El. pose proof (no_fileBuffer _ _ _ _ H El ltac:(done)) as Ef.
  unfold write_front. destruct (writeInLoop b s) as [o s1] eqn:Ew.
  destruct (writeInLoop_spec _ _ _ _ Ew) as (n & m & os & Hn & Hb & ->).
  destruct o as [n'|e]; subst.
  - eapply (cinv_move k s _ (NBuf b) (NBuf (drop (Z.to_nat n) b)) l (take (Z.to_nat n) b));
      unfold put_front; cbn; rewrite ?El, ?Ef; try done. cbn. by rewrite take_drop.
  - change (Z.to_nat 0) with 0%nat. rewrite take_0, app_nil_r.
    destruct (WriteSocketError e); same H; apply (ci_writing _ _ H).
Qed.

Lemma sendFile_kernel_inv k s rest toSend l :
  cinv k s -> m_writeBufferList s = NFile rest toSend :: l -> cinv k (sendFile_kernel rest toSend s).
Proof.
  intros H El. pose proof (no_fileBuffer _ _ _ _ H El ltac:(done)) as Ef.
  pose proof (zlen_nonneg rest) as Hz. unfold sendFile_kernel, answer.
  destruct (script s) as [|[n|e] os] eqn:Es; cbn [set_script].
  - done.
  - set (m := Z.max 0 (Z.min n (Z.min toSend (zlen rest)))).
    destruct ((m <? toSend) && (m =? 0)); [same H; apply (ci_writing _ _ H)|].
    assert (cinv k (put_front (NFile (drop (Z.to_nat m) rest) (toSend - m))
      (set_sent (sent s ++ take (Z.to_nat m) rest) (m_bytesSent s) (set_script os s)))) as Hm.
    { eapply (cinv_move k s _ _ (NFile (drop (Z.to_nat m) rest) (toSend - m)) l (take (Z.to_nat m) rest));
        unfold put_front; cbn; rewrite ?El, ?Ef; try done. cbn.
      rewrite <- (take_drop (Z.to_nat m) (take (Z.to_nat toSend) rest)) at 1.
      rewrite take_take, skipn_firstn_comm, Nat.min_l by lia. do 2 f_equal. lia. }
    revert Hm. set (s1 := put_front _ _). intros Hm. cbn [sent m_bytesSent set_script].
    assert (m_writeBufferList s1 <> []) by (unfold s1, put_front; cbn; by rewrite El).
    fold s1. destruct (isWriting s1) eqn:Ew; [done|]. same Hm.
  - destruct (bool_decide (e = EAGAIN)); [same H; apply (ci_writing _ _ H)|].
    destruct (isWriting _); same H; try done; apply (ci_writing _ _ H).
Qed.

(** Fetching the next chunk. *)
Lemma stream_fetch_inv k s chunks toSend l chunks' toSend' s' :
  cinv k s -> m_writeBufferList s = NStream chunks toSend :: l -> m_fileBufferPtr s = [] -> 0 < toSend ->
  match chunks with
  | [] => ([], 0, s)
  | c :: chunks => (chunks, if bool_decide (c = []) then 0 else toSend, set_fileBuffer c s)
  end = (chunks', toSend', s') ->
  cinv k (put_front (NStream chunks' toSend') s').
Proof.
  intros H El Ef Hts E.
  eapply (cinv_move k s _ (NStream chunks toSend) (NStream chunks' toSend') l []); try done.
  all: destruct chunks as [|c chunks]; injection E as <- <- <-; unfold put_front; cbn; rewrite ?El, ?Ef;
    rewrite ?app_nil_r; try done.
  - cbn. by rewrite (proj2 (Z.ltb_lt _ _) Hts).
  - cbn. rewrite (proj2 (Z.ltb_lt _ _) Hts). destruct c as [|x c]; [done|].
    rewrite bool_decide_false by done. by rewrite (proj2 (Z.ltb_lt _ _) Hts).
  - intros Hc. rewrite bool_decide_false by done. eauto.
Qed.

Lemma enable_inv k s : cinv k s -> m_writeBufferList s <> [] ->
  cinv k (if isWriting s then s else enableWriting s).
Proof. intros H Hl. destruct (isWriting s) eqn:E; [done|]. same H. Qed.

Lemma enable_list s :
  m_writeBufferList (if isWriting s then s else enableWriting s) = m_writeBufferList s.
Proof. by destruct (isWriting s). Qed.

(** The buffer, of which a part has been written. *)
Lemma stream_write_inv k s n m os node l :
  cinv k s -> m_writeBufferList s = node :: l ->
  (m_fileBufferPtr s <> [] -> exists chunks toSend, node = NStream chunks toSend /\ 0 < toSend) ->
  cinv k (set_fileBuffer (drop (Z.to_nat n) (m_fileBufferPtr s))
    (set_sent (sent s ++ take (Z.to_nat n) (m_fileBufferPtr s)) m (set_script os s))).
Proof.
  intros H El Hn.
  eapply (cinv_move k s _ node node l (take (Z.to_nat n) (m_fileBufferPtr s))); cbn; try done.
  - by rewrite app_assoc, take_drop.
  - intros Hd. apply Hn. intros E. rewrite E, drop_nil in Hd. done.
Qed.

Lemma stream_loop_spec k fuel chunks toSend s l :
  cinv k s -> m_writeBufferList s = NStream chunks toSend :: l ->
  (length chunks + (if bool_decide (m_fileBufferPtr s = []) then 1 else 2) <= fuel)%nat ->
  exists s' chunks' toSend', stream_loop fuel chunks toSend s = Ok s' /\ cinv k s' /\
    m_writeBufferList s' = NStream chunks' toSend' :: l.
Proof.
  revert chunks toSend s. induction fuel as [|fuel IH]; intros chunks toSend s H El Hfuel.
  { case_bool_decide; lia. }
  cbn [stream_loop].
  assert (cinv k (if isWriting s then s else enableWriting s)) as Hen
    by (apply enable_inv; [done|by rewrite El]).
  destruct ((0 <? toSend) || _) eqn:Econd.
  2:{ eexists _, _, _. split; [reflexivity|]. split; [done|]. rewrite enable_list. exact El. }
  destruct (stream_fetch chunks toSend s) as [[chunks1 toSend1] s1] eqn:Efetch.
  set (s2 := put_front (NStream chunks1 toSend1) s1).
  assert (cinv k s2 /\ m_writeBufferList s2 = NStream chunks1 toSend1 :: l /\
    (m_fileBufferPtr s2 <> [] -> (length chunks1 + 1 <= fuel)%nat)) as (H2 & El2 & Hfuel2).
  { unfold stream_fetch in Efetch. case_bool_decide as Eb.
    - rewrite orb_false_r in Econd. apply Z.ltb_lt in Econd.
      split; [exact (stream_fetch_inv _ _ _ _ _ _ _ _ H El Eb Econd Efetch)|].
      split; destruct chunks as [|c chunks]; injection Efetch as <- <- <-; cbn; rewrite ?El, ?Eb; try done.
      cbn in Hfuel. lia.
    - injection Efetch as <- <- <-.
      assert (s2 = s) as -> by (unfold s2, put_front; rewrite El; rewrite <- El; by destruct s).
      split_and!; [done|done|lia]. }
  clearbody s2. clear Efetch s1.
  destruct (bool_decide (m_fileBufferPtr s2 = [])) eqn:Eb2.
  { eexists _, _, _. split; [reflexivity|]. split; [apply enable_inv; [done|by rewrite El2]|].
    rewrite enable_list. exact El2. }
  apply bool_decide_eq_false in Eb2.
  destruct (writeInLoop (m_fileBufferPtr s2) s2) as [o s3] eqn:Ew.
  destruct (writeInLoop_spec _ _ _ _ Ew) as (n & m & os & Hn & Hb & ->).
  assert (m_fileBufferPtr s2 <> [] -> exists ch ts, NStream chunks1 toSend1 = NStream ch ts /\ 0 < ts) as Hsh.
  { intros Hne. destruct (ci_fileBuffer _ _ H2 Hne) as (ch & ts & l' & E & Hts).
    rewrite El2 in E. injection E as <- <- <-. eauto. }
  pose proof (stream_write_inv _ _ n m os _ _ H2 El2 Hsh) as H4.
  destruct o as [n'|e]; [subst n'|subst n].
  - destruct (Z.ltb_spec n (zlen (m_fileBufferPtr s2))) as [Hlt|Hge]; cbn [m_fileBufferPtr set_sent set_script].
    + eexists _, _, _. split; [reflexivity|]. split; [apply enable_inv; [exact H4|by cbn; rewrite El2]|].
      rewrite enable_list. exact El2.
    + rewrite drop_ge in H4 by (unfold zlen in *; lia).
      destruct (IH chunks1 toSend1 _ H4 ltac:(done)) as (s' & ch' & ts' & -> & ? & ?);
        [cbn; by apply Hfuel2|by eauto 6].
  - rewrite take_0, app_nil_r, drop_0 in H4. rewrite take_0, app_nil_r.
    assert (cinv k (set_sent (sent s2) m (set_script os s2))) as H5 by (same H2; apply (ci_writing _ _ H2)).
    destruct (WriteSocketError e).
    + eexists _, _, _. split; [reflexivity|]. split; [same H5; apply (ci_writing _ _ H5)|done].
    + eexists _, _, _. split; [reflexivity|]. split; [apply enable_inv; [done|by cbn; rewrite El2]|].
      rewrite enable_list. exact El2.
Qed.

Lemma sendFileInLoop_inv k s n l :
  cinv k s -> m_writeBufferList s = n :: l -> isFile n = true ->
  exists s', sendFileInLoop s = Ok s' /\ cinv k s'.
Proof.
  intros H El Hf. unfold sendFileInLoop. rewrite El. destruct n as [b|rest toSend|chunks toSend]; [done| |].
  - eexists. split; [done|]. by eapply sendFile_kernel_inv.
  - destruct (stream_loop_spec k (S (S (length chunks))) chunks toSend s l H El) as (s' & _ & _ & E & H' & _).
    { case_bool_decide; lia. } eauto.
Qed.

Lemma sendNext_inv k s :
  cinv k s -> m_writeBufferList s <> [] -> exists s', sendNext s = Ok s' /\ cinv k s'.
Proof.
  intros H Hl. unfold sendNext. destruct (m_writeBufferList s) as [|n l] eqn:El; [done|].
  destruct n as [b|rest toSend|chunks toSend].
  - eexists. split; [done|]. by eapply write_front_inv.
  - by eapply sendFileInLoop_inv.
  - by eapply sendFileInLoop_inv.
Qed.

(** A finished node leaves the list. *)
Lemma pop_inv k s n l :
  cinv k s -> m_writeBufferList s = n :: l -> node_bytes n = [] ->
  (forall ch ts, n = NStream ch ts -> ts <= 0) ->
  cinv k (let s' := set_list l s in match l with [] => disableWriting s' | _ => s' end).
Proof.
  intros H El Hn Hs. pose proof (no_fileBuffer _ _ _ _ H El Hs) as Ef. cbn zeta.
  assert (forall s', s' = set_list l s \/ s' = disableWriting (set_list l s) ->
    (isWriting s' = true -> l <> []) -> cinv k s') as Hgen.
  { intros s' E Hw. destruct H as [H1 H2 H3 H4 H5 H6].
    assert (unsent s = unsent s') as Eu.
    { unfold unsent. destruct E as [-> | ->]; cbn; rewrite El, Ef; cbn; by rewrite Hn. }
    rewrite Eu in H3. destruct E as [-> | ->]; constructor; cbn in *; try done. }
  destruct l; apply Hgen; auto; cbn; done.
Qed.

(** ** What the callbacks may do *)

Record keeps_inv (cb : callbacks) : Prop := {
  kp_connection : forall k s s', cinv k s -> m_connectionCallback cb s = Ok s' -> cinv k s';
  kp_message : forall k s s', cinv k s -> m_recvMsgCallback cb s = Ok s' -> cinv k s';
  kp_complete : forall k s s', cinv k s -> m_writeCompleteCallback cb s = Ok s' -> cinv k s';
  kp_high : forall k n s s', cinv k s -> m_highWaterMarkCallback cb n s = Ok s' -> cinv k s';
  kp_close : forall k s s', cinv k s -> m_closeCallback cb s = Ok s' -> cinv k s'
}.

Lemma log_inv k e s : cinv k s -> cinv k (log e s).
Proof. intros H. same H. apply (ci_writing _ _ H). Qed.

Section callbacks_ok.
Context (cb : callbacks) (Hcb : keeps_inv cb) (now : Z).

Lemma pop_finished_inv k s n l s' :
  cinv k s -> m_writeBufferList s = n :: l -> node_bytes n = [] ->
  (forall ch ts, n = NStream ch ts -> ts <= 0) -> pop_finished cb s = Ok s' -> cinv k s'.
Proof.
  intros H El Hn Hs. pose proof (pop_inv _ _ _ _ H El Hn Hs) as Hp.
  unfold pop_finished. rewrite El. cbn [tail m_writeBufferList set_list]. destruct l as [|x l].
  - intros E. ok_inv. match goal with E : m_writeCompleteCallback _ _ = _ |- _ => rename E into Ec end.
    apply (kp_complete _ Hcb k) in Ec; [|by apply log_inv].
    case_bool_decide; [by apply log_inv|done].
  - intros E. destruct (sendNext_inv k (set_list (x :: l) s)) as (s1 & E1 & H1); [done|done|]. congruence.
Qed.

Lemma handleWrite_inv k s s' : cinv k s -> handleWrite cb now s = Ok s' -> cinv k s'.
Proof.
  intros H. unfold handleWrite. apply (extendLife_inv k now) in H. set (s0 := extendLife now s) in *.
  clearbody s0. destruct (isWriting s0); [|by intros [= <-]].
  destruct (m_writeBufferList s0) as [|n l] eqn:El; [done|].
  destruct n as [b|rest toSend|chunks toSend].
  - case_bool_decide as Eb; [|intros [= <-]; by eapply write_front_inv].
    subst b. by apply (pop_finished_inv _ _ (NBuf []) l).
  - destruct (Z.leb_spec toSend 0).
    + apply (pop_finished_inv _ _ (NFile rest toSend) l); try done. cbn.
      replace (Z.to_nat toSend) with 0%nat by lia. by rewrite take_0.
    + intros E. destruct (sendFileInLoop_inv _ _ _ _ H El eq_refl) as (? & ? & ?). congruence.
  - destruct (Z.leb_spec toSend 0).
    + apply (pop_finished_inv _ _ (NStream chunks toSend) l); try done.
      * cbn. destruct (Z.ltb_spec 0 toSend); [lia|done].
      * by intros ? ? [= _ <-].
    + intros E. destruct (sendFileInLoop_inv _ _ _ _ H El eq_refl) as (? & ? & ?). congruence.
Qed.

Lemma handleClose_inv k s s' : cinv k s -> handleClose cb s = Ok s' -> cinv k s'.
Proof.
  intros H E. unfold handleClose in E. ok_inv.
  match goal with E : m_connectionCallback _ _ = _ |- _ => apply (kp_connection _ Hcb k) in E end.
  - eapply (kp_close _ Hcb k); [by apply log_inv|done].
  - apply log_inv. same H; done.
Qed.

Lemma handleRead_inv k r s s' : cinv k s -> handleRead cb now r s = Ok s' -> cinv k s'.
Proof.
  intros H. unfold handleRead. destruct r as [b|e].
  - intros E. ok_inv. match goal with E : (if _ then handleClose _ _ else _) = Ok ?x |- _ =>
      assert (cinv k x) as Hx by (case_bool_decide; [by eapply handleClose_inv|by simplify_eq]); clear E end.
    apply (extendLife_inv k now) in Hx. revert E. case_bool_decide; [by intros [= <-]|].
    intros E. apply (kp_message _ Hcb k) in E; [done|]. apply log_inv. same Hx. apply (ci_writing _ _ Hx).
  - repeat case_bool_decide; cbn; try (by intros [= <-]); apply handleClose_inv; done.
Qed.

Lemma connectEstablished_inv k s s' : cinv k s -> connectEstablished cb s = Ok s' -> cinv k s'.
Proof.
  intros H E. unfold connectEstablished in E. ok_inv. apply (kp_connection _ Hcb k) in E; [done|].
  apply log_inv. same H. apply (ci_writing _ _ H).
Qed.

Lemma connectDestroyed_inv k s s' : cinv k s -> connectDestroyed cb s = Ok s' -> cinv k s'.
Proof.
  intros H E. unfold connectDestroyed in E. ok_inv.
  assert (cinv k x) as Hx.
  { revert H0. case_bool_decide; [|by intros [= <-]]. intros E. apply (kp_connection _ Hcb k) in E; [done|].
    apply log_inv. same H; done. }
  same Hx. apply (ci_writing _ _ Hx).
Qed.

Lemma shutdown_inv k s : cinv k s -> cinv k (shutdown s).
Proof.
  intros H. unfold shutdown. case_bool_decide; [|done].
  assert (cinv k (set_status Disconnecting s)) as H1 by (same H; apply (ci_writing _ _ H)).
  repeat case_match; first [done | by apply log_inv].
Qed.

Lemma forceClose_inv k s s' : cinv k s -> forceClose cb s = Ok s' -> cinv k s'.
Proof.
  intros H. unfold forceClose. destruct (_ || _); [|by intros [= <-]].
  apply handleClose_inv. same H. apply (ci_writing _ _ H).
Qed.

(** A request has been taken up and not yet handled: the invariant holds once
    the record of its call is left out. *)
Definition pending (k : Z) (data : list byte) (s : conn) : Prop :=
  cinv k (set_called (handled s ++ map request_bytes (functors s)) s) /\
  called s = handled s ++ data :: map request_bytes (functors s).

(** It is handled when its bytes follow those before it. *)
Lemma handled_inv k data s s' :
  pending k data s ->
  called s' = called s -> handled s' = handled s ++ [data] -> functors s' = functors s ->
  m_sendNum s' = m_sendNum s -> inflight s' = inflight s ->
  (dropped s' = true \/ dropped s' = dropped s /\
     sent s' ++ unsent s' = sent s ++ unsent s ++ data) ->
  (m_fileBufferPtr s' <> [] ->
    exists chunks toSend l, m_writeBufferList s' = NStream chunks toSend :: l /\ 0 < toSend) ->
  (isWriting s' = true -> m_writeBufferList s' <> []) ->
  cinv k s'.
Proof.
  intros [[H1 H2 H3 H4 H5 H6] Hc] E1 E2 E3 E4 E5 Hb Hf Hw. cbn in *.
  constructor; rewrite ?E1, ?E2, ?E3, ?E4, ?E5; auto.
  - rewrite Hc, <- app_assoc. done.
  - intros Hd. destruct Hb as [Hb|[Hb1 Hb2]]; [congruence|].
    assert (concat (handled s) = sent s ++ unsent s) as H3' by (apply H3; congruence).
    rewrite Hb2, concat_app, H3'. cbn. by rewrite app_nil_r, app_assoc.
Qed.

(** The write list after [queue_rest] has appended to it. *)
Definition appended (rest : list byte) (l : list node) : list node :=
  match last l with
  | Some (NBuf b) => take (length l - 1) l ++ [NBuf (b ++ rest)]
  | _ => l ++ [NBuf rest]
  end.

Lemma appended_bytes rest l :
  concat (map node_bytes (appended rest l)) = concat (map node_bytes l) ++ rest.
Proof.
  unfold appended. destruct (last l) as [[b|r ts|ch ts]|] eqn:El.
  1: apply last_Some in El as [l' ->]; rewrite length_app, Nat.add_sub, take_app_length.
  all: rewrite !map_app, !concat_app; cbn; rewrite ?app_nil_r, ?app_assoc; done.
Qed.

Lemma appended_front rest l chunks toSend l' :
  l = NStream chunks toSend :: l' -> exists l'', appended rest l = NStream chunks toSend :: l''.
Proof.
  intros ->. unfold appended. destruct (last _) as [[b|r ts|ch ts]|] eqn:El; try (by eexists).
  destruct l' as [|x l']; [done|]. cbn. by eexists.
Qed.

Lemma appended_nonempty rest l : appended rest l <> [].
Proof.
  unfold appended. destruct (last l) as [[]|]; intros E; apply app_eq_nil in E as [_ E]; done.
Qed.

(** The state in which the high water mark is tested. *)
Definition queued (rest : list byte) (s : conn) : conn :=
  let s := set_list (appended rest (m_writeBufferList s)) s in
  if isWriting s then s else enableWriting s.

Lemma queue_rest_eq rest s s' :
  queue_rest cb rest s = Ok s' ->
  s' = queued rest s \/ exists n, m_highWaterMarkCallback cb n (log (EvHighWater n) (queued rest s)) = Ok s'.
Proof.
  unfold queue_rest, queued, appended.
  set (s1 := match last (m_writeBufferList s) with Some (NBuf b) => _ | _ => _ end).
  assert (s1 = set_list (match last (m_writeBufferList s) with
     | Some (NBuf b) => take (length (m_writeBufferList s) - 1) (m_writeBufferList s) ++ [NBuf (b ++ rest)]
     | _ => m_writeBufferList s ++ [NBuf rest] end) s) as ->
    by (unfold s1; by destruct (last _) as [[]|]).
  set (s2 := if isWriting _ then _ else _). clearbody s2.
  destruct (m_highWaterMarkLen s2); [|by intros [= <-]; left].
  destruct (last (m_writeBufferList s2)) as [[b| |]|]; try (by intros [= <-]; left).
  destruct (_ <? _); [right; eauto|by intros [= <-]; left].
Qed.

Lemma queued_inv k data rest pre s0 s :
  pending k data s0 -> data = pre ++ rest ->
  called s = called s0 -> handled s = handled s0 ++ [data] -> functors s = functors s0 ->
  m_sendNum s = m_sendNum s0 -> inflight s = inflight s0 -> dropped s = dropped s0 ->
  m_writeBufferList s = m_writeBufferList s0 -> m_fileBufferPtr s = m_fileBufferPtr s0 ->
  sent s ++ unsent s = sent s0 ++ unsent s0 ++ pre ->
  cinv k (queued rest s).
Proof.
  intros Hp Ed E1 E2 E3 E4 E5 E6 E7 E8 Hb.
  assert (m_writeBufferList (queued rest s) = appended rest (m_writeBufferList s) /\
    m_fileBufferPtr (queued rest s) = m_fileBufferPtr s /\ sent (queued rest s) = sent s) as (Q1 & Q2 & Q3).
  { unfold queued. destruct (isWriting _); done. }
  apply (handled_inv k data s0); [done|..]; try (by unfold queued; destruct (isWriting _)).
  - right. split; [by unfold queued; destruct (isWriting _)|].
    unfold unsent in *. rewrite Q1, Q2, Q3, appended_bytes, Ed.
    rewrite !app_assoc in *. by rewrite Hb.
  - rewrite Q1, Q2, E7, E8. intros Hne. destruct Hp as [Hp _].
    destruct (ci_fileBuffer _ _ Hp Hne) as (ch & ts & l & El & Hts). cbn in El.
    destruct (appended_front rest _ _ _ _ El) as [l'' ->]. eauto 6.
  - rewrite Q1. intros _. apply appended_nonempty.
Qed.

(** Two states between which nothing but the data moved. *)
Record same_control (s x : conn) : Prop := {
  sc_functors : functors x = functors s;
  sc_status : m_status x = m_status s;
  sc_mutex : m_sendNumMutex x = m_sendNumMutex s;
  sc_idle : m_idleTimeout x = m_idleTimeout s;
  sc_events : events x = events s;
  sc_fatal : fatal x = false -> fatal s = false;
  sc_list : m_writeBufferList x = m_writeBufferList s /\ isWriting x = isWriting s \/
    isWriting x = true /\ exists rest, m_writeBufferList x = appended rest (m_writeBufferList s)
}.

Lemma queued_control rest s x :
  same_control s x -> m_writeBufferList x = m_writeBufferList s -> same_control s (queued rest x).
Proof.
  intros [? ? ? ? ? ? _] El. unfold queued. cbn [isWriting set_list].
  destruct (isWriting x) eqn:Ew; constructor; cbn; auto; right; rewrite ?El; eauto.
Qed.

Lemma extendLife_control s : same_control s (extendLife now s).
Proof. unfold extendLife. repeat case_match; constructor; cbn; auto. Qed.

(** A result of [sendInLoop], up to the high water mark callback. *)
Definition send_result (k : Z) (s s' : conn) : Prop :=
  exists x, cinv k x /\ same_control s x /\
    (s' = x \/ exists n, m_highWaterMarkCallback cb n (log (EvHighWater n) x) = Ok s').

(** The first [n] bytes have been written; the rest, if any, is queued. *)
Lemma send_rest k msg n s x s' :
  pending k msg s -> same_control s x ->
  called x = called s -> handled x = handled s ++ [msg] -> m_sendNum x = m_sendNum s ->
  inflight x = inflight s -> dropped x = dropped s ->
  m_writeBufferList x = m_writeBufferList s -> m_fileBufferPtr x = m_fileBufferPtr s ->
  isWriting x = isWriting s ->
  sent x ++ unsent x = sent s ++ unsent s ++ take n msg ->
  (if bool_decide (drop n msg = []) then Ok x else queue_rest cb (drop n msg) x) = Ok s' ->
  send_result k s s'.
Proof.
  intros Hp Hc E1 E2 E3 E4 E5 E6 E7 E8 Hb. pose proof Hp as [Hi _].
  pose proof (ci_fileBuffer _ _ Hi) as Hf. pose proof (ci_writing _ _ Hi) as Hw. cbn in Hf, Hw.
  pose proof (sc_functors _ _ Hc). case_bool_decide as Ed.
  - intros [= <-]. exists x. split; [|by eauto]. apply (handled_inv k msg s); auto; try congruence.
    + right. split; [done|]. assert (take n msg = msg) as Et.
      { rewrite <- (take_drop n msg) at 2. by rewrite Ed, app_nil_r. }
      rewrite Et in Hb. exact Hb.
    + rewrite E6, E7. exact Hf.
    + rewrite E6, E8. exact Hw.
  - intros Hq. exists (queued (drop n msg) x). split; [|split].
    + apply (queued_inv k msg _ (take n msg) s x); try done. by rewrite take_drop.
    + by apply queued_control.
    + by apply queue_rest_eq.
Qed.

Lemma sendInLoop_elim k msg s s' :
  pending k msg s -> sendInLoop cb now msg s = Ok s' -> send_result k s s'.
Proof.
  intros Hp. unfold sendInLoop. set (s1 := set_handled (handled s ++ [msg]) s).
  pose proof Hp as [Hi _]. pose proof (ci_fileBuffer _ _ Hi) as Hf. pose proof (ci_writing _ _ Hi) as Hw.
  cbn in Hf, Hw.
  case_bool_decide as Hst.
  2:{ intros [= <-]. eexists. split; [|split; [|by left]].
      - apply (handled_inv k msg s); auto.
      - constructor; cbn; auto. }
  destruct (extendLife_same now s1) as ([L1 L2 L3 L4 L5 L6 L7 L8 _] & W & _ & _ & _ & _ & L9).
  assert (same_control s (extendLife now s1)) as Hc
    by (destruct (extendLife_control s1); by constructor).
  set (s2 := extendLife now s1) in *. clearbody s2. cbn in L1, L2, L3, L4, L5, L6, L7, L8, L9, W.
  assert (sent s2 ++ unsent s2 = sent s ++ unsent s) as Eb by (unfold unsent; by rewrite L1, L2, L3).
  destruct (negb (isWriting s2) && bool_decide (m_writeBufferList s2 = [])) eqn:Edir.
  2:{ apply (send_rest k msg 0 s s2); try done; try congruence. by rewrite take_0, app_nil_r. }
  apply andb_true_iff in Edir as [Ew%negb_true_iff El%bool_decide_eq_true].
  assert (m_fileBufferPtr s2 = []) as Ef.
  { destruct (m_fileBufferPtr s2) eqn:E; [done|]. destruct Hf as (? & ? & ? & E' & _); congruence. }
  destruct (writeInLoop msg s2) as [o s3] eqn:Ewr.
  destruct (writeInLoop_spec _ _ _ _ Ewr) as (n & m & os & Hn & Hnb & ->).
  set (s3 := set_sent _ _ _).
  assert (same_control s s3) as Hc3 by (destruct Hc; by constructor).
  assert (sent s3 ++ unsent s3 = sent s ++ unsent s ++ take (Z.to_nat n) msg) as Eb3.
  { unfold s3, unsent in *. cbn. rewrite El, Ef in *. cbn in *. rewrite !app_nil_r in *.
    by rewrite Eb, <- app_assoc. }
  destruct o as [n'|e]; [subst n'|subst n; destruct (WriteSocketError e)].
  1,3: apply (send_rest k msg (Z.to_nat _) s s3); try done; cbn; congruence.
  intros [= <-]. eexists. split; [|split; [|by left]].
  - apply (handled_inv k msg s); auto; cbn; congruence.
  - destruct Hc3; by constructor.
Qed.

Lemma sendInLoop_inv k msg s s' :
  pending k msg s -> sendInLoop cb now msg s = Ok s' -> cinv k s'.
Proof.
  intros Hp E. destruct (sendInLoop_elim _ _ _ _ Hp E) as (x & Hx & _ & [-> | [n Hn]]); [done|].
  eapply (kp_high _ Hcb); [|exact Hn]. by apply log_inv.
Qed.

Lemma pushNode_inv k n s s' :
  pending k (node_bytes n) s -> pushNode n s = Ok s' -> cinv k s'.
Proof.
  intros Hp. unfold pushNode.
  set (s1 := set_list _ _). assert (cinv k s1) as H1.
  { pose proof Hp as [Hi _]. pose proof (ci_fileBuffer _ _ Hi) as Hf. cbn in Hf.
    apply (handled_inv k (node_bytes n) s); auto; cbn.
    - right. split; [done|]. unfold unsent. cbn. rewrite map_app, concat_app. cbn.
      by rewrite app_nil_r, !app_assoc.
    - intros Hne. destruct (Hf Hne) as (ch & ts & l & -> & ?). by eexists _, _, _.
    - intros _. by destruct (m_writeBufferList s). }
  case_bool_decide as El; [|by intros [= <-]].
  destruct (m_writeBufferList s1) as [|x l] eqn:El1; [done|]. intros E.
  assert (isFile x = true) as Hx. { unfold sendFileInLoop in E. rewrite El1 in E. by destruct x. }
  destruct (sendFileInLoop_inv _ _ _ _ H1 El1 Hx) as (? & ? & ?). congruence.
Qed.

Lemma handle_request_inv k r s s' :
  pending k (request_bytes r) s -> handle_request cb now r s = Ok s' -> cinv k s'.
Proof. destruct r as [m|n]; [apply sendInLoop_inv|apply pushNode_inv]. Qed.

(** ** Calls *)

Lemma wrap64_add_wrap x y : wrap64 (wrap64 x + y) = wrap64 (x + y).
Proof. unfold wrap64. by rewrite Z.add_mod_idemp_l. Qed.

Lemma sendNum_zero k s : cinv k s -> m_sendNum s = 0 -> functors s = [] /\ inflight s = 0 /\ k = 0.
Proof.
  intros H E. rewrite (ci_sendNum _ _ H) in E. destruct (ci_bounds _ _ H) as (Hk & Hf & Hi).
  rewrite wrap64_small in E by (unfold ptrdiff_max, max_threads, size_max in *; lia).
  split_and!; [|lia|lia]. destruct (functors s); [done|]. cbn in E. lia.
Qed.

Lemma record_pending k r s :
  cinv k s -> functors s = [] -> pending k (request_bytes r) (record_call r s).
Proof.
  intros [H1 H2 H3 H4 H5 H6] Ef. split; [by constructor|]. cbn. rewrite H1, Ef. cbn. by rewrite app_nil_r.
Qed.

(** A request is queued, and counted. *)
Lemma enqueue_inv k r s s' n i :
  cinv k s -> enqueue r (record_call r (set_inflight i (set_sendNum n s))) = Ok s' ->
  n = wrap64 (Z.of_nat (length (functors s)) + 1 + i + k) -> 0 <= i <= max_threads -> cinv k s'.
Proof.
  intros [H1 H2 H3 H4 H5 H6] E Hn Hi. unfold enqueue in E. cbn in E.
  destruct (Z.ltb_spec (Z.of_nat (length (functors s))) ptrdiff_max); [|done]. injection E as <-.
  constructor; cbn; auto.
  - rewrite H1, map_app, app_assoc. done.
  - rewrite length_app. cbn. rewrite Hn. f_equal. lia.
  - rewrite length_app. cbn. split_and!; lia.
Qed.

Lemma send_in_loop_inv k r s s' : cinv k s -> send_in_loop cb now r s = Ok s' -> cinv k s'.
Proof.
  intros H. unfold send_in_loop, getSendNumByGuard, plusSendNumByGuard. cbn.
  destruct (m_sendNumMutex s) eqn:Em; [done|]. cbn [mbind res_bind].
  destruct (Z.eqb_spec (m_sendNum s) 0) as [E0|E0].
  - destruct (sendNum_zero _ _ H E0) as (Ef & _ & _). apply handle_request_inv. by apply record_pending.
  - intros E. apply (enqueue_inv k r s s' (m_sendNum s ⊞ 1) (inflight s) H E); [|apply (ci_bounds _ _ H)].
    rewrite (ci_sendNum _ _ H), wrap64_add_wrap. f_equal. lia.
Qed.
Lemma set_mutex_inv k b s : cinv k s -> cinv k (set_mutex b s).
Proof. intros H. same H. apply (ci_writing _ _ H). Qed.

Lemma pending_mutex k d s : pending k d s -> pending k d (set_mutex true s).
Proof. intros [H Hc]. split; [|done]. by apply (set_mutex_inv k true) in H. Qed.

Lemma send_in_loop_locked_inv k msg s s' :
  cinv k s -> send_in_loop_locked cb now msg s = Ok s' -> cinv k s'.
Proof.
  intros H E. unfold send_in_loop_locked in E.
  destruct (m_sendNumMutex _); [done|]. ok_inv. apply set_mutex_inv.
  match goal with E : (if _ then _ else _) = Ok _ |- _ => revert E end. cbn [m_sendNum set_mutex].
  destruct (Z.eqb_spec (m_sendNum (record_call (RSend msg) s)) 0) as [E0|E0].
  - destruct (sendNum_zero _ _ H E0) as (Ef & _ & _). apply sendInLoop_inv.
    apply pending_mutex. by apply (record_pending k (RSend msg)).
  - intros E. apply (enqueue_inv k (RSend msg) (set_mutex true s) x (m_sendNum s ⊞ 1) (inflight s)
      (set_mutex_inv _ _ _ H) E); [|apply (ci_bounds _ _ H)].
    rewrite (ci_sendNum _ _ H), wrap64_add_wrap. cbn. f_equal. lia.
Qed.

Lemma send_remote_begin_inv s s' : cinv 0 s -> send_remote_begin s = Ok s' -> cinv 0 s'.
Proof.
  intros H E. unfold send_remote_begin, plusSendNumByGuard in E.
  destruct (m_sendNumMutex s); [done|]. cbn in E.
  destruct (Z.ltb_spec (inflight s) max_threads); [|done]. injection E as <-.
  destruct H as [H1 H2 H3 H4 H5 H6]. constructor; cbn; auto; [|lia].
  rewrite H2, wrap64_add_wrap. f_equal. lia.
Qed.

Lemma send_remote_queue_inv r s s' : cinv 0 s -> send_remote_queue r s = Ok s' -> cinv 0 s'.
Proof.
  intros H E. unfold send_remote_queue in E. ok_inv.
  pose proof (ci_bounds _ _ H). match goal with E : (0 <? _) = true |- _ => apply Z.ltb_lt in E end.
  apply (enqueue_inv 0 r s s' (m_sendNum s) (inflight s - 1) H); [|  |lia].
  - match goal with E : enqueue _ _ = _ |- _ => exact E end.
  - rewrite (ci_sendNum _ _ H). f_equal. lia.
Qed.

(** A functor taken from the queue is about to be handled. *)
Lemma functor_pending s r fs :
  cinv 0 s -> functors s = r :: fs -> pending 1 (request_bytes r) (set_functors fs s).
Proof.
  intros [H1 H2 H3 H4 H5 H6] Ef. rewrite Ef in *. split.
  - constructor; cbn; auto; [rewrite H2; f_equal; cbn; lia|cbn in H6; lia].
  - cbn. by rewrite H1.
Qed.

Lemma functor_inv s s' : cinv 0 s -> run_functor cb now s = Ok s' -> cinv 0 s'.
Proof.
  intros H E. unfold run_functor in E. destruct (functors s) as [|r fs] eqn:Ef; [by injection E as <-|].
  ok_inv. match goal with E : handle_request _ _ _ _ = Ok ?y |- _ =>
    assert (cinv 1 y) as H1; [eapply handle_request_inv; [|exact E]|] end.
  - by apply functor_pending.
  - unfold minusSendNumByGuard in E. destruct (m_sendNumMutex x); [done|]. injection E as <-.
    destruct H1 as [G1 G2 G3 G4 G5 G6]. constructor; cbn; auto; [|lia].
    rewrite G2. rewrite <- Z.add_opp_r, wrap64_add_wrap. f_equal. lia.
Qed.

End callbacks_ok.

(** ** Runs *)

Section runs.
Variable cb : callbacks.

(** The calls of the user in the loop thread and in other threads, the events
    of the channel, and the functors of the loop, in any order. *)
Inductive conn_step (s : conn) : conn -> Prop :=
  | step_established s' : connectEstablished cb s = Ok s' -> conn_step s s'
  | step_destroyed s' : connectDestroyed cb s = Ok s' -> conn_step s s'
  | step_read now r s' : handleRead cb now r s = Ok s' -> conn_step s s'
  | step_write now s' : handleWrite cb now s = Ok s' -> conn_step s s'
  | step_close s' : handleClose cb s = Ok s' -> conn_step s s'
  | step_shutdown : conn_step s (shutdown s)
  | step_force_close s' : forceClose cb s = Ok s' -> conn_step s s'
  | step_send now r s' : send_in_loop cb now r s = Ok s' -> conn_step s s'
  | step_send_locked now m s' : send_in_loop_locked cb now m s = Ok s' -> conn_step s s'
  | step_remote_begin s' : send_remote_begin s = Ok s' -> conn_step s s'
  | step_remote_queue r s' : send_remote_queue r s = Ok s' -> conn_step s s'
  | step_functor now s' : run_functor cb now s = Ok s' -> conn_step s s'
  | step_keep_alive : conn_step s (keepAlive s)
  | step_kicking_off t s' : enableKickingOff t s = Ok s' -> conn_step s s'
  | step_high_water m : conn_step s (set_highWaterMark m s)
  | step_script os : conn_step s (set_script os s).

(** Every call of the interface is a sequence of these steps. *)
Inductive user_call (now : Z) (s s' : conn) : Prop :=
  | call_view b m : send_view cb now b m s = Ok s' -> user_call now s s'
  | call_moved b m : send_moved cb now b m s = Ok s' -> user_call now s s'
  | call_copied b m : send_copied cb now b m s = Ok s' -> user_call now s s'
  | call_shared b m : send_shared cb now b m s = Ok s' -> user_call now s s'
  | call_file b r n : sendFile cb now b r n s = Ok s' -> user_call now s s'
  | call_stream b ch : sendStream cb now b ch s = Ok s' -> user_call now s s'.

Lemma user_call_steps now s s' : user_call now s s' -> rtc conn_step s s'.
Proof.
  assert (forall r, send_remote r s = Ok s' -> rtc conn_step s s') as Hr.
  { intros r E. unfold send_remote in E. ok_inv.
    eapply rtc_l; [by apply step_remote_begin|]. by eapply rtc_once, step_remote_queue. }
  assert (forall r, send_in_loop cb now r s = Ok s' -> rtc conn_step s s') as Hl.
  { intros r E. by eapply rtc_once, step_send. }
  assert (forall m, send_in_loop_locked cb now m s = Ok s' -> rtc conn_step s s') as Hk.
  { intros m E. by eapply rtc_once, step_send_locked. }
  intros [b m E|b m E|b m E|b m E|b r n E|b ch E].
  5: unfold sendFile in E; ok_inv.
  all: destruct b; eauto.
Qed.

End runs.

(** [TcpConnectionImpl::TcpConnectionImpl] *)
Definition TcpConnection_new : conn :=
  mkConn Connecting false false false [] [] [] 0 false None 0 0 0 false 0 [] [] 0 [] [] [] [] false false [].

Definition conn_reachable (cb : callbacks) (s : conn) : Prop :=
  rtc (conn_step cb) TcpConnection_new s.

Lemma conn_step_inv cb a b : keeps_inv cb -> conn_step cb a b -> cinv 0 a -> cinv 0 b.
Proof.
  intros Hcb Hst H. destruct Hst as [s' E|s' E|now r s' E|now s' E|s' E| |s' E|now r s' E|now m s' E
      |s' E|r s' E|now s' E| |t s' E|m|os].
  - exact (connectEstablished_inv cb Hcb _ _ _ H E).
  - exact (connectDestroyed_inv cb Hcb _ _ _ H E).
  - exact (handleRead_inv cb Hcb _ _ _ _ _ H E).
  - exact (handleWrite_inv cb Hcb _ _ _ _ H E).
  - exact (handleClose_inv cb Hcb _ _ _ H E).
  - exact (shutdown_inv _ _ H).
  - exact (forceClose_inv cb Hcb _ _ _ H E).
  - exact (send_in_loop_inv cb Hcb _ _ _ _ _ H E).
  - exact (send_in_loop_locked_inv cb Hcb _ _ _ _ _ H E).
  - exact (send_remote_begin_inv _ _ H E).
  - exact (send_remote_queue_inv _ _ _ H E).
  - exact (functor_inv cb Hcb _ _ _ H E).
  - same H. apply (ci_writing _ _ H).
  - unfold enableKickingOff in E. ok_inv. same H. apply (ci_writing _ _ H).
  - same H. apply (ci_writing _ _ H).
  - same H. apply (ci_writing _ _ H).
Qed.

Lemma conn_reachable_inv cb s : keeps_inv cb -> conn_reachable cb s -> cinv 0 s.
Proof.
  intros Hcb Hr. refine (rtc_invariant _ (cinv 0) _ _ _ Hr _); [|by constructor].
  intros a b Hst. by apply (conn_step_inv cb).
Qed.
