(* ===== verification/ConnectionSpec.v ===== *)
(** * What a connection promises

    Properties of [TcpConnection]: the order and integrity of the byte stream,
    progress, the shutdown, and the places where the code falls short. *)

From S2P Require Import Prelude TcpConnection.

(** ** Callbacks made of calls *)

Lemma no_callbacks_keep : keeps_inv no_callbacks.
Proof. constructor; cbn; intros; by simplify_eq. Qed.

(** An echo server: what has been received is sent back. *)
Definition echo (s : conn) : res conn :=
  send_in_loop no_callbacks 0 (RSend (m_readBuffer s)) (set_readBuffer [] s).
Definition echo_callbacks : callbacks := mkCallbacks Ok echo Ok (fun _ => Ok) Ok.

Lemma echo_callbacks_keep : keeps_inv echo_callbacks.
Proof.
  constructor; cbn; intros; try (by simplify_eq).
  eapply send_in_loop_inv; [apply no_callbacks_keep| |eassumption].
  match goal with H : cinv _ _ |- _ => same H; apply (ci_writing _ _ H) end.
Qed.

(** ** Order and integrity *)

(** C6. The byte stream is in the order of the calls.  With user callbacks that
    keep the connection well formed, however the calls of
    [send], [sendFile] and [sendStream] in the loop thread and in other threads,
    the socket's answers, the callbacks and the other operations interleave:
    the calls, in order, are those that were handled, followed by those that wait
    in the loop's queue; and as long as nothing was dropped (by a send on a
    connection that is not connected, or by a fatal error of the socket), their
    data is what the socket has taken, followed by what waits in the write list,
    followed by what waits in the queue: nothing is lost, repeated or
    reordered. *)
Theorem bytes_in_call_order cb s :
  keeps_inv cb -> conn_reachable cb s ->
  called s = handled s ++ map request_bytes (functors s) /\
  (dropped s = false ->
   concat (called s) = sent s ++ unsent s ++ concat (map request_bytes (functors s))).
Proof.
  intros Hcb Hr. pose proof (conn_reachable_inv _ _ Hcb Hr) as H.
  split; [apply (ci_order _ _ H)|]. intros Hd.
  rewrite (ci_order _ _ H), concat_app, (ci_bytes _ _ H Hd), app_assoc. done.
Qed.

(** An echo connection that received [x01] while another thread sends [x02]. *)
Definition echo_run : conn :=
  match
    s ← connectEstablished echo_callbacks (set_script [Done 1] TcpConnection_new);
    s ← handleRead echo_callbacks 0 (RBytes [Byte.x01]) s;
    s ← send_remote_begin s;
    send_remote_queue (RSend [Byte.x02]) s
  with Ok s => s | Fail _ => TcpConnection_new end.

Lemma echo_run_reachable : conn_reachable echo_callbacks echo_run.
Proof.
  eapply rtc_l; [apply (step_script _ _ [Done 1])|].
  eapply rtc_l; [apply step_established; vm_compute; reflexivity|].
  eapply rtc_l; [apply (step_read _ _ 0 (RBytes [Byte.x01])); vm_compute; reflexivity|].
  eapply rtc_l; [apply step_remote_begin; vm_compute; reflexivity|].
  eapply rtc_l; [apply (step_remote_queue _ _ (RSend [Byte.x02])); vm_compute; reflexivity|].
  apply rtc_refl.
Qed.

Lemma bytes_in_call_order_witness :
  called echo_run = handled echo_run ++ map request_bytes (functors echo_run) /\
  (dropped echo_run = false ->
   concat (called echo_run) =
     sent echo_run ++ unsent echo_run ++ concat (map request_bytes (functors echo_run))).
Proof.
  apply (bytes_in_call_order echo_callbacks); [exact echo_callbacks_keep|exact echo_run_reachable].
Defined.

(** ** Progress *)

Definition is_buf (n : node) : bool := negb (isFile n).

(** [handleWrite] again and again, as long as the channel is writable. *)
Fixpoint handleWrites (cb : callbacks) (now : Z) (n : nat) (s : conn) : res conn :=
  match n with
  | O => Ok s
  | S n => s ← handleWrite cb now s; handleWrites cb now n s
  end.

(** A socket that takes everything it is offered. *)
Definition willing (k : nat) (total : Z) : list outcome := repeat (Done total) k.

Lemma write_front_willing b l s total os :
  m_writeBufferList s = NBuf b :: l -> script s = Done total :: os -> zlen b <= total ->
  write_front b s = put_front (NBuf [])
    (set_sent (sent s ++ b) (m_bytesSent s ⊞ zlen b) (set_script os s)).
Proof.
  intros El Es Hb. pose proof (zlen_nonneg b). unfold write_front, writeInLoop, answer. rewrite Es.
  cbn [script set_script]. rewrite Z.min_r, Z.max_r by lia.
  rewrite drop_ge, take_ge by (unfold zlen; lia). done.
Qed.

(** The part of the state that matters here. *)
Record draining (l : list node) (rest : nat) (total : Z) (s : conn) : Prop := {
  dr_list : m_writeBufferList s = l;
  dr_bufs : forallb is_buf l = true;
  dr_small : Forall (fun n => zlen (node_bytes n) <= total) l;
  dr_script : script s = willing rest total;
  dr_writing : isWriting s = true;
  dr_file : m_fileBufferPtr s = [];
  dr_idle : m_idleTimeout s = 0
}.

Lemma draining_write b l rest total now s cb :
  draining (NBuf b :: l) (S rest) total s -> b <> [] ->
  exists s', handleWrite cb now s = Ok s' /\ draining (NBuf [] :: l) rest total s' /\
    sent s' = sent s ++ b /\ m_status s' = m_status s /\ events s' = events s.
Proof.
  intros [H1 H2 H3 H4 H5 H6 H7] Hb. unfold handleWrite, extendLife. rewrite H7. cbn [Z.ltb Z.compare].
  rewrite H5, H1. rewrite bool_decide_false by done. eexists. split; [reflexivity|].
  apply Forall_cons in H3 as [Hz H3].
  rewrite (write_front_willing b l s total (willing rest total) H1 H4 Hz).
  split; [|done]. constructor; unfold put_front; cbn; rewrite ?H1; try done.
  constructor; [|done]. cbn. pose proof (zlen_nonneg b). cbn in Hz. unfold zlen. cbn. lia.
Qed.

Lemma draining_pop b l rest total now s :
  draining (NBuf [] :: NBuf b :: l) (S rest) total s ->
  exists s', handleWrite no_callbacks now s = Ok s' /\ draining (NBuf [] :: l) rest total s' /\
    sent s' = sent s ++ b /\ m_status s' = m_status s /\ events s' = events s.
Proof.
  intros [H1 H2 H3 H4 H5 H6 H7]. unfold handleWrite, extendLife. rewrite H7. cbn [Z.ltb Z.compare].
  rewrite H5, H1. cbn [bool_decide decide list_eq_dec]. rewrite bool_decide_true by done.
  unfold pop_finished. rewrite H1. cbn [tail m_writeBufferList set_list]. unfold sendNext.
  cbn [m_writeBufferList set_list]. eexists. split; [reflexivity|].
  apply Forall_cons in H3 as [_ [Hz H3]%Forall_cons].
  rewrite (write_front_willing b l (set_list (NBuf b :: l) s) total (willing rest total) eq_refl H4 Hz).
  split; [|done]. constructor; unfold put_front; cbn; try done.
  constructor; [|done]. cbn. pose proof (zlen_nonneg b). cbn in Hz. unfold zlen. cbn. lia.
Qed.

Lemma draining_last rest total now s :
  draining [NBuf []] rest total s -> m_status s = Connected ->
  exists s', handleWrite no_callbacks now s = Ok s' /\ m_writeBufferList s' = [] /\
    isWriting s' = false /\ unsent s' = [] /\ sent s' = sent s /\
    events s' = events s ++ [EvWriteComplete].
Proof.
  intros [H1 H2 H3 H4 H5 H6 H7] Hst. unfold handleWrite, extendLife. rewrite H7. cbn [Z.ltb Z.compare].
  rewrite H5, H1. rewrite bool_decide_true by done.
  unfold pop_finished. rewrite H1. cbn. rewrite Hst. rewrite bool_decide_false by done.
  eexists. split; [reflexivity|]. split_and!; try done. unfold unsent. cbn. by rewrite H6.
Qed.

(** All queued buffers, from a finished front on. *)
Lemma draining_all l total now s rest :
  draining (NBuf [] :: l) (length l + rest) total s -> m_status s = Connected ->
  exists s', handleWrites no_callbacks now (length l + 1) s = Ok s' /\ m_writeBufferList s' = [] /\
    isWriting s' = false /\ unsent s' = [] /\
    sent s' = sent s ++ concat (map node_bytes l) /\ events s' = events s ++ [EvWriteComplete].
Proof.
  revert s. induction l as [|n l IH]; intros s Hd Hst; cbn [length Nat.add handleWrites].
  - destruct (draining_last _ _ now _ Hd Hst) as (s' & -> & ?). exists s'. cbn. rewrite app_nil_r. done.
  - destruct n as [b|r ts|ch ts]; [|destruct Hd; done..].
    destruct (draining_pop b l (length l + rest) total now s Hd) as (s1 & -> & Hd1 & Es & Hst1 & Ev).
    cbn [mbind res_bind]. destruct (IH s1 Hd1) as (s' & E & H1 & H2 & H3 & H4 & H5); [congruence|].
    exists s'. split_and!; try done; [|congruence]. rewrite H4, Es. cbn. by rewrite app_assoc.
Qed.

(** C8. Queued data is sent: when the write list of a connected connection
    holds [n] buffers and the socket takes what it is offered, [n + 1] calls of
    [handleWrite] write out everything, in order, empty the list, stop the
    write interest and report completion, once. *)
Theorem queued_data_is_sent s b l total now :
  m_writeBufferList s = NBuf b :: l -> b <> [] -> forallb is_buf l = true ->
  Forall (fun n => zlen (node_bytes n) <= total) (NBuf b :: l) ->
  script s = willing (S (length l)) total -> isWriting s = true ->
  m_fileBufferPtr s = [] -> m_idleTimeout s = 0 -> m_status s = Connected ->
  exists s', handleWrites no_callbacks now (length l + 2) s = Ok s' /\
    m_writeBufferList s' = [] /\ isWriting s' = false /\ unsent s' = [] /\
    sent s' = sent s ++ unsent s /\ events s' = events s ++ [EvWriteComplete].
Proof.
  intros El Hb Hbufs Hsm Hsc Hw Hf Hi Hst.
  assert (draining (NBuf b :: l) (S (length l + 0)) total s) as Hd.
  { constructor; try done. by rewrite Nat.add_0_r. }
  destruct (draining_write b l _ total now s no_callbacks Hd Hb) as (s1 & E1 & Hd1 & Es & Hst1 & Ev).
  destruct (draining_all l total now s1 0 Hd1) as (s' & E & H1 & H2 & H3 & H4 & H5); [congruence|].
  exists s'. replace (length l + 2)%nat with (S (length l + 1)) by lia. cbn [handleWrites]. rewrite E1.
  split_and!; try done; [|congruence]. rewrite H4, Es. unfold unsent. rewrite Hf, El. cbn.
  by rewrite app_assoc.
Qed.

(** A connection with two buffers to write. *)
Definition busy : conn :=
  set_script (willing 2 100) (set_writing true
    (set_list [NBuf [Byte.x01; Byte.x02]; NBuf [Byte.x03]] (set_status Connected TcpConnection_new))).

Lemma queued_data_is_sent_witness :
  exists s', handleWrites no_callbacks 0 3 busy = Ok s' /\
    m_writeBufferList s' = [] /\ isWriting s' = false /\ unsent s' = [] /\
    sent s' = sent busy ++ unsent busy /\ events s' = events busy ++ [EvWriteComplete].
Proof.
  apply (queued_data_is_sent busy [Byte.x01; Byte.x02] [NBuf [Byte.x03]] 100 0);
    try reflexivity; [discriminate|].
  repeat constructor; vm_compute; discriminate.
Defined.

(** ** Graceful shutdown *)

Definition no_file (n : node) : bool := match n with NFile _ _ => false | _ => true end.
Definition no_file_request (r : request) : bool :=
  match r with RNode n => no_file n | RSend _ => true end.

(** No call of [sendFile] is under way. *)
Definition file_free (s : conn) : Prop :=
  forallb no_file (m_writeBufferList s) = true /\ forallb no_file_request (functors s) = true.

Definition closed_clean (e : event) : Prop :=
  match e with EvCloseWrite u => u = [] | _ => True end.

(** Until the connection is closed or the socket fails, a non-empty list has
    write interest, and the writing side has never been closed over unsent data. *)
Record graceful (s : conn) : Prop := {
  gr_free : file_free s;
  gr_writing : fatal s = false -> m_status s <> Disconnected -> m_writeBufferList s <> [] ->
    isWriting s = true;
  gr_events : fatal s = false -> Forall closed_clean (events s)
}.

Definition ginv (k : Z) (s : conn) : Prop := cinv k s /\ graceful s.

(** [s'] differs from [s] in ways that do not matter. *)
Lemma graceful_same s s' :
  graceful s -> m_writeBufferList s' = m_writeBufferList s -> functors s' = functors s ->
  (fatal s' = false -> fatal s = false) ->
  (m_status s' <> Disconnected -> m_status s <> Disconnected) ->
  (m_status s' <> Disconnected -> fatal s' = false -> isWriting s = true -> isWriting s' = true) ->
  (fatal s' = false -> Forall closed_clean (events s) -> Forall closed_clean (events s')) ->
  graceful s'.
Proof.
  intros [[Hl Hf] Hw He] E1 E2 E3 E4 E5 E6.
  constructor; [split; congruence| |auto]. rewrite E1. auto.
Qed.

Ltac gsame H := eapply (graceful_same _ _ H); cbn; auto.

Lemma log_graceful e s : graceful s -> closed_clean e -> graceful (log e s).
Proof. intros H He. gsame H. intros _ Hs. apply Forall_app; split; auto. Qed.

Lemma log_ginv k e s : ginv k s -> closed_clean e -> ginv k (log e s).
Proof. intros [H1 H2] He. split; [by apply log_inv|by apply log_graceful]. Qed.

Lemma extendLife_ginv k now s : ginv k s -> ginv k (extendLife now s).
Proof.
  intros [H1 H2]. split; [by apply extendLife_inv|].
  unfold extendLife. repeat case_match; try done; gsame H2.
Qed.

(** Another front node, or another list with the same write interest. *)
Lemma graceful_list l s :
  graceful s -> forallb no_file l = true -> m_writeBufferList s <> [] ->
  graceful (set_list l s).
Proof. intros [[Hl Hf] Hw He] H Hne. constructor; [by split|cbn; auto|done]. Qed.

Lemma graceful_enabled s :
  file_free s -> (fatal s = false -> Forall closed_clean (events s)) ->
  graceful (if isWriting s then s else enableWriting s).
Proof. intros [? ?] He. destruct (isWriting s) eqn:Ew; constructor; try done. Qed.

Lemma put_front_free n s : file_free s -> no_file n = true -> file_free (put_front n s).
Proof.
  intros [Hl Hf] Hn. split; [|done]. unfold put_front. cbn.
  destruct (m_writeBufferList s); [done|]. cbn in *. rewrite Hn. by apply andb_true_iff in Hl as [_ ->].
Qed.

Lemma writeInLoop_graceful data s o s' :
  graceful s -> writeInLoop data s = (o, s') -> graceful s'.
Proof.
  intros H E. destruct (writeInLoop_spec _ _ _ _ E) as (n & m & os & _ & _ & ->). gsame H.
Qed.

Lemma write_front_graceful b s : graceful s -> graceful (write_front b s).
Proof.
  intros H. unfold write_front. destruct (writeInLoop b s) as [o s1] eqn:E.
  apply (writeInLoop_graceful _ _ _ _ H) in E as H1. destruct o.
  - destruct H1 as [Hf Hw He]. constructor; [by apply put_front_free| |done].
    intros Hfa Hst Hl. apply Hw; try done. unfold put_front in Hl. cbn in Hl.
    by destruct (m_writeBufferList s1).
  - destruct (WriteSocketError _); [gsame H1; done|done].
Qed.

(** A stream leaves write interest behind, unless the socket fails. *)
Lemma stream_loop_graceful fuel chunks toSend s s' :
  file_free s -> (fatal s = false -> Forall closed_clean (events s)) ->
  stream_loop fuel chunks toSend s = Ok s' -> graceful s'.
Proof.
  revert chunks toSend s. induction fuel as [|fuel IH]; intros chunks toSend s Hf He; cbn [stream_loop].
  { destruct (_ || _); [done|]. intros [= <-]. by apply graceful_enabled. }
  destruct (_ || _); [|intros [= <-]; by apply graceful_enabled].
  destruct (stream_fetch chunks toSend s) as [[chunks1 toSend1] s1] eqn:Efetch.
  assert (file_free s1 /\ (fatal s1 = false -> Forall closed_clean (events s1))) as [Hf1 He1].
  { unfold stream_fetch in Efetch. case_bool_decide; [destruct chunks|]; by injection Efetch as <- <- <-. }
  apply (put_front_free (NStream chunks1 toSend1)) in Hf1; [|done].
  set (s2 := put_front (NStream chunks1 toSend1) s1) in *.
  assert (fatal s2 = false -> Forall closed_clean (events s2)) as He2 by done. clearbody s2.
  case_bool_decide; [intros [= <-]; by apply graceful_enabled|].
  destruct (writeInLoop (m_fileBufferPtr s2) s2) as [o s3] eqn:Ew.
  destruct (writeInLoop_spec _ _ _ _ Ew) as (n & m & os & Hn & Hb & ->).
  destruct o as [n'|e].
  - destruct (_ <? _); [|by apply IH]. intros [= <-].
    by apply (graceful_enabled (set_fileBuffer _ (set_sent _ _ (set_script _ _)))).
  - destruct (WriteSocketError e); intros [= <-]; [by constructor|].
    by apply (graceful_enabled (set_sent _ _ (set_script _ _))).
Qed.

Lemma sendFileInLoop_graceful s s' :
  file_free s -> (fatal s = false -> Forall closed_clean (events s)) ->
  sendFileInLoop s = Ok s' -> graceful s'.
Proof.
  intros Hf He. unfold sendFileInLoop. destruct (m_writeBufferList s) as [|[b|r ts|ch ts] l] eqn:El; try done.
  - destruct Hf as [Hl _]. rewrite El in Hl. done.
  - by apply stream_loop_graceful.
Qed.

Lemma sendNext_graceful s s' : graceful s -> sendNext s = Ok s' -> graceful s'.
Proof.
  intros H. unfold sendNext. destruct (m_writeBufferList s) as [|[b|r ts|ch ts] l] eqn:El; try done.
  - intros [= <-]. by apply write_front_graceful.
  - apply sendFileInLoop_graceful; apply H.
  - apply sendFileInLoop_graceful; apply H.
Qed.

(** What the callbacks may do: keep the invariant, and when the queue has been
    written out, not both queue more and shut down. *)
Record gentle (cb : callbacks) : Prop := {
  gt_connection : forall k s s', ginv k s -> m_connectionCallback cb s = Ok s' -> ginv k s';
  gt_message : forall k s s', ginv k s -> m_recvMsgCallback cb s = Ok s' -> ginv k s';
  gt_complete : forall k s s', ginv k s -> m_writeCompleteCallback cb s = Ok s' -> ginv k s' /\
    (m_writeBufferList s = [] -> m_status s' = Disconnecting -> m_writeBufferList s' = []);
  gt_high : forall k n s s', ginv k s -> m_highWaterMarkCallback cb n s = Ok s' -> ginv k s';
  gt_close : forall k s s', ginv k s -> m_closeCallback cb s = Ok s' -> ginv k s'
}.

(** An empty list leaves nothing unsent. *)
Lemma nothing_unsent k s : cinv k s -> m_writeBufferList s = [] -> unsent s = [].
Proof.
  intros H El. unfold unsent. rewrite El. cbn. rewrite app_nil_r.
  destruct (m_fileBufferPtr s) eqn:E; [done|]. destruct (ci_fileBuffer _ _ H) as (? & ? & ? & E' & _); congruence.
Qed.

Section gentle_callbacks.
Context (cb : callbacks) (Hcb : keeps_inv cb) (Hg : gentle cb) (now : Z).

Lemma pop_finished_graceful k s n l s' :
  ginv k s -> m_writeBufferList s = n :: l -> node_bytes n = [] ->
  (forall ch ts, n = NStream ch ts -> ts <= 0) -> pop_finished cb s = Ok s' -> graceful s'.
Proof.
  intros [H Hgr] El Hn Hs. pose proof (pop_inv _ _ _ _ H El Hn Hs) as Hp.
  assert (forallb no_file l = true) as Hl.
  { destruct (gr_free _ Hgr) as [Hl _]. rewrite El in Hl. by apply andb_true_iff in Hl as [_ ?]. }
  apply (graceful_list l) in Hgr; [|done|by rewrite El].
  unfold pop_finished. rewrite El. cbn [tail m_writeBufferList set_list]. destruct l as [|x l].
  - intros E. ok_inv. match goal with E : m_writeCompleteCallback _ _ = _ |- _ => rename E into Ec end.
    destruct Hgr as [Hf Hw He].
    apply (gt_complete _ Hg k) in Ec as [[Hx1 Hx2] Hx3].
    + case_bool_decide as Hst; [|done]. apply log_graceful; [done|].
      apply (nothing_unsent k); [done|]. by apply Hx3.
    + apply log_ginv; [|done]. split; [exact Hp|]. by constructor.
  - by apply sendNext_graceful.
Qed.

Lemma handleWrite_graceful k s s' : ginv k s -> handleWrite cb now s = Ok s' -> graceful s'.
Proof.
  intros H. unfold handleWrite. apply (extendLife_ginv k now) in H. set (s0 := extendLife now s) in *.
  clearbody s0. destruct (isWriting s0); [|intros [= <-]; apply H].
  pose proof (gr_free _ (proj2 H)) as Hf. pose proof (gr_events _ (proj2 H)) as He.
  destruct (m_writeBufferList s0) as [|[b|rest toSend|chunks toSend] l] eqn:El; [done|..].
  - case_bool_decide as Eb; [|intros [= <-]; apply write_front_graceful, H].
    subst b. by apply (pop_finished_graceful k _ (NBuf []) l).
  - destruct Hf as [Hf _]. by rewrite El in Hf.
  - destruct (Z.leb_spec toSend 0); [|by apply sendFileInLoop_graceful].
    apply (pop_finished_graceful k _ (NStream chunks toSend) l); try done.
    + cbn. destruct (Z.ltb_spec 0 toSend); [lia|done].
    + by intros ? ? [= _ <-].
Qed.

Lemma closing_graceful s :
  graceful s -> graceful (log (EvConnection false) (disableAll (set_status Disconnected s))).
Proof. intros [Hf Hw He]. apply log_graceful; [|done]. by constructor. Qed.

Lemma closing_ginv k s :
  ginv k s -> ginv k (log (EvConnection false) (disableAll (set_status Disconnected s))).
Proof. intros [H Hgr]. split; [|by apply closing_graceful]. apply log_inv. same H; done. Qed.

Lemma handleClose_ginv k s s' : ginv k s -> handleClose cb s = Ok s' -> ginv k s'.
Proof.
  intros H E. unfold handleClose in E. ok_inv.
  match goal with E : m_connectionCallback _ _ = _ |- _ => apply (gt_connection _ Hg k) in E end.
  - eapply (gt_close _ Hg k); [|done]. by apply log_ginv.
  - by apply closing_ginv.
Qed.

Lemma handleRead_ginv k r s s' : ginv k s -> handleRead cb now r s = Ok s' -> ginv k s'.
Proof.
  intros H. unfold handleRead. destruct r as [b|e].
  - intros E. ok_inv. match goal with E : (if _ then handleClose _ _ else _) = Ok ?x |- _ =>
      assert (ginv k x) as Hx by (case_bool_decide; [by eapply handleClose_ginv|by simplify_eq]); clear E end.
    apply (extendLife_ginv k now) in Hx. revert E. case_bool_decide; [by intros [= <-]|].
    intros E. apply (gt_message _ Hg k) in E; [done|]. apply log_ginv; [|done].
    destruct Hx as [Hx1 Hx2]. split; [same Hx1; apply (ci_writing _ _ Hx1)|gsame Hx2].
  - repeat case_bool_decide; cbn; try (by intros [= <-]); apply handleClose_ginv; done.
Qed.

Lemma connectEstablished_ginv k s s' : ginv k s -> connectEstablished cb s = Ok s' -> ginv k s'.
Proof.
  intros [H1 H2] E. unfold connectEstablished in E. ok_inv.
  match goal with E : bool_decide _ = true |- _ => apply bool_decide_eq_true in E; rename E into Est end.
  apply (gt_connection _ Hg k) in E; [done|]. apply log_ginv; [|done].
  split; [same H1; apply (ci_writing _ _ H1)|]. gsame H2. by rewrite Est.
Qed.

Lemma connectDestroyed_ginv k s s' : ginv k s -> connectDestroyed cb s = Ok s' -> ginv k s'.
Proof.
  intros H E. pose proof (connectDestroyed_inv cb Hcb k _ _ (proj1 H) E) as H1. split; [done|].
  unfold connectDestroyed in E. ok_inv.
  assert (ginv k x) as Hx.
  { revert H0. case_bool_decide; [|by intros [= <-]]. intros E. apply (gt_connection _ Hg k) in E; [done|].
    by apply closing_ginv. }
  destruct Hx as [_ Hx]. gsame Hx.
Qed.

Lemma shutdown_ginv k s : ginv k s -> ginv k (shutdown s).
Proof.
  intros [H Hgr]. split; [by apply shutdown_inv|]. unfold shutdown. case_bool_decide as Hst; [|done].
  assert (graceful (set_status Disconnecting s)) as H1 by (gsame Hgr; by rewrite Hst).
  cbn [isWriting set_status]. destruct (isWriting s) eqn:Ew; [done|].
  eapply (graceful_same _ _ H1); cbn; auto. intros Hfa Hs. apply Forall_app; split; [done|].
  constructor; [|done]. cbn. change (unsent s = []). apply (nothing_unsent k); [done|].
  destruct (m_writeBufferList s) eqn:El; [done|]. rewrite (gr_writing _ Hgr) in Ew; try done.
  - by rewrite Hst.
  - by rewrite El.
Qed.

Lemma forceClose_ginv k s s' : ginv k s -> forceClose cb s = Ok s' -> ginv k s'.
Proof.
  intros H. unfold forceClose. destruct (_ || _) eqn:Est; [|by intros [= <-]].
  apply handleClose_ginv. destruct H as [H1 H2]. split; [same H1; apply (ci_writing _ _ H1)|].
  gsame H2. intros _ E. rewrite E in Est. done.
Qed.

Lemma appended_free rest l : forallb no_file l = true -> forallb no_file (appended rest l) = true.
Proof.
  intros H. unfold appended. destruct (last l) as [[b|r ts|ch ts]|] eqn:El.
  1: apply last_Some in El as [l' ->]; rewrite length_app, Nat.add_sub, take_app_length.
  all: rewrite ?forallb_app in *; cbn in *; rewrite ?andb_true_r in *; done.
Qed.

Lemma control_graceful s x : graceful s -> same_control s x -> graceful x.
Proof.
  intros [[Hl Hf] Hw He] [E1 E2 E3 E4 E5 E6 [[E7 E8] | [E7 [rest E8]]]].
  all: constructor; unfold file_free; rewrite ?E1, ?E2, ?E5, ?E7, ?E8; try done; auto.
  split; [by apply appended_free|done].
Qed.

Lemma sendInLoop_graceful k msg s s' :
  pending k msg s -> graceful s -> sendInLoop cb now msg s = Ok s' -> graceful s'.
Proof.
  intros Hp Hgr E. destruct (sendInLoop_elim _ _ _ _ _ _ Hp E) as (x & Hx & Hc & Hs').
  apply (control_graceful _ _ Hgr) in Hc. destruct Hs' as [-> | [n Hn]]; [done|].
  eapply (gt_high _ Hg); [|exact Hn]. apply log_ginv; [by split|done].
Qed.

(** A file stays in the list. *)
Lemma pushNode_file rest toSend s s' :
  pushNode (NFile rest toSend) s = Ok s' -> ~ file_free s'.
Proof.
  unfold pushNode. set (s1 := set_list _ _).
  assert (forall l a b, ~ forallb no_file (l ++ [NFile a b]) = true) as Hno.
  { intros l a b. rewrite forallb_app. cbn. by rewrite andb_false_r. }
  case_bool_decide as El; cbn in El.
  - destruct (m_writeBufferList s) as [|x l] eqn:Es; [|rewrite length_app in El; cbn in El; lia].
    unfold sendFileInLoop, s1. cbn. rewrite Es. cbn. intros [= <-] [Hl _]. revert Hl.
    unfold sendFile_kernel, answer. cbn. destruct (script s) as [|[n|e] os]; cbn; rewrite ?Es; [done|..].
    + destruct (_ && _); cbn; [done|]. destruct (isWriting s); done.
    + destruct (bool_decide _); [done|]. destruct (isWriting s); done.
  - intros [= <-] [Hl _]. by apply Hno in Hl.
Qed.

Lemma handle_request_graceful k r s s' :
  pending k (request_bytes r) s -> graceful s -> handle_request cb now r s = Ok s' -> file_free s' ->
  graceful s'.
Proof.
  intros Hp Hgr E Hfree. destruct r as [m|n]; [by eapply sendInLoop_graceful|].
  cbn in E. destruct (no_file n) eqn:Hn; [|destruct n; try done; by apply pushNode_file in E].
  destruct Hgr as [[Hl Hf] Hw He].
  assert (forallb no_file (m_writeBufferList s ++ [n]) = true) as Hl'.
  { rewrite forallb_app. cbn. by rewrite Hl, Hn. }
  unfold pushNode in E. case_bool_decide as El; cbn in El.
  - by apply sendFileInLoop_graceful in E.
  - injection E as <-. constructor; [done| |done]. cbn. intros Hfa Hst _. apply Hw; try done.
    intros E. by rewrite E in El.
Qed.

Lemma enqueue_graceful r s s' : graceful s -> enqueue r s = Ok s' -> file_free s' -> graceful s'.
Proof.
  intros [_ Hw He] E Hfree. unfold enqueue in E. destruct (_ <? _); [|done].
  injection E as <-. by constructor.
Qed.

Lemma send_in_loop_ginv k r s s' :
  ginv k s -> send_in_loop cb now r s = Ok s' -> file_free s' -> ginv k s'.
Proof.
  intros [H Hgr] E Hfree. split; [by eapply send_in_loop_inv|]. revert E.
  assert (graceful (record_call r s)) as Hgr1 by gsame Hgr.
  unfold send_in_loop, getSendNumByGuard, plusSendNumByGuard. cbn.
  destruct (m_sendNumMutex s) eqn:Em; [done|]. cbn [mbind res_bind].
  destruct (Z.eqb_spec (m_sendNum s) 0) as [E0|E0].
  - destruct (sendNum_zero _ _ H E0) as (Ef & _ & _). intros E.
    eapply handle_request_graceful; eauto. by apply record_pending.
  - intros E. eapply enqueue_graceful; [|exact E|done]. gsame Hgr1.
Qed.

Lemma send_in_loop_locked_ginv k msg s s' :
  ginv k s -> send_in_loop_locked cb now msg s = Ok s' -> file_free s' -> ginv k s'.
Proof.
  intros [H Hgr] E Hfree. split; [by eapply send_in_loop_locked_inv|].
  unfold send_in_loop_locked in E. destruct (m_sendNumMutex _); [done|]. ok_inv.
  enough (graceful x) as Hx by gsame Hx.
  assert (graceful (set_mutex true (record_call (RSend msg) s))) as Hgr1 by gsame Hgr.
  match goal with E : (if _ then _ else _) = Ok _ |- _ => revert E end. cbn [m_sendNum set_mutex].
  destruct (Z.eqb_spec (m_sendNum (record_call (RSend msg) s)) 0) as [E0|E0]; intros E.
  - destruct (sendNum_zero _ _ H E0) as (Ef & _ & _). eapply sendInLoop_graceful; eauto.
    apply pending_mutex. by apply (record_pending k (RSend msg)).
  - eapply enqueue_graceful; [|exact E|done]. gsame Hgr1.
Qed.

Lemma send_remote_begin_ginv s s' : ginv 0 s -> send_remote_begin s = Ok s' -> ginv 0 s'.
Proof.
  intros [H Hgr] E. split; [by eapply send_remote_begin_inv|].
  unfold send_remote_begin, plusSendNumByGuard in E. destruct (m_sendNumMutex s); [done|]. cbn in E.
  destruct (_ <? _); [|done]. injection E as <-. gsame Hgr.
Qed.

Lemma send_remote_queue_ginv r s s' :
  ginv 0 s -> send_remote_queue r s = Ok s' -> file_free s' -> ginv 0 s'.
Proof.
  intros [H Hgr] E Hfree. split; [by eapply send_remote_queue_inv|].
  unfold send_remote_queue in E. ok_inv. eapply enqueue_graceful; [|eassumption|done]. gsame Hgr.
Qed.

Lemma run_functor_ginv s s' : ginv 0 s -> run_functor cb now s = Ok s' -> file_free s' -> ginv 0 s'.
Proof.
  intros [H Hgr] E Hfree. split; [by eapply functor_inv|].
  unfold run_functor in E. destruct (functors s) as [|r fs] eqn:Ef; [by injection E as <-|].
  ok_inv. unfold minusSendNumByGuard in E. destruct (m_sendNumMutex x); [done|]. injection E as <-.
  enough (graceful x) as Hx by gsame Hx.
  match goal with E : handle_request _ _ _ _ = Ok _ |- _ => rename E into Eh end.
  eapply (handle_request_graceful 1 r (set_functors fs s) x); [|  |exact Eh|exact Hfree].
  - by apply functor_pending.
  - destruct Hgr as [[Hl Hf] Hw He]. constructor; try done. split; [done|]. cbn. rewrite Ef in Hf.
    by apply andb_true_iff in Hf as [_ ?].
Qed.

End gentle_callbacks.

(** Runs in which [sendFile] is not used. *)
Definition file_free_step (cb : callbacks) (s s' : conn) : Prop := conn_step cb s s' /\ file_free s'.

Lemma file_free_step_ginv cb s s' :
  keeps_inv cb -> gentle cb -> file_free_step cb s s' -> ginv 0 s -> ginv 0 s'.
Proof.
  intros Hcb Hg [Hst Hfree] H.
  destruct Hst as [s' E|s' E|now r s' E|now s' E|s' E| |s' E|now r s' E|now m s' E
    |s' E|r s' E|now s' E| |t s' E|m|os].
  - exact (connectEstablished_ginv cb Hg _ _ _ H E).
  - exact (connectDestroyed_ginv cb Hcb Hg _ _ _ H E).
  - exact (handleRead_ginv cb Hg _ _ _ _ _ H E).
  - split; [exact (handleWrite_inv cb Hcb _ _ _ _ (proj1 H) E)|
      exact (handleWrite_graceful cb Hg _ _ _ _ H E)].
  - exact (handleClose_ginv cb Hg _ _ _ H E).
  - exact (shutdown_ginv _ _ H).
  - exact (forceClose_ginv cb Hg _ _ _ H E).
  - exact (send_in_loop_ginv cb Hcb Hg _ _ _ _ _ H E Hfree).
  - exact (send_in_loop_locked_ginv cb Hcb Hg _ _ _ _ _ H E Hfree).
  - exact (send_remote_begin_ginv _ _ H E).
  - exact (send_remote_queue_ginv _ _ _ H E Hfree).
  - exact (run_functor_ginv cb Hcb Hg _ _ _ H E Hfree).
  - destruct H as [H Hgr]. split; [same H; apply (ci_writing _ _ H)|gsame Hgr].
  - unfold enableKickingOff in E. ok_inv.
    destruct H as [H Hgr]. split; [same H; apply (ci_writing _ _ H)|gsame Hgr].
  - destruct H as [H Hgr]. split; [same H; apply (ci_writing _ _ H)|gsame Hgr].
  - destruct H as [H Hgr]. split; [same H; apply (ci_writing _ _ H)|gsame Hgr].
Qed.

(** C7. Shutting down loses nothing.  In every run that sends messages and
    streams, with callbacks that do not queue data and shut down at once when
    the queue runs empty: as long as the socket has not failed, each time the
    writing side is closed, by [shutdown] or later by [handleWrite], nothing is
    left unsent; and until the connection is closed, pending data has write
    interest, so the loop will take it up again. *)
Theorem shutdown_is_graceful cb s :
  keeps_inv cb -> gentle cb -> rtc (file_free_step cb) TcpConnection_new s -> fatal s = false ->
  Forall closed_clean (events s) /\
  (m_status s <> Disconnected -> m_writeBufferList s <> [] -> isWriting s = true).
Proof.
  intros Hcb Hg Hr Hfa. assert (ginv 0 s) as [_ [_ Hw He]]; [|auto].
  refine (rtc_invariant _ (ginv 0) _ _ _ Hr _).
  - intros a b Hst H. by eapply file_free_step_ginv.
  - split; [by constructor|]. by repeat constructor.
Qed.

Lemma no_callbacks_gentle : gentle no_callbacks.
Proof. constructor; cbn; intros; by simplify_eq. Qed.

(** A message is no file. *)
Lemma send_message_free k now m s s' :
  ginv k s -> send_in_loop no_callbacks now (RSend m) s = Ok s' -> file_free s'.
Proof.
  intros [H Hgr] E. unfold send_in_loop, getSendNumByGuard, plusSendNumByGuard in E. cbn in E.
  destruct (m_sendNumMutex s); [done|]. cbn [mbind res_bind] in E.
  destruct (Z.eqb_spec (m_sendNum s) 0) as [E0|E0].
  - destruct (sendNum_zero _ _ H E0) as (Ef & _ & _).
    eapply gr_free, (sendInLoop_graceful no_callbacks no_callbacks_gentle now); [|  |exact E].
    + by apply (record_pending k (RSend m)).
    + gsame Hgr.
  - unfold enqueue in E. destruct (_ <? _); [|done]. injection E as <-.
    destruct Hgr as [[Hl Hf] _ _]. split; [done|]. cbn in *. rewrite forallb_app, Hf. done.
Qed.

Lemma echo_callbacks_gentle : gentle echo_callbacks.
Proof.
  constructor; cbn; intros; try (by simplify_eq).
  match goal with H : ginv _ _, E : echo _ = Ok _ |- _ => destruct H as [H Hgr]; unfold echo in E; rename E into Ee end.
  assert (ginv k (set_readBuffer [] s)) as H1.
  { split; [same H; apply (ci_writing _ _ H)|gsame Hgr]. }
  eapply (send_in_loop_ginv no_callbacks no_callbacks_keep no_callbacks_gentle); [exact H1|exact Ee|].
  by eapply send_message_free.
Qed.

(** The socket is full when the echo is sent; [shutdown] waits for it. *)
Definition echo_shutdown_run : conn :=
  match
    s ← connectEstablished echo_callbacks TcpConnection_new;
    s ← handleRead echo_callbacks 0 (RBytes [Byte.x01; Byte.x02]) s;
    s ← handleWrite echo_callbacks 0 (set_script [Done 2] (shutdown s));
    handleWrite echo_callbacks 0 s
  with Ok s => s | Fail _ => TcpConnection_new end.

Lemma shutdown_is_graceful_witness :
  events echo_shutdown_run = [EvConnection true; EvMessage; EvWriteComplete; EvCloseWrite []] /\
  Forall closed_clean (events echo_shutdown_run) /\
  (m_status echo_shutdown_run <> Disconnected -> m_writeBufferList echo_shutdown_run <> [] ->
   isWriting echo_shutdown_run = true).
Proof.
  split; [vm_compute; reflexivity|].
  apply (shutdown_is_graceful echo_callbacks);
    [exact echo_callbacks_keep|exact echo_callbacks_gentle| |vm_compute; reflexivity].
  eapply rtc_l; [split; [apply step_established; vm_compute; reflexivity|by vm_compute]|].
  eapply rtc_l; [split; [apply (step_read _ _ 0 (RBytes [Byte.x01; Byte.x02])); vm_compute; reflexivity|by vm_compute]|].
  eapply rtc_l; [split; [apply step_shutdown|by vm_compute]|].
  eapply rtc_l; [split; [apply (step_script _ _ [Done 2])|by vm_compute]|].
  eapply rtc_l; [split; [apply (step_write _ _ 0); vm_compute; reflexivity|by vm_compute]|].
  eapply rtc_l; [split; [apply (step_write _ _ 0); vm_compute; reflexivity|by vm_compute]|].
  apply rtc_refl.
Defined.

(** ** Where the code falls short *)

(** A file whose first [sendfile] finds the socket full is stuck.
    [sendFileInLoop] returns on [EAGAIN] without enabling write interest: the
    file stays at the front of the list, the channel never becomes writable,
    [handleWrite] would do nothing, and [shutdown] closes the writing side with
    the whole file unsent. *)
Theorem sendfile_stalls cb now rest toSend s :
  m_writeBufferList s = [] -> m_fileBufferPtr s = [] -> isWriting s = false ->
  m_sendNum s = 0 -> m_sendNumMutex s = false -> m_idleTimeout s = 0 ->
  script s = [] -> m_status s = Connected ->
  exists s', send_in_loop cb now (RNode (NFile rest toSend)) s = Ok s' /\
    m_writeBufferList s' = [NFile rest toSend] /\ isWriting s' = false /\
    handleWrite cb now s' = Ok s' /\
    events (shutdown s') = events s ++ [EvCloseWrite (take (Z.to_nat toSend) rest)].
Proof.
  intros El Ef Ew En Em Ei Es Est. unfold send_in_loop, getSendNumByGuard. cbn. rewrite Em. cbn. rewrite En.
  cbn. unfold pushNode. cbn. rewrite El. cbn. unfold sendFileInLoop. cbn. unfold sendFile_kernel, answer.
  cbn. rewrite Es, (bool_decide_true (EAGAIN = EAGAIN)) by done. eexists. split; [reflexivity|]. cbn. split; [done|]. split; [done|]. split.
  - unfold handleWrite, extendLife, record_call. cbn. rewrite Ei. cbn. by rewrite Ew.
  - unfold shutdown. cbn. rewrite Est, Ew, bool_decide_true by done. cbn. unfold unsent. cbn.
    by rewrite Ef, app_nil_r.
Qed.

Definition connected : conn := set_status Connected TcpConnection_new.

Lemma sendfile_stalls_witness :
  exists s', send_in_loop no_callbacks 0 (RNode (NFile [Byte.x01] 1)) connected = Ok s' /\
    m_writeBufferList s' = [NFile [Byte.x01] 1] /\ isWriting s' = false /\
    handleWrite no_callbacks 0 s' = Ok s' /\
    events (shutdown s') = events connected ++ [EvCloseWrite [Byte.x01]].
Proof. apply (sendfile_stalls no_callbacks 0 [Byte.x01] 1 connected); reflexivity. Defined.

(** When the socket is full, all of a message is queued. *)
Lemma sendInLoop_full cb now msg s :
  m_status s = Connected -> m_idleTimeout s = 0 -> script s = [] -> msg <> [] ->
  sendInLoop cb now msg s = queue_rest cb msg (set_handled (handled s ++ [msg]) s).
Proof.
  intros Est Ei Es Hm. unfold sendInLoop, extendLife. cbn. rewrite Est, bool_decide_true by done.
  rewrite Ei. cbn. unfold writeInLoop, answer. cbn. rewrite Es.
  destruct (negb (isWriting s) && _); cbn; rewrite (bool_decide_false (msg = [])) by done; done.
Qed.

(** The mark is passed by the first buffer. *)
Lemma queue_rest_high cb rest mark s :
  m_writeBufferList s = [] -> m_highWaterMarkLen s = Some mark -> mark < zlen rest ->
  queue_rest cb rest s = m_highWaterMarkCallback cb (zlen rest) (log (EvHighWater (zlen rest)) (queued rest s)).
Proof.
  intros El Eh Hm. unfold queue_rest, queued, appended. rewrite El. cbn.
  destruct (isWriting s); cbn; rewrite Eh; cbn; by rewrite (proj2 (Z.ltb_lt _ _) Hm).
Qed.

Lemma queued_free rest s :
  m_sendNumMutex (queued rest s) = m_sendNumMutex s /\ m_sendNum (queued rest s) = m_sendNum s.
Proof. unfold queued. by destruct (isWriting _). Qed.

Lemma send_returns now m s :
  m_sendNumMutex s = false -> m_sendNum s = 0 ->
  exists s', send_in_loop no_callbacks now (RSend m) s = Ok s'.
Proof.
  intros Em En. unfold send_in_loop, getSendNumByGuard. cbn. rewrite Em. cbn. rewrite En. cbn.
  unfold sendInLoop, queue_rest. repeat case_match; cbn; eauto.
Qed.

(** Sending from the high water mark callback while a [MessageBuffer] is
    being sent deadlocks: [send(const MessageBuffer &)] and
    [send(shared_ptr)] hold [m_sendNumMutex] while the callback runs, and every
    [send] takes it again.  [send(StringView)] in the same state goes through. *)
Theorem high_water_send_deadlocks cb msg reply mark now s :
  (forall n x, m_highWaterMarkCallback cb n x = send_in_loop no_callbacks now (RSend reply) x) ->
  m_status s = Connected -> m_writeBufferList s = [] ->
  m_sendNum s = 0 -> m_sendNumMutex s = false -> m_idleTimeout s = 0 ->
  script s = [] -> m_highWaterMarkLen s = Some mark -> 0 <= mark < zlen msg ->
  send_in_loop_locked cb now msg s = Fail Deadlock /\
  exists s', send_in_loop cb now (RSend msg) s = Ok s'.
Proof.
  intros Hcb Est El En Em Ei Es Eh [Hm0 Hm].
  assert (msg <> []) as Hne by (intros ->; unfold zlen in Hm; cbn in Hm; lia).
  split.
  - unfold send_in_loop_locked. cbn. rewrite Em. cbn. rewrite En. cbn. rewrite sendInLoop_full by done.
    rewrite (queue_rest_high cb _ mark), Hcb by done.
    unfold send_in_loop, getSendNumByGuard. cbn. by rewrite (proj1 (queued_free _ _)).
  - unfold send_in_loop at 1, getSendNumByGuard. cbn. rewrite Em. cbn. rewrite En. cbn.
    rewrite sendInLoop_full by done. rewrite (queue_rest_high cb _ mark), Hcb by done.
    by apply send_returns; cbn; [rewrite (proj1 (queued_free _ _))|rewrite (proj2 (queued_free _ _))].
Qed.

(** A callback that asks the peer to slow down. *)
Definition pushback : callbacks :=
  mkCallbacks Ok Ok Ok (fun _ => send_in_loop no_callbacks 0 (RSend [Byte.xff])) Ok.

Lemma high_water_send_deadlocks_witness :
  send_in_loop_locked pushback 0 [Byte.x01; Byte.x02] (set_highWaterMark (Some 1) connected) = Fail Deadlock /\
  exists s', send_in_loop pushback 0 (RSend [Byte.x01; Byte.x02]) (set_highWaterMark (Some 1) connected) = Ok s'.
Proof.
  apply (high_water_send_deadlocks pushback [Byte.x01; Byte.x02] [Byte.xff] 1 0
    (set_highWaterMark (Some 1) connected)); try reflexivity.
  split; [discriminate|reflexivity].
Defined.

(** A callback that sends a goodbye once everything has been written, and shuts
    the connection down. *)
Definition goodbye (msg : list byte) : callbacks :=
  mkCallbacks Ok Ok (fun s => s ← send_in_loop no_callbacks 0 (RSend msg) s; Ok (shutdown s))
    (fun _ => Ok) Ok.

(** Data sent from the write-complete callback is cut off when the
    callback also shuts down.  [handleWrite] tests the status after the callback
    has run and closes the writing side without looking at the list again; here
    the socket took nothing of the goodbye, and all of it is lost. *)
Theorem goodbye_is_cut_off msg s :
  m_status s = Connected -> m_writeBufferList s = [NBuf []] -> m_fileBufferPtr s = [] ->
  isWriting s = true -> m_sendNum s = 0 -> m_sendNumMutex s = false -> m_idleTimeout s = 0 ->
  script s = [] -> m_highWaterMarkLen s = None -> msg <> [] ->
  exists s', handleWrite (goodbye msg) 0 s = Ok s' /\ isWriting s' = true /\ unsent s' = msg /\
    events s' = events s ++ [EvWriteComplete; EvCloseWrite msg].
Proof.
  intros Est El Ef Ew En Em Ei Es Eh Hm. unfold handleWrite, extendLife. rewrite Ei. cbn. rewrite Ew, El.
  rewrite bool_decide_true by done. unfold pop_finished. rewrite El. cbn [tail m_writeBufferList set_list].
  unfold goodbye at 1. cbn [m_writeCompleteCallback].
  unfold send_in_loop, getSendNumByGuard. cbn. rewrite Em. cbn. rewrite En. cbn.
  rewrite sendInLoop_full by done. unfold queue_rest. cbn. rewrite Eh. cbn. unfold shutdown. cbn.
  rewrite Est, (bool_decide_true (Connected = Connected)) by done. cbn. rewrite bool_decide_true by done.
  eexists. split; [reflexivity|]. cbn. split; [done|]. unfold unsent. cbn. rewrite Ef, app_nil_r. cbn. by rewrite <- app_assoc.
Qed.

Lemma goodbye_is_cut_off_witness :
  exists s', handleWrite (goodbye [Byte.x01]) 0 (set_writing true (set_list [NBuf []] connected)) = Ok s' /\
    isWriting s' = true /\ unsent s' = [Byte.x01] /\
    events s' = events (set_writing true (set_list [NBuf []] connected)) ++ [EvWriteComplete; EvCloseWrite [Byte.x01]].
Proof.
  apply (goodbye_is_cut_off [Byte.x01] (set_writing true (set_list [NBuf []] connected))); try reflexivity.
  discriminate.
Defined.

(** ** The idle timeout *)

Record keeps_idle (cb : callbacks) : Prop := {
  ki_connection : forall s s', m_idleTimeout s = 0 -> m_connectionCallback cb s = Ok s' -> m_idleTimeout s' = 0;
  ki_message : forall s s', m_idleTimeout s = 0 -> m_recvMsgCallback cb s = Ok s' -> m_idleTimeout s' = 0;
  ki_complete : forall s s', m_idleTimeout s = 0 -> m_writeCompleteCallback cb s = Ok s' -> m_idleTimeout s' = 0;
  ki_high : forall n s s', m_idleTimeout s = 0 -> m_highWaterMarkCallback cb n s = Ok s' -> m_idleTimeout s' = 0;
  ki_close : forall s s', m_idleTimeout s = 0 -> m_closeCallback cb s = Ok s' -> m_idleTimeout s' = 0
}.

Lemma extendLife_unset now s : m_idleTimeout s = 0 -> extendLife now s = s.
Proof. intros E. unfold extendLife. by rewrite E. Qed.

Lemma writeInLoop_idle data s o s' : writeInLoop data s = (o, s') -> m_idleTimeout s' = m_idleTimeout s.
Proof. intros E. by destruct (writeInLoop_spec _ _ _ _ E) as (? & ? & ? & _ & _ & ->). Qed.

Lemma enable_idle s : m_idleTimeout (if isWriting s then s else enableWriting s) = m_idleTimeout s.
Proof. by destruct (isWriting s). Qed.

Lemma write_front_idle b s : m_idleTimeout (write_front b s) = m_idleTimeout s.
Proof.
  unfold write_front. destruct (writeInLoop b s) as [o s1] eqn:E. apply writeInLoop_idle in E.
  destruct o; [done|]. by destruct (WriteSocketError _).
Qed.

Lemma stream_loop_idle fuel chunks toSend s s' :
  stream_loop fuel chunks toSend s = Ok s' -> m_idleTimeout s' = m_idleTimeout s.
Proof.
  revert chunks toSend s. induction fuel as [|fuel IH]; intros chunks toSend s; cbn [stream_loop].
  { destruct (_ || _); [done|]. intros [= <-]. apply enable_idle. }
  destruct (_ || _); [|intros [= <-]; apply enable_idle].
  destruct (stream_fetch chunks toSend s) as [[chunks1 toSend1] s1] eqn:Efetch.
  assert (m_idleTimeout s1 = m_idleTimeout s) as <-.
  { unfold stream_fetch in Efetch. case_bool_decide; [destruct chunks|]; by injection Efetch as <- <- <-. }
  set (s2 := put_front _ s1). change (m_idleTimeout s1) with (m_idleTimeout s2). clearbody s2.
  case_bool_decide; [intros [= <-]; apply enable_idle|].
  destruct (writeInLoop _ s2) as [o s3] eqn:Ew. apply writeInLoop_idle in Ew as <-.
  destruct o as [n|e].
  - destruct (_ <? _); [|intros E; by rewrite (IH _ _ _ E)]. intros [= <-]. apply (enable_idle (set_fileBuffer _ _)).
  - destruct (WriteSocketError e); intros [= <-]; [done|apply enable_idle].
Qed.

Lemma sendFileInLoop_idle s s' : sendFileInLoop s = Ok s' -> m_idleTimeout s' = m_idleTimeout s.
Proof.
  unfold sendFileInLoop. destruct (m_writeBufferList s) as [|[b|r ts|ch ts] l]; try done.
  - intros [= <-]. unfold sendFile_kernel, answer. repeat case_match; cbn; simplify_eq; done.
  - apply stream_loop_idle.
Qed.

Section idle.
Context (cb : callbacks) (Hki : keeps_idle cb) (now : Z).

Lemma handleClose_idle s s' : m_idleTimeout s = 0 -> handleClose cb s = Ok s' -> m_idleTimeout s' = 0.
Proof.
  intros Hi E. unfold handleClose in E. ok_inv.
  eapply (ki_close _ Hki); [|exact E]. by eapply (ki_connection _ Hki) in H.
Qed.

Lemma handleWrite_idle s s' : m_idleTimeout s = 0 -> handleWrite cb now s = Ok s' -> m_idleTimeout s' = 0.
Proof.
  intros Hi. unfold handleWrite. rewrite extendLife_unset by done. destruct (isWriting s); [|by intros [= <-]].
  assert (pop_finished cb s = Ok s' -> m_idleTimeout s' = 0) as Hpop.
  { unfold pop_finished. destruct (m_writeBufferList (set_list _ s)) as [|n l] eqn:El.
    - intros E. ok_inv. case_bool_decide; cbn; by eapply (ki_complete _ Hki) in H.
    - unfold sendNext. rewrite El. destruct n; [intros [= <-]; by rewrite write_front_idle|..];
        intros E; by rewrite (sendFileInLoop_idle _ _ E). }
  destruct (m_writeBufferList s) as [|[b|rest toSend|chunks toSend] l]; [done|..].
  - case_bool_decide; [done|]. intros [= <-]. by rewrite write_front_idle.
  - destruct (_ <=? _); [done|]. intros E. by rewrite (sendFileInLoop_idle _ _ E).
  - destruct (_ <=? _); [done|]. intros E. by rewrite (sendFileInLoop_idle _ _ E).
Qed.

Lemma handleRead_idle r s s' : m_idleTimeout s = 0 -> handleRead cb now r s = Ok s' -> m_idleTimeout s' = 0.
Proof.
  intros Hi. unfold handleRead. destruct r as [b|e].
  - intros E. ok_inv. match goal with E : (if _ then handleClose _ _ else _) = Ok ?x |- _ =>
      assert (m_idleTimeout x = 0) as Hx by (case_bool_decide; [by eapply handleClose_idle|by simplify_eq]); clear E end.
    rewrite extendLife_unset in E by done. revert E. case_bool_decide; [by intros [= <-]|].
    by apply (ki_message _ Hki).
  - repeat case_bool_decide; cbn; try (by intros [= <-]); by apply handleClose_idle.
Qed.

Lemma handle_request_idle k r s s' :
  pending k (request_bytes r) s -> m_idleTimeout s = 0 -> handle_request cb now r s = Ok s' ->
  m_idleTimeout s' = 0.
Proof.
  intros Hp Hi. destruct r as [m|n]; cbn.
  - intros E. destruct (sendInLoop_elim _ _ _ _ _ _ Hp E) as (x & _ & Hc & Hs').
    pose proof (sc_idle _ _ Hc). destruct Hs' as [-> | [n Hn]]; [congruence|].
    eapply (ki_high _ Hki); [|exact Hn]. cbn. congruence.
  - unfold pushNode. case_bool_decide; [|by intros [= <-]]. intros E. by rewrite (sendFileInLoop_idle _ _ E).
Qed.

Lemma enqueue_idle r s s' : enqueue r s = Ok s' -> m_idleTimeout s' = m_idleTimeout s.
Proof. unfold enqueue. destruct (_ <? _); [|done]. by intros [= <-]. Qed.

Lemma send_in_loop_idle k r s s' :
  cinv k s -> m_idleTimeout s = 0 -> send_in_loop cb now r s = Ok s' -> m_idleTimeout s' = 0.
Proof.
  intros H Hi. unfold send_in_loop, getSendNumByGuard, plusSendNumByGuard. cbn.
  destruct (m_sendNumMutex s); [done|]. cbn [mbind res_bind].
  destruct (Z.eqb_spec (m_sendNum s) 0) as [E0|E0].
  - destruct (sendNum_zero _ _ H E0) as (Ef & _ & _). intros E.
    by eapply handle_request_idle; [apply (record_pending k)| |exact E].
  - intros E. by rewrite (enqueue_idle _ _ _ E).
Qed.

Lemma send_in_loop_locked_idle k m s s' :
  cinv k s -> m_idleTimeout s = 0 -> send_in_loop_locked cb now m s = Ok s' -> m_idleTimeout s' = 0.
Proof.
  intros H Hi E. unfold send_in_loop_locked in E. destruct (m_sendNumMutex _); [done|]. ok_inv. cbn.
  match goal with E : (if _ then _ else _) = Ok _ |- _ => revert E end. cbn [m_sendNum set_mutex].
  destruct (Z.eqb_spec (m_sendNum (record_call (RSend m) s)) 0) as [E0|E0]; intros E.
  - destruct (sendNum_zero _ _ H E0) as (Ef & _ & _).
    eapply (handle_request_idle k (RSend m)); [|  |exact E]; [|done].
    apply pending_mutex. by apply (record_pending k (RSend m)).
  - by rewrite (enqueue_idle _ _ _ E).
Qed.

Lemma run_functor_idle s s' :
  cinv 0 s -> m_idleTimeout s = 0 -> run_functor cb now s = Ok s' -> m_idleTimeout s' = 0.
Proof.
  intros H Hi E. unfold run_functor in E. destruct (functors s) as [|r fs] eqn:Ef; [by injection E as <-|].
  ok_inv. unfold minusSendNumByGuard in E. destruct (m_sendNumMutex x); [done|]. injection E as <-. cbn.
  eapply handle_request_idle; [by eapply functor_pending| |eassumption]. done.
Qed.

End idle.

(** The idle timeout is never in force.  [enableKickingOff] puts the entry
    into the wheel and leaves [m_idleTimeout] at 0: in every reachable state
    [extendLife] does nothing, however much traffic there is, and
    [isKeepAlive] is true.  A connection is kicked off when its first entry
    expires, active or not. *)
Theorem idle_timeout_never_set cb s now :
  keeps_inv cb -> keeps_idle cb -> conn_reachable cb s ->
  m_idleTimeout s = 0 /\ extendLife now s = s /\ isKeepAlive s = true.
Proof.
  intros Hcb Hki Hr. assert (cinv 0 s /\ m_idleTimeout s = 0) as [_ Hi].
  { refine (rtc_invariant _ (fun s => cinv 0 s /\ m_idleTimeout s = 0) _ _ _ Hr _); [|by split; [constructor|]].
    intros a b Hst [H Hi]. split; [exact (conn_step_inv _ _ _ Hcb Hst H)|].
    destruct Hst as [s' E|s' E|t r s' E|t s' E|s' E| |s' E|t r s' E|t m s' E
      |s' E|r s' E|t s' E| |t s' E|m|os]; cbn; try done.
    - unfold connectEstablished in E. ok_inv. by eapply (ki_connection _ Hki) in E.
    - unfold connectDestroyed in E. ok_inv. cbn.
      revert H0. case_bool_decide; [|by intros [= <-]]. by apply (ki_connection _ Hki).
    - by eapply handleRead_idle.
    - by eapply handleWrite_idle.
    - by eapply handleClose_idle.
    - unfold shutdown. case_bool_decide; [|done]. by destruct (isWriting _).
    - unfold forceClose in E. destruct (_ || _); [|by injection E as <-].
      by eapply handleClose_idle in E.
    - by eapply send_in_loop_idle.
    - by eapply send_in_loop_locked_idle.
    - unfold send_remote_begin, plusSendNumByGuard in E. destruct (m_sendNumMutex a); [done|]. cbn in E.
      destruct (_ <? _); [|done]. by injection E as <-.
    - unfold send_remote_queue in E. ok_inv.
      match goal with E : enqueue _ _ = Ok _ |- _ => by rewrite (enqueue_idle _ _ _ E) end.
    - by eapply run_functor_idle.
    - unfold enableKickingOff in E. by ok_inv. }
  split; [done|]. split; [by apply extendLife_unset|]. unfold isKeepAlive. by rewrite Hi.
Qed.

(** A connection with a timeout of 60 seconds that receives data two seconds
    later: no second insertion into the wheel. *)
Definition kicking_run : conn :=
  match
    s ← connectEstablished no_callbacks TcpConnection_new;
    s ← enableKickingOff 60 s;
    handleRead no_callbacks 2000000 (RBytes [Byte.x01]) s
  with Ok s => s | Fail _ => TcpConnection_new end.

Lemma idle_timeout_never_set_witness :
  wheel_inserts kicking_run = [60] /\
  m_idleTimeout kicking_run = 0 /\ extendLife 2000000 kicking_run = kicking_run /\
  isKeepAlive kicking_run = true.
Proof.
  split; [vm_compute; reflexivity|].
  apply (idle_timeout_never_set no_callbacks); [exact no_callbacks_keep|constructor; cbn; intros; by simplify_eq|].
  eapply rtc_l; [apply step_established; vm_compute; reflexivity|].
  eapply rtc_l; [apply (step_kicking_off _ _ 60); vm_compute; reflexivity|].
  eapply rtc_l; [apply (step_read _ _ 2000000 (RBytes [Byte.x01])); vm_compute; reflexivity|].
  apply rtc_refl.
Defined.
