(* ===== verification/FileSending.v ===== *)
(** * Sending files: [sendFile] by name, and without [sendfile]

    [TcpConnectionImpl::sendFile(name, offset, length)] opens the file and finds
    its length; on systems without [sendfile] the third part of
    [sendFileInLoop] reads and writes it through the buffer that streams use
    too ([netpoll/net/inner/tcp_connection_impl.cc]).

    - What [open] and [stat] answer for a name is the interface [NamedFiles]; a
      file is its contents at the time it was opened.
    - [read] of a regular file delivers at least a byte where there is one and
      one is asked for; how many, and whether it fails, is a script.  [lseek] on
      it succeeds. *)

From Stdlib Require Import Strings.Byte.
From S2P Require Import Prelude TcpConnection ConnectionSpec.
Local Open Scope Z_scope.

(** ** By name *)

Class NamedFiles := {
  open_file : list byte -> option (list byte);   (* the contents, or a failure *)
  stat_size : list byte -> option Z              (* [st_size], or a failure *)
}.

Section by_name.
Context `{NF : NamedFiles} (cb : callbacks) (now : Z).

(** [sendFile(StringView const &, size_t, size_t)].  Without a length it is the
    size of the whole file, whatever the offset. *)
Definition sendFile_named (inLoop : bool) (name : list byte) (offset length : Z) (s : conn) : res conn :=
  match open_file name with
  | None => Ok s
  | Some contents =>
      let rest := drop (Z.to_nat offset) contents in
      if length =? 0 then
        match stat_size name with
        | None => Ok s
        | Some size => sendFile cb now inLoop rest size s
        end
      else sendFile cb now inLoop rest length s
  end.

End by_name.

(** ** A file that ends early blocks the connection

    [sendfile] answers 0 at the end of the file; a node that still expects
    bytes then stays in front for good; [b] is what has been sent, and the
    number of bytes the node still expects. *)

Definition blocked (b : list byte * Z) (s : conn) : Prop :=
  sent s = b.1 /\ exists toSend l, m_writeBufferList s = NFile [] toSend :: l /\ (0 < toSend /\ toSend = b.2).

(** Callbacks that cannot take the node away: no call of the interface does. *)
Record keeps_blocked (cb : callbacks) : Prop := {
  kb_conn b s s' : blocked b s -> m_connectionCallback cb s = Ok s' -> blocked b s';
  kb_recv b s s' : blocked b s -> m_recvMsgCallback cb s = Ok s' -> blocked b s';
  kb_complete b s s' : blocked b s -> m_writeCompleteCallback cb s = Ok s' -> blocked b s';
  kb_high b n s s' : blocked b s -> m_highWaterMarkCallback cb n s = Ok s' -> blocked b s';
  kb_close b s s' : blocked b s -> m_closeCallback cb s = Ok s' -> blocked b s'
}.

Lemma blocked_same b s s' :
  m_writeBufferList s' = m_writeBufferList s -> sent s' = sent s -> blocked b s -> blocked b s'.
Proof. unfold blocked. by intros -> ->. Qed.

Lemma blocked_app b s l : blocked b s -> blocked b (set_list (m_writeBufferList s ++ l) s).
Proof. intros (Hs & ts & l' & El & Ht). split; [done|]. exists ts, (l' ++ l). cbn. by rewrite El. Qed.

(** Solves what only touches other fields. *)
Ltac bsame H := refine (blocked_same _ _ _ _ _ H); reflexivity.

Lemma extendLife_blocked b now s : blocked b s -> blocked b (extendLife now s).
Proof.
  intros H. unfold extendLife. destruct (_ <? _); [|done]. destruct (_ <? _); [done|]. cbv zeta.
  destruct (m_kickoffEntry _); bsame H.
Qed.

Lemma enable_blocked b s : blocked b s -> blocked b (if isWriting s then s else enableWriting s).
Proof. intros H. destruct (isWriting s); [done|bsame H]. Qed.

Section blocked_steps.
Context (cb : callbacks) (Hcb : keeps_blocked cb) (now : Z).

Lemma handleClose_blocked b s s' : blocked b s -> handleClose cb s = Ok s' -> blocked b s'.
Proof.
  intros H E. unfold handleClose in E. ok_inv. eapply (kb_close _ Hcb); [|eassumption].
  match goal with E : m_connectionCallback _ _ = Ok ?x |- _ =>
    assert (blocked b x) as Hx; [eapply (kb_conn _ Hcb); [|exact E]; bsame H|bsame Hx] end.
Qed.

Lemma connectEstablished_blocked b s s' : blocked b s -> connectEstablished cb s = Ok s' -> blocked b s'.
Proof.
  intros H E. unfold connectEstablished in E. ok_inv. eapply (kb_conn _ Hcb); [|eassumption]. bsame H.
Qed.

Lemma connectDestroyed_blocked b s s' : blocked b s -> connectDestroyed cb s = Ok s' -> blocked b s'.
Proof.
  intros H E. unfold connectDestroyed in E. ok_inv.
  match goal with E : (if _ then _ else _) = Ok ?x |- _ => assert (blocked b x) as Hx; [revert E|bsame Hx] end.
  case_bool_decide; [|by intros [= <-]]. intros E. eapply (kb_conn _ Hcb); [|exact E]. bsame H.
Qed.

Lemma handleRead_blocked b r s s' : blocked b s -> handleRead cb now r s = Ok s' -> blocked b s'.
Proof.
  intros H. destruct r as [d|e]; cbn [handleRead].
  - intros E. ok_inv.
    match goal with E : (if _ then _ else _) = Ok ?x |- _ =>
      assert (blocked b x) as Hx;
        [revert E; case_bool_decide; [by apply handleClose_blocked|by intros [= <-]]|] end.
    apply (extendLife_blocked b now) in Hx. revert E. destruct (bool_decide (d = [])); [by intros [= <-]|].
    intros E. eapply (kb_recv _ Hcb); [|exact E]. bsame Hx.
  - destruct (_ || _); [by intros [= <-]|]. case_bool_decide; [by intros [= <-]|]. by apply handleClose_blocked.
Qed.

(** The heart of it: [sendfile] at the end of the file answers 0. *)
Lemma handleWrite_blocked b s s' : blocked b s -> handleWrite cb now s = Ok s' -> blocked b s'.
Proof.
  intros H. apply (extendLife_blocked b now) in H. unfold handleWrite. cbv zeta.
  set (s1 := extendLife now s) in *. clearbody s1. destruct (isWriting s1); [|by intros [= <-]].
  pose proof H as (_ & ts & l & El & Ht). rewrite El. destruct (Z.leb_spec ts 0); [lia|].
  unfold sendFileInLoop. rewrite El. intros [= <-]. unfold sendFile_kernel, answer.
  destruct (script s1) as [|[n|e] os]; [done| |].
  - rewrite (Z.min_r ts) by (unfold zlen; cbn; lia). change (zlen []) with 0.
    rewrite Z.max_l by lia. destruct (Z.ltb_spec 0 ts); [|lia]. bsame H.
  - case_bool_decide; [bsame H|]. cbn [isWriting set_script]. destruct (isWriting s1); bsame H.
Qed.

Lemma queue_rest_blocked b rest s s' : blocked b s -> queue_rest cb rest s = Ok s' -> blocked b s'.
Proof.
  intros H. unfold queue_rest. cbv zeta.
  match goal with |- context [if isWriting ?x then _ else _] => assert (blocked b x) as Hx end.
  { destruct (last (m_writeBufferList s)) as [[d|? ?|? ?]|] eqn:Ea; try by apply blocked_app.
    destruct H as (Hs & ts & l & El & Ht). split; [done|]. rewrite El in Ea |- *.
    destruct l as [|n l] using rev_ind; [done|]. exists ts, (l ++ [NBuf (d ++ rest)]). cbn [set_list m_writeBufferList].
    split; [|done]. cbn [length]. rewrite length_app. cbn [length]. replace (S (length l + 1) - 1)%nat with (S (length l)) by lia.
    cbn [take app]. by rewrite take_app_length. }
  match type of Hx with blocked _ ?x => set (s1 := x) in *; clearbody s1 end.
  apply enable_blocked in Hx. destruct (m_highWaterMarkLen _); [|by intros [= <-]].
  destruct (last _) as [[d|? ?|? ?]|]; try by intros [= <-]. destruct (_ <? _); [|by intros [= <-]].
  intros E. eapply (kb_high _ Hcb); [|exact E]. bsame Hx.
Qed.

Lemma handle_request_blocked b r s s' : blocked b s -> handle_request cb now r s = Ok s' -> blocked b s'.
Proof.
  intros H. destruct r as [m|n]; cbn [handle_request].
  - unfold sendInLoop. cbv zeta. case_bool_decide; [|intros [= <-]; bsame H].
    set (s1 := extendLife now _). assert (blocked b s1) as H1 by (apply extendLife_blocked; bsame H).
    clearbody s1. pose proof H1 as (_ & ts & l & El & _). rewrite (bool_decide_false (_ = [])) by (by rewrite El).
    rewrite andb_false_r. destruct (bool_decide (drop _ m = [])); [by intros [= <-]|]. by apply queue_rest_blocked.
  - unfold pushNode. cbv zeta. pose proof H as (_ & ts & l & El & _).
    rewrite bool_decide_false by (cbn; rewrite El, length_app; cbn; lia). intros [= <-].
    apply (blocked_app b (set_handled _ s)). bsame H.
Qed.

Lemma enqueue_blocked b r s s' : blocked b s -> enqueue r s = Ok s' -> blocked b s'.
Proof. intros H. unfold enqueue. destruct (_ <? _); [|done]. intros [= <-]. bsame H. Qed.

Lemma send_in_loop_blocked b r s s' : blocked b s -> send_in_loop cb now r s = Ok s' -> blocked b s'.
Proof.
  intros H E. unfold send_in_loop, getSendNumByGuard, plusSendNumByGuard in E. cbn in E.
  destruct (m_sendNumMutex s); [done|]. cbn [mbind res_bind] in E. destruct (_ =? _).
  - eapply handle_request_blocked; [|exact E]. bsame H.
  - eapply enqueue_blocked; [|exact E]. bsame H.
Qed.

Lemma send_in_loop_locked_blocked b m s s' :
  blocked b s -> send_in_loop_locked cb now m s = Ok s' -> blocked b s'.
Proof.
  intros H E. unfold send_in_loop_locked in E. destruct (m_sendNumMutex _); [done|]. ok_inv.
  match goal with E : (if _ then _ else _) = Ok ?x |- _ => assert (blocked b x) as Hx; [revert E|bsame Hx] end.
  destruct (_ =? _); intros E.
  - eapply (handle_request_blocked b (RSend m)); [|exact E]. bsame H.
  - eapply enqueue_blocked; [|exact E]. bsame H.
Qed.

Lemma run_functor_blocked b s s' : blocked b s -> run_functor cb now s = Ok s' -> blocked b s'.
Proof.
  intros H E. unfold run_functor in E. destruct (functors s) as [|r fs]; [by injection E as <-|]. ok_inv.
  match goal with E : handle_request _ _ _ _ = Ok ?x |- _ =>
    assert (blocked b x) as Hx; [eapply handle_request_blocked; [|exact E]; bsame H|] end.
  unfold minusSendNumByGuard in E. destruct (m_sendNumMutex x); [done|]. injection E as <-. bsame Hx.
Qed.

End blocked_steps.

Lemma conn_step_blocked cb b s s' : keeps_blocked cb -> conn_step cb s s' -> blocked b s -> blocked b s'.
Proof.
  intros Hcb Hst H. destruct Hst as [s' E|s' E|now r s' E|now s' E|s' E| |s' E|now r s' E|now m s' E
      |s' E|r s' E|now s' E| |t s' E|m|os].
  - by eapply connectEstablished_blocked.
  - by eapply connectDestroyed_blocked.
  - by eapply handleRead_blocked.
  - by eapply handleWrite_blocked.
  - by eapply handleClose_blocked.
  - unfold shutdown. case_bool_decide; [|done]. cbv zeta. destruct (isWriting _); bsame H.
  - unfold forceClose in E. destruct (_ || _); [|by injection E as <-].
    eapply handleClose_blocked; [done| |exact E]. bsame H.
  - by eapply send_in_loop_blocked.
  - by eapply send_in_loop_locked_blocked.
  - unfold send_remote_begin, plusSendNumByGuard in E. destruct (m_sendNumMutex s); [done|]. cbn in E.
    destruct (_ <? _); [|done]. injection E as <-. bsame H.
  - unfold send_remote_queue in E. ok_inv. eapply enqueue_blocked; [|eassumption]. bsame H.
  - by eapply run_functor_blocked.
  - bsame H.
  - unfold enableKickingOff in E. ok_inv. bsame H.
  - bsame H.
  - bsame H.
Qed.

Lemma run_blocked cb b s s' : keeps_blocked cb -> rtc (conn_step cb) s s' -> blocked b s -> blocked b s'.
Proof.
  intros Hcb Hr. refine (rtc_invariant _ (blocked b) _ _ _ Hr). intros x y Hst. by apply (conn_step_blocked cb).
Qed.

(** ** A file is sent

    A socket that takes some bytes of each offer. *)

Fixpoint total (ns : list Z) : Z := match ns with [] => 0 | n :: ns => n + total ns end.

Lemma total_nonneg ns : Forall (fun n => 1 <= n) ns -> 0 <= total ns.
Proof. induction 1; cbn; lia. Qed.

Record sending (rest : list byte) (toSend : Z) (ns : list Z) (s : conn) : Prop := {
  sg_list : m_writeBufferList s = [NFile rest toSend];
  sg_fits : 0 <= toSend <= zlen rest;
  sg_script : script s = map Done ns;
  sg_some : Forall (fun n => 1 <= n) ns;
  sg_enough : toSend <= total ns;
  sg_idle : m_idleTimeout s = 0;
  sg_status : m_status s = Connected
}.

(** One call of [sendfile] that takes [n] bytes. *)
Lemma sendFile_kernel_some rest toSend n ns s :
  sending rest toSend (n :: ns) s -> 0 < toSend ->
  exists k, 1 <= k <= toSend /\
    sending (drop (Z.to_nat k) rest) (toSend - k) ns (sendFile_kernel rest toSend s) /\
    isWriting (sendFile_kernel rest toSend s) = true /\
    sent (sendFile_kernel rest toSend s) = sent s ++ take (Z.to_nat k) rest /\
    events (sendFile_kernel rest toSend s) = events s.
Proof.
  intros [El Hf Es Hs He Hi Hst] Ht. apply Forall_cons in Hs as [Hn Hs]. cbn in He.
  pose proof (total_nonneg _ Hs).
  exists (Z.min n toSend). split; [lia|].
  unfold sendFile_kernel, answer. rewrite Es. cbn [map].
  replace (Z.max 0 (Z.min n (Z.min toSend (zlen rest)))) with (Z.min n toSend) by lia.
  destruct (Z.eqb_spec (Z.min n toSend) 0); [lia|]. rewrite andb_false_r.
  set (s1 := put_front _ _). assert (sending (drop (Z.to_nat (Z.min n toSend)) rest) (toSend - Z.min n toSend) ns s1) as H1.
  { constructor; cbn; try done; [by rewrite El| |lia]. unfold zlen in *. rewrite length_drop. lia. }
  destruct (isWriting s1) eqn:Ew; [done|]. split; [|done]. destruct H1. by constructor.
Qed.

Lemma handleWrites_S cb now n s :
  handleWrites cb now (S n) s = (s ← handleWrite cb now s; handleWrites cb now n s).
Proof. done. Qed.

Lemma handleWrites_idle cb now n s : isWriting s = false -> m_idleTimeout s = 0 -> handleWrites cb now n s = Ok s.
Proof.
  intros Ew Ei. induction n as [|n IH]; [done|]. cbn [handleWrites]. unfold handleWrite.
  by rewrite extendLife_unset, Ew by done.
Qed.

Lemma pop_last n s :
  m_writeBufferList s = [n] -> m_status s = Connected ->
  pop_finished no_callbacks s = Ok (log EvWriteComplete (disableWriting (set_list [] s))).
Proof. intros El Est. unfold pop_finished. rewrite El. cbn. by rewrite Est. Qed.

Lemma sending_done rest toSend ns now s :
  sending rest toSend ns s -> isWriting s = true ->
  exists s', handleWrites no_callbacks now (S (length ns)) s = Ok s' /\
    m_writeBufferList s' = [] /\ isWriting s' = false /\
    sent s' = sent s ++ take (Z.to_nat toSend) rest /\ events s' = events s ++ [EvWriteComplete].
Proof.
  revert rest toSend s. induction ns as [|n ns IH]; intros rest toSend s H Ew; pose proof H as [El Hf Es Hs He Hi Hst];
    rewrite handleWrites_S; unfold handleWrite; rewrite extendLife_unset, Ew, El by done.
  - cbn in He. replace toSend with 0 by lia. rewrite (pop_last _ _ El Hst). eexists. split; [reflexivity|].
    cbn. by rewrite app_nil_r.
  - destruct (Z.leb_spec toSend 0).
    + replace toSend with 0 by lia. rewrite (pop_last _ _ El Hst). cbn [mbind res_bind].
      rewrite handleWrites_idle by done. eexists. split; [reflexivity|]. cbn. by rewrite app_nil_r.
    + unfold sendFileInLoop. rewrite El. cbn [mbind res_bind].
      destruct (sendFile_kernel_some rest toSend n ns s H) as (k & Hk & H1 & Ew1 & E1 & Ev1); [done|].
      destruct (IH _ _ _ H1 Ew1) as (s' & E & E2 & E3 & E4 & E5). exists s'. split; [exact E|]. split_and!; try done.
      * rewrite E4, E1, <- app_assoc. f_equal. rewrite take_take_drop. f_equal. lia.
      * by rewrite E5, Ev1.
Qed.

(** A connection with nothing to send. *)
Record at_rest (s : conn) : Prop := {
  ar_list : m_writeBufferList s = [];
  ar_sendNum : m_sendNum s = 0;
  ar_mutex : m_sendNumMutex s = false;
  ar_idle : m_idleTimeout s = 0;
  ar_status : m_status s = Connected
}.

(** The call in the loop thread reaches [sendfile] at once. *)
Lemma sendFile_at_rest cb now rest toSend s :
  at_rest s -> 0 < toSend ->
  exists s1, sendFile cb now true rest toSend s = Ok (sendFile_kernel rest toSend s1) /\
    m_writeBufferList s1 = [NFile rest toSend] /\ sent s1 = sent s /\ script s1 = script s /\
    events s1 = events s /\ m_idleTimeout s1 = 0 /\ m_status s1 = Connected.
Proof.
  intros [El En Em Ei Est] Ht. unfold sendFile. rewrite (proj2 (Z.ltb_lt 0 toSend)) by done.
  cbn [mbind res_bind assert]. unfold send_in_loop, getSendNumByGuard. cbn. rewrite Em. cbn [mbind res_bind].
  rewrite En. cbn. unfold pushNode. cbn. rewrite El. cbn. unfold sendFileInLoop. cbn. eexists. by split_and!.
Qed.

(** The length that a call without one finds is that of the whole file. *)
Lemma sendFile_named_length `{NF : NamedFiles} cb now b name offset len contents s :
  open_file name = Some contents -> stat_size name = Some (zlen contents) ->
  sendFile_named cb now b name offset len s =
    sendFile cb now b (drop (Z.to_nat offset) contents) (if len =? 0 then zlen contents else len) s.
Proof. intros E1 E2. unfold sendFile_named. rewrite E1, E2. by destruct (len =? 0). Qed.

(** A part of a file that lies inside it, or the whole of a file that is
    not empty, is sent: whatever number of bytes the socket takes of each offer,
    the call and one [handleWrite] per further offer send exactly the bytes
    asked for, empty the list, end write interest and report completion once. *)
Theorem named_file_sent `{NF : NamedFiles} now name offset len contents ns s :
  open_file name = Some contents -> stat_size name = Some (zlen contents) -> at_rest s ->
  0 <= offset -> 0 <= len -> offset + (if len =? 0 then zlen contents else len) <= zlen contents ->
  contents <> [] -> script s = map Done ns -> Forall (fun n => 1 <= n) ns -> zlen contents <= total ns ->
  exists s1 s2, sendFile_named no_callbacks now true name offset len s = Ok s1 /\
    handleWrites no_callbacks now (length ns) s1 = Ok s2 /\
    sent s2 = sent s ++ take (Z.to_nat (if len =? 0 then zlen contents else len)) (drop (Z.to_nat offset) contents) /\
    m_writeBufferList s2 = [] /\ isWriting s2 = false /\ events s2 = events s ++ [EvWriteComplete].
Proof.
  intros Eo Es Har Ho Hl Hf Hc Esc Hns Ht. rewrite (sendFile_named_length _ _ _ _ _ _ contents) by done.
  assert (0 < zlen contents) by (unfold zlen; destruct contents; [done|cbn; lia]).
  set (n := if len =? 0 then _ else _) in *. assert (0 < n) by (subst n; destruct (Z.eqb_spec len 0); lia).
  destruct (sendFile_at_rest no_callbacks now (drop (Z.to_nat offset) contents) n s Har)
    as (s1 & E & El1 & Et1 & Esc1 & Ev1 & Ei1 & Est1); [done|].
  destruct ns as [|k ns]; [cbn in Ht; lia|].
  assert (sending (drop (Z.to_nat offset) contents) n (k :: ns) s1) as H1.
  { constructor; try done; [|by rewrite Esc1|lia]. unfold zlen in *. rewrite length_drop. lia. }
  destruct (sendFile_kernel_some _ _ _ _ _ H1) as (j & Hj & H2 & Ew2 & E2 & Ev2); [done|].
  destruct (sending_done _ _ _ now _ H2 Ew2) as (s2 & E3 & El3 & Ew3 & Et3 & Ev3).
  eexists _, s2. split; [exact E|]. split; [exact E3|]. split_and!; try done.
  - rewrite Et3, E2, Et1, <- app_assoc. f_equal. rewrite take_take_drop. f_equal. lia.
  - by rewrite Ev3, Ev2, Ev1.
Qed.

(** One file of five bytes. *)
#[global] Instance toy_files : NamedFiles := {|
  open_file n := if bool_decide (n = [x61]) then Some [x01; x02; x03; x04; x05] else None;
  stat_size n := if bool_decide (n = [x61]) then Some 5 else None
|}.

Definition ready (os : list outcome) : conn := set_script os connected.
Lemma ready_at_rest os : at_rest (ready os).
Proof. by constructor. Qed.

Lemma named_file_sent_witness :
  exists s1 s2, sendFile_named no_callbacks 0 true [x61] 1 3 (ready [Done 2; Done 7]) = Ok s1 /\
    handleWrites no_callbacks 0 2 s1 = Ok s2 /\
    sent s2 = [x02; x03; x04] /\ m_writeBufferList s2 = [] /\ isWriting s2 = false /\
    events s2 = [EvWriteComplete].
Proof.
  apply (named_file_sent 0 [x61] 1 3 [x01; x02; x03; x04; x05] [2; 7] (ready [Done 2; Done 7]));
    try reflexivity; try done; try (by apply ready_at_rest); repeat constructor; discriminate.
Defined.

(** An offset without a length blocks the connection.  The length is then
    the size of the whole file: what follows the offset is sent, the node goes
    on waiting for as many bytes as the offset skipped, and in no run of the
    connection, whatever is called and however the socket answers, is another
    byte sent or the node removed. *)
Theorem offset_without_length_blocks `{NF : NamedFiles} cb now name offset contents n os s :
  open_file name = Some contents -> stat_size name = Some (zlen contents) -> at_rest s ->
  0 < offset < zlen contents -> script s = Done n :: os -> zlen contents <= n -> keeps_blocked cb ->
  exists s1, sendFile_named cb now true name offset 0 s = Ok s1 /\
    sent s1 = sent s ++ drop (Z.to_nat offset) contents /\
    forall s2, rtc (conn_step cb) s1 s2 ->
      sent s2 = sent s1 /\ exists l, m_writeBufferList s2 = NFile [] offset :: l.
Proof.
  intros Eo Es Har Ho Esc Hn Hcb. rewrite (sendFile_named_length _ _ _ _ _ _ contents) by done. cbn [Z.eqb].
  destruct (sendFile_at_rest cb now (drop (Z.to_nat offset) contents) (zlen contents) s Har)
    as (s1 & E & El1 & Et1 & Esc1 & _); [lia|]. rewrite E. eexists. split; [reflexivity|].
  unfold sendFile_kernel, answer. rewrite Esc1, Esc. set (rest := drop _ contents) in *.
  assert (zlen rest = zlen contents - offset) as Hr by (unfold rest, zlen in *; rewrite length_drop; lia).
  replace (Z.max 0 (Z.min n (Z.min (zlen contents) (zlen rest)))) with (zlen rest) by lia.
  destruct (Z.eqb_spec (zlen rest) 0); [lia|]. rewrite andb_false_r. set (s2 := put_front _ _).
  assert (sent s2 = sent s ++ rest /\ blocked (sent s ++ rest, offset) s2) as [Hs2 Hb2].
  { assert (drop (Z.to_nat (zlen rest)) rest = [] /\ take (Z.to_nat (zlen rest)) rest = rest) as [Ed Et]
      by (unfold zlen; rewrite Nat2Z.id, drop_ge, take_ge by lia; done).
    unfold s2, blocked. cbn. rewrite El1, Et1, Ed, Et. split_and!; try done. exists offset, [].
    split; [f_equal; f_equal; lia|lia]. }
  split; [by destruct (isWriting s2)|]. intros s3 Hr3. apply enable_blocked in Hb2.
  destruct (run_blocked cb _ _ _ Hcb Hr3 Hb2) as (Hs3 & k & l & El3 & _ & ->).
  split; [rewrite Hs3; by destruct (isWriting s2)|]. by exists l.
Qed.

Lemma no_callbacks_blocked : keeps_blocked no_callbacks.
Proof. constructor; cbn; intros; by simplify_eq. Qed.

(** An echo server does not help either. *)
Lemma echo_callbacks_blocked : keeps_blocked echo_callbacks.
Proof.
  constructor; cbn; intros b; intros; try (by simplify_eq).
  eapply send_in_loop_blocked; [exact no_callbacks_blocked| |eassumption].
  match goal with H : blocked _ _ |- _ => bsame H end.
Qed.

Lemma offset_without_length_blocks_witness :
  exists s1, sendFile_named echo_callbacks 0 true [x61] 3 0 (ready [Done 9]) = Ok s1 /\
    sent s1 = [x04; x05] /\
    forall s2, rtc (conn_step echo_callbacks) s1 s2 ->
      sent s2 = sent s1 /\ exists l, m_writeBufferList s2 = NFile [] 3 :: l.
Proof.
  apply (offset_without_length_blocks echo_callbacks 0 [x61] 3 [x01; x02; x03; x04; x05] 9 [] (ready [Done 9]));
    [reflexivity|reflexivity|apply ready_at_rest|done|reflexivity|done|exact echo_callbacks_blocked].
Defined.

(** The other branches: a name that cannot be opened, or measured, sends
    nothing; an empty file without a length fails the assertion of the overload
    that it calls. *)
Lemma sendFile_named_errors `{NF : NamedFiles} cb now b name offset s :
  (open_file name = None -> forall len, sendFile_named cb now b name offset len s = Ok s) /\
  (stat_size name = None -> sendFile_named cb now b name offset 0 s = Ok s) /\
  (open_file name = Some [] -> stat_size name = Some 0 -> sendFile_named cb now b name offset 0 s = Fail AssertFailed).
Proof.
  unfold sendFile_named. split_and!.
  - by intros ->.
  - intros ->. by destruct (open_file name).
  - by intros -> ->.
Qed.

(** ** Without [sendfile]

    On systems other than Linux files are read into [m_fileBufferPtr] and
    written from there.  The callbacks of the user are left out. *)

Module Portable.

(** The connection; whether [m_fileBufferPtr] has been allocated; the answers
    of [read] to come (a full read once they are used up). *)
Record pconn := mkPconn { base : conn; allocated : bool; reads : list outcome }.

Definition kFileBuffer : nat := 16 * 1024.

(** [read] of a file that has [rest] left, into [count] bytes. *)
Definition read_file (rest : list byte) (count : Z) (rs : list outcome) : outcome * list outcome :=
  match rs with
  | [] => (Done (Z.min count (zlen rest)), [])
  | Done n :: rs => (Done (Z.min (Z.max 1 n) (Z.min count (zlen rest))), rs)
  | Err e :: rs => (Err e, rs)
  end.

Definition enable (s : conn) : conn := if isWriting s then s else enableWriting s.

(** The loop of the third part of [sendFileInLoop]. *)
Fixpoint file_loop (fuel : nat) (rest : list byte) (toSend : Z) (rs : list outcome) (s : conn)
    : res (conn * list outcome) :=
  if 0 <? toSend then
    match fuel with
    | O => Fail Diverged
    | S fuel =>
        let '(r, rs) := read_file rest (Z.min (zlen (m_fileBufferPtr s)) toSend) rs in
        match r with
        | Err _ => Ok (if isWriting s then disableWriting s else s, rs)
        | Done n =>
            if n <=? 0 then Ok (s, rs)
            else
              let data := take (Z.to_nat n) rest in
              let s := set_fileBuffer (data ++ drop (Z.to_nat n) (m_fileBufferPtr s)) s in
              let '(o, s) := writeInLoop data s in
              match o with
              | Done k =>
                  let rest := drop (Z.to_nat k) rest in
                  let s := put_front (NFile rest (toSend - k)) s in
                  if k <? n then Ok (enable s, rs) else file_loop fuel rest (toSend - k) rs s
              | Err e => Ok (if WriteSocketError e then set_fatal true s else enable s, rs)
              end
        end
    end
  else Ok (enable s, rs).

(** [sendFileInLoop], for the front of the list. *)
Definition p_sendFileInLoop (p : pconn) : res pconn :=
  let s := base p in
  match m_writeBufferList s with
  | NStream chunks toSend :: _ =>
      let s := if allocated p then s else set_fileBuffer [] s in
      s ← stream_loop (S (S (length chunks))) chunks toSend s;
      Ok (mkPconn s true (reads p))
  | NFile rest toSend :: _ =>
      let s := if allocated p then s else set_fileBuffer (replicate kFileBuffer x00) s in
      x ← file_loop (S (Z.to_nat toSend)) rest toSend (reads p) s;
      Ok (mkPconn x.1 true x.2)
  | _ => Fail AssertFailed
  end.

Definition with_base (s : conn) (p : pconn) : pconn := mkPconn s (allocated p) (reads p).

Definition p_sendNext (p : pconn) : res pconn :=
  match m_writeBufferList (base p) with
  | [] => Fail AssertFailed
  | NBuf b :: _ => Ok (with_base (write_front b (base p)) p)
  | _ => p_sendFileInLoop p
  end.

Definition p_pop_finished (p : pconn) : res pconn :=
  let s := set_list (tail (m_writeBufferList (base p))) (base p) in
  match m_writeBufferList s with
  | [] =>
      let s := log EvWriteComplete (disableWriting s) in
      Ok (with_base (if bool_decide (m_status s = Disconnecting) then closeWrite s else s) p)
  | _ => p_sendNext (with_base s p)
  end.

Definition p_handleWrite (now : Z) (p : pconn) : res pconn :=
  let p := with_base (extendLife now (base p)) p in
  if isWriting (base p) then
    match m_writeBufferList (base p) with
    | [] => Fail AssertFailed
    | NBuf b :: _ =>
        if bool_decide (b = []) then p_pop_finished p
        else Ok (with_base (write_front b (base p)) p)
    | NFile _ toSend :: _ | NStream _ toSend :: _ =>
        if toSend <=? 0 then p_pop_finished p else p_sendFileInLoop p
    end
  else Ok p.

(** A file or stream reaches the loop. *)
Definition p_pushNode (n : node) (p : pconn) : res pconn :=
  let s := set_handled (handled (base p) ++ [node_bytes n]) (base p) in
  let p := with_base (set_list (m_writeBufferList s ++ [n]) s) p in
  if bool_decide (length (m_writeBufferList (base p)) = 1%nat) then p_sendFileInLoop p else Ok p.

(** *** Files are sent *)

Lemma fresh_buffer : zlen (replicate kFileBuffer x00) = 16384.
Proof. unfold zlen. by rewrite length_replicate. Qed.

Lemma enable_front s : m_writeBufferList (enable s) = m_writeBufferList s.
Proof. unfold enable. by destruct (isWriting s). Qed.
Lemma enable_sent s : sent (enable s) = sent s.
Proof. unfold enable. by destruct (isWriting s). Qed.
Lemma enable_buffer s : m_fileBufferPtr (enable s) = m_fileBufferPtr s.
Proof. unfold enable. by destruct (isWriting s). Qed.

(** The first [k] bytes of what was left have been sent. *)
Definition advanced (k : Z) (rest : list byte) (toSend : Z) (l : list node) (s s' : conn) : Prop :=
  0 <= k <= zlen rest /\ m_writeBufferList s' = NFile (drop (Z.to_nat k) rest) (toSend - k) :: l /\
  sent s' = sent s ++ take (Z.to_nat k) rest /\ zlen (m_fileBufferPtr s') = zlen (m_fileBufferPtr s).

Lemma advanced_none rest toSend l s s' :
  m_writeBufferList s' = NFile rest toSend :: l -> sent s' = sent s ->
  zlen (m_fileBufferPtr s') = zlen (m_fileBufferPtr s) -> advanced 0 rest toSend l s s'.
Proof.
  intros E1 E2 E3. pose proof (zlen_nonneg rest). unfold advanced. rewrite E1, E2, Z.sub_0_r. cbn. rewrite app_nil_r. by split_and!.
Qed.

Lemma advanced_trans k j rest toSend l s s1 s2 :
  advanced k rest toSend l s s1 -> advanced j (drop (Z.to_nat k) rest) (toSend - k) l s1 s2 ->
  advanced (k + j) rest toSend l s s2.
Proof.
  intros (Hk & El & Es & Eb) (Hj & El2 & Es2 & Eb2). unfold advanced, zlen in *. rewrite length_drop in Hj.
  split; [lia|]. rewrite El2, Es2, Es, Eb2, Eb, drop_drop, <- app_assoc, take_take_drop.
  replace (Z.to_nat k + Z.to_nat j)%nat with (Z.to_nat (k + j)) by lia.
  split; [f_equal; f_equal; lia|done].
Qed.

(** One turn that writes: [n] bytes were read, [k] of them taken. *)
Lemma turn_advanced n k rest toSend l s os buf :
  m_writeBufferList s = NFile rest toSend :: l -> 0 <= k <= n -> n <= zlen rest -> n <= zlen (m_fileBufferPtr s) ->
  buf = take (Z.to_nat n) rest ++ drop (Z.to_nat n) (m_fileBufferPtr s) ->
  advanced k rest toSend l s
    (put_front (NFile (drop (Z.to_nat k) rest) (toSend - k))
      (set_sent (sent s ++ take (Z.to_nat k) (take (Z.to_nat n) rest)) (m_bytesSent s ⊞ k) (set_script os (set_fileBuffer buf s)))).
Proof.
  intros El Hk Hn Hb ->. unfold advanced, put_front. cbn. rewrite El, take_take, Nat.min_l by lia.
  split_and!; try done; try lia. unfold zlen in *. rewrite length_app, length_take, length_drop. lia.
Qed.

Lemma writeInLoop_cases data s :
  (exists e os, writeInLoop data s = (Err e, set_script os s)) \/
  (exists k os, writeInLoop data s = (Done k, set_sent (sent s ++ take (Z.to_nat k) data) (m_bytesSent s ⊞ k) (set_script os s)) /\
     0 <= k <= zlen data).
Proof.
  pose proof (zlen_nonneg data). unfold writeInLoop, answer. destruct (script s) as [|[n|e] os] eqn:Es.
  - left. exists EAGAIN, []. rewrite <- Es. by destruct s.
  - right. eexists _, os. split; [reflexivity|]. lia.
  - left. by exists e, os.
Qed.

Lemma read_file_bounds rest count rs n rs' :
  read_file rest count rs = (Done n, rs') -> n <= count /\ n <= zlen rest.
Proof. destruct rs as [|[m|e] rs]; cbn; intros; simplify_eq; lia. Qed.

(** Whatever the file and the socket answer, the loop ends within its fuel and
    the file has advanced by what was sent. *)
Lemma file_loop_advanced fuel rest toSend rs s l :
  (Z.to_nat toSend < fuel)%nat -> m_writeBufferList s = NFile rest toSend :: l ->
  exists s' rs' k, file_loop fuel rest toSend rs s = Ok (s', rs') /\ k <= Z.max 0 toSend /\ advanced k rest toSend l s s'.
Proof.
  revert rest toSend rs s. induction fuel as [|fuel IH]; intros rest toSend rs s Hf El; [lia|]. cbn [file_loop].
  assert (forall s1, m_writeBufferList s1 = m_writeBufferList s -> sent s1 = sent s -> zlen (m_fileBufferPtr s1) = zlen (m_fileBufferPtr s) ->
    forall rs1 : list outcome, exists s' rs' k, Ok (s1, rs1) = Ok (s', rs') /\ k <= Z.max 0 toSend /\ advanced k rest toSend l s s') as Hnone.
  { intros s1 E1 E2 E3 rs1. exists s1, rs1, 0. split; [done|]. split; [lia|]. apply advanced_none; congruence. }
  destruct (Z.ltb_spec 0 toSend) as [Ht|Ht]; [|by apply Hnone; rewrite ?enable_front, ?enable_sent, ?enable_buffer].
  destruct (read_file rest _ rs) as [[n|e] rs1] eqn:Er; [|apply Hnone; by destruct (isWriting s)].
  destruct (Z.leb_spec n 0); [by apply Hnone|]. apply read_file_bounds in Er as [Hc Hr].
  assert (zlen (take (Z.to_nat n) rest) = n) as Hd by (unfold zlen in *; rewrite length_take; lia).
  set (buf := take (Z.to_nat n) rest ++ _). assert (zlen buf = zlen (m_fileBufferPtr s)) as Hbuf.
  { unfold buf, zlen in *. rewrite length_app, length_drop. lia. }
  destruct (writeInLoop_cases (take (Z.to_nat n) rest) (set_fileBuffer buf s)) as [(e & os & E)|(k & os & E & Hk)];
    rewrite E; cbv beta iota zeta; clear E.
  { apply Hnone; destruct (WriteSocketError e); rewrite ?enable_front, ?enable_sent, ?enable_buffer; done. }
  rewrite Hd in Hk.
  pose proof (turn_advanced n k rest toSend l s os buf El Hk Hr ltac:(lia) eq_refl) as Hadv.
  cbn [sent m_bytesSent set_fileBuffer] in *. set (s2 := put_front _ _) in *. destruct (Z.ltb_spec k n).
  - exists (enable s2), rs1, k. split; [done|]. split; [lia|]. revert Hadv. unfold advanced.
    by rewrite enable_front, enable_sent, enable_buffer.
  - destruct (IH (drop (Z.to_nat k) rest) (toSend - k) rs1 s2) as (s' & rs' & j & E & Hj & Ha); [lia|apply Hadv|].
    exists s', rs', (k + j). split; [exact E|]. split; [lia|]. by eapply advanced_trans.
Qed.

(** A socket that takes every offer, and a file that can be read. *)
Definition readable (rs : list outcome) : Prop := Forall (fun o => exists n, o = Done n) rs.

Lemma read_file_some rest count rs :
  readable rs -> 0 < count -> rest <> [] ->
  exists n rs', read_file rest count rs = (Done n, rs') /\ 1 <= n <= count /\ n <= zlen rest /\ readable rs'.
Proof.
  intros Hrs Hc Hr. assert (0 < zlen rest) by (unfold zlen; destruct rest; [done|cbn; lia]).
  destruct Hrs as [|o rs [n ->] Hrs]; cbn; eexists _, _; (split; [reflexivity|]); (split; [lia|]); split; try lia; [constructor|done].
Qed.

Lemma writeInLoop_willing data s m j :
  script s = repeat (Done m) (S j) -> zlen data <= m ->
  writeInLoop data s = (Done (zlen data), set_sent (sent s ++ data) (m_bytesSent s ⊞ zlen data) (set_script (repeat (Done m) j) s)).
Proof.
  intros Es Hm. pose proof (zlen_nonneg data). unfold writeInLoop, answer. rewrite Es. cbn [repeat].
  rewrite Z.min_r, Z.max_r by lia. rewrite take_ge by (unfold zlen; lia). done.
Qed.

Lemma file_loop_willing fuel rest toSend rs s l m j :
  (Z.to_nat toSend < fuel)%nat -> m_writeBufferList s = NFile rest toSend :: l -> 0 <= toSend <= zlen rest ->
  0 < zlen (m_fileBufferPtr s) <= m -> readable rs -> script s = repeat (Done m) j -> (Z.to_nat toSend <= j)%nat ->
  exists s' rs' j', file_loop fuel rest toSend rs s = Ok (s', rs') /\ advanced toSend rest toSend l s s' /\
    isWriting s' = true /\ script s' = repeat (Done m) j' /\ (j <= j' + Z.to_nat toSend)%nat /\ readable rs' /\
    m_idleTimeout s' = m_idleTimeout s.
Proof.
  revert rest toSend rs s j. induction fuel as [|fuel IH]; intros rest toSend rs s j Hf El Ht Hb Hrs Es Hj; [lia|]. cbn [file_loop].
  destruct (Z.ltb_spec 0 toSend) as [Hp|Hp].
  2:{ replace toSend with 0 in * by lia. exists (enable s), rs, j. split; [done|].
      split; [apply advanced_none; by rewrite ?enable_front, ?enable_sent, ?enable_buffer|].
      unfold enable. destruct (isWriting s) eqn:Ew; rewrite ?Ew; split_and!; try done; lia. }
  assert (rest <> []) by (intros ->; unfold zlen in Ht; cbn in Ht; lia).
  destruct (read_file_some rest (Z.min (zlen (m_fileBufferPtr s)) toSend) rs Hrs) as (n & rs1 & E & Hn & Hr & Hrs1); [lia|done|].
  rewrite E. clear E. destruct (Z.leb_spec n 0); [lia|].
  assert (zlen (take (Z.to_nat n) rest) = n) as Hd by (unfold zlen in *; rewrite length_take; lia).
  set (buf := take (Z.to_nat n) rest ++ _). destruct j as [|j]; [lia|].
  rewrite (writeInLoop_willing _ _ m j) by (cbn; first [done|lia]). cbv beta iota zeta. rewrite Hd.
  destruct (Z.ltb_spec n n); [lia|].
  pose proof (turn_advanced n n rest toSend l s (repeat (Done m) j) buf El ltac:(lia) Hr ltac:(lia) eq_refl) as Hadv.
  rewrite (take_ge (take _ rest)) in Hadv by (unfold zlen in Hd; lia). cbn [sent m_bytesSent set_fileBuffer] in *.
  set (s2 := put_front _ _) in *.
  destruct (IH (drop (Z.to_nat n) rest) (toSend - n) rs1 s2 j) as (s' & rs' & j' & E & Ha & Hw & Es' & Hj' & Hrs' & Hi);
    [lia|apply Hadv|unfold zlen in *; rewrite length_drop; lia| |done|done|lia|].
  { destruct Hadv as (_ & _ & _ & ->). lia. }
  exists s', rs', j'. split; [exact E|]. split_and!; try done; [|lia].
  replace toSend with (n + (toSend - n)) at 1 by lia. by eapply advanced_trans.
Qed.

(** C35. Files are sent exactly without [sendfile] too.  Whatever [read] and
    [write] answer, the loop ends, what it sent is the next part of the file and
    the node stands for the rest; with a buffer that no stream has emptied, a
    file that can be read and a socket that takes its offers, the whole part
    asked for is sent and write interest is on, so that the node will be
    removed. *)
Theorem portable_file_exact p rest toSend l :
  m_writeBufferList (base p) = NFile rest toSend :: l ->
  exists p' k, p_sendFileInLoop p = Ok p' /\ allocated p' = true /\ 0 <= k <= zlen rest /\ k <= Z.max 0 toSend /\
    m_writeBufferList (base p') = NFile (drop (Z.to_nat k) rest) (toSend - k) :: l /\
    sent (base p') = sent (base p) ++ take (Z.to_nat k) rest /\
    (forall m j, 0 <= toSend <= zlen rest -> readable (reads p) ->
       (allocated p = true -> 0 < zlen (m_fileBufferPtr (base p)) <= m) -> 16384 <= m ->
       script (base p) = repeat (Done m) j -> (Z.to_nat toSend <= j)%nat ->
       k = toSend /\ isWriting (base p') = true).
Proof.
  intros El. unfold p_sendFileInLoop. rewrite El. cbv zeta. set (s := if allocated p then _ else _).
  assert (m_writeBufferList s = NFile rest toSend :: l) as El' by (unfold s; by destruct (allocated p)).
  assert (sent s = sent (base p) /\ script s = script (base p)) as [Et Esc] by (unfold s; by destruct (allocated p)).
  destruct (file_loop_advanced (S (Z.to_nat toSend)) rest toSend (reads p) s l) as (s' & rs' & k & E & Hk & Ha); [lia|done|].
  exists (mkPconn s' true rs'), k. rewrite E. pose proof Ha as (Hz & El2 & Es2 & _).
  split; [done|]. cbn [base allocated reads fst snd]. split_and!; try done; try lia; [by rewrite <- Et|].
  intros m j Ht Hrs Hb Hm Hsc Hj.
  destruct (file_loop_willing (S (Z.to_nat toSend)) rest toSend (reads p) s l m j) as (s2 & rs2 & j2 & E2 & Ha2 & Hw & _);
    try done; [lia| |by rewrite Esc|].
  { unfold s. destruct (allocated p); [by apply Hb|]. cbn [m_fileBufferPtr set_fileBuffer]. rewrite fresh_buffer. lia. }
  rewrite E in E2. injection E2 as -> ->. split; [|done]. destruct Ha2 as (_ & El3 & _). rewrite El2 in El3. injection El3. lia.
Qed.

(** A file of which the first read gets two bytes. *)
Definition three_bytes : pconn :=
  mkPconn (set_list [NFile [x01; x02; x03] 3] (ready (repeat (Done 20000) 3))) false [Done 2].

Lemma portable_file_exact_witness :
  exists p' k, p_sendFileInLoop three_bytes = Ok p' /\ allocated p' = true /\ 0 <= k <= 3 /\ k <= 3 /\
    m_writeBufferList (base p') = [NFile (drop (Z.to_nat k) [x01; x02; x03]) (3 - k)] /\
    sent (base p') = take (Z.to_nat k) [x01; x02; x03] /\
    k = 3 /\ isWriting (base p') = true.
Proof.
  destruct (portable_file_exact three_bytes [x01; x02; x03] 3 [] eq_refl) as (p' & k & H1 & H2 & H3 & H4 & H5 & H6 & H7).
  exists p', k. split; [exact H1|]. split; [exact H2|]. split; [exact H3|]. split; [exact H4|].
  split; [exact H5|]. split; [exact H6|]. refine (H7 20000 3%nat _ _ _ _ _ _).
  - split; vm_compute; discriminate.
  - repeat constructor. by exists 2.
  - discriminate.
  - vm_compute. discriminate.
  - reflexivity.
  - change (Z.to_nat 3) with 3%nat. lia.
Defined.

(** *** The buffer that files and streams share *)

Lemma stream_loop_fetch fuel c cs toSend s :
  m_fileBufferPtr s = [] -> c <> [] -> 0 < toSend ->
  stream_loop (S fuel) (c :: cs) toSend s = stream_loop (S fuel) cs toSend (set_fileBuffer c s).
Proof.
  intros Eb Hc Ht. cbn [stream_loop]. rewrite (proj2 (Z.ltb_lt 0 toSend)) by done. cbn [orb].
  unfold stream_fetch. rewrite Eb. cbn [m_fileBufferPtr set_fileBuffer].
  rewrite (bool_decide_true ([] = [])), !(bool_decide_false (c = [])) by done. done.
Qed.

Lemma stream_loop_write fuel chunks toSend s m j :
  m_fileBufferPtr s <> [] -> 0 < toSend -> script s = repeat (Done m) (S j) -> zlen (m_fileBufferPtr s) <= m ->
  stream_loop (S fuel) chunks toSend s =
    stream_loop fuel chunks toSend (set_fileBuffer [] (set_sent (sent s ++ m_fileBufferPtr s)
      (m_bytesSent s ⊞ zlen (m_fileBufferPtr s)) (set_script (repeat (Done m) j) (put_front (NStream chunks toSend) s)))).
Proof.
  intros Eb Ht Es Hm. cbn [stream_loop]. rewrite (proj2 (Z.ltb_lt 0 toSend)) by done. cbn [orb].
  unfold stream_fetch. rewrite (bool_decide_false (m_fileBufferPtr s = [])) by done.
  cbn [m_fileBufferPtr put_front set_list]. rewrite bool_decide_false by done.
  rewrite (writeInLoop_willing _ (put_front _ s) m j) by done. cbv beta iota. rewrite Z.ltb_irrefl. done.
Qed.

(** What a stream leaves when it has ended. *)
Definition stream_over (out : list byte) (s s' : conn) : Prop :=
  sent s' = sent s ++ out /\ m_fileBufferPtr s' = [] /\ isWriting s' = true /\ m_idleTimeout s' = m_idleTimeout s /\
  exists chunks, m_writeBufferList s' = NStream chunks 0 :: tail (m_writeBufferList s).

Lemma stream_loop_end fuel chunks toSend s :
  m_writeBufferList s <> [] -> m_fileBufferPtr s = [] -> 0 < toSend -> stream_bytes chunks = [] ->
  exists s', stream_loop (S fuel) chunks toSend s = Ok s' /\ stream_over [] s s'.
Proof.
  intros Hl Eb Ht Hc. cbn [stream_loop]. rewrite (proj2 (Z.ltb_lt 0 toSend)) by done. cbn [orb].
  unfold stream_fetch. rewrite Eb, (bool_decide_true ([] = [])) by done.
  destruct chunks as [|[|x c] cs]; [| |done].
  all: cbn [m_fileBufferPtr put_front set_list set_fileBuffer]; rewrite ?Eb; rewrite !bool_decide_true by done.
  all: eexists; split; [reflexivity|]; unfold stream_over, put_front; cbn [isWriting set_list set_fileBuffer].
  all: destruct (m_writeBufferList s) eqn:El; [done|]; destruct (isWriting s) eqn:Ew; cbn; rewrite ?El, ?Ew, ?app_nil_r.
  all: split_and!; try done; by eexists.
Qed.

Lemma stream_loop_empty chunks fuel toSend s m j :
  m_writeBufferList s <> [] -> m_fileBufferPtr s = [] -> Forall (fun c => zlen c <= m) chunks ->
  script s = repeat (Done m) j -> (length chunks <= j)%nat -> 0 < toSend -> (length chunks < fuel)%nat ->
  exists s', stream_loop fuel chunks toSend s = Ok s' /\ stream_over (stream_bytes chunks) s s'.
Proof.
  revert fuel s j. induction chunks as [|c cs IH]; intros [|fuel] s j Hl Eb Hc Es Hj Ht Hf; try (cbn in Hf; lia).
  - by apply stream_loop_end.
  - destruct c as [|x c]; [by apply stream_loop_end|]. apply Forall_cons in Hc as [Hx Hc]. cbn in Hj, Hf.
    destruct j as [|j]; [lia|]. rewrite stream_loop_fetch by done.
    rewrite (stream_loop_write _ _ _ _ m j) by done.
    match goal with |- context [stream_loop fuel cs toSend ?y] => destruct (IH fuel y j) as (s' & E & E1 & E2 & E3 & E4 & ch & E5) end;
      try done; try lia; [unfold put_front; cbn; by destruct (m_writeBufferList s)|].
    exists s'. split; [exact E|]. unfold stream_over. cbn in E1. rewrite E1, <- app_assoc. split_and!; try done.
    exists ch. rewrite E5. f_equal. unfold put_front. cbn. by destruct (m_writeBufferList s).
Qed.

Lemma stream_loop_full chunks fuel toSend s m j :
  m_writeBufferList s <> [] -> m_fileBufferPtr s <> [] -> Forall (fun c => zlen c <= m) chunks ->
  zlen (m_fileBufferPtr s) <= m -> script s = repeat (Done m) (S j) -> (length chunks <= j)%nat -> 0 < toSend ->
  (length chunks < fuel)%nat ->
  exists s', stream_loop (S fuel) chunks toSend s = Ok s' /\ stream_over (m_fileBufferPtr s ++ stream_bytes chunks) s s'.
Proof.
  intros Hl Eb Hc Hm Es Hj Ht Hf. rewrite (stream_loop_write _ _ _ _ m j) by done.
  match goal with |- context [stream_loop fuel chunks toSend ?y] =>
    destruct (stream_loop_empty chunks fuel toSend y m j) as (s' & E & E1 & E2 & E3 & E4 & ch & E5) end;
    try done; [unfold put_front; cbn; by destruct (m_writeBufferList s)|].
  exists s'. split; [exact E|]. unfold stream_over. cbn in E1. rewrite E1, <- app_assoc. split_and!; try done.
  exists ch. rewrite E5. f_equal. unfold put_front. cbn. by destruct (m_writeBufferList s).
Qed.

(** A connection at rest whose socket takes [m] bytes at each of [j] offers. *)
Definition fresh (m : Z) (j : nat) (rs : list outcome) : pconn := mkPconn (ready (repeat (Done m) j)) false rs.

(** [handleWrite] again and again. *)
Fixpoint p_handleWrites (now : Z) (n : nat) (p : pconn) : res pconn :=
  match n with
  | O => Ok p
  | S n => p ← p_handleWrite now p; p_handleWrites now n p
  end.

Lemma push_file file m j rs :
  16384 <= m -> (length file <= j)%nat -> readable rs ->
  exists s rs', p_pushNode (NFile file (zlen file)) (fresh m j rs) = Ok (mkPconn s true rs') /\
    m_writeBufferList s = [NFile [] 0] /\ sent s = file /\ isWriting s = true /\ m_idleTimeout s = 0 /\
    zlen (m_fileBufferPtr s) = 16384 /\ exists i, script s = repeat (Done m) i /\ (j <= i + length file)%nat.
Proof.
  intros Hm Hj Hrs. pose proof (zlen_nonneg file).
  assert (Z.to_nat (zlen file) = length file) as Hz by (unfold zlen; lia).
  unfold p_pushNode. cbv zeta. rewrite bool_decide_true by done. unfold p_sendFileInLoop. cbn [base with_base set_list m_writeBufferList fresh ready].
  cbn [m_writeBufferList set_handled set_script connected set_status TcpConnection_new app allocated with_base fresh].
  set (s0 := set_fileBuffer _ _).
  destruct (file_loop_willing (S (Z.to_nat (zlen file))) file (zlen file) rs s0 [] m j)
    as (s & rs' & i & E & (_ & El & Et & Eb) & Hw & Esc & Hi & _ & Eid); try done; try lia.
  change (m_writeBufferList (ready _)) with (@nil node). cbn [app reads with_base fresh].
  change (m_writeBufferList (ready _)) with (@nil node) in s0. cbn [app] in s0. fold s0. rewrite E. exists s, rs'. split; [done|].
  rewrite Hz, drop_all in El. rewrite Hz, take_ge in Et by lia. split; [by rewrite El, Z.sub_diag|]. split; [done|].
  split; [done|]. split; [done|]. split; [rewrite Eb; unfold s0; cbn [m_fileBufferPtr set_fileBuffer]; apply fresh_buffer|].
  exists i. split; [done|lia].
Qed.

(** A second node waits behind the first. *)
Lemma push_behind n x l p :
  m_writeBufferList (base p) = x :: l ->
  exists s, p_pushNode n p = Ok (with_base s p) /\ m_writeBufferList s = x :: l ++ [n] /\ sent s = sent (base p) /\
    isWriting s = isWriting (base p) /\ m_idleTimeout s = m_idleTimeout (base p) /\ script s = script (base p) /\
    m_fileBufferPtr s = m_fileBufferPtr (base p).
Proof.
  intros El. unfold p_pushNode. cbv zeta.
  rewrite bool_decide_false by (cbn [base with_base m_writeBufferList set_list set_handled]; rewrite El, length_app; cbn; lia).
  eexists. split; [reflexivity|]. cbn [base with_base m_writeBufferList set_list set_handled]. by rewrite El.
Qed.

Lemma pop_to_next now p x y l :
  m_writeBufferList (base p) = x :: y :: l -> isWriting (base p) = true -> m_idleTimeout (base p) = 0 ->
  match x with NFile _ t | NStream _ t => t = 0 | NBuf b => b = [] end -> isFile y = true ->
  p_handleWrite now p = p_sendFileInLoop (with_base (set_list (y :: l) (base p)) p).
Proof.
  intros El Ew Ei Hx Hy. unfold p_handleWrite. rewrite (extendLife_unset now (base p)) by done. cbn [base with_base].
  rewrite Ew, El. destruct x as [b|? t|? t]; subst; cbn [Z.leb Z.compare bool_decide decide decide_rel list_eq_nil_dec];
    unfold p_pop_finished; cbn [base with_base]; rewrite El; cbn [tail m_writeBufferList set_list];
    unfold p_sendNext; cbn [base with_base m_writeBufferList set_list]; by destruct y.
Qed.

Lemma push_stream chunks m j rs :
  Forall (fun c => zlen c <= m) chunks -> (length chunks <= j)%nat ->
  exists s, p_pushNode (NStream chunks 1) (fresh m j rs) = Ok (mkPconn s true rs) /\
    stream_over (stream_bytes chunks) (set_list [NStream chunks 1] connected) s.
Proof.
  intros Hc Hj. unfold p_pushNode. cbv zeta. rewrite bool_decide_true by done. unfold p_sendFileInLoop.
  cbn [base with_base m_writeBufferList set_list set_handled]. change (m_writeBufferList (base (fresh _ _ _))) with (@nil node).
  cbn [app allocated with_base fresh reads].
  match goal with |- context [stream_loop ?f chunks 1 ?x] => destruct (stream_loop_empty chunks f 1 x m j) as (s & E & H) end;
    try done; [lia|].
  rewrite E. exists s. split; [done|]. exact H.
Qed.

(** With an empty buffer [read] is asked for nothing. *)
Lemma empty_buffer_stuck p file k l :
  allocated p = true -> m_fileBufferPtr (base p) = [] -> m_writeBufferList (base p) = NFile file k :: l -> 0 < k ->
  readable (reads p) -> exists rs, p_sendFileInLoop p = Ok (mkPconn (base p) true rs) /\ readable rs.
Proof.
  intros Ha Eb El Hk Hrs. unfold p_sendFileInLoop. rewrite El, Ha. cbv zeta. cbn [file_loop].
  rewrite (proj2 (Z.ltb_lt 0 k)) by done. rewrite Eb. change (zlen []) with 0. rewrite Z.min_l by lia.
  pose proof (zlen_nonneg file). destruct Hrs as [|o rs [n ->] Hrs]; cbn [read_file].
  - rewrite Z.min_l by lia. cbn. exists []. split; [done|constructor].
  - rewrite (Z.min_l 0) by lia. destruct (Z.leb_spec (Z.min (Z.max 1 n) 0) 0); [|lia]. cbn. by exists rs.
Qed.

Lemma stuck_stays now n p file k l :
  allocated p = true -> m_fileBufferPtr (base p) = [] -> m_writeBufferList (base p) = NFile file k :: l -> 0 < k ->
  m_idleTimeout (base p) = 0 -> readable (reads p) ->
  exists rs, p_handleWrites now n p = Ok (mkPconn (base p) true rs) /\ readable rs.
Proof.
  revert p. induction n as [|n IH]; intros p Ha Eb El Hk Ei Hrs.
  - exists (reads p). split; [|done]. cbn. by rewrite <- Ha; destruct p.
  - cbn [p_handleWrites]. unfold p_handleWrite. rewrite extendLife_unset by done. cbn [base with_base].
    destruct (isWriting (base p)).
    + rewrite El. destruct (Z.leb_spec k 0); [lia|].
      destruct (empty_buffer_stuck (with_base (base p) p) file k l) as (rs & E & Hr); try done.
      rewrite E. by apply (IH (mkPconn (base p) true rs)).
    + by apply (IH (with_base (base p) p)).
Qed.

(** Without [sendfile], files and streams break each other, because they
    share [m_fileBufferPtr] and neither leaves it as the other expects it.  A
    stream that follows a file first sends the 16384 bytes of the buffer that
    the file was read into, between the two.  A file that follows a stream is
    never read: the buffer has size 0, [read] is asked for 0 bytes (at the
    address of an element that does not exist, but it stores nothing), and
    however often [handleWrite] runs, nothing of the file is sent. *)
Theorem shared_buffer_breaks now file chunks m j rs n :
  file <> [] -> readable rs -> 16384 <= m -> Forall (fun c => zlen c <= m) chunks ->
  (length file + length chunks < j)%nat ->
  (exists p1 p2 p3 b, p_pushNode (NFile file (zlen file)) (fresh m j rs) = Ok p1 /\
     p_pushNode (NStream chunks 1) p1 = Ok p2 /\ p_handleWrite now p2 = Ok p3 /\
     zlen b = 16384 /\ sent (base p3) = file ++ b ++ stream_bytes chunks) /\
  (exists p1 p2 p3 p4, p_pushNode (NStream chunks 1) (fresh m j rs) = Ok p1 /\
     p_pushNode (NFile file (zlen file)) p1 = Ok p2 /\ p_handleWrite now p2 = Ok p3 /\
     p_handleWrites now n p3 = Ok p4 /\
     sent (base p4) = stream_bytes chunks /\ m_writeBufferList (base p4) = [NFile file (zlen file)]).
Proof.
  intros Hf Hrs Hm Hc Hj. split.
  - destruct (push_file file m j rs) as (s1 & rs1 & E1 & El1 & Es1 & Ew1 & Ei1 & Eb1 & i & Esc1 & Hi); [done|lia|done|].
    destruct (push_behind (NStream chunks 1) (NFile [] 0) [] (mkPconn s1 true rs1) El1)
      as (s2 & E2 & El2 & Es2 & Ew2 & Ei2 & Esc2 & Eb2). cbn [base app] in *.
    assert (m_fileBufferPtr s2 <> []) by (rewrite Eb2; intros E0; rewrite E0 in Eb1; done).
    destruct i as [|i]; [lia|].
    destruct (stream_loop_full chunks (S (length chunks)) 1 (set_list [NStream chunks 1] s2) m i)
      as (s3 & E3 & H3 & _); cbn [m_writeBufferList m_fileBufferPtr set_list script]; try done; try lia; try congruence.
    exists (mkPconn s1 true rs1), (mkPconn s2 true rs1), (mkPconn s3 true rs1), (m_fileBufferPtr s2).
    split; [exact E1|]. split; [exact E2|]. split; [|split; [congruence|]].
    + rewrite (pop_to_next now _ (NFile [] 0) (NStream chunks 1) []); cbn [base]; try done; try congruence.
      unfold p_sendFileInLoop. cbn [base with_base m_writeBufferList set_list allocated reads]. by rewrite E3.
    + cbn [base]. rewrite H3. cbn [sent set_list m_fileBufferPtr]. by rewrite Es2, Es1.
  - destruct (push_stream chunks m j rs) as (s1 & E1 & Es1 & Eb1 & Ew1 & Ei1 & ch & El1); [done|lia|].
    destruct (push_behind (NFile file (zlen file)) (NStream ch 0) [] (mkPconn s1 true rs) El1)
      as (s2 & E2 & El2 & Es2 & Ew2 & Ei2 & _ & Eb2). cbn [base app] in *.
    assert (0 < zlen file) by (unfold zlen; destruct file; [done|cbn; lia]).
    change (m_idleTimeout s1 = 0) in Ei1. change (sent s1 = stream_bytes chunks) in Es1.
    set (p := with_base (set_list [NFile file (zlen file)] s2) (mkPconn s1 true rs)).
    destruct (empty_buffer_stuck p file (zlen file) []) as (rs3 & E3 & Hr3); try done; [cbn; congruence|].
    destruct (stuck_stays now n (mkPconn (base p) true rs3) file (zlen file) []) as (rs4 & E4 & _); try done;
      [cbn; congruence|cbn; congruence|].
    exists (mkPconn s1 true rs), (mkPconn s2 true rs), (mkPconn (base p) true rs3), (mkPconn (base p) true rs4).
    split; [exact E1|]. split; [exact E2|]. split.
    + rewrite (pop_to_next now _ (NStream ch 0) (NFile file (zlen file)) []); cbn [base]; [exact E3|try done; congruence..].
    + split; [exact E4|]. split; [|done]. cbn [base]. unfold p. cbn [base with_base sent set_list]. by rewrite Es2, Es1.
Qed.

Lemma shared_buffer_breaks_witness :
  (exists p1 p2 p3 b, p_pushNode (NFile [x01] 1) (fresh 16384 9 []) = Ok p1 /\
     p_pushNode (NStream [[x02]; [x03]] 1) p1 = Ok p2 /\ p_handleWrite 0 p2 = Ok p3 /\
     zlen b = 16384 /\ sent (base p3) = [x01] ++ b ++ [x02; x03]) /\
  (exists p1 p2 p3 p4, p_pushNode (NStream [[x02]; [x03]] 1) (fresh 16384 9 []) = Ok p1 /\
     p_pushNode (NFile [x01] 1) p1 = Ok p2 /\ p_handleWrite 0 p2 = Ok p3 /\
     p_handleWrites 0 100 p3 = Ok p4 /\
     sent (base p4) = [x02; x03] /\ m_writeBufferList (base p4) = [NFile [x01] 1]).
Proof.
  exact (shared_buffer_breaks 0 [x01] [[x02]; [x03]] 16384 9 [] 100 ltac:(discriminate) ltac:(constructor)
    ltac:(lia) ltac:(repeat constructor; discriminate) ltac:(cbn; lia)).
Defined.

End Portable.
