(* ===== verification/TimingWheel.v ===== *)
(** * The timing wheel: [netpoll/net/inner/timing_wheel.{h,cc}]

    Task queues of growing coarseness: queue [i] holds one bucket per [B^i]
    ticks.  An entry with a long delay goes into a coarse queue, wrapped in a
    [CallbackEntry] whose destructor moves it on to the next finer queue.  An
    entry is destroyed, which runs its own destructor, when the last bucket
    that refers to it is dropped.

    - Entries of the users are numbers; a bucket is a set of references.
    - The tick interval is a [float]; sizes, delays and ticks are 64 bits wide.
    - [skew] is the number that is subtracted in the index of the destructor's
      insertion: 0 in the code.  The theorems also say what 1 would give. *)

From Stdlib Require Import SpecFloat.
From S2P Require Import Prelude Double.

Inductive entry :=
  | Entry (id : nat)
  | CallbackEntry (i : nat) (delay t : Z) (e : entry).

#[global] Instance entry_eq_dec : EqDecision entry.
Proof. solve_decision. Defined.

Abbreviation bucket := (list entry).

Record TimingWheel := mkWheel {
  m_taskQueues : list (list bucket);
  m_ticksCounter : Z;
  m_ticksInterval : float;
  m_QueueNum : nat;
  m_bucketsNumPerQueue : Z
}.

Definition set_queues (v : list (list bucket)) (w : TimingWheel) : TimingWheel :=
  mkWheel v (m_ticksCounter w) (m_ticksInterval w) (m_QueueNum w) (m_bucketsNumPerQueue w).
Definition set_ticks (v : Z) (w : TimingWheel) : TimingWheel :=
  mkWheel (m_taskQueues w) v (m_ticksInterval w) (m_QueueNum w) (m_bucketsNumPerQueue w).

(** ** Construction *)

(** [while (maxTickNum > ticksNum)]; each turn multiplies by at least 2. *)
Fixpoint queue_num (fuel : nat) (B maxTickNum ticksNum : Z) (n : nat) : res nat :=
  match fuel with
  | O => Fail Diverged
  | S fuel =>
      if ticksNum <? maxTickNum then queue_num fuel B maxTickNum (ticksNum ⊠ B) (S n) else Ok n
  end.

Definition TimingWheel_new (maxTimeout : Z) (ticksInterval : float) (bucketsNumPerQueue : Z) : res TimingWheel :=
  _ ← assert (1 <? maxTimeout);
  _ ← assert (SFltb (S754_zero false) ticksInterval);
  _ ← assert (1 <? bucketsNumPerQueue);
  maxTickNum ← f_to_size (f_div (f_of_Z maxTimeout) ticksInterval);
  n ← queue_num 65 bucketsNumPerQueue maxTickNum bucketsNumPerQueue 1;
  Ok (mkWheel (replicate n (replicate (Z.to_nat bucketsNumPerQueue) [])) 0 ticksInterval n
        bucketsNumPerQueue).

(** ** Buckets *)

(** [unordered_set::insert] of a pointer; a [CallbackEntry] is always new. *)
Definition bucket_insert (e : entry) (b : bucket) : bucket :=
  match e with
  | Entry _ => if decide (e ∈ b) then b else e :: b
  | CallbackEntry _ _ _ _ => e :: b
  end.

(** [m_taskQueues[i][j].insert(e)] *)
Definition insert_at (i : nat) (j : Z) (e : entry) (w : TimingWheel) : res TimingWheel :=
  if j <? 0 then Fail OutOfBounds
  else
    match m_taskQueues w !! i with
    | None => Fail OutOfBounds
    | Some q =>
        match q !! Z.to_nat j with
        | None => Fail OutOfBounds
        | Some b => Ok (set_queues (<[i := <[Z.to_nat j := bucket_insert e b]> q]> (m_taskQueues w)) w)
        end
    end.

Section skew.
Variable skew : Z.

(** The index computed by the lambda of [insertEntryInLoop]. *)
Definition callback_slot (B delay t : Z) : Z := (delay ⊞ t mod B ⊟ skew) mod B.

(** A reference is dropped: an entry of a user is reported, a [CallbackEntry]
    runs its callback. *)
Definition drop_entry (e : entry) (st : list nat * TimingWheel) : res (list nat * TimingWheel) :=
  let '(dropped, w) := st in
  match e with
  | Entry id => Ok (dropped ++ [id], w)
  | CallbackEntry i delay t e =>
      if 0 <? delay then
        w ← insert_at i (callback_slot (m_bucketsNumPerQueue w) delay t) e w; Ok (dropped, w)
      else Ok (dropped, w)
  end.

Fixpoint drop_bucket (b : bucket) (st : list nat * TimingWheel) : res (list nat * TimingWheel) :=
  match b with
  | [] => Ok st
  | e :: b => st ← drop_entry e st; drop_bucket b st
  end.

(** ** The tick *)

(** The front bucket of queue [i] is taken out and an empty one added. *)
Definition rotate (i : nat) (w : TimingWheel) : res (bucket * TimingWheel) :=
  match m_taskQueues w !! i with
  | Some (b :: q) => Ok (b, set_queues (<[i := q ++ [[]]]> (m_taskQueues w)) w)
  | _ => Fail OutOfBounds
  end.

Fixpoint tick_loop (n i : nat) (t pow : Z) (st : list nat * TimingWheel) : res (list nat * TimingWheel) :=
  match n with
  | O => Ok st
  | S n =>
      if pow =? 0 then Fail DivideByZero
      else
        st ← (if t mod pow =? 0 then
                '(tmp, w) ← rotate i st.2;
                drop_bucket tmp (st.1, w)
              else Ok st);
        tick_loop n (S i) t (pow ⊠ m_bucketsNumPerQueue st.2) st
  end.

(** The timer callback; the entries to which a reference was dropped. *)
Definition tick (w : TimingWheel) : res (list nat * TimingWheel) :=
  let w := set_ticks (m_ticksCounter w ⊞ 1) w in
  tick_loop (m_QueueNum w) 0 (m_ticksCounter w) 1 ([], w).

(** ** Destruction: the queues are cleared, the coarsest first *)

Fixpoint destroy_loop (k : nat) (st : list nat * TimingWheel) : res (list nat * TimingWheel) :=
  match k with
  | O => Ok st
  | S k =>
      match m_taskQueues st.2 !! k with
      | None => Fail OutOfBounds
      | Some q =>
          st ← drop_bucket (concat q) (st.1, set_queues (<[k := []]> (m_taskQueues st.2)) st.2);
          destroy_loop k st
      end
  end.

Definition TimingWheel_destroy (w : TimingWheel) : res (list nat) :=
  st ← destroy_loop (m_QueueNum w) ([], w); Ok st.1.

(** ** Insertion *)

Fixpoint insert_loop (n i : nat) (delay t : Z) (e : entry) (w : TimingWheel) : res TimingWheel :=
  match n with
  | O => Ok w
  | S n =>
      let B := m_bucketsNumPerQueue w in
      if delay <=? B then insert_at i (delay ⊟ 1) e w
      else
        '(e, w) ← (if bool_decide (i < m_QueueNum w - 1)%nat
                   then Ok (CallbackEntry i delay t e, w)
                   else w ← insert_at i (B - 1) e w; Ok (e, w));
        insert_loop n (S i) ((delay ⊞ t mod B ⊟ 1) / B) (t / B) e w
  end.

(** The delay in ticks; [delay % static_cast<size_t>(m_ticksInterval)]. *)
Definition delay_ticks (delay : Z) (w : TimingWheel) : res Z :=
  ticks ← f_to_size (f_div (f_of_Z delay) (m_ticksInterval w));
  whole ← f_to_size (m_ticksInterval w);
  if whole =? 0 then Fail DivideByZero
  else Ok (ticks ⊞ (if delay mod whole =? 0 then 0 else 1)).

Definition insertEntryInLoop (delay : Z) (e : entry) (w : TimingWheel) : res TimingWheel :=
  delay ← delay_ticks delay w;
  insert_loop (m_QueueNum w) 0 delay (m_ticksCounter w) e w.

(** [insertEntry], in the loop thread. *)
Definition insertEntry (delay : Z) (e : entry) (w : TimingWheel) : res TimingWheel :=
  if delay <=? 0 then Ok w else insertEntryInLoop delay e w.

End skew.


(** ** When entries are due *)

(** A number of turns from now, in queue [i]. *)
Definition release (B : Z) (i : nat) (j t : Z) : Z :=
  B ^ Z.of_nat i * (t / B ^ Z.of_nat i + j + 1).

(** The entry at the core, and the tick at which its reference is dropped if
    the wrapper is dropped at [T]. *)
Fixpoint entry_due (skew B T : Z) (e : entry) : nat * Z :=
  match e with
  | Entry id => (id, T)
  | CallbackEntry i delay t e => entry_due skew B (release B i (callback_slot skew B delay t) T) e
  end.

(** Wrappers go from coarse to fine queues. *)
Fixpoint entry_ok (k : nat) (e : entry) : Prop :=
  match e with
  | Entry _ => True
  | CallbackEntry i delay _ e => (i < k)%nat /\ 0 < delay /\ entry_ok i e
  end.

(** [e] is in bucket [j] of queue [i]. *)
Definition placed (w : TimingWheel) (i j : nat) (e : entry) : Prop :=
  exists q b, m_taskQueues w !! i = Some q /\ q !! j = Some b /\ e ∈ b.

(** The queues below [m] are complete. *)
Record wheel_ok_to (m : nat) (w : TimingWheel) : Prop := {
  wo_buckets : 1 < m_bucketsNumPerQueue w;
  wo_num : length (m_taskQueues w) = m_QueueNum w;
  wo_len : forall i q, (i < m)%nat -> m_taskQueues w !! i = Some q ->
    length q = Z.to_nat (m_bucketsNumPerQueue w);
  wo_entries : forall i j e, placed w i j e -> entry_ok i e;
  wo_ticks : 0 <= m_ticksCounter w;
  wo_small : m_bucketsNumPerQueue w < 2 ^ 62;
  wo_pow : m_bucketsNumPerQueue w ^ (Z.of_nat (m_QueueNum w) - 1) < size_max
}.
Arguments wo_buckets {m w}.
Arguments wo_num {m w}.
Arguments wo_entries {m w}.
Arguments wo_ticks {m w}.
Arguments wo_small {m w}.
Arguments wo_pow {m w}.

Definition wheel_ok (w : TimingWheel) : Prop := wheel_ok_to (m_QueueNum w) w.

(** A reference to [id] will be dropped at [T], where queue [k] has been
    turned up to the tick [clock k]. *)
Definition pending_at (skew : Z) (clock : nat -> Z) (w : TimingWheel) (id : nat) (T : Z) : Prop :=
  exists k j e, placed w k j e /\
    entry_due skew (m_bucketsNumPerQueue w) (release (m_bucketsNumPerQueue w) k (Z.of_nat j) (clock k)) e = (id, T).

Definition pending (skew : Z) (w : TimingWheel) : nat -> Z -> Prop :=
  pending_at skew (fun _ => m_ticksCounter w) w.

(** The entry is referred to by some bucket. *)
Definition alive (skew : Z) (w : TimingWheel) (id : nat) : Prop := exists T, pending skew w id T.

Lemma bucket_insert_elem e x b : x ∈ bucket_insert e b <-> x = e \/ x ∈ b.
Proof. destruct e; cbn; [case_decide; [naive_solver|]|]; by rewrite elem_of_cons. Qed.

Lemma insert_at_spec m i j e w :
  wheel_ok_to m w -> (i < m)%nat -> (i < m_QueueNum w)%nat -> 0 <= j < m_bucketsNumPerQueue w -> entry_ok i e ->
  exists w', insert_at i j e w = Ok w' /\ wheel_ok_to m w' /\
    m_ticksCounter w' = m_ticksCounter w /\ m_QueueNum w' = m_QueueNum w /\
    m_bucketsNumPerQueue w' = m_bucketsNumPerQueue w /\ m_ticksInterval w' = m_ticksInterval w /\
    forall k l x, placed w' k l x <-> placed w k l x \/ k = i /\ l = Z.to_nat j /\ x = e.
Proof.
  intros [H1 H2 H3 H4 H5 H6 H7] Hm Hi Hj He. unfold insert_at. destruct (Z.ltb_spec j 0); [lia|].
  destruct (lookup_lt_is_Some_2 (m_taskQueues w) i) as [q Eq]; [lia|]. rewrite Eq.
  destruct (lookup_lt_is_Some_2 q (Z.to_nat j)) as [b Eb]; [rewrite (H3 _ _ Hm Eq); lia|]. rewrite Eb.
  set (w' := set_queues _ w).
  assert (forall k l x, placed w' k l x <-> placed w k l x \/ k = i /\ l = Z.to_nat j /\ x = e) as Hpl.
  { intros k l x. unfold placed, w'. cbn. destruct (decide (k = i)) as [-> | Hk].
    - rewrite list_lookup_insert_eq by (by eapply lookup_lt_Some).
      destruct (decide (l = Z.to_nat j)) as [-> | Hl].
      + split.
        * intros (q' & b' & [= <-] & El & Hx).
          rewrite list_lookup_insert_eq in El by (by eapply lookup_lt_Some).
          injection El as <-. apply bucket_insert_elem in Hx as [-> | Hx]; [by right|left; eauto].
        * intros Hx. eexists _, _. split; [done|].
          rewrite list_lookup_insert_eq by (by eapply lookup_lt_Some). split; [done|].
          apply bucket_insert_elem. destruct Hx as [(q' & b' & E1 & E2 & Hx) | (_ & _ & ->)]; [|by left].
          right. congruence.
      + split.
        * intros (q' & b' & [= <-] & El & Hx). rewrite list_lookup_insert_ne in El by done. left; eauto.
        * intros [(q' & b' & E1 & E2 & Hx) | (_ & ? & _)]; [|done]. eexists _, _. split; [done|].
          rewrite list_lookup_insert_ne by done. split; [|exact Hx]. congruence.
    - rewrite list_lookup_insert_ne by done. naive_solver. }
  exists w'. split; [done|]. split; [|done]. constructor; try done.
  - cbn. by rewrite length_insert.
  - intros k q' Hkm. cbn. destruct (decide (k = i)) as [-> | Hk].
    + rewrite list_lookup_insert_eq by (by eapply lookup_lt_Some). intros [= <-]. rewrite length_insert. eauto.
    + rewrite list_lookup_insert_ne by done. by apply H3.
  - intros k l x Hx. apply Hpl in Hx as [Hx | (-> & _ & ->)]; [by eapply H4|done].
Qed.

Lemma callback_slot_bound skew B delay t : 1 < B -> 0 <= callback_slot skew B delay t < B.
Proof. intros HB. apply Z.mod_pos_bound. lia. Qed.

Section turns.
Context (skew : Z).

(** What [w'] keeps of [w] besides the queues. *)
Definition same_shape (w w' : TimingWheel) : Prop :=
  m_ticksCounter w' = m_ticksCounter w /\ m_QueueNum w' = m_QueueNum w /\
  m_bucketsNumPerQueue w' = m_bucketsNumPerQueue w /\ m_ticksInterval w' = m_ticksInterval w.

Lemma pending_insert clock w w' i j e id T :
  m_bucketsNumPerQueue w' = m_bucketsNumPerQueue w -> 0 <= j ->
  (forall k l x, placed w' k l x <-> placed w k l x \/ k = i /\ l = Z.to_nat j /\ x = e) ->
  pending_at skew clock w' id T <->
  pending_at skew clock w id T \/
  entry_due skew (m_bucketsNumPerQueue w) (release (m_bucketsNumPerQueue w) i j (clock i)) e = (id, T).
Proof.
  intros EB Hj Hpl. unfold pending_at. rewrite EB. split.
  - intros (k & l & x & Hx & E). apply Hpl in Hx as [Hx | (-> & -> & ->)]; [left; eauto|right].
    by rewrite Z2Nat.id in E by done.
  - intros [(k & l & x & Hx & E) | E].
    + exists k, l, x. split; [|done]. apply Hpl. by left.
    + exists i, (Z.to_nat j), e. rewrite Z2Nat.id by done. split; [|done]. apply Hpl. by right.
Qed.

(** Dropping a bucket of queue [i] at tick [T], with the finer queues turned. *)
Lemma drop_bucket_spec m clock T i b rel w :
  wheel_ok_to m w -> (i <= m)%nat -> (i <= m_QueueNum w)%nat -> (forall k, (k < i)%nat -> clock k = T) ->
  (forall e, e ∈ b -> entry_ok i e) ->
  exists rel' w', drop_bucket skew b (rel, w) = Ok (rel ++ rel', w') /\ wheel_ok_to m w' /\ same_shape w w' /\
    (forall a l x, placed w' a l x -> placed w a l x \/ (a < i)%nat) /\
    forall id T', pending_at skew clock w' id T' \/ id ∈ rel' /\ T' = T <->
      pending_at skew clock w id T' \/
      exists e, e ∈ b /\ entry_due skew (m_bucketsNumPerQueue w) T e = (id, T').
Proof.
  revert rel w. induction b as [|e b IH]; intros rel w Hw Hm Hi Hcl Hb; cbn [drop_bucket].
  { exists [], w. rewrite app_nil_r. split; [done|]. split; [done|]. split; [done|].
    split; [auto|]. intros id T'. set_solver. }
  destruct e as [id0|i0 delay t e]; cbn [drop_entry].
  - cbn [mbind res_bind].
    destruct (IH (rel ++ [id0]) w Hw Hm Hi Hcl) as (rel' & w' & E & Hw' & Hs & Hpl' & Hp); [set_solver|].
    exists (id0 :: rel'), w'. rewrite E, <- app_assoc. split; [done|]. split; [done|]. split; [done|].
    split; [done|].
    intros id T'. pose proof (Hp id T') as Hp'. split.
    + intros [H | [[-> | H]%elem_of_cons ->]].
      * destruct (proj1 Hp' (or_introl H)) as [? | (e & ? & ?)]; [by left|right; exists e; set_solver].
      * right. exists (Entry id0). split; [set_solver|done].
      * destruct (proj1 Hp' (or_intror (conj H eq_refl))) as [? | (e & ? & ?)]; [by left|right; exists e; set_solver].
    + intros [H | (e & [-> | He]%elem_of_cons & E')].
      * destruct (proj2 Hp' (or_introl H)) as [? | [? ?]]; [by left|right; set_solver].
      * cbn in E'. injection E' as -> ->. right. set_solver.
      * destruct (proj2 Hp' (or_intror (ex_intro _ e (conj He E')))) as [? | [? ?]]; [by left|right; set_solver].
  - destruct (Hb (CallbackEntry i0 delay t e)) as (Hi0 & Hd & He); [set_solver|].
    rewrite (proj2 (Z.ltb_lt _ _) Hd).
    pose proof (callback_slot_bound skew _ delay t (wo_buckets Hw)) as Hsl.
    destruct (insert_at_spec m i0 _ e w Hw ltac:(lia) ltac:(lia) Hsl He) as (w1 & -> & Hw1 & E1 & E2 & E3 & E4 & Hpl).
    cbn [mbind res_bind].
    destruct (IH rel w1 Hw1 Hm ltac:(lia) Hcl) as
      (rel' & w' & E & Hw' & (S1 & S2 & S3 & S4) & Hpl' & Hp); [set_solver|].
    exists rel', w'. split; [done|]. split; [done|]. split; [split_and!; congruence|]. split.
    { intros a l x [[?|(-> & _)]%Hpl | ?]%Hpl'; auto. }
    intros id T'. rewrite Hp. rewrite (pending_insert clock w w1 i0 _ e id T' E3 (proj1 Hsl) Hpl).
    rewrite Hcl, E3 by done. split.
    + intros [[H | H] | (x & Hx & E')]; [by left| |right; exists x; set_solver].
      right. exists (CallbackEntry i0 delay t e). split; [set_solver|done].
    + intros [H | (x & [-> | Hx]%elem_of_cons & E')]; [by left; left|left; by right|right; eauto].
Qed.

(** Queue [k] has been turned, if [k] is finer than [i]. *)
Definition clock_at (T : Z) (i k : nat) : Z := if (k <? i)%nat then T else T - 1.

Lemma release_turned B i j T :
  1 < B -> 0 <= T -> (T + 1) mod B ^ Z.of_nat i = 0 ->
  release B i j (T + 1) = release B i (j + 1) T /\ release B i 0 T = T + 1.
Proof.
  intros HB HT Hm. assert (0 < B ^ Z.of_nat i) as HP by (apply Z.pow_pos_nonneg; lia).
  set (P := B ^ Z.of_nat i) in *. unfold release. fold P.
  assert (T / P = (T + 1) / P - 1) as Ed.
  { apply Z.div_exact in Hm; [|lia]. symmetry. apply Z.div_unique with (P - 1); lia. }
  split; [f_equal; lia|]. apply Z.div_exact in Hm; [|lia]. rewrite Ed. lia.
Qed.

Lemma release_same B i j T :
  1 < B -> 0 <= T -> (T + 1) mod B ^ Z.of_nat i <> 0 -> release B i j (T + 1) = release B i j T.
Proof.
  intros HB HT Hm. assert (0 < B ^ Z.of_nat i) as HP by (apply Z.pow_pos_nonneg; lia).
  set (P := B ^ Z.of_nat i) in *. unfold release. fold P. do 3 f_equal.
  pose proof (Z.div_mod (T + 1) P ltac:(lia)). pose proof (Z.mod_pos_bound (T + 1) P HP).
  apply Z.div_unique with ((T + 1) mod P - 1); lia.
Qed.

Lemma rotate_placed i w :
  wheel_ok w -> (i < m_QueueNum w)%nat ->
  exists tmp w1, rotate i w = Ok (tmp, w1) /\ wheel_ok w1 /\ same_shape w w1 /\
    (forall e, placed w i 0 e <-> e ∈ tmp) /\
    (forall k j e, placed w1 k j e <-> if decide (k = i) then placed w i (S j) e else placed w k j e).
Proof.
  intros [H1 H2 H3 H4 H5 H6 H7] Hi. unfold rotate.
  destruct (lookup_lt_is_Some_2 (m_taskQueues w) i) as [q Eq]; [lia|].
  pose proof (H3 _ _ Hi Eq) as Hlen. rewrite Eq. destruct q as [|tmp q]; [cbn in Hlen; lia|].
  set (w1 := set_queues _ w).
  assert (forall k j e, placed w1 k j e <-> if decide (k = i) then placed w i (S j) e else placed w k j e) as Hpl.
  { intros k j e. unfold placed, w1. cbn. case_decide as Hk; [subst k|by rewrite list_lookup_insert_ne].
    rewrite list_lookup_insert_eq by (by eapply lookup_lt_Some). rewrite Eq. split.
    - intros (q' & b & [= <-] & Eb & He). apply lookup_app_Some in Eb as [Eb | [_ Eb]]; [eauto|].
      destruct (j - length q)%nat; cbn in Eb; [|done]. injection Eb as <-. set_solver.
    - intros (q' & b & [= <-] & Eb & He). cbn in Eb. eexists _, _. split; [done|].
      rewrite lookup_app_l by (by eapply lookup_lt_Some). done. }
  exists tmp, w1. split; [done|]. split.
  { constructor; try done.
    - cbn. by rewrite length_insert.
    - intros k q' Hkm. cbn. destruct (decide (k = i)) as [-> | Hk].
      + rewrite list_lookup_insert_eq by (by eapply lookup_lt_Some). intros [= <-].
        rewrite length_app. cbn in *. lia.
      + rewrite list_lookup_insert_ne by done. by apply H3.
    - intros k j e Hp. apply Hpl in Hp. revert Hp. case_decide; subst; eauto. }
  split; [done|]. split; [|done].
  intros e. unfold placed. rewrite Eq. split; [|by eauto].
  intros (q' & b & [= <-] & [= <-] & He). done.
Qed.

Lemma rotate_spec i w T :
  wheel_ok w -> (i < m_QueueNum w)%nat -> 0 <= T ->
  (T + 1) mod m_bucketsNumPerQueue w ^ Z.of_nat i = 0 ->
  exists tmp w1, rotate i w = Ok (tmp, w1) /\ wheel_ok w1 /\ same_shape w w1 /\
    (forall e, e ∈ tmp -> entry_ok i e) /\
    forall id T', pending_at skew (clock_at (T + 1) i) w id T' <->
      pending_at skew (clock_at (T + 1) (S i)) w1 id T' \/
      exists e, e ∈ tmp /\ entry_due skew (m_bucketsNumPerQueue w) (T + 1) e = (id, T').
Proof.
  intros Hw Hi HT Hm. destruct (rotate_placed i w Hw Hi) as (tmp & w1 & E & Hw1 & Hs & Htmp & Hpl).
  exists tmp, w1. split; [done|]. split; [done|]. split; [done|].
  split; [intros e He; by eapply (wo_entries Hw), Htmp|].
  destruct Hs as (_ & _ & EB & _). pose proof (wo_buckets Hw) as HB.
  intros id T'. unfold pending_at. rewrite EB. split.
  - intros (k & j & e & He & Ed). destruct (decide (k = i)) as [-> | Hk].
    + unfold clock_at in Ed. rewrite Nat.ltb_irrefl in Ed. replace (T + 1 - 1) with T in Ed by lia.
      destruct j as [|j].
      * right. exists e. split; [by apply Htmp|]. change (Z.of_nat 0) with 0 in Ed. by rewrite (proj2 (release_turned _ _ 0 _ HB HT Hm)) in Ed.
      * left. exists i, j, e. split; [apply Hpl; by rewrite decide_True|].
        unfold clock_at. rewrite (proj2 (Nat.ltb_lt i (S i))) by lia.
        rewrite (proj1 (release_turned _ _ _ _ HB HT Hm)). by replace (Z.of_nat j + 1) with (Z.of_nat (S j)) by lia.
    + left. exists k, j, e. split; [apply Hpl; by rewrite decide_False|].
      replace (clock_at (T + 1) (S i) k) with (clock_at (T + 1) i k); [done|].
      unfold clock_at. destruct (Nat.ltb_spec k i), (Nat.ltb_spec k (S i)); lia.
  - intros [(k & j & e & He & Ed) | (e & He & Ed)].
    + apply Hpl in He. revert He. case_decide as Hk; intros He.
      * subst k. exists i, (S j), e. split; [done|]. unfold clock_at in *. rewrite Nat.ltb_irrefl.
        rewrite (proj2 (Nat.ltb_lt i (S i))) in Ed by lia.
        rewrite (proj1 (release_turned _ _ _ _ HB HT Hm)) in Ed.
        replace (T + 1 - 1) with T by lia. by replace (Z.of_nat (S j)) with (Z.of_nat j + 1) by lia.
      * exists k, j, e. split; [done|].
        replace (clock_at (T + 1) i k) with (clock_at (T + 1) (S i) k); [done|].
        unfold clock_at. destruct (Nat.ltb_spec k i), (Nat.ltb_spec k (S i)); lia.
    + exists i, 0%nat, e. split; [by apply Htmp|]. unfold clock_at. rewrite Nat.ltb_irrefl.
      change (Z.of_nat 0) with 0. replace (T + 1 - 1) with T by lia. by rewrite (proj2 (release_turned _ _ 0 _ HB HT Hm)).
Qed.

(** A queue that is not due keeps its place. *)
Lemma skip_spec i w T id T' :
  wheel_ok w -> 0 <= T -> (T + 1) mod m_bucketsNumPerQueue w ^ Z.of_nat i <> 0 ->
  pending_at skew (clock_at (T + 1) i) w id T' <-> pending_at skew (clock_at (T + 1) (S i)) w id T'.
Proof.
  intros Hw HT Hm. unfold pending_at.
  assert (forall k j, release (m_bucketsNumPerQueue w) k j (clock_at (T + 1) i k) =
    release (m_bucketsNumPerQueue w) k j (clock_at (T + 1) (S i) k)) as He.
  { intros k j. unfold clock_at. destruct (Nat.ltb_spec k i), (Nat.ltb_spec k (S i)); try done; [lia|].
    assert (k = i) as -> by lia. replace (T + 1 - 1) with T by lia.
    symmetry. by apply release_same; [apply (wo_buckets Hw)|..]. }
  split; intros (k & j & e & Hp & Ed); exists k, j, e; (split; [done|]); [by rewrite <- He|by rewrite He].
Qed.

Lemma tick_loop_spec n i w T rel pow :
  wheel_ok w -> 0 <= T -> (i + n = m_QueueNum w)%nat -> m_ticksCounter w = T + 1 ->
  ((0 < n)%nat -> pow = m_bucketsNumPerQueue w ^ Z.of_nat i) ->
  exists rel' w', tick_loop skew n i (T + 1) pow (rel, w) = Ok (rel ++ rel', w') /\ wheel_ok w' /\
    same_shape w w' /\
    forall id T', pending_at skew (clock_at (T + 1) i) w id T' <->
      pending_at skew (clock_at (T + 1) (i + n)) w' id T' \/ id ∈ rel' /\ T' = T + 1.
Proof.
  revert i w rel pow. induction n as [|n IH]; intros i w rel pow Hw HT Hn Ht Hpw; cbn [tick_loop].
  { exists [], w. rewrite app_nil_r, Nat.add_0_r. split; [done|]. split; [done|]. split; [done|]. set_solver. }
  rewrite <- Nat.add_succ_comm.
  rewrite Hpw by lia. clear Hpw. pose proof (wo_buckets Hw) as HB.
  assert (0 < m_bucketsNumPerQueue w ^ Z.of_nat i) as HP by (apply Z.pow_pos_nonneg; lia).
  destruct (Z.eqb_spec (m_bucketsNumPerQueue w ^ Z.of_nat i) 0); [lia|].
  assert (forall w1, m_bucketsNumPerQueue w1 = m_bucketsNumPerQueue w -> (0 < n)%nat ->
    m_bucketsNumPerQueue w ^ Z.of_nat i ⊠ m_bucketsNumPerQueue w1 = m_bucketsNumPerQueue w1 ^ Z.of_nat (S i)) as Hpow.
  { intros w1 -> Hpos. assert (m_bucketsNumPerQueue w ^ Z.of_nat (S i) < size_max) as Hb.
    { eapply Z.le_lt_trans; [|exact (wo_pow Hw)]. apply Z.pow_le_mono_r; lia. }
    rewrite Nat2Z.inj_succ, Z.pow_succ_r in * by lia. rewrite wrap64_small by lia. lia. }
  destruct (Z.eqb_spec ((T + 1) mod m_bucketsNumPerQueue w ^ Z.of_nat i) 0) as [Hm|Hm].
  - destruct (rotate_spec i w T Hw ltac:(lia) HT Hm) as (tmp & w1 & E & Hw1 & (A1 & A2 & A3 & A4) & Hok & Hp1).
    cbn [snd fst]. rewrite E. cbn [mbind res_bind].
    destruct (drop_bucket_spec _ (clock_at (T + 1) (S i)) (T + 1) i tmp rel w1 Hw1) as
      (rel1 & w2 & E2 & Hw2 & (B1 & B2 & B3 & B4) & _ & Hp2); [lia|lia| |done|].
    { intros k Hk. unfold clock_at. by rewrite (proj2 (Nat.ltb_lt k (S i))) by lia. }
    rewrite E2. cbn [mbind res_bind snd]. rewrite <- B2 in Hw2.
    destruct (IH (S i) w2 (rel ++ rel1) (m_bucketsNumPerQueue w ^ Z.of_nat i ⊠ m_bucketsNumPerQueue w2)) as (rel2 & w' & -> & Hw' & (C1 & C2 & C3 & C4) & Hp3);
      [done|done|lia|congruence|intros; apply Hpow; [congruence|done]|].
    exists (rel1 ++ rel2), w'. rewrite <- app_assoc. split; [done|]. split; [done|].
    split; [split_and!; congruence|]. intros id T'.
    rewrite Hp1, <- A3, <- Hp2, Hp3, elem_of_app. naive_solver.
  - cbn [mbind res_bind snd].
    destruct (IH (S i) w rel _ Hw HT ltac:(lia) Ht (Hpow w eq_refl)) as (rel2 & w' & -> & Hw' & Hs & Hp3).
    exists rel2, w'. split; [done|]. split; [done|]. split; [done|]. intros id T'.
    by rewrite (skip_spec i w T id T' Hw HT Hm), Hp3.
Qed.

Lemma pending_at_ext c1 c2 w id T :
  (forall k, (k < length (m_taskQueues w))%nat -> c1 k = c2 k) ->
  pending_at skew c1 w id T <-> pending_at skew c2 w id T.
Proof.
  intros Hc. assert (forall k j e, placed w k j e -> c1 k = c2 k) as He.
  { intros k j e (q & b & Eq & _). apply Hc. by eapply lookup_lt_Some. }
  split; intros (k & j & e & Hp & Ed); exists k, j, e; (split; [done|]);
    [by rewrite <- (He _ _ _ Hp)|by rewrite (He _ _ _ Hp)].
Qed.

Lemma tick_spec w :
  wheel_ok w -> m_ticksCounter w + 1 < size_max ->
  exists rel w', tick skew w = Ok (rel, w') /\ wheel_ok w' /\
    m_ticksCounter w' = m_ticksCounter w + 1 /\ m_QueueNum w' = m_QueueNum w /\
    m_bucketsNumPerQueue w' = m_bucketsNumPerQueue w /\ m_ticksInterval w' = m_ticksInterval w /\
    forall id T, pending skew w id T <->
      pending skew w' id T \/ id ∈ rel /\ T = m_ticksCounter w + 1.
Proof.
  intros Hw Hmax. pose proof (wo_ticks Hw). unfold tick. rewrite wrap64_small by lia. set (w0 := set_ticks (m_ticksCounter w + 1) w).
  assert (wheel_ok w0) as Hw0.
  { destruct Hw as [H1 H2 H3 H4 H5 H6 H7]. constructor; try done. cbn. lia. }
  destruct (tick_loop_spec (m_QueueNum w0) 0 w0 (m_ticksCounter w) [] 1 Hw0) as
    (rel & w' & E & Hw' & (A1 & A2 & A3 & A4) & Hp); try done.
  exists rel, w'. split; [exact E|]. split; [done|]. split_and!; try done.
  intros id T. transitivity (pending_at skew (clock_at (m_ticksCounter w + 1) 0) w0 id T).
  - change (pending skew w id T) with (pending_at skew (fun _ => m_ticksCounter w) w0 id T).
    apply pending_at_ext. intros k _. unfold clock_at. cbn. lia.
  - rewrite Hp. unfold pending.
    rewrite (pending_at_ext (clock_at (m_ticksCounter w + 1) (0 + m_QueueNum w0)) (fun _ => m_ticksCounter w')); [done|].
    intros k Hk. rewrite A1. unfold clock_at. rewrite (wo_num Hw'), A2 in Hk.
    by rewrite (proj2 (Nat.ltb_lt _ _)) by lia.
Qed.

Lemma release_gt B i j t : 1 < B -> 0 <= t -> 0 <= j -> t < release B i j t.
Proof.
  intros HB Ht Hj. unfold release. assert (0 < B ^ Z.of_nat i) as HP by (apply Z.pow_pos_nonneg; lia).
  set (P := B ^ Z.of_nat i) in *. pose proof (Z.div_mod t P ltac:(lia)).
  pose proof (Z.mod_pos_bound t P HP). nia.
Qed.

Lemma entry_due_ge B T e id T' :
  1 < B -> 0 <= T -> entry_due skew B T e = (id, T') -> T <= T'.
Proof.
  intros HB. revert T. induction e as [i|i delay t e IH]; intros T HT; cbn; [by intros [= _ <-]|].
  intros E. pose proof (callback_slot_bound skew B delay t HB).
  pose proof (release_gt B i (callback_slot skew B delay t) T HB HT ltac:(lia)).
  apply IH in E; lia.
Qed.

Lemma pending_later w id T : wheel_ok w -> pending skew w id T -> m_ticksCounter w < T.
Proof.
  intros Hw (k & j & e & _ & E). pose proof (wo_buckets Hw) as HB. pose proof (wo_ticks Hw) as Ht.
  pose proof (release_gt _ k (Z.of_nat j) _ HB Ht ltac:(lia)). apply entry_due_ge in E; lia.
Qed.

(** ** Where an entry goes *)

Fixpoint place (B : Z) (n i : nat) (d t : Z) (e : entry) : nat * Z * entry :=
  match n with
  | O => (i, d - 1, e)
  | S n =>
      if d <=? B then (i, d - 1, e)
      else if bool_decide (n = 0%nat) then (i, B - 1, e)
      else place B n (S i) ((d + t mod B - 1) / B) (t / B) (CallbackEntry i d t e)
  end.

Definition due (B : Z) (n i : nat) (d t now : Z) (e : entry) : nat * Z :=
  let '(k, j, e') := place B n i d t e in entry_due skew B (release B k j now) e'.

Lemma place_ok B n i d t e :
  1 < B -> 0 < d -> 0 <= t -> entry_ok i e -> (0 < n)%nat ->
  let '(k, j, e') := place B n i d t e in
  (i <= k < i + n)%nat /\ 0 <= j < B /\ entry_ok k e'.
Proof.
  intros HB. revert i d t e. induction n as [|n IH]; intros i d t e Hd Ht He Hn; [lia|]. cbn [place].
  destruct (Z.leb_spec d B); [split; [lia|]; split; [lia|done]|].
  case_bool_decide as En; [split; [lia|]; split; [lia|done]|].
  pose proof (Z.mod_pos_bound t B ltac:(lia)).
  specialize (IH (S i) ((d + t mod B - 1) / B) (t / B) (CallbackEntry i d t e)).
  destruct (place B n (S i) _ _ _) as [[k j] e'].
  destruct IH as (? & ? & ?); [|by apply Z.div_pos; lia|by cbn; split_and!; [lia|lia|]|lia|].
  - apply Z.div_str_pos. lia.
  - split; [lia|]. done.
Qed.

Lemma insert_loop_place n i d t e w :
  1 < m_bucketsNumPerQueue w < 2 ^ 62 -> 0 < d < 2 ^ 62 -> 0 <= t ->
  (i + n = m_QueueNum w)%nat -> (0 < n)%nat ->
  let '(k, j, e') := place (m_bucketsNumPerQueue w) n i d t e in
  insert_loop n i d t e w = insert_at k j e' w.
Proof.
  intros HB. revert i d t e. induction n as [|n IH]; intros i d t e Hd Ht Hn Hpos; [lia|]. cbn [place insert_loop].
  pose proof (Z.mod_pos_bound t (m_bucketsNumPerQueue w) ltac:(lia)).
  destruct (Z.leb_spec d (m_bucketsNumPerQueue w)); [by wrap_simp|].
  destruct n as [|n].
  - rewrite bool_decide_true by done. rewrite bool_decide_false by lia.
    destruct (insert_at i _ e w); done.
  - rewrite (bool_decide_false (S n = 0%nat)) by lia. rewrite bool_decide_true by lia.
    cbn [mbind res_bind]. wrap_simp. apply IH; [|by apply Z.div_pos; lia|lia|lia]. split.
    + apply Z.div_str_pos. lia.
    + apply Z.div_lt_upper_bound; lia.
Qed.

Lemma insertEntryInLoop_spec d id w :
  wheel_ok w -> 0 < d <= 2 ^ 24 -> m_ticksInterval w = f_one -> (0 < m_QueueNum w)%nat ->
  exists w', insertEntryInLoop d (Entry id) w = Ok w' /\ wheel_ok w' /\ same_shape w w' /\
    forall id' T, pending skew w' id' T <->
      pending skew w id' T \/
      due (m_bucketsNumPerQueue w) (m_QueueNum w) 0 d (m_ticksCounter w) (m_ticksCounter w) (Entry id) = (id', T).
Proof.
  intros Hw Hd Hint Hn. unfold insertEntryInLoop, delay_ticks. rewrite Hint.
  destruct (f_seconds d ltac:(lia)) as (v & -> & _ & Hv & _). rewrite Hv by lia. clear v Hv. change (f_to_size f_one) with (Ok 1).
  cbn [Z.eqb mbind res_bind]. rewrite Z.mod_1_r. cbn [Z.eqb]. rewrite Z.add_0_r. wrap_simp.
  pose proof (insert_loop_place (m_QueueNum w) 0 d (m_ticksCounter w) (Entry id) w (conj (wo_buckets Hw) (wo_small Hw))
    ltac:(lia) (wo_ticks Hw) eq_refl Hn) as E.
  pose proof (place_ok (m_bucketsNumPerQueue w) (m_QueueNum w) 0 d (m_ticksCounter w) (Entry id)
    (wo_buckets Hw) (proj1 Hd) (wo_ticks Hw) I Hn) as Hp. unfold due.
  destruct (place _ _ _ _ _ _) as [[k j] e']. destruct Hp as (Hk & Hj & He).
  destruct (insert_at_spec _ k j e' w Hw ltac:(lia) ltac:(lia) Hj He) as (w' & E' & Hw' & A1 & A2 & A3 & A4 & Hpl).
  rewrite <- A2 in Hw'.
  exists w'. split; [congruence|]. split; [done|]. split; [done|]. intros id' T. unfold pending. rewrite A1.
  by apply pending_insert; [|apply Hj|].
Qed.
End turns.

(** ** Exactness *)

Lemma due_direct skew B n i d now e :
  (0 < n)%nat -> d <= B ->
  due skew B n i d (now / B ^ Z.of_nat i) now e =
  entry_due skew B (B ^ Z.of_nat i * (now / B ^ Z.of_nat i + d)) e.
Proof.
  intros Hn Hd. destruct n as [|n]; [lia|]. unfold due. cbn [place].
  rewrite (proj2 (Z.leb_le _ _) Hd). unfold release. do 2 f_equal. lia.
Qed.

Lemma div_next B i now : 1 < B -> now / B ^ Z.of_nat i / B = now / B ^ Z.of_nat (S i).
Proof.
  intros HB. rewrite Nat2Z.inj_succ, Z.pow_succ_r, Z.mul_comm by lia.
  apply Z.div_div; [|lia]. apply Z.pow_nonzero; lia.
Qed.

Lemma due_wrapped skew B n i d now e :
  1 < B -> (0 < n)%nat -> B < d ->
  due skew B (S n) i d (now / B ^ Z.of_nat i) now e =
  due skew B n (S i) ((d + (now / B ^ Z.of_nat i) mod B - 1) / B) (now / B ^ Z.of_nat (S i)) now
    (CallbackEntry i d (now / B ^ Z.of_nat i) e).
Proof.
  intros HB Hn Hd. unfold due. cbn [place]. rewrite (proj2 (Z.leb_gt _ _) Hd).
  rewrite bool_decide_false by lia. by rewrite div_next.
Qed.

Lemma release_multiple B i j X :
  1 < B -> release B i j (B ^ Z.of_nat (S i) * X) = B ^ Z.of_nat i * (B * X + j + 1).
Proof.
  intros HB. unfold release. assert (B ^ Z.of_nat i <> 0) by (apply Z.pow_nonzero; lia).
  rewrite Nat2Z.inj_succ, Z.pow_succ_r by lia.
  replace (B * B ^ Z.of_nat i * X) with (B * X * B ^ Z.of_nat i) by lia. by rewrite Z.div_mul.
Qed.

Lemma callback_slot_small skew B d t :
  1 < B < 2 ^ 62 -> 0 < d < 2 ^ 62 -> 0 <= skew <= 1 -> callback_slot skew B d t = (d + t mod B - skew) mod B.
Proof.
  intros HB Hd Hs. pose proof (Z.mod_pos_bound t B ltac:(lia)). unfold callback_slot. by wrap_simp.
Qed.

(** The tick at which a wrapper drops its entry, when the queue above lets go
    of it [x] of its turns late. *)
Lemma wrapped_due skew B i d t e x :
  1 < B < 2 ^ 62 -> 0 < d < 2 ^ 62 -> 0 <= skew <= 1 ->
  entry_due skew B (B ^ Z.of_nat (S i) * (t / B + (d + t mod B - 1) / B + x)) (CallbackEntry i d t e) =
  entry_due skew B (B ^ Z.of_nat i *
    (t + d + ((d + t mod B - skew) mod B - (d + t mod B - 1) mod B) + B * x)) e.
Proof.
  intros HB Hd Hs. cbn [entry_due]. rewrite release_multiple, callback_slot_small by lia. do 2 f_equal.
  pose proof (Z.div_mod t B ltac:(lia)). pose proof (Z.div_mod (d + t mod B - 1) B ltac:(lia)). lia.
Qed.

(** What the missing 1 of the index costs. *)
Lemma slot_shift B d t :
  1 < B ->
  (d + t mod B - 0) mod B - (d + t mod B - 1) mod B = if (d + t) mod B =? 0 then 1 - B else 1.
Proof.
  intros HB. rewrite Z.sub_0_r, Z.add_mod_idemp_r by lia.
  replace (d + t mod B - 1) with (d - 1 + t mod B) by lia. rewrite Z.add_mod_idemp_r by lia.
  replace (d - 1 + t) with (d + t - 1) by lia. set (x := d + t).
  pose proof (Z.div_mod x B ltac:(lia)). pose proof (Z.mod_pos_bound x B ltac:(lia)).
  destruct (Z.eqb_spec (x mod B) 0) as [E0|E0].
  - replace ((x - 1) mod B) with (B - 1); [lia|]. apply Z.mod_unique with (x / B - 1); lia.
  - replace ((x - 1) mod B) with (x mod B - 1); [lia|]. apply Z.mod_unique with (x / B); lia.
Qed.

Lemma pow_next B n d r :
  1 < B -> 0 <= r < B -> B < d <= B ^ Z.of_nat (S n) ->
  0 < (d + r - 1) / B <= B ^ Z.of_nat n.
Proof.
  intros HB Hr [Hd1 Hd2]. rewrite Nat2Z.inj_succ, Z.pow_succ_r in Hd2 by lia. split.
  - apply Z.div_str_pos. lia.
  - apply Z.lt_succ_r, Z.div_lt_upper_bound; lia.
Qed.

(** How late an entry is dropped, in turns of the queue at hand: on every
    queue through which it moves down, one turn late or [B - 1] turns early,
    and what happened in the coarser queues counts [B] times. *)
Fixpoint drift (n : nat) (B d t : Z) : Z :=
  match n with
  | O => 0
  | S n =>
      if d <=? B then 0
      else (if (d + t) mod B =? 0 then 1 - B else 1) + B * drift n B ((d + t mod B - 1) / B) (t / B)
  end.

(** The lateness for an index that subtracts [skew]. *)
Definition late (skew : Z) (n : nat) (B d t : Z) : Z := if skew =? 0 then drift n B d t else 0.

Lemma due_late skew B n i d now e :
  1 < B < 2 ^ 62 -> 0 <= now -> (0 < n)%nat -> 0 < d <= B ^ Z.of_nat n -> d < 2 ^ 62 -> 0 <= skew <= 1 ->
  due skew B n i d (now / B ^ Z.of_nat i) now e =
  entry_due skew B (B ^ Z.of_nat i * (now / B ^ Z.of_nat i + d + late skew n B d (now / B ^ Z.of_nat i))) e.
Proof.
  intros HB Hnow. revert i d e. induction n as [|n IH]; intros i d e Hn Hd Hs Hk; [lia|].
  destruct (Z.le_gt_cases d B) as [Hle|Hgt].
  { rewrite due_direct by lia. unfold late. cbn [drift]. rewrite (proj2 (Z.leb_le d B)) by done.
    destruct (skew =? 0); by rewrite Z.add_0_r. }
  destruct n as [|n]; [change (Z.of_nat 1) with 1 in Hd; lia|].
  assert (0 <= now / B ^ Z.of_nat i) as Ht by (apply Z.div_pos; [lia|apply Z.pow_pos_nonneg; lia]).
  pose proof (Z.mod_pos_bound (now / B ^ Z.of_nat i) B ltac:(lia)).
  rewrite due_wrapped by lia.
  destruct (pow_next B (S n) d ((now / B ^ Z.of_nat i) mod B)) as [Hd1 Hd2]; [lia|lia|lia|].
  rewrite IH by (first [lia | apply Z.div_lt_upper_bound; lia]). rewrite <- div_next, wrapped_due by lia.
  do 2 f_equal. unfold late. assert (skew = 0 \/ skew = 1) as [-> | ->] by lia.
  - cbn [Z.eqb]. rewrite slot_shift by lia. cbn [drift]. rewrite (proj2 (Z.leb_gt d B)) by lia. lia.
  - cbn [Z.eqb]. lia.
Qed.

(** The same, for an entry inserted into the wheel. *)
Lemma due_entry skew B n d now id :
  1 < B < 2 ^ 62 -> 0 <= now -> (0 < n)%nat -> 0 < d <= B ^ Z.of_nat n -> d < 2 ^ 62 -> 0 <= skew <= 1 ->
  due skew B n 0 d now now (Entry id) = (id, now + d + late skew n B d now).
Proof.
  intros HB Hnow Hn Hd Hs Hk. pose proof (due_late skew B n 0 d now (Entry id) HB Hnow Hn Hd Hs Hk) as E.
  change (B ^ Z.of_nat 0) with 1 in E. rewrite Z.div_1_r, Z.mul_1_l in E. exact E.
Qed.

(** Two queues: one tick late, or [B - 1] early. *)
Lemma drift_two B n d t :
  1 < B -> (1 < n)%nat -> B < d <= B * B -> drift n B d t = if (d + t) mod B =? 0 then 1 - B else 1.
Proof.
  intros HB Hn Hd. pose proof (Z.mod_pos_bound t B ltac:(lia)).
  destruct n as [|[|n]]; [lia|lia|]. cbn [drift]. rewrite (proj2 (Z.leb_gt d B)) by lia.
  destruct (pow_next B 1 d (t mod B)) as [_ Hle]; [done|done|change (Z.of_nat 2) with 2; lia|].
  rewrite (proj2 (Z.leb_le _ B)) by (change (Z.of_nat 1) with 1 in Hle; lia). lia.
Qed.

(** ** Construction *)

Lemma queue_num_spec fuel B maxTickNum ticksNum n m :
  1 < B -> 0 < ticksNum -> ticksNum = B ^ Z.of_nat n -> (0 < n)%nat ->
  queue_num fuel B maxTickNum ticksNum n = Ok m -> maxTickNum * B < size_max ->
  B ^ (Z.of_nat n - 1) < size_max ->
  (0 < m)%nat /\ maxTickNum <= B ^ Z.of_nat m /\ B ^ (Z.of_nat m - 1) < size_max.
Proof.
  intros HB. revert ticksNum n. induction fuel as [|fuel IH]; intros ticksNum n Hp Ht Hn E Hm Hb; [done|].
  cbn in E. destruct (Z.ltb_spec ticksNum maxTickNum).
  - rewrite wrap64_small in E by nia. eapply IH; [| |  |exact E|done|]; [nia| |lia|].
    + rewrite Nat2Z.inj_succ, Z.pow_succ_r by lia. lia.
    + replace (Z.of_nat (S n) - 1) with (Z.of_nat n) by lia. nia.
  - injection E as <-. split; [done|]. split; [lia|done].
Qed.

Lemma queue_num_total fuel B maxTickNum ticksNum n :
  1 < B -> 0 < ticksNum -> maxTickNum <= ticksNum * 2 ^ Z.of_nat fuel -> maxTickNum * B < size_max ->
  exists m, queue_num (S fuel) B maxTickNum ticksNum n = Ok m.
Proof.
  intros HB. revert ticksNum n. induction fuel as [|fuel IH]; intros ticksNum n Hp Hf Hm; cbn [queue_num];
    (destruct (Z.ltb_spec ticksNum maxTickNum); [|by eauto]).
  - change (2 ^ Z.of_nat 0) with 1 in Hf. lia.
  - rewrite Nat2Z.inj_succ, Z.pow_succ_r in Hf by lia. rewrite wrap64_small by nia.
    apply IH; [nia| |done]. pose proof (Z.pow_pos_nonneg 2 (Z.of_nat fuel)). nia.
Qed.

(** The bound on [maxTimeout * B] leaves room for the rounding of the first
    factor. *)
Definition wheel_fits (maxTimeout B : Z) : Prop := 1 < maxTimeout < 2 ^ 63 /\ 1 < B < 2 ^ 62 /\ maxTimeout * B < 15 * 2 ^ 60.

(** A wheel with a tick of one second. *)
Lemma TimingWheel_new_spec maxTimeout B :
  wheel_fits maxTimeout B ->
  exists w, TimingWheel_new maxTimeout f_one B = Ok w /\ wheel_ok w /\
    m_ticksCounter w = 0 /\ m_ticksInterval w = f_one /\ m_bucketsNumPerQueue w = B /\
    (0 < m_QueueNum w)%nat /\ (maxTimeout <= 2 ^ 24 -> maxTimeout <= B ^ Z.of_nat (m_QueueNum w)) /\
    forall skew id T, ~ pending skew w id T.
Proof.
  intros (Hm & HB & Hs). unfold TimingWheel_new.
  rewrite (proj2 (Z.ltb_lt 1 maxTimeout)), (proj2 (Z.ltb_lt 1 B)) by lia. change (SFltb (S754_zero false) f_one) with true. cbn [assert mbind res_bind].
  destruct (f_seconds maxTimeout ltac:(lia)) as (v & -> & Hv & Hex & Hr). cbn [mbind res_bind].
  assert (v * B < size_max) as Hvs by (unfold size_max; nia).
  destruct (queue_num_total 64 B v B 1) as [n E]; [lia|lia| |done|].
  { change (2 ^ Z.of_nat 64) with size_max. nia. }
  rewrite E. cbn [mbind res_bind]. eexists. split; [reflexivity|].
  destruct (queue_num_spec 65 B v B 1 n ltac:(lia)) as (Hn & Hle & Hpw); [lia|by rewrite Z.pow_1_r|lia|exact E|exact Hvs|done|].
  assert (forall i j e, ~ placed (mkWheel (replicate n (replicate (Z.to_nat B) [])) 0 f_one n B) i j e) as Hno.
  { intros i j e (q & b & [-> _]%lookup_replicate & [-> _]%lookup_replicate & He). by apply elem_of_nil in He. }
  split_and!; try done.
  - constructor; cbn; try done; try lia.
    + by rewrite length_replicate.
    + intros i q _ [-> _]%lookup_replicate. by rewrite length_replicate.
    + intros i j e He. by apply Hno in He.
  - cbn. intros Hsm. rewrite <- (Hex Hsm). done.
  - intros skew id T (k & j & e & He & _). by apply Hno in He.
Qed.

(** ** Runs *)

Inductive wheel_op :=
  | WInsert (id : nat) (delay : Z)
  | WTick.

(** The references dropped, with the tick at which they were. *)
Fixpoint wheel_run (skew : Z) (ops : list wheel_op) (w : TimingWheel) : res (list (nat * Z) * TimingWheel) :=
  match ops with
  | [] => Ok ([], w)
  | WInsert id delay :: ops => w ← insertEntry delay (Entry id) w; wheel_run skew ops w
  | WTick :: ops =>
      '(ids, w) ← tick skew w;
      '(log, w') ← wheel_run skew ops w;
      Ok (((fun id => (id, m_ticksCounter w)) <$> ids) ++ log, w')
  end.

(** The insertions of a run that begins at tick [now], with their due times. *)
Fixpoint insertions (skew B : Z) (n : nat) (ops : list wheel_op) (now : Z) : list (nat * Z) :=
  match ops with
  | [] => []
  | WInsert id delay :: ops =>
      (if delay <=? 0 then [] else [due skew B n 0 delay now now (Entry id)]) ++ insertions skew B n ops now
  | WTick :: ops => insertions skew B n ops (now + 1)
  end.

Fixpoint ticks (ops : list wheel_op) : Z :=
  match ops with
  | [] => 0
  | WInsert _ _ :: ops => ticks ops
  | WTick :: ops => ticks ops + 1
  end.

(** Delays that a [float] represents exactly. *)
Definition exact_delays (ops : list wheel_op) : Prop :=
  Forall (fun o => match o with WInsert _ d => d <= 2 ^ 24 | WTick => True end) ops.

Lemma ticks_nonneg ops : 0 <= ticks ops.
Proof. induction ops as [|[]]; cbn; lia. Qed.

Lemma wheel_run_spec skew ops w :
  wheel_ok w -> m_ticksInterval w = f_one -> (0 < m_QueueNum w)%nat ->
  exact_delays ops -> m_ticksCounter w + ticks ops < size_max ->
  exists log w', wheel_run skew ops w = Ok (log, w') /\ wheel_ok w' /\
    m_ticksCounter w' = m_ticksCounter w + ticks ops /\
    (forall id T, (id, T) ∈ log -> T <= m_ticksCounter w') /\
    forall id T,
      (id, T) ∈ insertions skew (m_bucketsNumPerQueue w) (m_QueueNum w) ops (m_ticksCounter w) \/
        pending skew w id T <->
      (id, T) ∈ log \/ pending skew w' id T.
Proof.
  revert w. induction ops as [|[id delay|] ops IH]; intros w Hw Hint Hn Hex Hmax; cbn [wheel_run insertions ticks] in *;
    try (apply Forall_cons in Hex as [Hd0 Hex]).
  - exists [], w. split; [done|]. split; [done|]. split; [lia|]. split; [set_solver|]. done.
  - unfold insertEntry. destruct (Z.leb_spec delay 0) as [Hd|Hd].
    { destruct (IH w Hw Hint Hn Hex Hmax) as (log & w' & ?). exists log, w'. done. }
    destruct (insertEntryInLoop_spec skew delay id w Hw (conj Hd Hd0) Hint Hn) as (w1 & -> & Hw1 & (A1 & A2 & A3 & A4) & Hp1).
    cbn [mbind res_bind]. destruct (IH w1 Hw1) as (log & w' & -> & Hw' & Ht & Hlog & Hp); [congruence|lia|done|lia|].
    exists log, w'. split; [done|]. split; [done|]. split; [lia|]. split; [done|].
    intros id' T. rewrite <- Hp, A1, A2, A3, Hp1, elem_of_app, list_elem_of_singleton.
    split; [intros [[<- | ?] | ?] | intros [? | [? | <-]]]; auto.
  - pose proof (ticks_nonneg ops) as Hnn. destruct (tick_spec skew w Hw ltac:(lia)) as (rel & w1 & -> & Hw1 & A1 & A2 & A3 & A4 & Hp1). cbn [mbind res_bind].
    destruct (IH w1 Hw1) as (log & w' & -> & Hw' & Ht & Hlog & Hp); [congruence|lia|done|lia|]. cbn [mbind res_bind].
    eexists _, w'. split; [reflexivity|]. split; [done|]. split; [lia|]. split.
    + intros id T [(i & [= -> ->] & _)%list_elem_of_fmap | H]%elem_of_app; [|by eapply Hlog]. lia.
    + intros id T. rewrite elem_of_app, list_elem_of_fmap, Hp1.
      rewrite <- A3, <- A2, <- A1. pose proof (Hp id T) as Hp'.
      split.
      * intros [H | [H | [H ->]]].
        -- destruct (proj1 Hp' (or_introl H)); auto.
        -- destruct (proj1 Hp' (or_intror H)); auto.
        -- left. left. exists id. split; [by rewrite A1|done].
      * intros [[(i & [= -> ->] & H) | H] | H].
        -- right. right. split; [done|lia].
        -- destruct (proj2 Hp' (or_introl H)); auto.
        -- destruct (proj2 Hp' (or_intror H)); auto.
Qed.

(** ** Properties *)

(** A run on a new wheel follows the schedule. *)
Lemma wheel_run_new skew maxTimeout B ops :
  wheel_fits maxTimeout B -> exact_delays ops -> ticks ops < size_max ->
  exists w0 log w, TimingWheel_new maxTimeout f_one B = Ok w0 /\ wheel_run skew ops w0 = Ok (log, w) /\
    (0 < m_QueueNum w0)%nat /\ (maxTimeout <= 2 ^ 24 -> maxTimeout <= B ^ Z.of_nat (m_QueueNum w0)) /\
    (forall id T, (id, T) ∈ log <->
       (id, T) ∈ insertions skew B (m_QueueNum w0) ops 0 /\ T <= ticks ops) /\
    (forall id, alive skew w id <->
       exists T, (id, T) ∈ insertions skew B (m_QueueNum w0) ops 0 /\ ticks ops < T).
Proof.
  intros Hf Hex Hmax. destruct (TimingWheel_new_spec _ _ Hf) as (w0 & E0 & Hw & T0 & Hint & EB & Hn & Hcap & Hno).
  destruct (wheel_run_spec skew ops w0 Hw Hint Hn Hex ltac:(lia)) as (log & w & E & Hw' & Ht & Hlog & Hp).
  rewrite T0, Z.add_0_l in Ht. rewrite T0, EB in Hp. exists w0, log, w. split_and!; try done.
  all: assert (forall id T, pending skew w id T -> ticks ops < T) as Hlater
    by (intros id T HT; rewrite <- Ht; by eapply pending_later).
  all: assert (forall id T, (id, T) ∈ log -> T <= ticks ops) as Hpast
    by (intros id T HT; rewrite <- Ht; by eapply Hlog).
  - intros id T. split.
    + intros HT. split; [|by eapply Hpast].
      destruct (proj2 (Hp id T) (or_introl HT)) as [? | ?%Hno]; done.
    + intros [HT Hle]. destruct (proj1 (Hp id T) (or_introl HT)) as [? | ?%Hlater]; [done|lia].
  - intros id. split.
    + intros [T HT]. exists T. split; [|by eapply Hlater].
      destruct (proj2 (Hp id T) (or_intror HT)) as [? | ?%Hno]; done.
    + intros (T & HT & Hlt). exists T. destruct (proj1 (Hp id T) (or_introl HT)) as [?%Hpast | ?]; [lia|done].
Qed.

(** C9. The wheel implements its schedule.  For any sequence of insertions and
    ticks on a new wheel with a tick of one second ([1.0F], as the server makes
    it), a maximum of at least 2 and a number of buckets of at least 2 whose
    product stays below 15 * 2^60 ([wheel_fits]), delays of at most 2^24 seconds
    (which a [float] represents exactly) and fewer than 2^64 ticks, no index is out of range and no
    division is by zero; at each tick references are dropped to exactly the
    entries inserted with that due time; and an entry is alive exactly as long
    as one of its insertions is not yet due, so inserting it again extends its
    life. *)
Theorem wheel_refines skew maxTimeout B ops :
  wheel_fits maxTimeout B -> exact_delays ops -> ticks ops < size_max ->
  exists w0 log w, TimingWheel_new maxTimeout f_one B = Ok w0 /\ wheel_run skew ops w0 = Ok (log, w) /\
    (forall id T, (id, T) ∈ log <->
       (id, T) ∈ insertions skew B (m_QueueNum w0) ops 0 /\ T <= ticks ops) /\
    (forall id, alive skew w id <->
       exists T, (id, T) ∈ insertions skew B (m_QueueNum w0) ops 0 /\ ticks ops < T).
Proof.
  intros Hf Hex Hmax. destruct (wheel_run_new skew _ _ _ Hf Hex Hmax) as (w0 & log & w & E0 & E & _ & _ & H1 & H2).
  by exists w0, log, w.
Qed.

Definition sample_ops : list wheel_op := [WInsert 1 2; WTick; WInsert 1 2; WInsert 2 1; WTick].

Lemma wheel_refines_witness :
  exists w0 log w, TimingWheel_new 3 f_one 4 = Ok w0 /\ wheel_run 0 sample_ops w0 = Ok (log, w) /\
    (forall id T, (id, T) ∈ log <->
       (id, T) ∈ insertions 0 4 (m_QueueNum w0) sample_ops 0 /\ T <= ticks sample_ops) /\
    (forall id, alive 0 w id <->
       exists T, (id, T) ∈ insertions 0 4 (m_QueueNum w0) sample_ops 0 /\ ticks sample_ops < T).
Proof.
  apply (wheel_refines 0 3 4 sample_ops); [repeat split; lia|repeat constructor; lia|reflexivity].
Defined.

(** The entry at the core of a wrapper. *)
Fixpoint core (e : entry) : nat :=
  match e with Entry id => id | CallbackEntry _ _ _ e => core e end.

Lemma entry_due_core skew B T e : fst (entry_due skew B T e) = core e.
Proof. revert T. induction e as [id|i d t e IH]; intros T; cbn; [done|apply IH]. Qed.

Lemma place_core B n i d t e :
  match place B n i d t e with (_, _, e') => core e' = core e end.
Proof.
  revert i d t e. induction n as [|n IH]; intros i d t e; cbn [place]; [done|].
  destruct (d <=? B); [done|]. destruct (bool_decide _); [done|].
  pose proof (IH (S i) ((d + t mod B - 1) / B) (t / B) (CallbackEntry i d t e)) as H.
  by destruct (place _ _ _ _ _ _) as [[? ?] ?].
Qed.

(** The insertions of a run with [id] inserted in the middle. *)
Lemma insertions_app skew B n pre post now :
  insertions skew B n (pre ++ post) now = insertions skew B n pre now ++ insertions skew B n post (now + ticks pre).
Proof.
  revert now. induction pre as [|[id d|] pre IH]; intros now; cbn [app insertions ticks].
  - by rewrite Z.add_0_r.
  - by rewrite IH, app_assoc.
  - rewrite IH. do 2 f_equal. lia.
Qed.

Lemma insertions_ids skew B n ops now id T :
  (id, T) ∈ insertions skew B n ops now -> exists d, WInsert id d ∈ ops.
Proof.
  revert now. induction ops as [|[i d|] ops IH]; intros now; cbn [insertions].
  - by intros ?%elem_of_nil.
  - intros [H | H]%elem_of_app.
    + destruct (d <=? 0); [by apply elem_of_nil in H|]. apply list_elem_of_singleton in H.
      exists d. assert (i = id) as ->; [|left]. unfold due in H.
      pose proof (place_core B n 0 d now (Entry i)) as Hc. destruct (place B n 0 d now (Entry i)) as [[k j] e].
      pose proof (entry_due_core skew B (release B k j now) e) as Ec. rewrite <- H in Ec. cbn in Ec, Hc. congruence.
    + destruct (IH _ H) as [d' Hd']. exists d'. by right.
  - intros H. destruct (IH _ H) as [d' Hd']. exists d'. by right.
Qed.

(** C10. When an entry is dropped.  On a new wheel (tick of one second, at least
    two buckets, a maximum and delays up to 2^24 seconds, fewer than 2^64 ticks,
    [wheel_fits]), an entry inserted at tick [now] with a delay [d] within the
    wheel's maximum is dropped at the tick [now + d + drift], if the run lasts
    that long, and, unless it is inserted again, at no other.  The drift is 0
    when the delay is at most one turn of the first queue.  Otherwise the
    index that the destructor of the wrapper computes is off by one: with two
    queues the entry is dropped one tick late, or [B - 1] ticks early if the due
    tick is a multiple of the number of buckets, and with more queues the errors
    of the coarser queues add up, [B] times each.  With the index that subtracts
    1 every delay would be exact. *)
Theorem wheel_delays maxTimeout B pre id d post :
  wheel_fits maxTimeout B -> exact_delays (pre ++ post) -> ticks (pre ++ post) < size_max ->
  0 < d <= maxTimeout -> maxTimeout <= 2 ^ 24 ->
  let ops := pre ++ WInsert id d :: post in
  let now := ticks pre in
  exists w0, TimingWheel_new maxTimeout f_one B = Ok w0 /\
    let delta := drift (m_QueueNum w0) B d now in
    (d <= B -> delta = 0) /\
    (B < d <= B * B -> delta = if (d + now) mod B =? 0 then 1 - B else 1) /\
    forall skew, 0 <= skew <= 1 ->
      let T := now + d + (if skew =? 0 then delta else 0) in
      exists log w, wheel_run skew ops w0 = Ok (log, w) /\
        ((id, T) ∈ log <-> T <= ticks ops) /\
        ((forall d', WInsert id d' ∉ pre ++ post) -> forall T', (id, T') ∈ log -> T' = T).
Proof.
  intros Hf Hex Hmax Hd Hm ops now.
  assert (exact_delays ops) as Hexo.
  { unfold exact_delays, ops in *. rewrite Forall_app in *. rewrite Forall_cons. destruct Hex. split_and!; try done. lia. }
  assert (forall a b, ticks (a ++ b) = ticks a + ticks b) as Htapp.
  { intros a b. induction a as [|[]]; cbn; lia. }
  assert (ticks ops = ticks (pre ++ post)) as Eto by (unfold ops; by rewrite !Htapp).
  destruct (wheel_run_new 0 maxTimeout B ops Hf Hexo ltac:(lia)) as (w0 & _ & _ & E0 & _ & Hn & Hcap & _).
  exists w0. split; [done|]. cbv zeta. specialize (Hcap Hm). destruct Hf as (Hf1 & Hf2 & Hf3). split_and!.
  - intros Hle. destruct (m_QueueNum w0); [done|]. cbn [drift]. by rewrite (proj2 (Z.leb_le d B)).
  - intros Hdb. apply drift_two; [lia| |lia]. destruct (m_QueueNum w0) as [|[|n]]; [lia| |lia]. change (Z.of_nat 1) with 1 in Hcap. lia.
  - intros skew Hs. destruct (wheel_run_new skew maxTimeout B ops (conj Hf1 (conj Hf2 Hf3)) Hexo ltac:(lia))
      as (w0' & log & w & E0' & E & _ & _ & Hlog & _). rewrite E0 in E0'. injection E0' as <-.
    exists log, w. split; [done|].
    assert (insertions skew B (m_QueueNum w0) ops 0 = insertions skew B (m_QueueNum w0) pre 0 ++
      (id, now + d + late skew (m_QueueNum w0) B d now) :: insertions skew B (m_QueueNum w0) post now) as Ei.
    { unfold ops. rewrite insertions_app, Z.add_0_l. cbn [insertions]. fold now. destruct (Z.leb_spec d 0); [lia|].
      rewrite due_entry by (first [lia|apply ticks_nonneg]). done. }
    split.
    + rewrite Hlog, Ei. split; [by intros [_ ?]|]. intros Hle. split; [|done]. apply elem_of_app. right. left.
    + intros Hno T' HT'. apply Hlog in HT' as [HT' _]. rewrite Ei in HT'.
      apply elem_of_app in HT' as [H | [H | H]%elem_of_cons].
      * apply insertions_ids in H as [d' Hd']. destruct (Hno d'). apply elem_of_app. by left.
      * by injection H.
      * apply insertions_ids in H as [d' Hd']. destruct (Hno d'). apply elem_of_app. by right.
Qed.

(** A wheel of three queues, whose drifts add up: a delay of 155 ticks takes 166. *)
Lemma wheel_delays_witness :
  drift 3 10 150 0 = 1 /\ drift 3 10 155 0 = 11 /\ drift 3 10 205 0 = -89 /\
  exists w0, TimingWheel_new 900 f_one 10 = Ok w0 /\
    let delta := drift (m_QueueNum w0) 10 155 0 in
    (155 <= 10 -> delta = 0) /\
    (10 < 155 <= 10 * 10 -> delta = if (155 + 0) mod 10 =? 0 then 1 - 10 else 1) /\
    forall skew, 0 <= skew <= 1 ->
      let T := 0 + 155 + (if skew =? 0 then delta else 0) in
      exists log w, wheel_run skew ([] ++ WInsert 7 155 :: replicate 200 WTick) w0 = Ok (log, w) /\
        ((7%nat, T) ∈ log <-> T <= ticks ([] ++ WInsert 7 155 :: replicate 200 WTick)) /\
        ((forall d', WInsert 7 d' ∉ [] ++ replicate 200 WTick) -> forall T', (7%nat, T') ∈ log -> T' = T).
Proof.
  split; [reflexivity|]. split; [reflexivity|]. split; [reflexivity|].
  apply (wheel_delays 900 10 [] 7 155 (replicate 200 WTick));
    [repeat split; lia|repeat constructor|reflexivity|lia|lia].
Defined.

(** The run itself: the entry is dropped at tick 166, and nothing is left. *)
Example drift_observed :
  match TimingWheel_new 900 f_one 10 with
  | Ok w0 =>
      match wheel_run 0 (WInsert 7 155 :: WInsert 8 150 :: replicate 200 WTick) w0 with
      | Ok (log, w) => log
      | Fail _ => []
      end
  | Fail _ => []
  end = [(8%nat, 151); (7%nat, 166)].
Proof. vm_compute. reflexivity. Qed.

Lemma due_exists skew B T e id : (exists T', entry_due skew B T e = (id, T')) <-> core e = id.
Proof.
  pose proof (entry_due_core skew B T e) as E. destruct (entry_due skew B T e) as [c T0]. cbn in E. subst c.
  split; [by intros [T' [= <- _]]|intros <-; by eexists].
Qed.

(** Some bucket refers to [id]. *)
Definition referenced (w : TimingWheel) (id : nat) : Prop := exists i j e, placed w i j e /\ core e = id.

Lemma referenced_pending skew clock w id : referenced w id <-> exists T, pending_at skew clock w id T.
Proof.
  split.
  - intros (i & j & e & Hp & Hc). apply (due_exists skew (m_bucketsNumPerQueue w)
      (release (m_bucketsNumPerQueue w) i (Z.of_nat j) (clock i))) in Hc as [T HT]. exists T, i, j, e. done.
  - intros (T & i & j & e & Hp & E). exists i, j, e. split; [done|]. apply (due_exists skew) with (1 := ex_intro _ T E).
Qed.

Lemma clear_referenced k q w id :
  m_taskQueues w !! k = Some q ->
  referenced w id <->
  referenced (set_queues (<[k := []]> (m_taskQueues w)) w) id \/ exists e, e ∈ concat q /\ core e = id.
Proof.
  intros Eq. unfold referenced, placed. cbn. split.
  - intros (i & j & e & (q' & b & E1 & E2 & He) & Hc). destruct (decide (i = k)) as [-> | Hi].
    + right. exists e. split; [|done]. rewrite Eq in E1. injection E1 as <-.
      apply list_elem_of_In, in_concat. exists b. split; apply list_elem_of_In; [|done].
      by eapply list_elem_of_lookup_2.
    + left. exists i, j, e. split; [|done]. exists q', b. by rewrite list_lookup_insert_ne.
  - intros [(i & j & e & (q' & b & E1 & E2 & He) & Hc) | (e & He & Hc)].
    + destruct (decide (i = k)) as [-> | Hi].
      * rewrite list_lookup_insert_eq in E1 by (by eapply lookup_lt_Some). by injection E1 as <-.
      * rewrite list_lookup_insert_ne in E1 by done. eauto 10.
    + apply list_elem_of_In, in_concat in He as (b & Hb & He).
      apply list_elem_of_In, list_elem_of_lookup_1 in Hb as [j Hj]. apply list_elem_of_In in He. eauto 10.
Qed.

Lemma destroy_loop_spec skew k rel w :
  wheel_ok_to k w -> (k <= m_QueueNum w)%nat ->
  (forall i j e, placed w i j e -> (i < k)%nat) ->
  exists rel' w', destroy_loop skew k (rel, w) = Ok (rel ++ rel', w') /\
    forall id, id ∈ rel' <-> referenced w id.
Proof.
  revert rel w. induction k as [|k IH]; intros rel w Hw Hk Hbelow; cbn [destroy_loop].
  { exists [], w. rewrite app_nil_r. split; [done|]. intros id. split; [by intros ?%elem_of_nil|].
    intros (i & j & e & Hp & _). apply Hbelow in Hp. lia. }
  cbn [fst snd]. destruct (lookup_lt_is_Some_2 (m_taskQueues w) k) as [q Eq]; [rewrite (wo_num Hw); lia|].
  rewrite Eq. set (w1 := set_queues _ w).
  assert (forall i j e, placed w1 i j e -> placed w i j e /\ (i < k)%nat) as Hpl.
  { intros i j e (q' & b & E1 & E2 & He). cbn in E1. destruct (decide (i = k)) as [-> | Hi].
    - rewrite list_lookup_insert_eq in E1 by (by eapply lookup_lt_Some). by injection E1 as <-.
    - rewrite list_lookup_insert_ne in E1 by done. assert (placed w i j e) as Hp by (by exists q', b).
      split; [done|]. apply Hbelow in Hp. lia. }
  assert (wheel_ok_to k w1) as Hw1.
  { destruct Hw as [H1 H2 H3 H4 H5 H6 H7]. constructor; try done; cbn.
    - by rewrite length_insert.
    - intros i q' Hi. rewrite list_lookup_insert_ne by lia. apply H3. lia.
    - intros i j e Hp. by eapply H4, Hpl. }
  assert (forall e, e ∈ concat q -> entry_ok k e) as Hq.
  { intros e He. apply list_elem_of_In, in_concat in He as (b & Hb & He).
    apply list_elem_of_In, list_elem_of_lookup_1 in Hb as [j Hj]. apply list_elem_of_In in He.
    apply (wo_entries Hw k j). by exists q, b. }
  destruct (drop_bucket_spec skew k (fun _ => 0) 0 k (concat q) rel w1 Hw1) as
    (rel1 & w2 & -> & Hw2 & (B1 & B2 & B3 & B4) & Hpl2 & Hp2); [lia|cbn; lia|done|done|]. cbn [mbind res_bind].
  destruct (IH (rel ++ rel1) w2 Hw2) as (rel2 & w' & -> & Hp3).
  { rewrite B2. cbn. lia. }
  { intros i j e [[_ ?]%Hpl | ?]%Hpl2; done. }
  exists (rel1 ++ rel2), w'. rewrite app_assoc. split; [done|]. intros id.
  rewrite elem_of_app, Hp3, (clear_referenced k q w id Eq).
  rewrite !(referenced_pending skew (fun _ => 0)). split.
  - intros [H | [T H]].
    + destruct (proj1 (Hp2 id 0) (or_intror (conj H eq_refl))) as [? | (e & He & E)]; [eauto|].
      right. exists e. split; [done|]. by apply (due_exists skew (m_bucketsNumPerQueue w1) 0); eauto.
    + destruct (proj1 (Hp2 id T) (or_introl H)) as [? | (e & He & E)]; [eauto|].
      right. exists e. split; [done|]. by apply (due_exists skew (m_bucketsNumPerQueue w1) 0); eauto.
  - intros [[T H] | (e & He & Hc)].
    + destruct (proj2 (Hp2 id T) (or_introl H)) as [? | [? _]]; eauto.
    + apply (due_exists skew (m_bucketsNumPerQueue w1) 0) in Hc as [T HT].
      destruct (proj2 (Hp2 id T) (or_intror (ex_intro _ e (conj He HT)))) as [? | [? _]]; eauto.
Qed.

(** The destructor of the wheel lets go of everything: whatever was
    inserted and is still referred to, directly or through wrappers, is dropped,
    and nothing else. *)
Theorem destroy_drops_all skew w :
  wheel_ok w ->
  exists ids, TimingWheel_destroy skew w = Ok ids /\ forall id, id ∈ ids <-> alive skew w id.
Proof.
  intros Hw. unfold TimingWheel_destroy.
  destruct (destroy_loop_spec skew (m_QueueNum w) [] w Hw) as (ids & w' & -> & Hids); [done| |].
  { intros i j e (q & b & Eq & _). rewrite <- (wo_num Hw). by eapply lookup_lt_Some. }
  exists ids. split; [done|]. intros id. by rewrite Hids, (referenced_pending skew (fun _ => m_ticksCounter w)).
Qed.

(** A tick interval of less than a second divides by zero on every insertion
    (if the quotient before fits at all). *)
Lemma short_interval_faults delay e w :
  f_to_size (m_ticksInterval w) = Ok 0 -> 0 < delay -> exists f, insertEntry delay e w = Fail f.
Proof.
  intros Hi Hd. unfold insertEntry, insertEntryInLoop, delay_ticks.
  destruct (Z.leb_spec delay 0); [lia|]. destruct (f_to_size (f_div _ _)); cbn [mbind res_bind]; [|by eexists].
  rewrite Hi. cbn. by eexists.
Qed.

Example half_second_faults :
  match TimingWheel_new 60 (f_div f_one (f_of_Z 2)) 61 with
  | Ok w => insertEntry 5 (Entry 1) w = Fail DivideByZero
  | Fail _ => False
  end.
Proof. vm_compute. reflexivity. Qed.
