(* ===== verification/InetAddress.v ===== *)
(** * Socket addresses: [netpoll/net/inet_address.{h,cc}], [netpoll/net/inner/socket.cc]

    An [InetAddress] is the union of [sockaddr_in] (16 bytes) and
    [sockaddr_in6] (28 bytes) with two flags.  The union is kept as its 28
    bytes, read through both members:

      offset  0  sin_family / sin6_family   host order
              2  sin_port / sin6_port       network order
              4  sin_addr / sin6_flowinfo
              8  sin_zero / sin6_addr
             24  sin6_scope_id

    A constructor that sets only [sockaddr_in] leaves the last 12 bytes
    undetermined: [junk].  [inet_pton] and [inet_ntop] are parameters, with
    what POSIX says of them as hypotheses. *)

From S2P Require Import Prelude Funcs.

Definition AF_INET : Z := 2.
Definition AF_INET6 : Z := 10.
Definition INADDR_ANY : Z := 0.
Definition INADDR_LOOPBACK : Z := 0x7f000001.

Record InetAddress := mkAddr {
  storage : list byte;
  m_isIpv6 : bool;
  m_isUnspecified : bool
}.

Definition zeros (n : nat) : list byte := replicate n Byte.x00.

Definition in6addr_any : list byte := zeros 16.
Definition in6addr_loopback : list byte := zeros 15 ++ [Byte.x01].

Section addresses.
Variable host : endian.

(** ** The union *)

(** [sockaddr_in] with [sin_zero] cleared; the address in network order. *)
Definition sockaddr_in (family port : Z) (addr : list byte) : list byte :=
  object_bytes host 2 family ++ object_bytes host 2 port ++ addr ++ zeros 8.
Definition sockaddr_in6 (family port : Z) (addr : list byte) : list byte :=
  object_bytes host 2 family ++ object_bytes host 2 port ++ zeros 4 ++ addr ++ zeros 4.

Definition family (a : InetAddress) : Z := object_value host (slice 0 2 (storage a)).
Definition portNetEndian (a : InetAddress) : Z := object_value host (slice 2 4 (storage a)).
(** [ipNetEndian], and the words of [ip6NetEndian]. *)
Definition ipNetEndian (a : InetAddress) : Z := object_value host (slice 4 8 (storage a)).
Definition ip6NetEndian (a : InetAddress) (i : Z) : Z :=
  object_value host (slice (8 + 4 * i) (12 + 4 * i) (storage a)).

Definition toPort (a : InetAddress) : Z := ntoh host 2 (portNetEndian a).

Definition setPortNetEndian (port : Z) (a : InetAddress) : InetAddress :=
  mkAddr (patch 2 (object_bytes host 2 port) (storage a)) (m_isIpv6 a) (m_isUnspecified a).

(** ** Construction *)

(** [InetAddress(port, loopbackOnly, ipv6)] *)
Definition InetAddress_port (junk : list byte) (port : Z) (loopbackOnly ipv6 : bool) : InetAddress :=
  if ipv6 then
    let ip := if loopbackOnly then in6addr_loopback else in6addr_any in
    mkAddr (sockaddr_in6 AF_INET6 (hton host 2 port) ip) true false
  else
    let ip := if loopbackOnly then INADDR_LOOPBACK else INADDR_ANY in
    mkAddr (sockaddr_in AF_INET (hton host 2 port) (object_bytes host 4 (hton host 4 ip)) ++ junk) false false.

(** [InetAddress(const sockaddr_in &)] and [InetAddress(const sockaddr_in6 &)] *)
Definition InetAddress_in (junk addr : list byte) : InetAddress := mkAddr (addr ++ junk) false false.
Definition InetAddress_in6 (addr : list byte) : InetAddress := mkAddr addr true false.

Definition setSockAddrInet6 (addr6 : list byte) (a : InetAddress) : InetAddress :=
  let fam := object_value host (slice 0 2 addr6) in
  mkAddr addr6 (fam =? AF_INET6) false.

(** ** Classification *)

Definition private_ip (ip_addr : Z) : bool :=
  (0x0A000000 <=? ip_addr) && (ip_addr <=? 0x0AFFFFFF) ||
  (0xAC100000 <=? ip_addr) && (ip_addr <=? 0xAC1FFFFF) ||
  (0xC0A80000 <=? ip_addr) && (ip_addr <=? 0xC0A8FFFF) ||
  (ip_addr =? 0x7f000001).

Definition isIntranetIp (a : InetAddress) : bool :=
  if family a =? AF_INET then private_ip (ntoh host 4 (ipNetEndian a))
  else
    let w := ip6NetEndian a in
    if (w 0 =? 0) && (w 1 =? 0) && (w 2 =? 0) && (ntoh host 4 (w 3) =? 1) then true
    else
      let i32 := Z.land (ntoh host 4 (w 0)) 0xffc00000 in
      if (i32 =? 0xfec00000) || (i32 =? 0xfe800000) then true
      else if (w 0 =? 0) && (w 1 =? 0) && (ntoh host 4 (w 2) =? 0xffff)
           then private_ip (ntoh host 4 (w 3)) else false.

Definition isLoopbackIp (a : InetAddress) : bool :=
  if negb (m_isIpv6 a) then ntoh host 4 (ipNetEndian a) =? INADDR_LOOPBACK
  else
    let w := ip6NetEndian a in
    if (w 0 =? 0) && (w 1 =? 0) && (w 2 =? 0) && (ntoh host 4 (w 3) =? 1) then true
    else (w 0 =? 0) && (w 1 =? 0) && (ntoh host 4 (w 2) =? 0xffff) &&
         (ntoh host 4 (w 3) =? 0x7f000001).

(** [Socket::isSelfConnect], on the results of [getsockname] and [getpeername]. *)
Definition isSelfConnect (localaddr peeraddr : list byte) : bool :=
  let fam := object_value host (slice 0 2 localaddr) in
  if fam =? AF_INET then
    bool_decide (object_value host (slice 2 4 localaddr) = object_value host (slice 2 4 peeraddr)) &&
    bool_decide (object_value host (slice 4 8 localaddr) = object_value host (slice 4 8 peeraddr))
  else if fam =? AF_INET6 then
    bool_decide (object_value host (slice 2 4 localaddr) = object_value host (slice 2 4 peeraddr)) &&
    bool_decide (slice 8 24 localaddr = slice 8 24 peeraddr)
  else false.

(** ** Text *)

Section text.
(** [inet_pton] and [inet_ntop] for the two families, on bytes in network order. *)
Context (inet_pton : Z -> list byte -> option (list byte))
        (inet_ntop : Z -> list byte -> list byte).

(** [InetAddress(ip, port, ipv6)]; on a malformed [ip] the address stays
    unspecified. *)
Definition InetAddress_ip (junk ip : list byte) (port : Z) (ipv6 : bool) : InetAddress :=
  if ipv6 then
    match inet_pton AF_INET6 ip with
    | None => mkAddr (sockaddr_in6 AF_INET6 (hton host 2 port) (zeros 16)) true true
    | Some addr => mkAddr (sockaddr_in6 AF_INET6 (hton host 2 port) addr) true false
    end
  else
    match inet_pton AF_INET ip with
    | None => mkAddr (sockaddr_in AF_INET (hton host 2 port) (zeros 4) ++ junk) false true
    | Some addr => mkAddr (sockaddr_in AF_INET (hton host 2 port) addr ++ junk) false false
    end.

(** [None]: no branch writes to the buffer, which is then read uninitialised. *)
Definition toIp (a : InetAddress) : option (list byte) :=
  if family a =? AF_INET then Some (inet_ntop AF_INET (slice 4 8 (storage a)))
  else if family a =? AF_INET6 then Some (inet_ntop AF_INET6 (slice 8 24 (storage a)))
  else None.
End text.
End addresses.

(** ** What an address stands for *)

(** The bytes of the address, in network order. *)
Inductive ip := V4 (b : list byte) | V6 (b : list byte).

Definition ip_family (x : ip) : Z := match x with V4 _ => AF_INET | V6 _ => AF_INET6 end.
Definition ip_bytes (x : ip) : list byte := match x with V4 b | V6 b => b end.
Definition ip_len (fam : Z) : nat := if fam =? AF_INET then 4 else 16.
Definition is_v6 (x : ip) : bool := match x with V4 _ => false | V6 _ => true end.

(** The bytes [m] of a socket address hold [x] and [port]. *)
Record holds (host : endian) (m : list byte) (x : ip) (port : Z) : Prop := {
  ho_len : length m = 28%nat;
  ho_family : slice 0 2 m = object_bytes host 2 (ip_family x);
  ho_port : slice 2 4 m = network_bytes 2 port;
  ho_ip : match x with V4 b => slice 4 8 m = b | V6 b => slice 8 24 m = b end;
  ho_ip_len : length (ip_bytes x) = ip_len (ip_family x);
  ho_port_range : 0 <= port < 65536
}.

Lemma length_object_bytes e n v : length (object_bytes e n v) = n.
Proof. destruct e; cbn; by rewrite ?length_reverse, length_to_le. Qed.

Lemma object_value_bytes e n v : 0 <= v < 256 ^ Z.of_nat n -> object_value e (object_bytes e n v) = v.
Proof.
  intros H. destruct e; cbn [object_value object_bytes]; rewrite ?reverse_involutive, of_to_le;
    by apply Z.mod_small.
Qed.

Lemma length_slice {A} (m : list A) a b :
  0 <= a <= b -> b <= Z.of_nat (length m) -> length (slice a b m) = Z.to_nat (b - a).
Proof. intros H1 H2. unfold slice. rewrite length_take, length_drop. lia. Qed.

Lemma slice_slice {A} (m : list A) a b c d :
  0 <= a -> 0 <= c <= d -> a + d <= b -> slice c d (slice a b m) = slice (a + c) (a + d) m.
Proof.
  intros. apply list_eq. intros i. rewrite !lookup_slice.
  repeat case_decide; try lia; try done. f_equal. lia.
Qed.

Lemma slice_middle {A} (p b q : list A) i j :
  i = Z.of_nat (length p) -> j = i + Z.of_nat (length b) -> slice i j (p ++ b ++ q) = b.
Proof.
  intros -> ->. unfold slice. rewrite Nat2Z.id, drop_app_length.
  replace (Z.to_nat _) with (length b) by lia. apply take_app_length.
Qed.

Section views.
Context (host : endian).

Lemma holds_family m x port : holds host m x port -> object_value host (slice 0 2 m) = ip_family x.
Proof. intros H. rewrite (ho_family _ _ _ _ H). apply object_value_bytes. by destruct x. Qed.

Lemma family_spec a x port : holds host (storage a) x port -> family host a = ip_family x.
Proof. apply holds_family. Qed.

Lemma toPort_spec a x port : holds host (storage a) x port -> toPort host a = port.
Proof.
  intros H. unfold toPort, portNetEndian. rewrite (ho_port _ _ _ _ H).
  rewrite ntoh_object_value by apply length_network_bytes. apply network_value_bytes, H.
Qed.

(** A word of the address, in host order. *)
Lemma word_spec m b port i :
  holds host m (V6 b) port -> 0 <= i < 4 ->
  slice (8 + 4 * i) (12 + 4 * i) m = slice (4 * i) (4 * i + 4) b /\
  length (slice (4 * i) (4 * i + 4) b) = 4%nat.
Proof.
  intros H Hi. pose proof (ho_ip _ _ _ _ H) as Eb. cbn in Eb. pose proof (ho_ip_len _ _ _ _ H) as Hl. cbn in Hl.
  split.
  - rewrite <- Eb, slice_slice by lia. f_equal. lia.
  - rewrite length_slice; [lia|lia|]. rewrite Hl. cbn. lia.
Qed.

Lemma object_value_zero n bs : length bs = n -> object_value host bs = 0 <-> bs = zeros n.
Proof.
  intros Hl. assert (object_value host (zeros n) = 0) as Hz.
  { assert (forall k, of_le (zeros k) = 0) as H0 by (induction k as [|k IH]; [done|]; unfold zeros in *; cbn [replicate of_le]; by rewrite IH).
    destruct host; cbn [object_value]; [apply H0|]. unfold zeros. rewrite reverse_replicate. apply H0. }
  split; [|intros ->; apply Hz]. intros E.
  rewrite <- (object_bytes_value host bs n Hl), E, <- Hz. apply object_bytes_value. apply length_replicate.
Qed.

(** ** Reference: classification by bytes *)

Definition b2z := Z_of_byte.

Definition private4 (b : list byte) : bool :=
  match b with
  | [a; b; c; d] =>
      (b2z a =? 10) || (b2z a =? 172) && (16 <=? b2z b) && (b2z b <=? 31) ||
      (b2z a =? 192) && (b2z b =? 168) ||
      (b2z a =? 127) && (b2z b =? 0) && (b2z c =? 0) && (b2z d =? 1)
  | _ => false
  end.

(** [fec0::/10] and [fe80::/10]. *)
Definition site_or_link_local (b : list byte) : bool :=
  match b with
  | a :: b :: _ => (b2z a =? 254) && (128 <=? b2z b)
  | _ => false
  end.

Definition v4_mapped : list byte := zeros 10 ++ [Byte.xff; Byte.xff].

Definition intranet (x : ip) : bool :=
  match x with
  | V4 b => private4 b
  | V6 b =>
      bool_decide (b = in6addr_loopback) || site_or_link_local b ||
      bool_decide (take 12 b = v4_mapped) && private4 (drop 12 b)
  end.

Lemma private_ip_spec b : length b = 4%nat -> private_ip (network_value b) = private4 b.
Proof.
  intros H. destruct b as [|a [|b [|c [|d [|]]]]]; try discriminate H. clear H.
  unfold private_ip, private4, network_value. cbn [reverse rev_append of_le].
  change (rev_append [a; b; c; d] []) with [d; c; b; a]. cbn [of_le]. unfold b2z.
  pose proof (Z_of_byte_bound a). pose proof (Z_of_byte_bound b).
  pose proof (Z_of_byte_bound c). pose proof (Z_of_byte_bound d).
  apply eq_true_iff_eq.
  repeat rewrite ?orb_true_iff, ?andb_true_iff, ?Z.leb_le, ?Z.eqb_eq. lia.
Qed.

Lemma mask_10 w : 0 <= w < 2 ^ 32 -> Z.land w 0xffc00000 = 2 ^ 22 * (w / 2 ^ 22).
Proof.
  intros Hw. transitivity (Z.ldiff w (Z.ones 22)).
  - change 0xffc00000 with (Z.shiftl (Z.ones 10) 22). apply Z.bits_inj'. intros n Hn.
    rewrite Z.land_spec, Z.ldiff_spec, Z.shiftl_spec by done.
    destruct (Z.lt_ge_cases n 22) as [Hlt|Hge].
    + rewrite (Z.testbit_neg_r (Z.ones 10)) by lia. rewrite Z.ones_spec_low by lia. by rewrite !andb_false_r.
    + rewrite (Z.ones_spec_high 22) by lia. destruct (Z.lt_ge_cases n 32) as [H32|H32].
      * rewrite Z.ones_spec_low by lia. done.
      * assert (Z.testbit w n = false) as ->; [|done].
        destruct (Z.eq_dec w 0) as [-> | Hne]; [apply Z.bits_0|].
        apply Z.bits_above_log2; [lia|]. apply Z.log2_lt_pow2; [lia|].
        pose proof (Z.pow_le_mono_r 2 32 n). lia.
  - rewrite Z.ldiff_ones_r by lia. rewrite Z.shiftl_mul_pow2, Z.shiftr_div_pow2 by lia. lia.
Qed.

Lemma local_prefix b :
  length b = 4%nat ->
  let i32 := Z.land (network_value b) 0xffc00000 in
  (i32 =? 0xfec00000) || (i32 =? 0xfe800000) = site_or_link_local b.
Proof.
  intros H. destruct b as [|a [|b [|c [|d [|]]]]]; try discriminate H. clear H. cbn zeta.
  change (network_value [a; b; c; d]) with (of_le [d; c; b; a]). cbn [of_le site_or_link_local]. unfold b2z.
  pose proof (Z_of_byte_bound a). pose proof (Z_of_byte_bound b).
  pose proof (Z_of_byte_bound c). pose proof (Z_of_byte_bound d).
  rewrite mask_10 by lia. change (2 ^ 22) with 4194304. apply eq_true_iff_eq.
  repeat rewrite ?orb_true_iff, ?andb_true_iff, ?Z.leb_le, ?Z.eqb_eq.
  Z.div_mod_to_equations. lia.
Qed.
End views.

Lemma network_value_eq n bs v :
  length bs = n -> 0 <= v < 256 ^ Z.of_nat n -> network_value bs = v <-> bs = network_bytes n v.
Proof.
  intros Hl Hv. split; [|intros ->; by apply network_value_bytes].
  intros E. unfold network_value in E. unfold network_bytes. rewrite <- E, <- Hl, <- length_reverse.
  by rewrite to_of_le, reverse_involutive.
Qed.

(** The four words of an IPv6 address. *)
Lemma words_spec host m b port :
  holds host m (V6 b) port ->
  exists s0 s1 s2 s3, b = s0 ++ s1 ++ s2 ++ s3 /\
    length s0 = 4%nat /\ length s1 = 4%nat /\ length s2 = 4%nat /\ length s3 = 4%nat /\
    (forall fl u, ip6NetEndian host (mkAddr m fl u) 0 = object_value host s0) /\
    (forall fl u, ip6NetEndian host (mkAddr m fl u) 1 = object_value host s1) /\
    (forall fl u, ip6NetEndian host (mkAddr m fl u) 2 = object_value host s2) /\
    (forall fl u, ip6NetEndian host (mkAddr m fl u) 3 = object_value host s3).
Proof.
  intros H. pose proof (fun i => word_spec host m b port i H) as W.
  destruct (W 0) as [E0 L0], (W 1) as [E1 L1], (W 2) as [E2 L2], (W 3) as [E3 L3]; try lia.
  pose proof (ho_ip_len _ _ _ _ H) as Hl. cbn in Hl.
  exists (slice 0 4 b), (slice 4 8 b), (slice 8 12 b), (slice 12 16 b). split.
  { rewrite <- (slice_all b) at 1. unfold zlen. rewrite Hl. change (Z.of_nat 16) with 16.
    by rewrite (slice_app_split b 0 4 16), (slice_app_split b 4 8 16), (slice_app_split b 8 12 16) by lia. }
  split_and!; try done; intros fl u; unfold ip6NetEndian; cbn [storage]; f_equal; assumption.
Qed.

Lemma zero_word host s : length s = 4%nat -> (object_value host s =? 0) = bool_decide (s = zeros 4).
Proof.
  intros Hl. apply eq_true_iff_eq. rewrite Z.eqb_eq, bool_decide_eq_true. by apply object_value_zero.
Qed.

Lemma word_is host s v :
  length s = 4%nat -> 0 <= v < 2 ^ 32 ->
  (ntoh host 4 (object_value host s) =? v) = bool_decide (s = network_bytes 4 v).
Proof.
  intros Hl Hv. rewrite ntoh_object_value by done.
  apply eq_true_iff_eq. rewrite Z.eqb_eq, bool_decide_eq_true. by apply network_value_eq.
Qed.

Lemma four_words (a0 a1 a2 a3 s0 s1 s2 s3 : list byte) :
  length s0 = length a0 -> length s1 = length a1 -> length s2 = length a2 ->
  s0 ++ s1 ++ s2 ++ s3 = a0 ++ a1 ++ a2 ++ a3 <-> s0 = a0 /\ s1 = a1 /\ s2 = a2 /\ s3 = a3.
Proof.
  intros H0 H1 H2. split; [|by intros (-> & -> & -> & ->)].
  intros E. apply app_inj_1 in E as [-> E]; [|done]. apply app_inj_1 in E as [-> E]; [|done].
  by apply app_inj_1 in E as [-> ->].
Qed.

(** The two special forms of the code, on the words and on the bytes. *)
Lemma loopback_words host s0 s1 s2 s3 :
  length s0 = 4%nat -> length s1 = 4%nat -> length s2 = 4%nat -> length s3 = 4%nat ->
  (object_value host s0 =? 0) && (object_value host s1 =? 0) && (object_value host s2 =? 0) &&
    (ntoh host 4 (object_value host s3) =? 1) =
  bool_decide (s0 ++ s1 ++ s2 ++ s3 = in6addr_loopback).
Proof.
  intros H0 H1 H2 H3. rewrite !zero_word, word_is by (done || lia).
  apply eq_true_iff_eq. rewrite !andb_true_iff, !bool_decide_eq_true.
  change in6addr_loopback with (zeros 4 ++ zeros 4 ++ zeros 4 ++ network_bytes 4 1).
  rewrite four_words by done. tauto.
Qed.

Lemma mapped_words host s0 s1 s2 (s3 : list byte) :
  length s0 = 4%nat -> length s1 = 4%nat -> length s2 = 4%nat ->
  (object_value host s0 =? 0) && (object_value host s1 =? 0) &&
    (ntoh host 4 (object_value host s2) =? 0xffff) =
  bool_decide (take 12 (s0 ++ s1 ++ s2 ++ s3) = v4_mapped).
Proof.
  intros H0 H1 H2. rewrite !zero_word, word_is by (done || lia).
  apply eq_true_iff_eq. rewrite !andb_true_iff, !bool_decide_eq_true.
  replace (take 12 (s0 ++ s1 ++ s2 ++ s3)) with (s0 ++ s1 ++ s2 ++ []).
  - change v4_mapped with (zeros 4 ++ zeros 4 ++ network_bytes 4 0xffff ++ []).
    rewrite four_words by done. tauto.
  - rewrite app_nil_r, !app_assoc. rewrite take_app_le by (rewrite !length_app; lia).
    rewrite take_ge; [done|]. rewrite !length_app. lia.
Qed.

Lemma last_word (s0 s1 s2 s3 : list byte) :
  length s0 = 4%nat -> length s1 = 4%nat -> length s2 = 4%nat -> drop 12 (s0 ++ s1 ++ s2 ++ s3) = s3.
Proof.
  intros H0 H1 H2. rewrite !app_assoc. rewrite drop_app_length'; [done|]. rewrite !length_app. lia.
Qed.

(** C37. The intranet test is right.  On IPv4 addresses the comparisons of the
    32-bit value say that the address lies in 10/8, 172.16/12 or 192.168/16 or
    is 127.0.0.1; on IPv6 addresses the words and masks say that it is ::1, lies
    in fec0::/10 or fe80::/10, or embeds such an IPv4 address; on hosts of
    either byte order. *)
Theorem intranet_exact host a x port :
  holds host (storage a) x port -> isIntranetIp host a = intranet x.
Proof.
  intros H. unfold isIntranetIp. rewrite (family_spec host a x port H). destruct x as [b|b]; cbn [ip_family].
  - rewrite Z.eqb_refl. unfold ipNetEndian. pose proof (ho_ip _ _ _ _ H) as E. cbn in E. rewrite E.
    pose proof (ho_ip_len _ _ _ _ H) as Hl. cbn in Hl. rewrite ntoh_object_value by done. by apply private_ip_spec.
  - change (AF_INET6 =? AF_INET) with false. cbn [intranet].
    destruct (words_spec host _ b port H) as (s0 & s1 & s2 & s3 & -> & H0 & H1 & H2 & H3 & W0 & W1 & W2 & W3).
    destruct a as [m fl u]. cbn [storage] in *. cbn zeta. rewrite W0, W1, W2, W3.
    rewrite loopback_words by done. rewrite (mapped_words host s0 s1 s2 s3) by done. rewrite last_word by done.
    rewrite !ntoh_object_value by done. rewrite private_ip_spec by done.
    pose proof (local_prefix s0 H0) as Hloc. cbn zeta in Hloc. rewrite Hloc.
    replace (site_or_link_local (s0 ++ s1 ++ s2 ++ s3)) with (site_or_link_local s0)
      by (destruct s0 as [|? [|]]; done).
    by destruct (bool_decide _), (site_or_link_local s0), (bool_decide _).
Qed.

(** ** Constructors *)

Lemma two_bytes (l : list byte) : length l = 2%nat -> exists x y, l = [x; y].
Proof. destruct l as [|x [|y [|]]]; try discriminate. by exists x, y. Qed.

Lemma in_holds host junk port b :
  length b = 4%nat -> length junk = 12%nat -> 0 <= port < 65536 ->
  holds host (sockaddr_in host AF_INET (hton host 2 port) b ++ junk) (V4 b) port.
Proof.
  intros Hb Hj Hp. unfold sockaddr_in. rewrite object_bytes_hton.
  destruct (two_bytes (object_bytes host 2 AF_INET) (length_object_bytes _ _ _)) as (f0 & f1 & Ef).
  destruct (two_bytes (network_bytes 2 port) (length_network_bytes _ _)) as (p0 & p1 & Ep).
  rewrite Ef, Ep. destruct b as [|b0 [|b1 [|b2 [|b3 [|]]]]]; try discriminate Hb.
  constructor; try done. cbn. by rewrite Hj.
Qed.

Lemma in6_holds host port b :
  length b = 16%nat -> 0 <= port < 65536 ->
  holds host (sockaddr_in6 host AF_INET6 (hton host 2 port) b) (V6 b) port.
Proof.
  intros Hb Hp. unfold sockaddr_in6. rewrite object_bytes_hton.
  destruct (two_bytes (object_bytes host 2 AF_INET6) (length_object_bytes _ _ _)) as (f0 & f1 & Ef).
  destruct (two_bytes (network_bytes 2 port) (length_network_bytes _ _)) as (p0 & p1 & Ep).
  rewrite Ef, Ep. constructor; try done.
  - rewrite !length_app, Hb. done.
  - apply (slice_middle ([f0; f1] ++ [p0; p1] ++ zeros 4) b (zeros 4)); [done|]. by rewrite Hb.
Qed.

(** What [InetAddress(port, loopbackOnly, ipv6)] designates. *)
Definition local_ip (loopbackOnly ipv6 : bool) : ip :=
  if ipv6 then V6 (if loopbackOnly then in6addr_loopback else in6addr_any)
  else V4 (network_bytes 4 (if loopbackOnly then INADDR_LOOPBACK else INADDR_ANY)).

Lemma port_holds host junk port loopbackOnly ipv6 :
  length junk = 12%nat -> 0 <= port < 65536 ->
  holds host (storage (InetAddress_port host junk port loopbackOnly ipv6)) (local_ip loopbackOnly ipv6) port.
Proof.
  intros Hj Hp. unfold InetAddress_port, local_ip. destruct ipv6; cbn [storage].
  - destruct loopbackOnly; by apply in6_holds.
  - rewrite object_bytes_hton. apply in_holds; [apply length_network_bytes|done|done].
Qed.

(** The reference for [isLoopbackIp]. *)
Definition localhost : list byte := [Byte.x7f; Byte.x00; Byte.x00; Byte.x01].
Definition loopback (x : ip) : bool :=
  match x with
  | V4 b => bool_decide (b = localhost)
  | V6 b => bool_decide (b = in6addr_loopback) ||
            bool_decide (take 12 b = v4_mapped) && bool_decide (drop 12 b = localhost)
  end.

Lemma loopback_spec host a x port :
  holds host (storage a) x port -> m_isIpv6 a = is_v6 x -> isLoopbackIp host a = loopback x.
Proof.
  intros H Hf. unfold isLoopbackIp. rewrite Hf. destruct x as [b|b]; cbn [is_v6 negb loopback].
  - pose proof (ho_ip_len _ _ _ _ H) as Hl. pose proof (ho_ip _ _ _ _ H) as E. cbn in Hl, E.
    unfold ipNetEndian. rewrite E. by rewrite word_is by done.
  - destruct (words_spec host _ b port H) as (s0 & s1 & s2 & s3 & -> & H0 & H1 & H2 & H3 & W0 & W1 & W2 & W3).
    destruct a as [m fl u]. cbn [storage] in *. cbn zeta. rewrite W0, W1, W2, W3.
    rewrite loopback_words by done. rewrite (mapped_words host s0 s1 s2 s3) by done. rewrite last_word by done.
    rewrite word_is by done. by destruct (bool_decide (_ = in6addr_loopback)).
Qed.

(** The loopback test follows the IPv6 flag.  Where the flag agrees with
    the family, as [setSockAddrInet6] leaves it, the test is right; but the
    constructor from [sockaddr_in6] sets the flag whatever the family is, and it
    is used on the results of [getsockname] and [getpeername]: an address of an
    IPv4 connection that was made this way is taken for IPv6, and is never
    recognised as loopback. *)
Theorem loopback_needs_flag host m x port a0 :
  holds host m x port ->
  isLoopbackIp host (setSockAddrInet6 host m a0) = loopback x /\
  m_isIpv6 (setSockAddrInet6 host m a0) = is_v6 x /\
  (forall b, x = V4 b -> m = sockaddr_in host AF_INET (hton host 2 port) b ++ zeros 12 ->
     m_isIpv6 (InetAddress_in6 m) = true /\ isLoopbackIp host (InetAddress_in6 m) = false).
Proof.
  intros H. assert (m_isIpv6 (setSockAddrInet6 host m a0) = is_v6 x) as Hf.
  { cbn. rewrite (holds_family host m x port H). by destruct x. }
  split; [by eapply loopback_spec|]. split; [done|]. intros b -> Em. split; [done|].
  assert (forall i, 0 <= i < 4 -> slice (8 + 4 * i) (12 + 4 * i) m = zeros 4) as Hz.
  { intros i Hi. pose proof (ho_ip_len _ _ _ _ H) as Hb. cbn in Hb. subst m. unfold sockaddr_in.
    destruct (two_bytes (object_bytes host 2 AF_INET) (length_object_bytes _ _ _)) as (f0 & f1 & Ef).
    destruct (two_bytes (object_bytes host 2 (hton host 2 port)) (length_object_bytes _ _ _)) as (p0 & p1 & Ep).
    rewrite Ef, Ep. destruct b as [|b0 [|b1 [|b2 [|b3 [|]]]]]; try discriminate Hb.
    assert (i = 0 \/ i = 1 \/ i = 2 \/ i = 3) as [-> | [-> | [-> | ->]]] by lia; reflexivity. }
  unfold isLoopbackIp, ip6NetEndian. cbn [m_isIpv6 InetAddress_in6 negb storage].
  rewrite !Hz by lia. destruct host; vm_compute; reflexivity.
Qed.

Lemma loopback_needs_flag_witness :
  let m := sockaddr_in Little AF_INET (hton Little 2 80) localhost ++ zeros 12 in
  isLoopbackIp Little (setSockAddrInet6 Little m (InetAddress_in6 m)) = loopback (V4 localhost) /\
  m_isIpv6 (setSockAddrInet6 Little m (InetAddress_in6 m)) = is_v6 (V4 localhost) /\
  (forall b, V4 localhost = V4 b -> m = sockaddr_in Little AF_INET (hton Little 2 80) b ++ zeros 12 ->
     m_isIpv6 (InetAddress_in6 m) = true /\ isLoopbackIp Little (InetAddress_in6 m) = false).
Proof.
  apply (loopback_needs_flag Little _ (V4 localhost) 80). apply in_holds; [reflexivity|reflexivity|lia].
Defined.

Lemma intranet_exact_witness :
  isIntranetIp Big (InetAddress_port Big (zeros 12) 80 true true) = intranet (V6 in6addr_loopback).
Proof.
  apply (intranet_exact Big _ (V6 in6addr_loopback) 80).
  apply (in6_holds Big 80 in6addr_loopback); [reflexivity|lia].
Defined.

Lemma object_value_inj host n b1 b2 :
  length b1 = n -> length b2 = n -> object_value host b1 = object_value host b2 -> b1 = b2.
Proof.
  intros H1 H2 E. rewrite <- (object_bytes_value host b1 n H1), E. by apply object_bytes_value.
Qed.

Lemma network_bytes_inj n v1 v2 :
  0 <= v1 < 256 ^ Z.of_nat n -> 0 <= v2 < 256 ^ Z.of_nat n ->
  network_bytes n v1 = network_bytes n v2 -> v1 = v2.
Proof.
  intros H1 H2 E. rewrite <- (network_value_bytes n v1 H1), E. by apply network_value_bytes.
Qed.

(** [isSelfConnect] compares the two ends of a connection. *)
Lemma isSelfConnect_spec host m1 m2 x y port1 port2 :
  holds host m1 x port1 -> holds host m2 y port2 -> is_v6 x = is_v6 y ->
  isSelfConnect host m1 m2 = true <-> x = y /\ port1 = port2.
Proof.
  intros H1 H2 Hf. unfold isSelfConnect. rewrite (holds_family host m1 x port1 H1).
  rewrite (ho_port _ _ _ _ H1), (ho_port _ _ _ _ H2).
  assert (object_value host (network_bytes 2 port1) = object_value host (network_bytes 2 port2) <-> port1 = port2) as Hp.
  { split; [|by intros ->]. intros E. apply (object_value_inj host 2) in E; try apply length_network_bytes.
    by apply (network_bytes_inj 2) in E; [|apply H1|apply H2]. }
  pose proof (ho_ip _ _ _ _ H1) as E1. pose proof (ho_ip _ _ _ _ H2) as E2.
  pose proof (ho_ip_len _ _ _ _ H1) as L1. pose proof (ho_ip_len _ _ _ _ H2) as L2.
  destruct x as [b1|b1], y as [b2|b2]; try discriminate Hf; cbn in E1, E2, L1, L2.
  - cbn [ip_family]. rewrite Z.eqb_refl, E1, E2, andb_true_iff, !bool_decide_eq_true, Hp.
    split.
    + intros [-> E]. by apply (object_value_inj host 4) in E as ->.
    + by intros [[= ->] ->].
  - change (ip_family (V6 b1) =? AF_INET) with false. cbn [ip_family]. rewrite Z.eqb_refl, E1, E2.
    rewrite andb_true_iff, !bool_decide_eq_true, Hp. split; [by intros [-> ->]|by intros [[= ->] ->]].
Qed.

(** ** Text *)

Section text_ok.
Context (host : endian) (inet_pton : Z -> list byte -> option (list byte))
        (inet_ntop : Z -> list byte -> list byte).

(** POSIX: [inet_ntop] prints a form that [inet_pton] reads back, and
    [inet_pton] yields an address of the family. *)
Record posix_text : Prop := {
  pton_ntop : forall fam b, fam = AF_INET \/ fam = AF_INET6 -> length b = ip_len fam ->
    inet_pton fam (inet_ntop fam b) = Some b;
  pton_len : forall fam t b, fam = AF_INET \/ fam = AF_INET6 -> inet_pton fam t = Some b ->
    length b = ip_len fam
}.

(** Addresses survive printing: an address is printed by [toIp] and
    [toPort], and the constructor makes from the text, the port and the family
    an address for the same end point; text that is no address of the family
    gives an unspecified address. *)
Theorem address_roundtrip junk a x port :
  posix_text -> length junk = 12%nat -> holds host (storage a) x port ->
  exists text, toIp host inet_ntop a = Some text /\
    let a' := InetAddress_ip host inet_pton junk text (toPort host a) (is_v6 x) in
    holds host (storage a') x port /\ m_isIpv6 a' = is_v6 x /\ m_isUnspecified a' = false /\
    toIp host inet_ntop a' = Some text /\
    (forall t, inet_pton (ip_family x) t = None ->
       m_isUnspecified (InetAddress_ip host inet_pton junk t port (is_v6 x)) = true).
Proof.
  intros Hposix Hj H.
  assert (forall c, holds host (storage c) x port -> toIp host inet_ntop c = Some (inet_ntop (ip_family x) (ip_bytes x))) as Htext.
  { intros c Hc. unfold toIp. rewrite (family_spec host c x port Hc). pose proof (ho_ip _ _ _ _ Hc) as E.
    destruct x as [b|b]; cbn in E; rewrite E; done. }
  eexists. split; [by apply Htext|]. rewrite (toPort_spec host a x port H). cbn zeta.
  pose proof (ho_ip_len _ _ _ _ H) as Hl. pose proof (ho_port_range _ _ _ _ H) as Hp.
  assert (inet_pton (ip_family x) (inet_ntop (ip_family x) (ip_bytes x)) = Some (ip_bytes x)) as Er.
  { apply (pton_ntop Hposix); [destruct x; auto|done]. }
  assert (holds host (storage (InetAddress_ip host inet_pton junk (inet_ntop (ip_family x) (ip_bytes x)) port (is_v6 x))) x port) as H'.
  { unfold InetAddress_ip. destruct x as [b|b]; cbn in *; rewrite Er; [by apply in_holds|by apply in6_holds]. }
  split; [done|]. unfold InetAddress_ip in *. split_and!.
  - destruct x; cbn in *; by rewrite Er.
  - destruct x; cbn in *; by rewrite Er.
  - by apply Htext.
  - intros t Et. destruct x; cbn in *; by rewrite Et.
Qed.
End text_ok.

(** Text that is the bytes themselves. *)
Definition raw_pton (fam : Z) (t : list byte) : option (list byte) :=
  if bool_decide (length t = ip_len fam) then Some t else None.
Definition raw_ntop (fam : Z) (b : list byte) : list byte := b.

Lemma raw_posix : posix_text raw_pton raw_ntop.
Proof.
  constructor; unfold raw_pton, raw_ntop.
  - intros fam b _ Hl. by rewrite bool_decide_true.
  - intros fam t b _ E. case_bool_decide; [|done]. by injection E as <-.
Qed.

Lemma address_roundtrip_witness :
  exists text, toIp Little raw_ntop (InetAddress_port Little (zeros 12) 8080 true false) = Some text /\
    let a' := InetAddress_ip Little raw_pton (zeros 12) text
                (toPort Little (InetAddress_port Little (zeros 12) 8080 true false)) (is_v6 (local_ip true false)) in
    holds Little (storage a') (local_ip true false) 8080 /\ m_isIpv6 a' = is_v6 (local_ip true false) /\
    m_isUnspecified a' = false /\ toIp Little raw_ntop a' = Some text /\
    (forall t, raw_pton (ip_family (local_ip true false)) t = None ->
       m_isUnspecified (InetAddress_ip Little raw_pton (zeros 12) t 8080 (is_v6 (local_ip true false))) = true).
Proof.
  apply (address_roundtrip Little raw_pton raw_ntop (zeros 12) _ (local_ip true false) 8080);
    [exact raw_posix|reflexivity|]. apply port_holds; [reflexivity|lia].
Defined.
