(* ===== verification/SocketAddress.v ===== *)
(** * Sockets and their addresses: the rest of [netpoll/net/inner/socket.{h,cc}]

    The calls of [Socket] that hand an address to the kernel or fetch one:
    [bindAddress], [connect], [getLocalAddr], [getPeerAddr], with [listen],
    [closeWrite] and [read]; and what the constructor of [Acceptor] makes of
    them.

    - The kernel is an interface, [AddressOps]: it is given the first bytes of
      an address, as many as the length that is passed, and gives addresses
      back, of which at most the length of the buffer is stored.
    - A message of level FATAL is a flag in the result, as in [Socket].

    [listener_address]: a bound listener reports the end point it is bound to,
    with the port that the kernel chose where none was given.
    [self_connection_detected]: [isSelfConnect] on a descriptor is true exactly
    when both ends of its connection are the same. *)

From S2P Require Import Prelude Funcs InetAddress.

Class AddressOps (K : Type) := {
  sys_bind : Z -> list byte -> K -> bool * K;             (* whether it succeeds *)
  sys_listen : Z -> Z -> K -> bool * K;
  sys_connect : Z -> list byte -> K -> Z * K;             (* what it returns *)
  sys_getsockname : Z -> K -> option (list byte);         (* the whole address *)
  sys_getpeername : Z -> K -> option (list byte);
  sys_shutdown_write : Z -> K -> bool * K;
  sys_read : Z -> Z -> K -> (Z * list byte) * K;          (* what it returns and stores *)
  SOMAXCONN : Z
}.

Definition sizeof_sockaddr_in : nat := 16.
Definition sizeof_sockaddr_in6 : nat := 28.

(** The bytes that [bind] and [connect] are given. *)
Definition offered (a : InetAddress) : list byte :=
  take (if m_isIpv6 a then sizeof_sockaddr_in6 else sizeof_sockaddr_in) (storage a).

(** A [sockaddr_in6] of zeros with an address stored in it. *)
Definition stored (m : list byte) : list byte := take sizeof_sockaddr_in6 (m ++ zeros sizeof_sockaddr_in6).

Section calls.
Context {K : Type} `{AddressOps K}.
Implicit Types (fd : Z) (k : K).

(** The flag: whether the message of level FATAL is written. *)
Definition bindAddress fd (localaddr : InetAddress) k : res (bool * K) :=
  _ ← assert (0 <? fd);
  let (ok, k) := sys_bind fd (offered localaddr) k in
  Ok (negb ok, k).

Definition Socket_listen fd k : res (bool * K) :=
  _ ← assert (0 <? fd);
  let (ok, k) := sys_listen fd SOMAXCONN k in
  Ok (negb ok, k).

Definition Socket_connect fd (addr : InetAddress) k : Z * K := sys_connect fd (offered addr) k.

Definition closeWrite fd k : K := (sys_shutdown_write fd k).2.

Definition Socket_read fd (len : Z) k : (Z * list byte) * K := sys_read fd len k.

Definition getLocalAddr fd k : list byte :=
  match sys_getsockname fd k with Some m => stored m | None => zeros sizeof_sockaddr_in6 end.
Definition getPeerAddr fd k : list byte :=
  match sys_getpeername fd k with Some m => stored m | None => zeros sizeof_sockaddr_in6 end.

(** [Socket::isSelfConnect] on a descriptor. *)
Definition isSelfConnect_fd (host : endian) fd k : bool :=
  isSelfConnect host (getLocalAddr fd k) (getPeerAddr fd k).

(** The address in the constructor of [Acceptor]. *)
Definition Acceptor_bind (host : endian) fd (addr : InetAddress) k : res (InetAddress * bool * K) :=
  '(fatal, k) ← bindAddress fd addr k;
  Ok (if toPort host addr =? 0 then InetAddress_in6 (getLocalAddr fd k) else addr, fatal, k).
End calls.

(** ** Names of end points *)

Definition ip_size (x : ip) : nat := if is_v6 x then sizeof_sockaddr_in6 else sizeof_sockaddr_in.

(** The bytes [m], of any length that is enough, name the end point. *)
Definition names (host : endian) (m : list byte) (x : ip) (port : Z) : Prop :=
  (ip_size x <= length m)%nat /\ holds host (stored m) x port.

(** The flag of an address tells the kernel enough. *)
Definition flag_fits (a : InetAddress) (x : ip) : Prop := is_v6 x = true -> m_isIpv6 a = true.

Section names.
Context (host : endian).

Lemma slice_stored m a b : 0 <= a <= b -> b <= zlen m -> b <= 28 -> slice a b (stored m) = slice a b m.
Proof.
  unfold zlen, stored. intros Ha Hb Hc. apply list_eq. intros i. rewrite !lookup_slice. case_decide; [|done].
  unfold sizeof_sockaddr_in6. rewrite lookup_take_lt by lia. by rewrite lookup_app_l by lia.
Qed.

Lemma slice_of_prefix {A} (m : list A) n a b : 0 <= a <= b -> b <= Z.of_nat n -> slice a b (take n m) = slice a b m.
Proof.
  intros Ha Hb. apply list_eq. intros i. rewrite !lookup_slice. case_decide; [|done]. by rewrite lookup_take_lt by lia.
Qed.

Lemma length_stored m : length (stored m) = 28%nat.
Proof. unfold stored, zeros, sizeof_sockaddr_in6. rewrite length_take, length_app, length_replicate. lia. Qed.

Lemma stored_full m : length m = 28%nat -> stored m = m.
Proof. intros Hl. unfold stored, sizeof_sockaddr_in6. rewrite <- Hl. apply take_app_length. Qed.

(** What is offered names the end point that the address stands for. *)
Lemma offered_names a x port : holds host (storage a) x port -> flag_fits a x -> names host (offered a) x port.
Proof.
  intros Hh Hf. pose proof (ho_len _ _ _ _ Hh) as Hl. unfold offered, flag_fits, names, ip_size in *.
  destruct (m_isIpv6 a).
  { rewrite take_ge by (unfold sizeof_sockaddr_in6; lia). rewrite Hl, stored_full by done. split; [|done].
    destruct (is_v6 x); unfold sizeof_sockaddr_in6, sizeof_sockaddr_in; lia. }
  destruct x as [b|b]; [|by discriminate Hf]. cbn [is_v6]. unfold sizeof_sockaddr_in.
  assert (length (take 16 (storage a)) = 16%nat) as Ht by (rewrite length_take; lia). split; [lia|].
  assert (forall i j, 0 <= i <= j -> j <= 8 -> slice i j (stored (take 16 (storage a))) = slice i j (storage a)) as Hs.
  { intros i j Hi Hj. rewrite slice_stored by (unfold zlen; rewrite ?Ht; lia). apply slice_of_prefix; lia. }
  destruct Hh as [H1 H2 H3 H4 H5 H6]. constructor; rewrite ?Hs by lia; try done. apply length_stored.
Qed.

Lemma toIp_spec ntop a x port : holds host (storage a) x port ->
  toIp host ntop a = Some (ntop (ip_family x) (ip_bytes x)).
Proof.
  intros Hh. unfold toIp. rewrite (family_spec host a x port Hh). pose proof (ho_ip _ _ _ _ Hh) as E.
  destruct x as [b|b]; cbn in E; rewrite E; done.
Qed.

(** Every constructor, and [setSockAddrInet6], makes a flag that fits. *)
Lemma flags_fit :
  (forall addr x, flag_fits (InetAddress_in6 addr) x) /\
  (forall junk addr b, flag_fits (InetAddress_in junk addr) (V4 b)) /\
  (forall junk port loopbackOnly ipv6, flag_fits (InetAddress_port host junk port loopbackOnly ipv6) (local_ip loopbackOnly ipv6)) /\
  (forall a addr x port, holds host (storage (setSockAddrInet6 host addr a)) x port -> flag_fits (setSockAddrInet6 host addr a) x).
Proof.
  split_and!; [done|done| |].
  - intros junk port l []; by unfold flag_fits.
  - intros a addr x port Hh Hv. cbn in *. rewrite (holds_family host addr x port Hh). by destruct x.
Qed.
End names.

(** What the kernel does with an address that it is given. *)
Class AddressKernel (host : endian) (K : Type) `{AddressOps K} : Prop := {
  (* a bound socket has the end point as its name; port 0 lets the kernel choose *)
  bind_names fd b k k' x port : names host b x port -> sys_bind fd b k = (true, k') ->
    exists m port', sys_getsockname fd k' = Some m /\ names host m x port' /\
      (if port =? 0 then 0 < port' else port' = port);
  (* an IPv6 address needs its 24 bytes at least *)
  bind_short fd b k : slice 0 2 b = object_bytes host 2 AF_INET6 -> (length b < 24)%nat ->
    (sys_bind fd b k).1 = false
}.

(** ** What they promise *)

(** A listener reports where it listens.  The constructor of [Acceptor] faults
    on no descriptor that [socket] can have given it after the spare one; when
    [bind] succeeds, the address it keeps is the end point that was asked for
    with the port the socket is bound to, chosen by the kernel where the port
    was 0; it prints as the address that was asked for, and a client that passes
    it to [connect] names that end point.  An IPv6 address whose flag is not set
    is refused. *)
Theorem listener_address host {K} `{AddressKernel host K} ntop fd a x port (k : K) :
  holds host (storage a) x port -> 0 < fd ->
  exists a' fatal k', Acceptor_bind host fd a k = Ok (a', fatal, k') /\
    (~ flag_fits a x -> fatal = true) /\
    (flag_fits a x -> fatal = false ->
      exists port', holds host (storage a') x port' /\ (if port =? 0 then 0 < port' else a' = a) /\
        toPort host a' = port' /\ toIp host ntop a' = toIp host ntop a /\ names host (offered a') x port' /\
        exists m, sys_getsockname fd k' = Some m /\ names host m x port').
Proof.
  intros Hh Hfd. unfold Acceptor_bind, bindAddress. rewrite (proj2 (Z.ltb_lt _ _) Hfd). cbn [assert mbind res_bind].
  destruct (sys_bind fd (offered a) k) as [ok k'] eqn:Eb. rewrite (toPort_spec host a x port Hh).
  eexists _, _, k'. split; [reflexivity|]. split.
  - intros Hf. destruct x as [b|b]; [exfalso; apply Hf; intros [=]|]. assert (m_isIpv6 a = false) as Em by (destruct (m_isIpv6 a) eqn:E; [exfalso; apply Hf; intros _; exact E|done]).
    pose proof (ho_len _ _ _ _ Hh) as Hl. assert (ok = false) as ->; [|done].
    change ok with (fst (ok, k')). rewrite <- Eb. unfold offered. rewrite Em. unfold sizeof_sockaddr_in. apply bind_short.
    + rewrite slice_of_prefix by lia. apply (ho_family _ _ _ _ Hh).
    + rewrite length_take. lia.
  - intros Hf Hok. apply negb_false_iff in Hok as ->.
    destruct (bind_names fd _ k k' x port (offered_names host a x port Hh Hf) Eb) as (m & port' & Em & Hm & Hp).
    exists port'. set (a' := if port =? 0 then _ else _).
    assert (holds host (storage a') x port' /\ flag_fits a' x) as [Hh' Hf'].
    { unfold a'. destruct (port =? 0) eqn:Ez; [|by subst port']. split; [|done]. cbn. unfold getLocalAddr. rewrite Em. apply Hm. }
    split_and!; [done| |by eapply toPort_spec| |by apply offered_names|by exists m].
    + unfold a'. by destruct (port =? 0) eqn:Ez.
    + by rewrite (toIp_spec host ntop a' x port'), (toIp_spec host ntop a x port) by done.
Qed.

(** [isSelfConnect] on a connected descriptor: true exactly when the socket is
    connected to itself.  The test rests on the family of the local end alone. *)
Theorem self_connection_detected host {K} `{AddressOps K} fd (k : K) m1 m2 x y port1 port2 :
  sys_getsockname fd k = Some m1 -> sys_getpeername fd k = Some m2 ->
  names host m1 x port1 -> names host m2 y port2 -> is_v6 x = is_v6 y ->
  isSelfConnect_fd host fd k = true <-> x = y /\ port1 = port2.
Proof.
  intros E1 E2 [_ H1] [_ H2] Hf. unfold isSelfConnect_fd, getLocalAddr, getPeerAddr. rewrite E1, E2.
  by apply isSelfConnect_spec.
Qed.

(** A descriptor that is not connected has no peer, and is not connected to
    itself unless its own end is all zeros. *)
Lemma not_self_without_peer host {K} `{AddressOps K} fd (k : K) m x port :
  sys_getsockname fd k = Some m -> sys_getpeername fd k = None -> names host m x port -> port <> 0 ->
  isSelfConnect_fd host fd k = false.
Proof.
  intros E1 E2 [_ Hh] Hp. unfold isSelfConnect_fd, getLocalAddr, getPeerAddr. rewrite E1, E2. unfold isSelfConnect.
  rewrite (holds_family host _ x port Hh), (ho_port _ _ _ _ Hh).
  assert (bool_decide (object_value host (network_bytes 2 port) = object_value host (slice 2 4 (zeros sizeof_sockaddr_in6))) = false) as ->.
  { apply bool_decide_eq_false. change (slice 2 4 (zeros sizeof_sockaddr_in6)) with (zeros 2).
    rewrite (proj2 (object_value_zero host 2 (zeros 2) eq_refl) eq_refl).
    rewrite object_value_zero by apply length_network_bytes. intros E. apply Hp.
    apply (network_bytes_inj 2); [apply Hh|lia|]. by rewrite E. }
  by destruct x.
Qed.

(** ** A kernel that keeps the names of sockets *)

Definition names_table := gmap Z (list byte).

Definition toy_bind (host : endian) (fd : Z) (b : list byte) (k : names_table) : bool * names_table :=
  if (length b <? if bool_decide (slice 0 2 b = object_bytes host 2 AF_INET6) then 28 else 16)%nat then (false, k)
  else (true, <[fd := if bool_decide (slice 2 4 b = zeros 2) then patch 2 (network_bytes 2 32768) b else b]> k).

Definition toy_addresses (host : endian) : AddressOps names_table := {|
  sys_bind := toy_bind host;
  sys_listen _ _ k := (true, k);
  sys_connect _ _ k := (0, k);
  sys_getsockname fd k := k !! fd;
  sys_getpeername fd k := k !! fd;
  sys_shutdown_write _ k := (true, k);
  sys_read _ _ k := ((0, []), k);
  SOMAXCONN := 4096
|}.

Lemma names_family host m x port : names host m x port -> slice 0 2 m = object_bytes host 2 (ip_family x).
Proof.
  intros [Hl Hh]. rewrite <- (ho_family _ _ _ _ Hh), slice_stored; [done|lia| |lia].
  unfold zlen, ip_size, sizeof_sockaddr_in, sizeof_sockaddr_in6 in *. destruct (is_v6 x); lia.
Qed.

Lemma names_patch host m x port port' : names host m x port -> 0 <= port' < 65536 ->
  names host (patch 2 (network_bytes 2 port') m) x port'.
Proof.
  intros [Hl Hh] Hp. assert (16 <= zlen m) as Hz
    by (unfold zlen, ip_size, sizeof_sockaddr_in, sizeof_sockaddr_in6 in *; destruct (is_v6 x); lia).
  assert (zlen (network_bytes 2 port') = 2) as Hn by (unfold zlen; by rewrite length_network_bytes).
  assert (zlen (patch 2 (network_bytes 2 port') m) = zlen m) as Hpl by (rewrite zlen_patch; lia).
  split; [unfold zlen in Hpl; lia|]. destruct Hh as [H1 H2 H3 H4 H5 H6].
  assert (forall i j, 0 <= i <= j -> j <= zlen m -> j <= 28 -> (j <= 2 \/ 4 <= i) ->
    slice i j (stored (patch 2 (network_bytes 2 port') m)) = slice i j (stored m)) as Hs.
  { intros i j Hi Hj Hj' Hd. rewrite !slice_stored by (rewrite ?Hpl; lia). apply slice_patch_disjoint; lia. }
  constructor; [apply length_stored|rewrite Hs by lia; done| | |done|done].
  - rewrite slice_stored by (rewrite ?Hpl; lia).
    replace 4 with (2 + zlen (network_bytes 2 port')) by lia. apply slice_patch_same; lia.
  - destruct x as [b|b]; cbn in H4; [by rewrite Hs by lia|]. rewrite Hs; [done|lia| |lia|lia].
    unfold zlen, ip_size, sizeof_sockaddr_in6 in *. cbn in Hl. lia.
Qed.

#[global] Instance toy_kernel host : @AddressKernel host names_table (toy_addresses host).
Proof.
  constructor.
  - intros fd b k k' x port Hb. cbn. unfold toy_bind. case_match; [done|]. intros [= <-].
    assert (slice 2 4 b = network_bytes 2 port) as Ep.
    { destruct Hb as [Hl Hh]. rewrite <- (ho_port _ _ _ _ Hh), slice_stored; [done|lia| |lia].
      unfold zlen, ip_size, sizeof_sockaddr_in, sizeof_sockaddr_in6 in *. destruct (is_v6 x); lia. }
    rewrite Ep. destruct (bool_decide (network_bytes 2 port = zeros 2)) eqn:Ez.
    + eexists _, 32768. split; [apply lookup_insert_eq|]. split; [by apply (names_patch host b x port); [|lia]|].
      assert (port = 0) as ->; [|done]. apply bool_decide_eq_true in Ez. apply (network_bytes_inj 2); [apply Hb|lia|done].
    + exists b, port. split; [apply lookup_insert_eq|]. split; [done|]. destruct (Z.eqb_spec port 0) as [->|]; [done|done].
  - intros fd b k Hf Hl. cbn. unfold toy_bind. rewrite Hf, bool_decide_true by done.
    by rewrite (proj2 (Nat.ltb_lt _ _)) by lia.
Qed.

(** 127.0.0.1 with no port, and a descriptor. *)
Definition any_port : InetAddress := InetAddress_port Little (zeros 12) 0 true false.

Lemma any_port_holds : holds Little (storage any_port) (local_ip true false) 0.
Proof. apply port_holds; [done|lia]. Qed.

Lemma listener_address_witness :
  exists a' fatal k', @Acceptor_bind names_table (toy_addresses Little) Little 5 any_port ∅ = Ok (a', fatal, k') /\
    (~ flag_fits any_port (local_ip true false) -> fatal = true) /\
    (flag_fits any_port (local_ip true false) -> fatal = false ->
      exists port', holds Little (storage a') (local_ip true false) port' /\ (if 0 =? 0 then 0 < port' else a' = any_port) /\
        toPort Little a' = port' /\ toIp Little raw_ntop a' = toIp Little raw_ntop any_port /\
        names Little (offered a') (local_ip true false) port' /\
        exists m, @sys_getsockname _ (toy_addresses Little) 5 k' = Some m /\ names Little m (local_ip true false) port').
Proof.
  apply (@listener_address Little names_table (toy_addresses Little) (toy_kernel Little) raw_ntop 5 any_port
    (local_ip true false) 0 ∅ any_port_holds). lia.
Defined.

(** The kernel succeeds and chooses. *)
Example any_port_chosen :
  match @Acceptor_bind names_table (toy_addresses Little) Little 5 any_port ∅ with
  | Ok (a', fatal, _) => fatal = false /\ toPort Little a' = 32768 | Fail _ => False end.
Proof. by vm_compute. Qed.

Lemma self_connection_detected_witness :
  let k := <[5 := storage any_port]> (∅ : names_table) in
  @isSelfConnect_fd names_table (toy_addresses Little) Little 5 k = true <->
    local_ip true false = local_ip true false /\ 0 = 0.
Proof.
  assert (names Little (storage any_port) (local_ip true false) 0) as Hn.
  { split; [vm_compute; lia|]. rewrite stored_full by done. apply any_port_holds. }
  apply (@self_connection_detected Little names_table (toy_addresses Little) 5 (<[5 := storage any_port]> ∅)
    (storage any_port) (storage any_port)); [apply lookup_insert_eq|apply lookup_insert_eq|exact Hn|exact Hn|done].
Defined.
