(* ===== verification/Resolver.v ===== *)
(** * Name resolution: [netpoll/net/inner/resolver_impl.{h,cc}]

    [ResolverImpl] answers from a process-wide cache of names, and otherwise asks
    [getaddrinfo] in the single thread of a task queue ([ConcurrentTaskQueue.v]
    shows that its tasks run once, in order).

    - All accesses to the cache are made with [globalMutex] held, so a step of
      the model is a section between two operations on the mutex; callers in
      other threads come between the worker's sections.
    - A callback is what it does with resolvers when it gets the address: a list
      of calls.  One that is called with the mutex held and resolves again locks a
      mutex it owns; one that waits for an answer inside the worker waits for
      itself: [Deadlock].
    - A [StringView] points into memory: [sv_mem] is what follows its first
      character, and goes on after its size.
    - [getaddrinfo] and [gettimeofday] are parameters, given the number of calls
      made before. *)

From Stdlib Require Import Strings.Byte.
From S2P Require Import Prelude Funcs Double TimerQueue Timestamp InetAddress.

(** ** Views and C strings *)

Record StringView := mkView { sv_mem : list byte; sv_size : nat }.

(** [std::string{data, size}] *)
Definition sv_name (v : StringView) : list byte := take (sv_size v) (sv_mem v).

(** A [const char *] as a string: up to the terminator, which has to be there. *)
Fixpoint c_string (mem : list byte) : option (list byte) :=
  match mem with
  | [] => None
  | b :: mem => if decide (b = x00) then Some [] else cons b <$> c_string mem
  end.

(** [name.c_str()] *)
Definition c_str (name : list byte) : list byte := default [] (c_string (name ++ [x00])).

(** ** Calls *)

Inductive callback :=
  | Callback (body : InetAddress -> list call)
with call :=
  | Resolve (timeout : Z) (hostname : StringView) (cb : callback)
  | SyncResolve (timeout : Z) (hostname : StringView).

Definition body (cb : callback) : InetAddress -> list call := match cb with Callback f => f end.

(** The callback of [syncResolve]: it stores the address and sets the promise. *)
Definition set_promise : callback := Callback (fun _ => []).

Record dns_request := mkRequest {
  rq_id : nat;
  rq_timeout : Z;               (* [m_timeout] of the resolver *)
  rq_hostname : StringView;
  rq_cb : callback
}.
Definition rq_name (r : dns_request) : list byte := sv_name (rq_hostname r).

(** Where the worker is in its task. *)
Inductive worker_pc :=
  | WIdle
  | WLookup (r : dns_request)                                    (* the second look into the cache *)
  | WQuery (r : dns_request)                                     (* before [getaddrinfo] *)
  | WBody (cs : list call) (store : option (list byte * InetAddress)).  (* inside the callback, the mutex free *)

(** How an answer was found. *)
Inductive origin :=
  | FromCache (key : list byte) (stored now : Z)            (* [now]: the reading that a timeout is tested with *)
  | FromQuery (k : nat)
  | Failed (k : nat).

Record answer := mkAnswer { an_request : dns_request; an_addr : InetAddress; an_origin : origin }.

Record Resolver := mkResolver {
  dnsCache : gmap (list byte) (InetAddress * Timestamp);
  tasks : list dns_request;
  worker : worker_pc;
  now_calls : nat;
  queries : nat;
  issued : nat;
  answers : list answer
}.

Section setters.
Implicit Types s : Resolver.
Definition set_cache c s := mkResolver c (tasks s) (worker s) (now_calls s) (queries s) (issued s) (answers s).
Definition set_tasks q s := mkResolver (dnsCache s) q (worker s) (now_calls s) (queries s) (issued s) (answers s).
Definition set_worker w s := mkResolver (dnsCache s) (tasks s) w (now_calls s) (queries s) (issued s) (answers s).
Definition count_now s := mkResolver (dnsCache s) (tasks s) (worker s) (S (now_calls s)) (queries s) (issued s) (answers s).
Definition count_query s := mkResolver (dnsCache s) (tasks s) (worker s) (now_calls s) (S (queries s)) (issued s) (answers s).
Definition issue s := mkResolver (dnsCache s) (tasks s) (worker s) (now_calls s) (queries s) (S (issued s)) (answers s).
Definition log a s := mkResolver (dnsCache s) (tasks s) (worker s) (now_calls s) (queries s) (issued s) (answers s ++ [a]).
End setters.

Definition Resolver_new : Resolver := mkResolver ∅ [] WIdle 0 0 0 [].

Section resolver.
Context (host : endian) (junk : list byte).
(* the family and the address of the first result, if there is one *)
Context (getaddrinfo : nat -> list byte -> option (Z * list byte)).
Context (gettimeofday : nat -> timeval).
Implicit Types s : Resolver.

(** ** The cache *)

(** The entry is used when it is young enough: [second + timeout > now()]. *)
Definition young (timeout : Z) (stored : Timestamp) (k : nat) : res bool :=
  if timeout =? 0 then Ok true
  else
    until ← ts_add stored (d_of_Z timeout);
    t ← ts_now (gettimeofday k);
    Ok (ts_gt until t).

(** The section that looks into the cache: the address, if there is one to use. *)
Definition look (timeout : Z) (key : list byte) s : res (option (InetAddress * Timestamp) * Resolver) :=
  match dnsCache s !! key with
  | None => Ok (None, s)
  | Some (a, stored) =>
      y ← young timeout stored (now_calls s);
      let s := if timeout =? 0 then s else count_now s in
      Ok (if y : bool then Some (a, stored) else None, s)
  end.

Definition wall (k : nat) : Z := microseconds (gettimeofday k).

(** A callback that is called with the mutex held. *)
Definition call_locked (r : dns_request) (key : list byte) (e : InetAddress * Timestamp) (k : nat) s : res Resolver :=
  match body (rq_cb r) (fst e) with
  | [] => Ok (log (mkAnswer r (fst e) (FromCache key (m_microSecondsSinceEpoch (snd e)) (wall k))) s)
  | _ => Fail Deadlock
  end.

(** [ResolverImpl::resolve] up to [runTask]; [true]: answered at once. *)
Definition resolve (timeout : Z) (hostname : StringView) (cb : callback) s : res (bool * Resolver) :=
  let r := mkRequest (issued s) timeout hostname cb in
  match c_string (sv_mem hostname) with
  | None => Fail OutOfBounds
  | Some key =>
      '(e, s') ← look timeout key (issue s);
      match e with
      | Some e => s' ← call_locked r key e (now_calls s) s'; Ok (true, s')
      | None => Ok (false, set_tasks (tasks s' ++ [r]) s')
      end
  end.

(** A call from a thread that can wait: [syncResolve] then returns when its
    request is answered. *)
Definition outside_call (c : call) s : res Resolver :=
  match c with
  | Resolve timeout hostname cb => snd <$> resolve timeout hostname cb s
  | SyncResolve timeout hostname => snd <$> resolve timeout hostname set_promise s
  end.

(** A call from the worker: [syncResolve] waits in the only thread that could
    answer it. *)
Definition worker_call (c : call) s : res Resolver :=
  match c with
  | Resolve timeout hostname cb => snd <$> resolve timeout hostname cb s
  | SyncResolve timeout hostname =>
      '(done, s) ← resolve timeout hostname set_promise s;
      if done : bool then Ok s else Fail Deadlock
  end.

(** The address of the first result. *)
Definition inet_of (fam : Z) (addr : list byte) : InetAddress :=
  if fam =? AF_INET then InetAddress_in junk addr
  else if fam =? AF_INET6 then InetAddress_in6 addr
  else InetAddress_port host junk 0 false false.

(** The task, section by section. *)
Definition dns_step s : res Resolver :=
  match worker s with
  | WIdle =>
      match tasks s with
      | [] => Ok s
      | r :: q => Ok (set_worker (WLookup r) (set_tasks q s))
      end
  | WLookup r =>
      '(e, s') ← look (rq_timeout r) (rq_name r) s;
      match e with
      | Some e => s' ← call_locked r (rq_name r) e (now_calls s) s'; Ok (set_worker WIdle s')
      | None => Ok (set_worker (WQuery r) s')
      end
  | WQuery r =>
      let k := queries s in
      let s := count_query s in
      match getaddrinfo k (c_str (rq_name r)) with
      | None =>
          let a := InetAddress_port host junk 0 false false in
          Ok (set_worker (WBody (body (rq_cb r) a) None) (log (mkAnswer r a (Failed k)) s))
      | Some (fam, addr) =>
          let a := inet_of fam addr in
          Ok (set_worker (WBody (body (rq_cb r) a) (Some (rq_name r, a))) (log (mkAnswer r a (FromQuery k)) s))
      end
  | WBody (c :: cs) store => s ← worker_call c s; Ok (set_worker (WBody cs store) s)
  | WBody [] None => Ok (set_worker WIdle s)
  | WBody [] (Some (name, a)) =>
      t ← ts_now (gettimeofday (now_calls s));
      Ok (set_worker WIdle (count_now (set_cache (<[name := (a, t)]> (dnsCache s)) s)))
  end.

(** ** Runs *)

Inductive op := OCall (c : call) | OWorker.

Definition exec (o : op) s : res Resolver :=
  match o with OCall c => outside_call c s | OWorker => dns_step s end.

Fixpoint run (ops : list op) s : res Resolver :=
  match ops with
  | [] => Ok s
  | o :: ops => s ← exec o s; run ops s
  end.
End resolver.

(** ** Where answers come from *)

Section provenance.
Context (host : endian) (junk : list byte) (getaddrinfo : nat -> list byte -> option (Z * list byte)).
Context (gettimeofday : nat -> timeval).
Implicit Types s : Resolver.

(** The address that query [k] finds for a name. *)
Definition answer_of (k : nat) (name : list byte) : option InetAddress :=
  '(fam, addr) ← getaddrinfo k (c_str name); Some (inet_of host junk fam addr).

Definition answered_by (q : nat) (name : list byte) (a : InetAddress) : Prop :=
  exists k, (k < q)%nat /\ answer_of k name = Some a.
Definition stored_at (n : nat) (t : Timestamp) : Prop :=
  exists j, (j < n)%nat /\ t = mkTimestamp (wall gettimeofday j).

(** An answer after [q] queries and [n] readings of the clock.  One from the
    cache was found by a query for the key that was looked up, and stored less than the
    timeout ago. *)
Definition justified (q n : nat) (an : answer) : Prop :=
  let r := an_request an in
  match an_origin an with
  | FromCache key stored now =>
      (c_string (sv_mem (rq_hostname r)) = Some key \/ key = rq_name r) /\
      answered_by q key (an_addr an) /\ stored_at n (mkTimestamp stored) /\
      (0 < rq_timeout r < 2 ^ 39 -> now < stored + rq_timeout r * 1000000)
  | FromQuery k => (k < q)%nat /\ answer_of k (rq_name r) = Some (an_addr an)
  | Failed k => (k < q)%nat /\ answer_of k (rq_name r) = None /\
      an_addr an = InetAddress_port host junk 0 false false
  end.

(** Requests that wait for their answer. *)
Definition in_hand (w : worker_pc) : list dns_request :=
  match w with WLookup r | WQuery r => [r] | _ => [] end.
Definition pending s : list dns_request := in_hand (worker s) ++ tasks s.

Definition answered_ids s : list nat := map (fun an => rq_id (an_request an)) (answers s).

Definition store_ok (q : nat) (w : worker_pc) : Prop :=
  match w with WBody _ (Some (name, a)) => answered_by q name a | _ => True end.

Record resolver_inv s : Prop := {
  inv_ids : answered_ids s ++ map rq_id (pending s) ≡ₚ seq 0 (issued s);
  inv_cache : map_Forall (fun key e => answered_by (queries s) key (fst e) /\ stored_at (now_calls s) (snd e)) (dnsCache s);
  inv_store : store_ok (queries s) (worker s);
  inv_answers : Forall (justified (queries s) (now_calls s)) (answers s)
}.

Lemma answered_by_mono q q' name a : (q <= q')%nat -> answered_by q name a -> answered_by q' name a.
Proof. intros Hq (k & Hk & E). exists k. split; [lia|done]. Qed.

Lemma stored_at_mono n n' t : (n <= n')%nat -> stored_at n t -> stored_at n' t.
Proof. intros Hn (k & Hk & E). exists k. split; [lia|done]. Qed.

Lemma justified_mono q q' n n' an : (q <= q')%nat -> (n <= n')%nat -> justified q n an -> justified q' n' an.
Proof.
  intros Hq Hn. unfold justified. destruct (an_origin an) as [key st now|k|k].
  - intros (H1 & H2 & H3 & H4). split; [done|]. eauto using answered_by_mono, stored_at_mono.
  - intros [H1 H2]. split; [lia|done].
  - intros (H1 & H2). split; [lia|done].
Qed.

Lemma store_ok_mono q q' w : (q <= q')%nat -> store_ok q w -> store_ok q' w.
Proof. destruct w as [| | |cs [[name a]|]]; cbn; eauto using answered_by_mono. Qed.

(** Reading clocks and asking changes only the counters. *)
Lemma inv_counters s q n :
  (queries s <= q)%nat -> (now_calls s <= n)%nat -> resolver_inv s ->
  resolver_inv (mkResolver (dnsCache s) (tasks s) (worker s) n q (issued s) (answers s)).
Proof.
  intros Hq Hn [H1 H2 H3 H4]. constructor; cbn [worker dnsCache answers queries now_calls]; [done| | |].
  - eapply map_Forall_impl; [exact H2|]. intros key [a t] [? ?]. eauto using answered_by_mono, stored_at_mono.
  - eauto using store_ok_mono.
  - eapply Forall_impl; [exact H4|]. eauto using justified_mono.
Qed.

(** ** Looking into the cache *)

Context (clock_ok : forall k, wf_timeval (gettimeofday k)).

Lemma young_ok timeout j k :
  0 <= timeout < 2 ^ 39 ->
  young gettimeofday timeout (mkTimestamp (wall gettimeofday j)) k =
    Ok ((timeout =? 0) || (wall gettimeofday k <? wall gettimeofday j + timeout * 1000000)).
Proof.
  intros Ht. unfold young. destruct (Z.eqb_spec timeout 0) as [|Hne]; [done|]. cbn [orb].
  pose proof (microseconds_range _ (clock_ok j)). unfold wall in *.
  rewrite (ts_add_ok _ _ (timeout * 1000000)); [|by apply micros_of_nonneg; lia|cbn; lia].
  cbn [mbind res_bind m_microSecondsSinceEpoch]. by rewrite ts_now_ok by done.
Qed.

Lemma look_spec timeout key s e s' :
  resolver_inv s -> look gettimeofday timeout key s = Ok (e, s') ->
  (s' = s \/ s' = count_now s) /\
  match e with
  | None => True
  | Some (a, t) => dnsCache s !! key = Some (a, t) /\
      (0 < timeout < 2 ^ 39 -> wall gettimeofday (now_calls s) < m_microSecondsSinceEpoch t + timeout * 1000000)
  end.
Proof.
  intros Hi. unfold look. destruct (dnsCache s !! key) as [[a t]|] eqn:Ek; [|intros [= <- <-]; auto].
  destruct (young _ _ _ _) as [y|] eqn:Ey; [|done]. intros [= <- <-].
  split; [destruct (timeout =? 0); auto|]. destruct y; [|done]. split; [done|]. intros Ht.
  destruct (inv_cache _ Hi _ _ Ek) as [_ (j & _ & Ej)]. cbn [snd] in Ej. subst t.
  rewrite young_ok in Ey by lia. injection Ey as Ey. apply orb_true_iff in Ey as [Ey|Ey]; cbn [m_microSecondsSinceEpoch]; lia.
Qed.

Lemma look_total timeout key s :
  resolver_inv s -> 0 <= timeout < 2 ^ 39 -> exists e s', look gettimeofday timeout key s = Ok (e, s').
Proof.
  intros Hi Ht. unfold look. destruct (dnsCache s !! key) as [[a t]|] eqn:Ek; [|by eauto].
  destruct (inv_cache _ Hi _ _ Ek) as [_ (j & _ & Ej)]. cbn [snd] in Ej. subst t.
  rewrite young_ok by done. cbn [mbind res_bind]. eauto.
Qed.

Lemma look_inv timeout key s e s' :
  resolver_inv s -> look gettimeofday timeout key s = Ok (e, s') -> resolver_inv s'.
Proof.
  intros Hi E. destruct (look_spec _ _ _ _ _ Hi E) as [[-> | ->] _]; [done|].
  apply (inv_counters s (queries s) (S (now_calls s))); [lia|lia|done].
Qed.

(** What [look] finds justifies the answer. *)
Lemma look_justified r key s a t s' :
  resolver_inv s -> look gettimeofday (rq_timeout r) key s = Ok (Some (a, t), s') ->
  c_string (sv_mem (rq_hostname r)) = Some key \/ key = rq_name r ->
  justified (queries s') (now_calls s')
    (mkAnswer r a (FromCache key (m_microSecondsSinceEpoch t) (wall gettimeofday (now_calls s)))).
Proof.
  intros Hi E Hkey. destruct (look_spec _ _ _ _ _ Hi E) as [Hs [Hc Hf]].
  destruct (inv_cache _ (look_inv _ _ _ _ _ Hi E) key (a, t)) as [Ha Ht].
  { by destruct Hs as [-> | ->]. }
  split; [done|]. split; [done|]. split; [by destruct t|done].
Qed.

(** ** Steps keep the invariant *)

Lemma look_issue timeout key s e s' :
  look gettimeofday timeout key (issue s) = Ok (e, s') ->
  exists s0, look gettimeofday timeout key s = Ok (e, s0) /\ s' = issue s0.
Proof.
  unfold look. cbn [issue dnsCache now_calls]. destruct (dnsCache s !! key) as [[a t]|]; [|intros [= <- <-]; eauto].
  destruct (young _ _ _ _) as [y|]; [|done]. intros [= <- <-]. eexists. split; [done|]. by destruct (timeout =? 0).
Qed.

Lemma call_locked_log r key e k s s' :
  call_locked gettimeofday r key e k s = Ok s' ->
  s' = log (mkAnswer r (fst e) (FromCache key (m_microSecondsSinceEpoch (snd e)) (wall gettimeofday k))) s.
Proof. unfold call_locked. destruct (body _ _); [|done]. by intros [= <-]. Qed.

Lemma look_fields timeout key s e s' :
  look gettimeofday timeout key s = Ok (e, s') ->
  worker s' = worker s /\ tasks s' = tasks s /\ issued s' = issued s /\ answers s' = answers s /\ queries s' = queries s.
Proof.
  unfold look. destruct (dnsCache s !! key) as [[a t]|]; [|by intros [= <- <-]].
  destruct (young _ _ _ _) as [y|]; [|done]. intros [= <- <-]. by destruct (timeout =? 0).
Qed.

Lemma seq_issue n : seq 0 (S n) = seq 0 n ++ [n].
Proof. by rewrite seq_S. Qed.

Lemma resolve_inv timeout hostname cb s b s' :
  resolver_inv s -> resolve gettimeofday timeout hostname cb s = Ok (b, s') ->
  resolver_inv s' /\ worker s' = worker s.
Proof.
  intros Hi. unfold resolve. destruct (c_string _) as [key|] eqn:Ec; [|done].
  destruct (look _ _ _ _) as [[e s1]|] eqn:El; [|done]. cbn [mbind res_bind].
  apply look_issue in El as (s0 & El & ->). pose proof (look_inv _ _ _ _ _ Hi El) as [H1 H2 H3 H4].
  destruct (look_fields _ _ _ _ _ El) as (Ew & _ & Eiss & _). set (r := mkRequest _ _ _ _).
  destruct e as [[a t]|].
  - destruct (call_locked _ _ _ _ _ _) as [s2|] eqn:Eq; [|done]. cbn [mbind res_bind]. intros [= <- <-].
    apply call_locked_log in Eq as ->. split; [|done].
    constructor; cbn [log issue worker dnsCache answers queries now_calls issued tasks]; [|done|done|].
    + unfold answered_ids, pending in *. cbn [log issue answers worker tasks]. rewrite seq_issue, <- H1, map_app.
      cbn [map an_request]. change (rq_id r) with (issued s). rewrite <- Eiss. solve_Permutation.
    + apply Forall_app. split; [done|]. constructor; [|done].
      apply (look_justified r key s a t s0 Hi El). by left.
  - cbn [mbind res_bind]. intros [= <- <-]. split; [|done].
    constructor; cbn [set_tasks issue worker dnsCache answers queries now_calls issued tasks]; [|done|done|done].
    unfold answered_ids, pending in *. cbn [set_tasks issue answers worker tasks]. rewrite seq_issue, <- H1, !map_app. cbn [map].
    change (rq_id r) with (issued s). rewrite <- Eiss. by rewrite !(assoc_L (++)).
Qed.

Lemma worker_call_inv c s s' :
  resolver_inv s -> worker_call gettimeofday c s = Ok s' -> resolver_inv s' /\ worker s' = worker s.
Proof.
  intros Hi. destruct c as [t v cb|t v]; cbn [worker_call];
    destruct (resolve _ _ _ _ _) as [[b s1]|] eqn:E; try done; apply resolve_inv in E; try done.
  - by intros [= <-].
  - cbn [mbind res_bind]. destruct b; [|done]. by intros [= <-].
Qed.

Lemma outside_call_inv c s s' :
  resolver_inv s -> outside_call gettimeofday c s = Ok s' -> resolver_inv s'.
Proof.
  intros Hi. destruct c as [t v cb|t v]; cbn [outside_call];
    destruct (resolve _ _ _ _ _) as [[b s1]|] eqn:E; try done; apply resolve_inv in E as [? _]; try done;
    by intros [= <-].
Qed.

(** Moving the worker, with the same requests in hand. *)
Lemma set_worker_inv w s :
  resolver_inv s -> in_hand w = in_hand (worker s) -> store_ok (queries s) w -> resolver_inv (set_worker w s).
Proof.
  intros [H1 H2 H3 H4] Hw Hs. constructor; try done.
  unfold answered_ids, pending in *. cbn [set_worker answers worker tasks issued]. by rewrite Hw.
Qed.

(** The request in hand is answered. *)
Lemma answer_inv w r an s :
  resolver_inv s -> in_hand (worker s) = [r] -> in_hand w = [] -> store_ok (queries s) w ->
  an_request an = r -> justified (queries s) (now_calls s) an ->
  resolver_inv (set_worker w (log an s)).
Proof.
  intros [H1 H2 H3 H4] Hr Hw Hs <- Hj. constructor; try done.
  - unfold answered_ids, pending in *. cbn [set_worker log answers worker tasks issued].
    rewrite Hr in H1. rewrite Hw, map_app, <- H1. cbn [map app]. solve_Permutation.
  - cbn [set_worker log answers queries now_calls]. apply Forall_app. split; [done|]. by constructor.
Qed.

Abbreviation step := (dns_step host junk getaddrinfo gettimeofday).

Lemma answered_last q k name a : k = q -> answer_of k name = Some a -> answered_by (S q) name a.
Proof. intros -> E. exists q. split; [lia|done]. Qed.

Lemma dns_step_inv s s' : resolver_inv s -> step s = Ok s' -> resolver_inv s'.
Proof.
  intros Hi. unfold dns_step. destruct (worker s) as [|r|r|[|c cs] store] eqn:Ew.
  - destruct (tasks s) as [|r q] eqn:Et; intros [= <-]; [done|]. destruct Hi as [H1 H2 H3 H4]. constructor; try done.
    unfold answered_ids, pending in *. cbn [set_worker set_tasks answers worker tasks issued in_hand].
    rewrite Ew, Et in H1. by rewrite <- H1.
  - destruct (look _ _ _ _) as [[e s1]|] eqn:El; [|done]. cbn [mbind res_bind].
    pose proof (look_inv _ _ _ _ _ Hi El) as Hi1. destruct (look_fields _ _ _ _ _ El) as (Ew1 & _ & _ & _ & _).
    destruct e as [[a t]|].
    + destruct (call_locked _ _ _ _ _ _) as [s2|] eqn:Eq; [|done]. intros [= <-]. apply call_locked_log in Eq as ->.
      apply (answer_inv WIdle r); [done|by rewrite Ew1, Ew|done|done|done|].
      apply (look_justified r (rq_name r) s a t s1 Hi El). by right.
    + intros [= <-]. apply set_worker_inv; [done|by rewrite Ew1, Ew|done].
  - assert (resolver_inv (count_query s)) as Hi1 by (apply (inv_counters s (S (queries s)) (now_calls s)); [lia|lia|done]).
    destruct (getaddrinfo _ _) as [[fam addr]|] eqn:Eg; intros [= <-]; apply (answer_inv _ r); try done; try (cbn; by rewrite Ew).
    + cbn. eapply answered_last; [done|]. unfold answer_of. by rewrite Eg.
    + split; [cbn; lia|]. cbn. unfold answer_of. by rewrite Eg.
    + split; [cbn; lia|]. split; [|done]. cbn. unfold answer_of. by rewrite Eg.
  - destruct store as [[name a]|].
    + rewrite ts_now_ok by done. intros [= <-]. destruct Hi as [H1 H2 H3 H4]. constructor.
      * unfold answered_ids, pending in *. cbn. by rewrite Ew in H1.
      * cbn. apply map_Forall_insert_2; [split; [by rewrite Ew in H3|]; eexists _; split; [|done]; lia|].
        eapply map_Forall_impl; [exact H2|]. intros key [a' t] [? ?]. split; [done|]. eapply stored_at_mono; [|done]. lia.
      * done.
      * eapply Forall_impl; [exact H4|]. intros an. apply justified_mono; cbn; lia.
    + intros [= <-]. apply set_worker_inv; [done|by rewrite Ew|done].
  - destruct (worker_call _ _ _) as [s1|] eqn:E; [|done]. intros [= <-].
    pose proof (inv_store _ Hi) as Hs. rewrite Ew in Hs.
    pose proof (worker_call_inv _ _ _ Hi E) as [Hi1 Ew1]. apply set_worker_inv; [done|by rewrite Ew1, Ew|].
    pose proof (inv_store _ Hi1) as Hs1. by rewrite Ew1, Ew in Hs1.
Qed.

Lemma resolver_new_inv : resolver_inv Resolver_new.
Proof. by constructor. Qed.

Lemma run_inv ops s s' : resolver_inv s -> run host junk getaddrinfo gettimeofday ops s = Ok s' -> resolver_inv s'.
Proof.
  revert s. induction ops as [|o ops IH]; intros s Hi; [by intros [= <-]|]. cbn [run].
  destruct (exec _ _ _ _ o s) as [s1|] eqn:E; [|done]. cbn [mbind res_bind]. apply IH.
  destruct o as [c|]; cbn [exec] in E; eauto using outside_call_inv, dns_step_inv.
Qed.

(** ** The worker answers everything *)

(** Requests whose callbacks do not resolve anything, and whose timeouts a
    [double] of seconds counts exactly. *)
Definition calm_request (r : dns_request) : Prop :=
  0 <= rq_timeout r < 2 ^ 39 /\ forall a, body (rq_cb r) a = [].
Definition no_calls (w : worker_pc) : Prop := match w with WBody cs _ => cs = [] | _ => True end.
Definition calm s : Prop := Forall calm_request (pending s) /\ no_calls (worker s).

(** Sections left, if no one else calls. *)
Definition sections (w : worker_pc) : nat :=
  match w with WIdle => 0 | WLookup _ => 3 | WQuery _ => 2 | WBody _ _ => 1 end.
Definition work_left s : nat := 4 * length (tasks s) + sections (worker s).

Lemma call_locked_calm r key e k s :
  calm_request r -> is_ok (call_locked gettimeofday r key e k s).
Proof. intros [_ Hb]. unfold call_locked. rewrite Hb. by eexists. Qed.

Lemma worker_progress s :
  resolver_inv s -> calm s -> (0 < work_left s)%nat ->
  exists s', step s = Ok s' /\ calm s' /\ (work_left s' < work_left s)%nat /\ issued s' = issued s.
Proof.
  intros Hi [Hp Hn] Hw. unfold calm, work_left, pending, dns_step in *. destruct (worker s) as [|r|r|cs store] eqn:Ew.
  - destruct (tasks s) as [|r q] eqn:Et; [cbn in Hw; lia|]. eexists. split; [done|]. cbn. split; [done|]. split; [lia|done].
  - cbn [in_hand app] in Hp. apply Forall_cons_1 in Hp as [Hr Hp].
    destruct (look_total (rq_timeout r) (rq_name r) s Hi (proj1 Hr)) as (e & s1 & El). rewrite El. cbn [mbind res_bind].
    destruct (look_fields _ _ _ _ _ El) as (Ew1 & Et1 & Ei1 & _). destruct e as [e|].
    + destruct (call_locked_calm r (rq_name r) e (now_calls s) s1 Hr) as [s2 E2]. rewrite E2. cbn [mbind res_bind].
      apply call_locked_log in E2 as ->. eexists. split; [done|]. cbn. rewrite Et1. split; [done|]. split; [lia|done].
    + eexists. split; [done|]. cbn. rewrite Et1. split; [by split; [constructor|]|]. split; [lia|done].
  - cbn [in_hand app] in Hp. apply Forall_cons_1 in Hp as [Hr Hp].
    destruct (getaddrinfo _ _) as [[fam addr]|]; (eexists; split; [done|]; cbn; split; [|split; [lia|done]]);
      (split; [done|apply Hr]).
  - cbn in Hn. subst cs. destruct store as [[name a]|].
    + rewrite ts_now_ok by done. eexists. split; [done|]. cbn. split; [done|]. split; [lia|done].
    + eexists. split; [done|]. cbn. split; [done|]. split; [lia|done].
Qed.

Abbreviation run_ := (run host junk getaddrinfo gettimeofday).

Lemma drain n s :
  resolver_inv s -> calm s -> (work_left s <= n)%nat ->
  exists ops s', run_ ops s = Ok s' /\ Forall (fun o => o = OWorker) ops /\ resolver_inv s' /\
    pending s' = [] /\ issued s' = issued s.
Proof.
  revert s. induction n as [n IH] using lt_wf_ind. intros s Hi Hc Hn.
  destruct (decide (work_left s = 0)%nat) as [E|E].
  - exists [], s. split_and!; try done. unfold work_left, pending in *.
    destruct (worker s), (tasks s); cbn in *; try lia; done.
  - destruct (worker_progress s Hi Hc ltac:(lia)) as (s1 & E1 & Hc1 & Hl & Hs1).
    destruct (IH (work_left s1) ltac:(lia) s1 (dns_step_inv _ _ Hi E1) Hc1 ltac:(done)) as (ops & s' & Er & Ho & Hi' & Hp & Hs').
    exists (OWorker :: ops), s'. cbn [run exec]. rewrite E1. split_and!; [done|by constructor|done|done|congruence].
Qed.
End provenance.

(** ** Claims *)

(** C23. Every request is answered once.  Whatever calls come from whichever threads,
    and whatever callbacks do, in every run that has not ended in a fault or a deadlock
    no request has been answered twice, and those that have not
    been answered are with the worker or wait for it; and once callers are quiet, when
    the callbacks that wait resolve nothing themselves and their timeouts are below 2^39
    seconds, the worker answers all of them, in finitely many sections.  Callbacks that
    resolve from the cache or wait in the worker deadlock ([resolver_faults]). *)
Theorem requests_answered_once host junk getaddrinfo gettimeofday ops s :
  (forall k, wf_timeval (gettimeofday k)) ->
  run host junk getaddrinfo gettimeofday ops Resolver_new = Ok s ->
  answered_ids s ++ map rq_id (pending s) ≡ₚ seq 0 (issued s) /\
  NoDup (answered_ids s) /\
  (calm s -> exists ops' s', run host junk getaddrinfo gettimeofday ops' s = Ok s' /\
     Forall (fun o => o = OWorker) ops' /\ answered_ids s' ≡ₚ seq 0 (issued s)).
Proof.
  intros Hc Hr. pose proof (run_inv host junk getaddrinfo gettimeofday Hc ops _ _ (resolver_new_inv _ _ _ _) Hr) as Hi.
  split; [apply Hi|]. split.
  - pose proof (inv_ids _ _ _ _ _ Hi) as Hp. assert (NoDup (seq 0 (issued s))) as Hd by apply NoDup_seq.
    rewrite <- Hp in Hd. by apply NoDup_app in Hd as [? _].
  - intros Hq. destruct (drain host junk getaddrinfo gettimeofday Hc _ s Hi Hq (le_n _)) as (ops' & s' & E & Ho & Hi' & Hp & Hs).
    exists ops', s'. split; [done|]. split; [done|]. pose proof (inv_ids _ _ _ _ _ Hi') as H'.
    rewrite Hp, app_nil_r, Hs in H'. done.
Qed.

(** A name server that knows every host under the same address, and a clock. *)
Definition one_host (k : nat) (name : list byte) : option (Z * list byte) := Some (AF_INET, name).
Definition tick (k : nat) : timeval := mkTimeval (1700000000 + Z.of_nat k) 0.

(** "a.b" as the first three characters of "a.b.c". *)
Definition long_host : list byte := [x61; x2e; x62; x2e; x63; x00].
Definition view_long : StringView := mkView long_host 5.
Definition view_short : StringView := mkView long_host 3.
Definition quiet_cb : callback := Callback (fun _ => []).

Lemma tick_ok k : Z.of_nat k < 2 ^ 40 -> wf_timeval (tick k).
Proof. unfold wf_timeval, tick. cbn. lia. Qed.

(** The clock stands still after a while. *)
Definition stopped_tick (k : nat) : timeval := tick (Nat.min k 1000).
Lemma stopped_tick_ok k : wf_timeval (stopped_tick k).
Proof. apply tick_ok. lia. Qed.

Definition two_requests : list op := [OCall (Resolve 60 view_long quiet_cb); OWorker; OCall (SyncResolve 0 view_long)].

Lemma requests_answered_once_witness :
  exists s, run Little [] one_host stopped_tick two_requests Resolver_new = Ok s /\
    issued s = 2%nat /\ length (pending s) = 2%nat /\
    exists ops' s', run Little [] one_host stopped_tick ops' s = Ok s' /\
      Forall (fun o => o = OWorker) ops' /\ answered_ids s' ≡ₚ seq 0 (issued s).
Proof.
  eexists. split; [reflexivity|]. split; [reflexivity|]. split; [reflexivity|].
  refine (proj2 (proj2 (requests_answered_once Little [] one_host stopped_tick two_requests _ stopped_tick_ok _)) _);
    [reflexivity|].
  split; [|done]. repeat constructor; cbn; lia.
Defined.

(** Answers are current.  An answer is what a query of [getaddrinfo] found for
    the name that was asked for, or the default address when that query failed,
    or it comes from the cache: then a query found it for the key that was looked up, and it
    was stored less than the resolver's timeout before (any time ago for the timeout
    0).  If the view ends where its C string ends, the key is the name. *)
Theorem answers_are_current host junk getaddrinfo gettimeofday ops s :
  (forall k, wf_timeval (gettimeofday k)) ->
  run host junk getaddrinfo gettimeofday ops Resolver_new = Ok s ->
  Forall (fun an =>
    let r := an_request an in
    match an_origin an with
    | FromCache key stored now =>
        (c_string (sv_mem (rq_hostname r)) = Some (rq_name r) -> key = rq_name r) /\
        (exists k, (k < queries s)%nat /\ answer_of host junk getaddrinfo k key = Some (an_addr an)) /\
        (exists j, (j < now_calls s)%nat /\ stored = wall gettimeofday j) /\
        (0 < rq_timeout r < 2 ^ 39 -> now < stored + rq_timeout r * 1000000)
    | FromQuery k => answer_of host junk getaddrinfo k (rq_name r) = Some (an_addr an)
    | Failed k => answer_of host junk getaddrinfo k (rq_name r) = None /\
        an_addr an = InetAddress_port host junk 0 false false
    end) (answers s).
Proof.
  intros Hc Hr. pose proof (run_inv host junk getaddrinfo gettimeofday Hc ops _ _ (resolver_new_inv _ _ _ _) Hr) as Hi.
  eapply Forall_impl; [apply Hi|]. intros an. unfold justified. cbn zeta. destruct (an_origin an) as [key st now|k|k].
  - intros (Hk & Ha & (j & Hj & [= ->]) & Hf). split; [|eauto]. intros E. destruct Hk as [Hk|Hk]; congruence.
  - by intros [_ ?].
  - by intros [_ ?].
Qed.

Definition ask_twice : list op :=
  [OCall (Resolve 60 view_long quiet_cb); OWorker; OWorker; OWorker; OWorker; OCall (SyncResolve 60 view_long)].

Definition asked : Resolver :=
  match run Little [] one_host stopped_tick ask_twice Resolver_new with Ok s => s | Fail _ => Resolver_new end.
Lemma ask_twice_asked : run Little [] one_host stopped_tick ask_twice Resolver_new = Ok asked.
Proof. vm_compute. reflexivity. Qed.

Lemma answers_are_current_witness :
  map an_origin (answers asked) =
    [FromQuery 0; FromCache (take 5 long_host) (1700000000 * 1000000) (1700000001 * 1000000)] /\
  Forall (fun an => match an_origin an with
    | FromCache key stored now =>
        0 < rq_timeout (an_request an) < 2 ^ 39 -> now < stored + rq_timeout (an_request an) * 1000000
    | _ => True end) (answers asked).
Proof.
  split; [vm_compute; reflexivity|].
  eapply Forall_impl;
    [apply (answers_are_current Little [] one_host stopped_tick ask_twice asked stopped_tick_ok ask_twice_asked)|].
  intros an. cbv beta zeta. destruct (an_origin an); [|done..]. by intros (_ & _ & _ & H).
Defined.

(** Three uses that go wrong.  A view that is a part of a longer string is
    looked up under the longer name: it gets the address of another host.  A
    callback that resolves again while it is called from the cache, and one that
    waits for an answer in the worker, never return. *)
Theorem resolver_faults host junk getaddrinfo gettimeofday s long short a t :
  sv_mem short = sv_mem long -> c_string (sv_mem long) = Some (sv_name long) ->
  dnsCache s !! sv_name long = Some (a, t) ->
  (exists s', resolve gettimeofday 0 short quiet_cb s = Ok (true, s') /\
     map (fun an => (an_addr an, rq_name (an_request an))) (answers s') =
       map (fun an => (an_addr an, rq_name (an_request an))) (answers s) ++ [(a, sv_name short)]) /\
  (forall c cs, resolve gettimeofday 0 long (Callback (fun _ => c :: cs)) s = Fail Deadlock) /\
  (forall v name timeout cs store, worker s = WBody (SyncResolve timeout v :: cs) store ->
     c_string (sv_mem v) = Some name -> dnsCache s !! name = None ->
     dns_step host junk getaddrinfo gettimeofday s = Fail Deadlock).
Proof.
  intros Em Ec Ek. split; [|split].
  - unfold resolve. rewrite Em, Ec. unfold look. cbn [issue dnsCache]. rewrite Ek. eexists. split; [reflexivity|].
    cbn [answers log issue]. by rewrite map_app.
  - intros c cs. unfold resolve. rewrite Ec. unfold look. cbn [issue dnsCache]. by rewrite Ek.
  - intros v name timeout cs store Ew Ev En. unfold dns_step. rewrite Ew. cbn [worker_call]. unfold resolve. rewrite Ev.
    unfold look. cbn [issue dnsCache]. by rewrite En.
Qed.

Lemma resolver_faults_witness :
  sv_name view_short <> sv_name view_long /\
  exists s', resolve stopped_tick 0 view_short quiet_cb asked = Ok (true, s') /\
     map (fun an => (an_addr an, rq_name (an_request an))) (answers s') =
       map (fun an => (an_addr an, rq_name (an_request an))) (answers asked) ++
         [(InetAddress_in [] (take 5 long_host), sv_name view_short)].
Proof.
  split; [discriminate|].
  refine (proj1 (resolver_faults Little [] one_host stopped_tick asked view_long view_short
    (InetAddress_in [] (take 5 long_host)) (mkTimestamp (1700000000 * 1000000)) _ _ _));
    [reflexivity|reflexivity|vm_compute; reflexivity].
Defined.
