(* ===== verification/Connector.v ===== *)
(** * Outgoing connections: [netpoll/net/inner/connector.{h,cc}]

    The state machine that turns [connect] into an event: one socket and one
    channel while an attempt is under way, and a timer between attempts, with a
    delay that doubles up to a limit.

    - What the kernel answers (the new descriptor, the outcome of [connect],
      [SO_ERROR], whether the socket is connected to itself) are arguments.
    - Descriptors that the connector has opened and neither closed nor handed
      over are [held]; closing a descriptor that is not held is recorded in
      [bad_closes] (by then the number may belong to somebody else).
    - Functors queued in the loop and running timers are kept; the loop runs a
      functor, or a timer that is due, as a step.  They and the channel keep the
      object alive: the destructor runs when none is left. *)

From S2P Require Import Prelude.

Definition kMaxRetryDelayMs : Z := 30 * 1000.
Definition kInitRetryDelayMs : Z := 500.

Inductive Status := Disconnected | Connecting | Connected.

#[global] Instance Status_eq_dec : EqDecision Status.
Proof. solve_decision. Defined.

(** How [connect] and its [errno] sort. *)
Inductive connect_result :=
  | CInProgress      (* 0, EINPROGRESS, EINTR, EISCONN *)
  | CRefused         (* EAGAIN, EADDRINUSE, EADDRNOTAVAIL, ECONNREFUSED, ENETUNREACH *)
  | CFatal.          (* all other errors *)

(** The [switch] of [connect] on Linux's numbers. *)
Definition classify (savedErrno : Z) : connect_result :=
  if decide (savedErrno ∈ [0; 115 (* EINPROGRESS *); 4 (* EINTR *); 106 (* EISCONN *)]) then CInProgress
  else if decide (savedErrno ∈ [11 (* EAGAIN *); 98 (* EADDRINUSE *); 99 (* EADDRNOTAVAIL *);
                                111 (* ECONNREFUSED *); 101 (* ENETUNREACH *)]) then CRefused
  else CFatal.

Inductive task := TStart | TRemove.

Record Connector := mkConnector {
  m_channelPtr : option Z;              (* the descriptor of the channel *)
  m_started : bool;
  m_status : Status;
  m_retryInterval : Z;
  m_maxRetryInterval : Z;
  m_retry : bool;
  m_socketHanded : bool;
  m_fd : Z;
  (* the loop *)
  functors : list task;
  timers : list Z;                      (* delays in milliseconds *)
  (* descriptors and history *)
  held : list Z;
  handed : list Z;                      (* given to the new connection callback *)
  bad_closes : list Z;
  errors : nat;                         (* calls of the error callback *)
  delays : list Z                       (* all delays asked for *)
}.

Definition Connector_new (retry : bool) : Connector :=
  mkConnector None false Disconnected kInitRetryDelayMs kMaxRetryDelayMs retry false (-1)
    [] [] [] [] [] 0 [].

Section setters.
Implicit Type s : Connector.
Definition set_channel (v : option Z) s : Connector := mkConnector v (m_started s) (m_status s)
  (m_retryInterval s) (m_maxRetryInterval s) (m_retry s) (m_socketHanded s) (m_fd s) (functors s)
  (timers s) (held s) (handed s) (bad_closes s) (errors s) (delays s).
Definition set_started (v : bool) s : Connector := mkConnector (m_channelPtr s) v (m_status s)
  (m_retryInterval s) (m_maxRetryInterval s) (m_retry s) (m_socketHanded s) (m_fd s) (functors s)
  (timers s) (held s) (handed s) (bad_closes s) (errors s) (delays s).
Definition set_status (v : Status) s : Connector := mkConnector (m_channelPtr s) (m_started s) v
  (m_retryInterval s) (m_maxRetryInterval s) (m_retry s) (m_socketHanded s) (m_fd s) (functors s)
  (timers s) (held s) (handed s) (bad_closes s) (errors s) (delays s).
Definition set_interval (v : Z) s : Connector := mkConnector (m_channelPtr s) (m_started s) (m_status s)
  v (m_maxRetryInterval s) (m_retry s) (m_socketHanded s) (m_fd s) (functors s)
  (timers s) (held s) (handed s) (bad_closes s) (errors s) (delays s).
Definition set_socketHanded (v : bool) s : Connector := mkConnector (m_channelPtr s) (m_started s) (m_status s)
  (m_retryInterval s) (m_maxRetryInterval s) (m_retry s) v (m_fd s) (functors s)
  (timers s) (held s) (handed s) (bad_closes s) (errors s) (delays s).
Definition set_fd (v : Z) s : Connector := mkConnector (m_channelPtr s) (m_started s) (m_status s)
  (m_retryInterval s) (m_maxRetryInterval s) (m_retry s) (m_socketHanded s) v (functors s)
  (timers s) (held s) (handed s) (bad_closes s) (errors s) (delays s).
Definition set_functors (v : list task) s : Connector := mkConnector (m_channelPtr s) (m_started s) (m_status s)
  (m_retryInterval s) (m_maxRetryInterval s) (m_retry s) (m_socketHanded s) (m_fd s) v
  (timers s) (held s) (handed s) (bad_closes s) (errors s) (delays s).
Definition set_timers (v : list Z) s : Connector := mkConnector (m_channelPtr s) (m_started s) (m_status s)
  (m_retryInterval s) (m_maxRetryInterval s) (m_retry s) (m_socketHanded s) (m_fd s) (functors s)
  v (held s) (handed s) (bad_closes s) (errors s) (delays s).
Definition set_held (v : list Z) s : Connector := mkConnector (m_channelPtr s) (m_started s) (m_status s)
  (m_retryInterval s) (m_maxRetryInterval s) (m_retry s) (m_socketHanded s) (m_fd s) (functors s)
  (timers s) v (handed s) (bad_closes s) (errors s) (delays s).
Definition set_handed (v : list Z) s : Connector := mkConnector (m_channelPtr s) (m_started s) (m_status s)
  (m_retryInterval s) (m_maxRetryInterval s) (m_retry s) (m_socketHanded s) (m_fd s) (functors s)
  (timers s) (held s) v (bad_closes s) (errors s) (delays s).
Definition set_bad_closes (v : list Z) s : Connector := mkConnector (m_channelPtr s) (m_started s) (m_status s)
  (m_retryInterval s) (m_maxRetryInterval s) (m_retry s) (m_socketHanded s) (m_fd s) (functors s)
  (timers s) (held s) (handed s) v (errors s) (delays s).
Definition set_errors (v : nat) s : Connector := mkConnector (m_channelPtr s) (m_started s) (m_status s)
  (m_retryInterval s) (m_maxRetryInterval s) (m_retry s) (m_socketHanded s) (m_fd s) (functors s)
  (timers s) (held s) (handed s) (bad_closes s) v (delays s).
Definition set_delays (v : list Z) s : Connector := mkConnector (m_channelPtr s) (m_started s) (m_status s)
  (m_retryInterval s) (m_maxRetryInterval s) (m_retry s) (m_socketHanded s) (m_fd s) (functors s)
  (timers s) (held s) (handed s) (bad_closes s) (errors s) v.
End setters.

(** [::close] *)
Definition close (fd : Z) (s : Connector) : Connector :=
  if decide (fd ∈ held s) then set_held (filter (fun x => x <> fd) (held s)) s
  else set_bad_closes (fd :: bad_closes s) s.

Definition errorCallback (s : Connector) : Connector := set_errors (S (errors s)) s.

(** ** Attempts *)

Definition retry (sockfd : Z) (s : Connector) : res Connector :=
  _ ← assert (m_retry s);
  let s := close sockfd s in
  let s := set_status Disconnected s in
  if m_started s then
    let s := set_delays (delays s ++ [m_retryInterval s]) (set_timers (timers s ++ [m_retryInterval s]) s) in
    let s := set_interval (m_retryInterval s * 2) s in
    Ok (if m_maxRetryInterval s <? m_retryInterval s then set_interval (m_maxRetryInterval s) s else s)
  else Ok s.

Definition connecting (sockfd : Z) (s : Connector) : res Connector :=
  let s := set_status Connecting s in
  _ ← assert (bool_decide (m_channelPtr s = None));
  Ok (set_channel (Some sockfd) s).

(** [connect]; [fd] is what [socket] returned. *)
Definition connect (fd : Z) (r : connect_result) (s : Connector) : res Connector :=
  let s := set_held (fd :: held s) (set_fd fd (set_socketHanded false s)) in
  match r with
  | CInProgress => connecting (m_fd s) s
  | CRefused => if m_retry s then retry (m_fd s) s else Ok s
  | CFatal => Ok (errorCallback (close (m_fd s) (set_socketHanded true s)))
  end.

Definition startInLoop (fd : Z) (r : connect_result) (s : Connector) : res Connector :=
  _ ← assert (bool_decide (m_status s = Disconnected));
  if m_started s then connect fd r s else Ok s.

(** The descriptor of the channel, or -1. *)
Definition removeAndResetChannel (s : Connector) : Z * Connector :=
  match m_channelPtr s with
  | None => (-1, s)
  | Some fd => (fd, set_channel None s)
  end.

(** ** Calls, in the loop thread and in others *)

Definition start (fd : Z) (r : connect_result) (s : Connector) : res Connector :=
  startInLoop fd r (set_started true s).
Definition start_remote (s : Connector) : Connector :=
  set_functors (functors s ++ [TStart]) (set_started true s).

Definition stop (s : Connector) : Connector :=
  (removeAndResetChannel (set_status Disconnected (set_started false s))).2.
Definition stop_remote (s : Connector) : Connector :=
  let s := set_status Disconnected (set_started false s) in
  set_functors (functors s ++ [TRemove]) s.

Definition restart (fd : Z) (r : connect_result) (s : Connector) : res Connector := start fd r (stop s).

(** ** Events *)

(** [err] is [SO_ERROR], [self] tells a connection to itself. *)
Definition handleWrite (err self : bool) (s : Connector) : res Connector :=
  let s := set_socketHanded true s in
  match m_status s with
  | Connecting =>
      let '(sockfd, s) := removeAndResetChannel s in
      if err || self then
        s ← (if m_retry s then retry sockfd s else Ok (close sockfd (set_socketHanded true s)));
        Ok (errorCallback s)
      else
        let s := set_status Connected s in
        Ok (if m_started s then
              set_handed (handed s ++ [sockfd]) (set_held (filter (fun x => x <> sockfd) (held s)) s)
            else close sockfd (set_socketHanded true s))
  | _ => _ ← assert (bool_decide (m_status s = Disconnected)); Ok s
  end.

Definition handleError (s : Connector) : res Connector :=
  let s := set_socketHanded true s in
  match m_status s with
  | Connecting =>
      let s := set_status Disconnected s in
      let '(sockfd, s) := removeAndResetChannel s in
      s ← (if m_retry s then retry sockfd s else Ok (close sockfd s));
      Ok (errorCallback s)
  | _ => Ok s
  end.

(** A functor of the loop, the first one; a timer. *)
Definition run_functor (fd : Z) (r : connect_result) (s : Connector) : res Connector :=
  match functors s with
  | [] => Ok s
  | TStart :: fs => startInLoop fd r (set_functors fs s)
  | TRemove :: fs => Ok (removeAndResetChannel (set_functors fs s)).2
  end.

Definition timer_fires (i : nat) (fd : Z) (r : connect_result) (s : Connector) : res Connector :=
  match timers s !! i with
  | None => Ok s
  | Some _ => startInLoop fd r (set_timers (take i (timers s) ++ drop (S i) (timers s)) s)
  end.

(** The destructor. *)
Definition Connector_destroy (s : Connector) : Connector :=
  if negb (m_socketHanded s) && bool_decide (m_fd s <> -1) then close (m_fd s) s else s.

(** ** Orderly use

    The calls and events of the loop thread, under the conditions that the
    event loop and the callers keep: events come from the channel, the kernel
    hands out descriptors that are not in use, and a connector is started when
    nothing is left of earlier attempts. *)

Inductive op :=
  | OStart (fd : Z) (r : connect_result)
  | OStop
  | ORestart (fd : Z) (r : connect_result)
  | OWrite (err self : bool)
  | OError
  | OTimer (fd : Z) (r : connect_result).

Definition exec (o : op) (s : Connector) : res Connector :=
  match o with
  | OStart fd r => start fd r s
  | OStop => Ok (stop s)
  | ORestart fd r => restart fd r s
  | OWrite err self => handleWrite err self s
  | OError => handleError s
  | OTimer fd r => timer_fires 0 fd r s
  end.

Definition fresh (fd : Z) (s : Connector) : Prop := 0 <= fd /\ fd ∉ held s.

Definition allowed (o : op) (s : Connector) : Prop :=
  match o with
  | OStart fd r => fresh fd s /\ m_status s = Disconnected /\ timers s = [] /\ held s = []
  | OStop => True
  | ORestart fd r => fresh fd s /\ timers s = [] /\ held s = []
  | OWrite _ _ | OError => m_channelPtr s <> None
  | OTimer fd r => fresh fd s /\ timers s <> []
  end.

Inductive orderly (retry : bool) : list op -> Connector -> Prop :=
  | orderly_new : orderly retry [] (Connector_new retry)
  | orderly_step ops o s s' : orderly retry ops s -> allowed o s -> exec o s = Ok s' ->
      orderly retry (ops ++ [o]) s'.

(** The delay before the [k]-th repetition. *)
Definition delay (k : nat) : Z := Z.min (kInitRetryDelayMs * 2 ^ Z.of_nat k) kMaxRetryDelayMs.

Record cn_inv (s : Connector) : Prop := {
  cn_channel : forall fd, m_channelPtr s = Some fd -> m_status s = Connecting /\ fd = m_fd s /\ held s = [fd];
  cn_timers : timers s = [] \/
    exists d, timers s = [d] /\ m_status s = Disconnected /\ m_channelPtr s = None /\ held s = [];
  cn_held : held s = [] \/ held s = [m_fd s] /\ m_socketHanded s = false /\ 0 <= m_fd s;
  cn_closes : bad_closes s = [];
  cn_max : m_maxRetryInterval s = kMaxRetryDelayMs;
  cn_interval : m_retryInterval s = delay (length (delays s));
  cn_delays : delays s = delay <$> seq 0 (length (delays s))
}.

Lemma delay_next k :
  (if kMaxRetryDelayMs <? delay k * 2 then kMaxRetryDelayMs else delay k * 2) = delay (S k).
Proof.
  unfold delay, kMaxRetryDelayMs, kInitRetryDelayMs. rewrite Nat2Z.inj_succ, Z.pow_succ_r by lia.
  pose proof (Z.pow_pos_nonneg 2 (Z.of_nat k) ltac:(lia) ltac:(lia)).
  destruct (Z.ltb_spec (30 * 1000) (Z.min (500 * 2 ^ Z.of_nat k) (30 * 1000) * 2)); lia.
Qed.

Lemma close_held fd s : held s = [fd] -> close fd s = set_held [] s.
Proof.
  intros E. unfold close. rewrite E, decide_True by set_solver. f_equal.
  cbn. by rewrite decide_False by (intros H; by apply H).
Qed.

Lemma handover_held (fd : Z) : filter (fun x => x <> fd) [fd] = [].
Proof. cbn. by rewrite decide_False by (intros H; by apply H). Qed.

(** Between attempts: the state that [retry] and the failing branches leave. *)
Lemma retry_inv fd s :
  m_channelPtr s = None -> timers s = [] -> held s = [fd] -> m_retry s = true ->
  bad_closes s = [] -> m_maxRetryInterval s = kMaxRetryDelayMs ->
  m_retryInterval s = delay (length (delays s)) -> delays s = delay <$> seq 0 (length (delays s)) ->
  exists s', retry fd s = Ok s' /\ cn_inv s' /\ m_channelPtr s' = None /\ held s' = [] /\
    m_status s' = Disconnected.
Proof.
  intros Ec Et Eh Er Eb Em Ei Ed. unfold retry. rewrite Er. cbn [assert mbind res_bind].
  rewrite close_held by done. cbn. destruct (m_started s).
  - eexists. split; [reflexivity|]. rewrite Em. rewrite Ei.
    pose proof (delay_next (length (delays s))) as Hn.
    assert (forall v, v = delay (S (length (delays s))) ->
      cn_inv (set_interval v (set_delays (delays s ++ [delay (length (delays s))])
        (set_timers (timers s ++ [delay (length (delays s))]) (set_status Disconnected (set_held [] s)))))) as Hi.
    { intros v ->. rewrite Et. constructor; cbn; try done; try (by rewrite Ec).
      - right. eexists. split; [done|]. by rewrite Ec.
      - by left.
      - by rewrite length_app, Nat.add_1_r.
      - rewrite length_app, Nat.add_1_r, seq_S, fmap_app, <- Ed. done. }
    cbn in Hn |- *. destruct (kMaxRetryDelayMs <? _); (split; [|done]).
    + by apply (Hi kMaxRetryDelayMs).
    + by apply (Hi (delay (length (delays s)) * 2)).
  - eexists. split; [reflexivity|]. split; [|done].
    constructor; cbn; try done; try (by rewrite Ec); by left.
Qed.

Lemma connect_inv fd r s :
  m_channelPtr s = None -> m_status s = Disconnected -> timers s = [] -> held s = [] -> 0 <= fd -> cn_inv s ->
  exists s', connect fd r s = Ok s' /\ cn_inv s'.
Proof.
  intros Ec Es Et Eh Hfd [_ _ _ H4 H5 H6 H7]. unfold connect. rewrite Eh. destruct r.
  - unfold connecting. cbn. rewrite Ec, bool_decide_true by done. eexists. split; [reflexivity|].
    constructor; cbn; try done; [|by left|by right]. by intros x [= <-].
  - cbn. destruct (m_retry s) eqn:Er.
    + destruct (retry_inv fd (set_held [fd] (set_fd fd (set_socketHanded false s)))) as (s' & E & Hi & _); try done.
      exists s'. split; [exact E|done].
    + eexists. split; [reflexivity|]. constructor; cbn; try done; [by rewrite Ec|by left|by right].
  - rewrite close_held by done. eexists. split; [reflexivity|].
    constructor; cbn; try done; [by rewrite Ec|by left|by left].
Qed.

Lemma no_channel s : cn_inv s -> m_status s <> Connecting -> m_channelPtr s = None.
Proof.
  intros H Hs. destruct (m_channelPtr s) as [fd|] eqn:E; [|done]. by destruct (cn_channel _ H fd E).
Qed.

Lemma start_inv fd r s :
  cn_inv s -> m_status s = Disconnected -> timers s = [] -> held s = [] -> 0 <= fd ->
  exists s', startInLoop fd r s = Ok s' /\ cn_inv s'.
Proof.
  intros H Es Et Eh Hfd. unfold startInLoop. rewrite Es, bool_decide_true by done. cbn [assert mbind res_bind].
  destruct (m_started s); [|by eauto]. apply connect_inv; try done. apply no_channel; [done|]. by rewrite Es.
Qed.

Lemma cn_set_started_inv b s : cn_inv s -> cn_inv (set_started b s).
Proof. intros [H1 H2 H3 H4 H5 H6 H7]. by constructor. Qed.

Lemma stop_inv s : cn_inv s -> cn_inv (stop s).
Proof.
  intros H. pose proof H as [H1 H2 H3 H4 H5 H6 H7]. unfold stop, removeAndResetChannel. cbn.
  destruct (m_channelPtr s) as [fd|] eqn:Ec; constructor; cbn; try done; try (by rewrite Ec).
  - destruct H2 as [Et | (d & Et & _ & E & _)]; [by left|congruence].
  - destruct H2 as [Et | (d & Et & _ & _ & Eh)]; [by left|right; eauto].
Qed.

(** The end of an attempt. *)
Lemma ended_inv s fd st :
  cn_inv s -> m_channelPtr s = Some fd ->
  let s' := set_held [] (set_channel None (set_status st (set_socketHanded true s))) in
  cn_inv s' /\ timers s' = [].
Proof.
  intros [H1 H2 H3 H4 H5 H6 H7] Ec. cbn zeta.
  assert (timers s = []) as Et by (destruct H2 as [Et | (d & _ & _ & E & _)]; [done|congruence]).
  split; [|done]. constructor; cbn; try done; by left.
Qed.

Lemma errorCallback_inv s : cn_inv s -> cn_inv (errorCallback s).
Proof. intros [H1 H2 H3 H4 H5 H6 H7]. by constructor. Qed.

(** A failed attempt, with or without another one. *)
Lemma failed_inv s fd st :
  cn_inv s -> m_channelPtr s = Some fd ->
  exists s', (let x := set_channel None (set_status st (set_socketHanded true s)) in
    if m_retry x then retry fd x else Ok (close fd x)) = Ok s' /\ cn_inv s' /\ held s' = [].
Proof.
  intros H Ec. destruct (cn_channel _ H fd Ec) as (Es & Ef & Eh).
  destruct (ended_inv s fd st H Ec) as [Hi Et]. cbn in Et. cbn zeta. cbn [m_retry set_channel set_status set_socketHanded].
  destruct (m_retry s) eqn:Er.
  - destruct H as [H1 H2 H3 H4 H5 H6 H7].
    destruct (retry_inv fd (set_channel None (set_status st (set_socketHanded true s)))) as (s' & E & ? & _ & ? & _);
      try done. eauto.
  - rewrite close_held by done. eexists. split; [reflexivity|]. split; [exact Hi|done].
Qed.

Lemma cn_handleWrite_inv err self s :
  cn_inv s -> m_channelPtr s <> None -> exists s', handleWrite err self s = Ok s' /\ cn_inv s'.
Proof.
  intros H Hc. destruct (m_channelPtr s) as [fd|] eqn:Ec; [|done]. clear Hc.
  destruct (cn_channel _ H fd Ec) as (Es & Ef & Eh).
  unfold handleWrite, removeAndResetChannel. cbn. rewrite Es, Ec. destruct (err || self).
  - destruct (failed_inv s fd Connecting H Ec) as (s' & E & Hi & _).
    assert (set_channel None (set_socketHanded true s) =
      set_channel None (set_status Connecting (set_socketHanded true s))) as -> by (by rewrite <- Es; destruct s).
    cbn zeta in E. cbn [m_retry set_channel set_status set_socketHanded] in E |- *. destruct (m_retry s).
    + rewrite E. cbn. eexists. split; [reflexivity|]. by apply errorCallback_inv.
    + injection E as <-. eexists. split; [reflexivity|]. by apply errorCallback_inv.
  - eexists. split; [reflexivity|]. destruct (ended_inv s fd Connected H Ec) as [Hi _]. cbn.
    destruct (m_started s).
    + rewrite Eh, handover_held. destruct Hi as [H1 H2 H3 H4 H5 H6 H7]. by constructor.
    + rewrite close_held by done. exact Hi.
Qed.

Lemma cn_handleError_inv s :
  cn_inv s -> m_channelPtr s <> None -> exists s', handleError s = Ok s' /\ cn_inv s'.
Proof.
  intros H Hc. destruct (m_channelPtr s) as [fd|] eqn:Ec; [|done]. clear Hc.
  destruct (cn_channel _ H fd Ec) as (Es & Ef & Eh).
  unfold handleError, removeAndResetChannel. cbn. rewrite Es, Ec.
  destruct (failed_inv s fd Disconnected H Ec) as (s' & E & Hi & _). cbn zeta in E. cbn in E |- *.
  destruct (m_retry s).
  - rewrite E. cbn. eexists. split; [reflexivity|]. by apply errorCallback_inv.
  - injection E as <-. eexists. split; [reflexivity|]. by apply errorCallback_inv.
Qed.

Lemma timer_inv fd r s :
  cn_inv s -> timers s <> [] -> 0 <= fd -> exists s', timer_fires 0 fd r s = Ok s' /\ cn_inv s'.
Proof.
  intros H Ht Hfd. pose proof H as [H1 H2 H3 H4 H5 H6 H7].
  destruct H2 as [E | (d & Et & Es & Ec & Eh)]; [done|]. unfold timer_fires. rewrite Et. cbn.
  apply start_inv; cbn; try done. constructor; cbn; try done; by left.
Qed.

Lemma exec_inv o s : cn_inv s -> allowed o s -> exists s', exec o s = Ok s' /\ cn_inv s'.
Proof.
  intros H Ha. destruct o as [fd r| |fd r|err self| |fd r]; cbn in Ha |- *.
  - destruct Ha as ([Hfd _] & Es & Et & Eh). apply start_inv; try done. by apply cn_set_started_inv.
  - eexists. split; [done|]. by apply stop_inv.
  - destruct Ha as ([Hfd _] & Et & Eh). pose proof (stop_inv s H) as Hs.
    unfold restart, start. assert (timers (stop s) = [] /\ held (stop s) = [] /\ m_status (stop s) = Disconnected) as (? & ? & ?).
    { unfold stop, removeAndResetChannel. cbn. by destruct (m_channelPtr s). }
    apply start_inv; try done. by apply cn_set_started_inv.
  - by apply cn_handleWrite_inv.
  - by apply cn_handleError_inv.
  - destruct Ha as [[Hfd _] Ht]. by apply timer_inv.
Qed.

Lemma orderly_inv retry ops s : orderly retry ops s -> cn_inv s.
Proof.
  induction 1 as [|ops o s s' _ IH Ha E].
  - constructor; cbn; try done; by left.
  - destruct (exec_inv o s IH Ha) as (? & ? & ?). congruence.
Qed.

(** *** What the destructor finds

    It closes [m_fd] unless the descriptor was handed over or closed and this is
    recorded in [m_socketHanded]. *)

Definition settled (s : Connector) : Prop := held s = [] -> m_socketHanded s = true \/ m_fd s = -1.

(** The answer to an attempt that [connect] retries at once. *)
Definition refused (o : op) : Prop :=
  match o with OStart _ CRefused | ORestart _ CRefused | OTimer _ CRefused => True | _ => False end.

Lemma close_frame fd s :
  m_retry (close fd s) = m_retry s /\ m_socketHanded (close fd s) = m_socketHanded s /\ m_fd (close fd s) = m_fd s.
Proof. unfold close. by case_decide. Qed.

Lemma retry_frame fd s s' :
  retry fd s = Ok s' -> m_retry s' = m_retry s /\ m_socketHanded s' = m_socketHanded s /\ m_fd s' = m_fd s.
Proof.
  unfold retry. intros (? & _ & E)%bind_Ok. destruct (close_frame fd s) as (E1 & E2 & E3).
  cbn in E. destruct (m_started _); [|injection E as <-; by cbn]. injection E as <-. by case_match.
Qed.

Lemma start_settled fd r s s' :
  startInLoop fd r s = Ok s' -> r <> CRefused \/ m_retry s = false -> settled s -> m_retry s' = m_retry s /\ settled s'.
Proof.
  unfold startInLoop. intros (? & _ & E)%bind_Ok Hr Hs. destruct (m_started s); [|by injection E as <-].
  unfold connect in E. destruct r.
  - unfold connecting in E. cbn in E. apply bind_Ok in E as (? & _ & [= <-]). by split.
  - destruct Hr as [Hr|Hr]; [done|]. cbn in E. rewrite Hr in E. injection E as <-. by split.
  - injection E as <-. cbn. set (y := set_held _ _). destruct (close_frame fd (set_socketHanded true y)) as (E1 & E2 & E3).
    split; [exact E1|]. intros _. left. exact E2.
Qed.

Lemma event_settled o s s' :
  (exists e f, o = OWrite e f) \/ o = OError -> m_channelPtr s <> None -> cn_inv s ->
  exec o s = Ok s' -> m_retry s' = m_retry s /\ settled s'.
Proof.
  intros Ho Hc H E. destruct (m_channelPtr s) as [fd|] eqn:Ec; [|done]. destruct (cn_channel _ H fd Ec) as (Es & _ & _).
  enough (m_retry s' = m_retry s /\ m_socketHanded s' = true) as [? ?] by (split; [done|intros _; by left]).
  assert (forall x y, (if m_retry x then retry fd x else Ok (close fd x)) = Ok y -> m_socketHanded x = true ->
    m_retry y = m_retry x /\ m_socketHanded y = true) as Hfail.
  { intros x y Hx Hsh. destruct (m_retry x) eqn:Er.
    - destruct (retry_frame _ _ _ Hx) as (E1 & E2 & _). split; congruence.
    - injection Hx as <-. destruct (close_frame fd x) as (E1 & E2 & _). split; congruence. }
  destruct Ho as [(err & self & ->) | ->]; cbn [exec] in E.
  - unfold handleWrite, removeAndResetChannel in E. cbn in E. rewrite Es, Ec in E. destruct (err || self).
    + apply bind_Ok in E as (y & Ey & [= <-]). cbn.
      destruct (Hfail (set_channel None (set_socketHanded true s)) y) as [E1 E2]; [|done|by split].
      cbn in Ey |- *. by destruct (m_retry s).
    + injection E as <-. cbn. destruct (m_started s); [done|].
      match goal with |- context [close fd ?x] => destruct (close_frame fd x) as (E1 & E2 & _) end. by split.
  - unfold handleError, removeAndResetChannel in E. cbn in E. rewrite Es, Ec in E.
    apply bind_Ok in E as (y & Ey & [= <-]). cbn.
    destruct (Hfail (set_channel None (set_status Disconnected (set_socketHanded true s))) y) as [E1 E2]; [|done|by split].
    cbn in Ey |- *. by destruct (m_retry s).
Qed.

Lemma exec_settled o s s' :
  cn_inv s -> allowed o s -> exec o s = Ok s' -> ~ refused o \/ m_retry s = false -> settled s ->
  m_retry s' = m_retry s /\ settled s'.
Proof.
  intros H Ha E Hr Hs.
  assert (forall b, settled (set_started b s)) as Hst by done.
  assert (settled (stop s) /\ m_retry (stop s) = m_retry s) as [Hstop Erst].
  { unfold stop, removeAndResetChannel. cbn. by destruct (m_channelPtr s). }
  destruct o as [fd r| |fd r|err self| |fd r]; cbn [exec allowed] in *.
  - eapply (start_settled fd r (set_started true s)); [done| |done]. destruct Hr as [Hr|?]; [|by right]. left. by intros ->.
  - by injection E as <-.
  - unfold restart, start in E. rewrite <- Erst. eapply (start_settled fd r (set_started true (stop s))); [done| |done].
    destruct Hr as [Hr|?]; [left; by intros -> |right; by cbn; rewrite Erst].
  - eapply (event_settled (OWrite err self)); eauto.
  - eapply (event_settled OError); eauto.
  - unfold timer_fires in E. destruct (timers s !! 0%nat); [|by injection E as <-].
    match type of E with startInLoop _ _ ?x = _ => eapply (start_settled fd r x) end; [done| |done].
    destruct Hr as [Hr|?]; [left; by intros -> |by right].
Qed.

Lemma orderly_settled retry ops s :
  orderly retry ops s -> retry = false \/ Forall (fun o => ~ refused o) ops -> m_retry s = retry /\ settled s.
Proof.
  induction 1 as [|ops o s s' Ho IH Ha E]; intros Hr; [split; [done|]; intros _; by right|].
  rewrite Forall_app, Forall_singleton in Hr. destruct IH as [Er Hs]; [tauto|].
  rewrite <- Er. apply (exec_settled o); [by eapply orderly_inv|done|done| |done]. rewrite Er. tauto.
Qed.

(** ** Properties *)

(** C29. Outgoing connections, used in an orderly way.  No assertion fails:
    every call and event that may come next succeeds.  At most one attempt is
    under way, as a channel or as a timer.  At most one descriptor is held, the
    one of the latest attempt, and none but held ones are closed by calls and
    events.  The delays between attempts are 500 ms, doubled each time, up to
    30 s.  Once nothing refers to the object, the destructor closes what is
    left; it closes nothing else if retrying is off or no attempt was refused
    at once, and otherwise at most [m_fd] a second time (as it does after a
    refused attempt that was the last, see [connector_faults]). *)
Theorem connector_orderly retry ops s :
  orderly retry ops s ->
  (forall o, allowed o s -> exists s', exec o s = Ok s' /\ orderly retry (ops ++ [o]) s') /\
  (length (timers s) + (if m_channelPtr s is Some _ then 1 else 0) <= 1)%nat /\
  (held s = [] \/ held s = [m_fd s]) /\ bad_closes s = [] /\
  delays s = delay <$> seq 0 (length (delays s)) /\
  held (Connector_destroy s) = [] /\
  (retry = false \/ Forall (fun o => ~ refused o) ops -> bad_closes (Connector_destroy s) = []) /\
  (bad_closes (Connector_destroy s) = [] \/ bad_closes (Connector_destroy s) = [m_fd s]).
Proof.
  intros Hr. pose proof (orderly_inv _ _ _ Hr) as H. pose proof H as [H1 H2 H3 H4 H5 H6 H7]. split_and!; try done.
  - intros o Ha. destruct (exec_inv o s H Ha) as (s' & E & _). exists s'. split; [done|]. by eapply orderly_step.
  - destruct H2 as [-> | (d & -> & _ & -> & _)]; [destruct (m_channelPtr s)|]; cbn; lia.
  - destruct H3 as [? | (? & _)]; auto.
  - unfold Connector_destroy. destruct H3 as [Eh | (Eh & Es & Hfd)].
    + destruct (_ && _); [|done]. unfold close. rewrite Eh, decide_False by set_solver. done.
    + rewrite Es, bool_decide_true by lia. cbn. by rewrite close_held.
  - intros Hn. destruct (orderly_settled _ _ _ Hr Hn) as [_ Hs]. unfold Connector_destroy.
    destruct H3 as [Eh | (Eh & Es & Hfd)].
    + destruct (Hs Eh) as [-> | ->]; [done|]. destruct (negb _); done.
    + destruct (_ && _); [|done]. by rewrite close_held.
  - unfold Connector_destroy. destruct (_ && _); [|by left]. unfold close. case_decide; cbn; rewrite H4; auto.
Qed.

#[global] Instance allowed_dec o s : Decision (allowed o s).
Proof. destruct o; cbn; unfold fresh; apply _. Defined.

(** A sequence of allowed operations. *)
Fixpoint run_ops (ops : list op) (s : Connector) : option Connector :=
  match ops with
  | [] => Some s
  | o :: ops =>
      if decide (allowed o s) then
        match exec o s with Ok s => run_ops ops s | Fail _ => None end
      else None
  end.

Lemma run_ops_orderly retry ops0 ops s s' :
  orderly retry ops0 s -> run_ops ops s = Some s' -> orderly retry (ops0 ++ ops) s'.
Proof.
  revert ops0 s. induction ops as [|o ops IH]; intros ops0 s Hs; cbn.
  - intros [= <-]. by rewrite app_nil_r.
  - case_decide as Ha; [|done]. destruct (exec o s) as [s1|] eqn:E; [|done]. intros Hr.
    change (o :: ops) with ([o] ++ ops). rewrite app_assoc. eapply IH; [|done]. by eapply orderly_step.
Qed.

(** Two failed attempts, then a successful one. *)
Definition sample_connector_ops : list op :=
  [OStart 5 CInProgress; OError; OTimer 6 CRefused; OTimer 7 CInProgress; OWrite false false].
Definition sample_connector : Connector :=
  default (Connector_new true) (run_ops sample_connector_ops (Connector_new true)).

Lemma connector_orderly_witness :
  handed sample_connector = [7] /\ delays sample_connector = [500; 1000] /\
  (forall o, allowed o sample_connector ->
     exists s', exec o sample_connector = Ok s' /\ orderly true (sample_connector_ops ++ [o]) s') /\
  (length (timers sample_connector) + (if m_channelPtr sample_connector is Some _ then 1 else 0) <= 1)%nat /\
  (held sample_connector = [] \/ held sample_connector = [m_fd sample_connector]) /\
  bad_closes sample_connector = [] /\
  delays sample_connector = delay <$> seq 0 (length (delays sample_connector)) /\
  held (Connector_destroy sample_connector) = [] /\
  (true = false \/ Forall (fun o => ~ refused o) sample_connector_ops -> bad_closes (Connector_destroy sample_connector) = []) /\
  (bad_closes (Connector_destroy sample_connector) = [] \/
   bad_closes (Connector_destroy sample_connector) = [m_fd sample_connector]).
Proof.
  split; [vm_compute; reflexivity|]. split; [vm_compute; reflexivity|].
  apply (connector_orderly true sample_connector_ops sample_connector).
  apply (run_ops_orderly true [] _ (Connector_new true)); [apply orderly_new|]. vm_compute. reflexivity.
Defined.

(** Where the connector breaks down.
    - Refused at once, stopped, destroyed: the descriptor is closed a second
      time.
    - Stopped while connecting and started again: the first descriptor is never
      closed.
    - Stopped by another thread while connecting, with the event of the channel
      arriving before the functor: the descriptor is never closed.
    - Stopped and started again while a retry timer runs: the old timer fires
      into the new attempt and an assertion fails.
    - Started again after a connection: an assertion fails.
    - Refused at once without retry: no callback tells. *)
Theorem connector_faults :
  (exists s, (s ← start 5 CRefused (Connector_new true); timer_fires 0 6 CRefused (stop s)) = Ok s /\
     bad_closes (Connector_destroy s) = [5]) /\
  (exists s, (s ← start 5 CInProgress (Connector_new true); s ← start 6 CInProgress (stop s);
              handleWrite false false s) = Ok s /\
     handed s = [6] /\ held (Connector_destroy s) = [5]) /\
  (exists s, (s ← start 5 CInProgress (Connector_new true);
              s ← handleWrite false false (stop_remote s); run_functor 6 CInProgress s) = Ok s /\
     m_channelPtr s = None /\ held (Connector_destroy s) = [5]) /\
  (s ← start 5 CInProgress (Connector_new true); s ← handleError s;
   s ← start 6 CInProgress (stop s); timer_fires 0 7 CInProgress s) = Fail AssertFailed /\
  (s ← start 5 CInProgress (Connector_new true); s ← handleWrite false false s;
   start 6 CInProgress s) = Fail AssertFailed /\
  (exists s, start 5 CRefused (Connector_new false) = Ok s /\ errors s = 0%nat /\ handed s = [] /\
     timers s = [] /\ m_channelPtr s = None /\ functors s = []).
Proof. split_and!; try (vm_compute; reflexivity); eexists; (split; [vm_compute; reflexivity|done]). Qed.
