(* ===== verification/TcpClient.v ===== *)
(** * Clients: [netpoll/net/tcp_client.{h,cc}]

    A client owns a [Connector] and at most one connection.  Connections are
    named by their descriptors; what a connection does is [TcpConnection]. *)

From S2P Require Import Prelude Connector.

Record TcpClient := mkClient {
  m_connector : Connector;
  client_retry : bool;                  (* [TcpClient::m_retry] *)
  m_connect : bool;
  m_connection : option Z;
  (* effects on the connection *)
  shutdowns : list Z;
  destroys : list Z                     (* [connectDestroyed] queued in the loop *)
}.

(** The client makes its connector with [retry = false]. *)
Definition TcpClient_new : TcpClient := mkClient (Connector_new false) false false None [] [].

Definition set_connector (v : Connector) (c : TcpClient) : TcpClient :=
  mkClient v (client_retry c) (m_connect c) (m_connection c) (shutdowns c) (destroys c).
Definition set_connect (v : bool) (c : TcpClient) : TcpClient :=
  mkClient (m_connector c) (client_retry c) v (m_connection c) (shutdowns c) (destroys c).
Definition set_connection (v : option Z) (c : TcpClient) : TcpClient :=
  mkClient (m_connector c) (client_retry c) (m_connect c) v (shutdowns c) (destroys c).

Definition enableRetry (c : TcpClient) : TcpClient :=
  mkClient (m_connector c) true (m_connect c) (m_connection c) (shutdowns c) (destroys c).

(** [TcpClient::connect]; [fd] and [r] are for the attempt. *)
Definition client_connect (fd : Z) (r : connect_result) (c : TcpClient) : res TcpClient :=
  if m_connect c then Ok c
  else s ← start fd r (m_connector c); Ok (set_connector s (set_connect true c)).

Definition disconnect (c : TcpClient) : TcpClient :=
  let c := set_connect false c in
  match m_connection c with
  | Some fd => mkClient (m_connector c) (client_retry c) (m_connect c) (m_connection c)
                 (shutdowns c ++ [fd]) (destroys c)
  | None => c
  end.

Definition client_stop (c : TcpClient) : TcpClient :=
  set_connector (stop (m_connector c)) (set_connect false c).

(** [newConnection], the callback of the connector. *)
Definition newConnection (sockfd : Z) (c : TcpClient) : TcpClient := set_connection (Some sockfd) c.

(** The connector's channel is writable, or has failed. *)
Definition client_handleWrite (err self : bool) (c : TcpClient) : res TcpClient :=
  s ← handleWrite err self (m_connector c);
  let c' := set_connector s c in
  Ok match drop (length (handed (m_connector c))) (handed s) with
     | sockfd :: _ => newConnection sockfd c'
     | [] => c'
     end.
Definition client_handleError (c : TcpClient) : res TcpClient :=
  s ← handleError (m_connector c); Ok (set_connector s c).

(** [removeConnection], the close callback of the connection [conn]. *)
Definition removeConnection (conn fd : Z) (r : connect_result) (c : TcpClient) : res TcpClient :=
  _ ← assert (bool_decide (m_connection c = Some conn));
  let c := set_connection None c in
  let c := mkClient (m_connector c) (client_retry c) (m_connect c) (m_connection c) (shutdowns c)
             (destroys c ++ [conn]) in
  if client_retry c && m_connect c then
    s ← restart fd r (m_connector c); Ok (set_connector s c)
  else Ok c.

(** ** Runs *)

Inductive client_step (c : TcpClient) : TcpClient -> Prop :=
  | cs_retry : client_step c (enableRetry c)
  | cs_connect fd r c' : fresh fd (m_connector c) -> client_connect fd r c = Ok c' -> client_step c c'
  | cs_disconnect : client_step c (disconnect c)
  | cs_stop : client_step c (client_stop c)
  | cs_write err self c' : m_channelPtr (m_connector c) <> None ->
      client_handleWrite err self c = Ok c' -> client_step c c'
  | cs_error c' : m_channelPtr (m_connector c) <> None -> client_handleError c = Ok c' -> client_step c c'
  | cs_close conn fd r c' : fresh fd (m_connector c) -> m_connection c = Some conn ->
      removeConnection conn fd r c = Ok c' -> client_step c c'.

(** The connector of a client never waits to try again. *)
Definition no_retry (s : Connector) : Prop := m_retry s = false /\ timers s = [] /\ delays s = [].

(** [restart] always gets through its assertions: [stop] has cleared the way. *)
Lemma restart_total fd r s : is_ok (restart fd r s).
Proof.
  unfold restart. assert (m_channelPtr (stop s) = None /\ m_status (stop s) = Disconnected) as [Ec Es].
  { unfold stop, removeAndResetChannel. cbn. by destruct (m_channelPtr s) eqn:E. }
  unfold start, startInLoop. change (m_status (set_started true (stop s))) with (m_status (stop s)).
  rewrite bool_decide_true by done. cbn [assert mbind res_bind m_started set_started].
  unfold connect. destruct r.
  - unfold connecting. cbn. rewrite Ec. by eexists.
  - destruct (m_retry _) eqn:Er; [|by eexists]. unfold retry. rewrite Er. cbn [assert mbind res_bind].
    destruct (m_started _); by eexists.
  - by eexists.
Qed.

Lemma removeConnection_total conn fd r c : m_connection c = Some conn ->
  exists c', removeConnection conn fd r c = Ok c' /\ m_connection c' = None.
Proof.
  intros E. unfold removeConnection. rewrite bool_decide_true by done. cbn [assert mbind res_bind].
  destruct (_ && _); [|by eexists]. cbn [m_connector set_connection]. destruct (restart_total fd r (m_connector c)) as [s' ->]. by eexists.
Qed.

Lemma stop_no_retry s : no_retry s -> no_retry (stop s).
Proof. intros H. unfold stop, removeAndResetChannel. cbn. by destruct (m_channelPtr s). Qed.

Lemma close_no_retry fd s : no_retry s -> no_retry (close fd s).
Proof. intros H. unfold close. by case_decide. Qed.

Lemma start_no_retry fd r s s' : no_retry s -> start fd r s = Ok s' -> no_retry s'.
Proof.
  intros H. unfold start, startInLoop. cbn. destruct (bool_decide _); [|done]. cbn.
  unfold connect. destruct r; cbn.
  - unfold connecting. cbn. destruct (bool_decide _); [|done]. intros [= <-]. exact H.
  - rewrite (proj1 H). intros [= <-]. exact H.
  - intros [= <-]. apply (close_no_retry fd) in H. unfold close in *. cbn in *.
    by repeat case_decide.
Qed.

Lemma handleWrite_no_retry err self s s' : no_retry s -> handleWrite err self s = Ok s' -> no_retry s'.
Proof.
  intros H. unfold handleWrite, removeAndResetChannel, close. cbn.
  destruct (m_status s), (m_channelPtr s); cbn; rewrite ?(proj1 H); cbn;
    repeat case_match; intros [= <-] || intros ?; try done; exact H.
Qed.

Lemma handleError_no_retry s s' : no_retry s -> handleError s = Ok s' -> no_retry s'.
Proof.
  intros H. unfold handleError, removeAndResetChannel, close. cbn.
  destruct (m_status s), (m_channelPtr s); cbn; rewrite ?(proj1 H); cbn;
    repeat case_match; intros [= <-]; try done; exact H.
Qed.

Lemma client_step_no_retry c c' : client_step c c' -> no_retry (m_connector c) -> no_retry (m_connector c').
Proof.
  intros Hst H. destruct Hst as [|fd r c' Hf E| | |err self c' Hc E|c' Hc E|conn fd r c' Hf Hc E]; cbn; try done.
  - unfold client_connect in E. destruct (m_connect c); [by injection E as <-|]. ok_inv.
    by eapply start_no_retry.
  - unfold disconnect. cbn. by destruct (m_connection c).
  - by apply stop_no_retry.
  - unfold client_handleWrite in E. ok_inv. destruct (drop _ _); cbn; by eapply handleWrite_no_retry.
  - unfold client_handleError in E. ok_inv. by eapply handleError_no_retry.
  - unfold removeConnection in E. ok_inv. cbn in *. destruct (_ && _); [|by injection E as <-].
    ok_inv. eapply start_no_retry; [|eassumption]. by apply stop_no_retry.
Qed.

(** A client reconnects once.  When the connection of a client that asked
    for it is closed, the connection is given up for destruction and one new
    attempt begins.  The connector never waits to repeat an attempt, as its own
    retry flag stays unset: if the attempt is refused at once, nothing is under
    way, no callback tells, and [connect] is ignored from then on. *)
Theorem client_reconnects_once c conn fd r :
  rtc client_step TcpClient_new c -> m_connection c = Some conn ->
  client_retry c = true -> m_connect c = true ->
  exists c', removeConnection conn fd r c = Ok c' /\ m_connection c' = None /\
    destroys c' = destroys c ++ [conn] /\ no_retry (m_connector c') /\
    match r with
    | CInProgress => m_channelPtr (m_connector c') = Some fd /\ m_status (m_connector c') = Connecting
    | CRefused => m_channelPtr (m_connector c') = None /\ errors (m_connector c') = errors (m_connector c) /\
        forall fd' r', client_connect fd' r' c' = Ok c'
    | CFatal => m_channelPtr (m_connector c') = None /\ errors (m_connector c') = S (errors (m_connector c)) /\
        forall fd' r', client_connect fd' r' c' = Ok c'
    end.
Proof.
  intros Hr Hc Hre Hco.
  assert (no_retry (m_connector c)) as Hn.
  { refine (rtc_invariant _ (fun c => no_retry (m_connector c)) _ _ _ Hr _); [|done].
    intros a b Hst H. by eapply client_step_no_retry. }
  unfold removeConnection. rewrite Hc, bool_decide_true by done. cbn. rewrite Hre, Hco. cbn.
  assert (exists s', restart fd r (m_connector c) = Ok s' /\
    match r with
    | CInProgress => m_channelPtr s' = Some fd /\ m_status s' = Connecting
    | CRefused => m_channelPtr s' = None /\ errors s' = errors (m_connector c)
    | CFatal => m_channelPtr s' = None /\ errors s' = S (errors (m_connector c))
    end) as (s' & E & Hs').
  { unfold restart, start, startInLoop. set (x := stop (m_connector c)).
    assert (m_channelPtr x = None /\ m_status x = Disconnected /\ m_retry x = false /\
      errors x = errors (m_connector c)) as (X1 & X2 & X3 & X4).
    { destruct Hn as [Hm _]. unfold x, stop, removeAndResetChannel. cbn.
      by destruct (m_channelPtr (m_connector c)) eqn:Ec. }
    clearbody x. cbn. rewrite X2, bool_decide_true by done. cbn. unfold connect, connecting, close. cbn.
    destruct r; cbn.
    - rewrite X1, bool_decide_true by done. by eexists.
    - rewrite X3. eexists. split; [reflexivity|]. by cbn.
    - eexists. split; [reflexivity|]. case_decide; cbn; by rewrite X4. }
  rewrite E. cbn. eexists. split; [reflexivity|]. cbn.
  assert (no_retry s') by (eapply start_no_retry; [by apply stop_no_retry|exact E]).
  split_and!; try done. unfold client_connect. cbn. rewrite ?Hco. destruct r; naive_solver.
Qed.

(** A client that was connected through descriptor 5. *)
Definition connected_client : TcpClient :=
  match (c ← client_connect 5 CInProgress (enableRetry TcpClient_new); client_handleWrite false false c)
  with Ok c => c | Fail _ => TcpClient_new end.

Lemma client_reconnects_once_witness :
  exists c', removeConnection 5 6 CRefused connected_client = Ok c' /\ m_connection c' = None /\
    destroys c' = destroys connected_client ++ [5] /\ no_retry (m_connector c') /\
    m_channelPtr (m_connector c') = None /\
    errors (m_connector c') = errors (m_connector connected_client) /\
    forall fd' r', client_connect fd' r' c' = Ok c'.
Proof.
  apply (client_reconnects_once connected_client 5 6 CRefused); try (vm_compute; reflexivity).
  eapply rtc_l; [apply cs_retry|].
  eapply rtc_l; [apply (cs_connect _ 5 CInProgress);
    [split; [lia|by intros ?%elem_of_nil]|vm_compute; reflexivity]|].
  eapply rtc_l; [apply (cs_write _ false false); [vm_compute; discriminate|vm_compute; reflexivity]|].
  apply rtc_refl.
Defined.

(** Connecting again after [disconnect] fails an assertion of the connector,
    which is never told that the connection is gone. *)
Lemma connect_again_aborts :
  (c ← removeConnection 5 6 CInProgress (disconnect connected_client); client_connect 6 CInProgress c)
  = Fail AssertFailed.
Proof. vm_compute. reflexivity. Qed.
