(* ===== verification/TcpServer.v ===== *)
(** * Servers: [netpoll/net/tcp_server.{h,cc}]

    The server lives in its own loop (number 0) and spreads the connections it
    accepts over the loops of a pool.  What happens to a connection (established,
    closed, destroyed) happens in the connection's loop; the set of connections
    is changed in the server's loop; each hands over to the other with functors.

    - Functors that are queued and have not run are [pending], with their loop;
      a loop runs its own in order.
    - Of a connection only the status, the registration of its channel and the
      number of calls of [connectDestroyed] are kept ([TcpConnection] has the
      rest).
    - [alive] is false once the destructor has run. *)

From stdpp Require Import gmap fin_sets.
From S2P Require Import Prelude Double TimingWheel EventLoopThread.
From S2P Require TcpConnection.
Import TcpConnection (ConnStatus, Disconnected, Connecting, Connected, Disconnecting, ConnStatus_eq_dec).

Inductive functor :=
  | FEstablished (c : nat)       (* the body of [connectEstablished] *)
  | FForceClose (c : nat)        (* the body of [forceClose] *)
  | FCloseInLoop (c : nat)       (* [handleCloseInLoop], with the server's [this] *)
  | FDestroyed (c : nat)         (* [connectDestroyed] *)
  | FInsertEntry (c : nat).      (* [TimingWheel::insertEntryInLoop] *)

#[global] Instance functor_eq_dec : EqDecision functor.
Proof. solve_decision. Defined.

Record sconn := mkSconn {
  c_loop : nat;
  c_status : ConnStatus;
  c_registered : bool;
  c_destroyed : nat
}.

Record TcpServer := mkServer {
  m_started : bool;
  m_idleTimeout : Z;
  m_loopPoolPtr : option (@EventLoopThreadPool nat);
  pool_owned : bool;                     (* the server holds the last reference to the pool *)
  m_timingWheelMap : gmap nat bool;      (* [false]: the pointer to the wheel is null *)
  m_connSet : gset nat;
  accepting : bool;                      (* the acceptor exists and listens *)
  conns : gmap nat sconn;
  pending : list (nat * functor);
  io_dead : bool;                        (* the threads of the pool have ended *)
  alive : bool
}.

Section setters.
Implicit Type s : TcpServer.
Definition set_started (v : bool) s : TcpServer := mkServer v (m_idleTimeout s) (m_loopPoolPtr s) (pool_owned s) (m_timingWheelMap s)
  (m_connSet s) (accepting s) (conns s) (pending s) (io_dead s) (alive s).
Definition set_pool (v : option EventLoopThreadPool) s : TcpServer := mkServer (m_started s) (m_idleTimeout s) v (pool_owned s) (m_timingWheelMap s)
  (m_connSet s) (accepting s) (conns s) (pending s) (io_dead s) (alive s).
Definition set_wheels (v : gmap nat bool) s : TcpServer := mkServer (m_started s) (m_idleTimeout s) (m_loopPoolPtr s) (pool_owned s) v
  (m_connSet s) (accepting s) (conns s) (pending s) (io_dead s) (alive s).
Definition set_connSet (v : gset nat) s : TcpServer := mkServer (m_started s) (m_idleTimeout s) (m_loopPoolPtr s) (pool_owned s) (m_timingWheelMap s)
  v (accepting s) (conns s) (pending s) (io_dead s) (alive s).
Definition set_accepting (v : bool) s : TcpServer := mkServer (m_started s) (m_idleTimeout s) (m_loopPoolPtr s) (pool_owned s) (m_timingWheelMap s)
  (m_connSet s) v (conns s) (pending s) (io_dead s) (alive s).
Definition set_conns (v : gmap nat sconn) s : TcpServer := mkServer (m_started s) (m_idleTimeout s) (m_loopPoolPtr s) (pool_owned s) (m_timingWheelMap s)
  (m_connSet s) (accepting s) v (pending s) (io_dead s) (alive s).
Definition set_pending (v : list (nat * functor)) s : TcpServer := mkServer (m_started s) (m_idleTimeout s) (m_loopPoolPtr s) (pool_owned s) (m_timingWheelMap s)
  (m_connSet s) (accepting s) (conns s) v (io_dead s) (alive s).
Definition set_io_dead (v : bool) s : TcpServer := mkServer (m_started s) (m_idleTimeout s) (m_loopPoolPtr s) (pool_owned s) (m_timingWheelMap s)
  (m_connSet s) (accepting s) (conns s) (pending s) v (alive s).
Definition set_alive (v : bool) s : TcpServer := mkServer (m_started s) (m_idleTimeout s) (m_loopPoolPtr s) (pool_owned s) (m_timingWheelMap s)
  (m_connSet s) (accepting s) (conns s) (pending s) (io_dead s) v.
End setters.

Definition TcpServer_new (idleTimeout : Z) (pool : option EventLoopThreadPool) (owned : bool) : TcpServer :=
  mkServer false idleTimeout pool owned ∅ ∅ false ∅ [] false true.

(** ** Loops *)

Definition queue_functor (l : nat) (f : functor) (s : TcpServer) : TcpServer :=
  set_pending (pending s ++ [(l, f)]) s.

Definition get_conn (c : nat) (s : TcpServer) : res sconn :=
  match conns s !! c with Some x => Ok x | None => Fail UseAfterFree end.
Definition put_conn (c : nat) (x : sconn) (s : TcpServer) : TcpServer :=
  set_conns (<[c := x]> (conns s)) s.

(** ** Closing *)

Definition handleCloseInLoop (c : nat) (s : TcpServer) : res TcpServer :=
  if alive s then
    _ ← assert (bool_decide (c ∈ m_connSet s));
    let s := set_connSet (m_connSet s ∖ {[ c ]}) s in
    x ← get_conn c s;
    Ok (queue_functor (c_loop x) (FDestroyed c) s)
  else Fail UseAfterFree.

(** The close callback, in the thread of loop [l]; it reads the server's [m_loop]. *)
Definition connectionClosed (l c : nat) (s : TcpServer) : res TcpServer :=
  if alive s then
    if bool_decide (l = 0%nat) then handleCloseInLoop c s
    else Ok (queue_functor 0 (FCloseInLoop c) s)
  else Fail UseAfterFree.

(** [TcpConnectionImpl::handleClose] *)
Definition conn_handleClose (c : nat) (s : TcpServer) : res TcpServer :=
  x ← get_conn c s;
  connectionClosed (c_loop x) c
    (put_conn c (mkSconn (c_loop x) Disconnected (c_registered x) (c_destroyed x)) s).

(** ** Functors *)

Definition run_established (c : nat) (s : TcpServer) : res TcpServer :=
  x ← get_conn c s;
  _ ← assert (bool_decide (c_status x = Connecting));
  Ok (put_conn c (mkSconn (c_loop x) Connected true (c_destroyed x)) s).

Definition run_forceClose (c : nat) (s : TcpServer) : res TcpServer :=
  x ← get_conn c s;
  if bool_decide (c_status x = Connected) || bool_decide (c_status x = Disconnecting)
  then conn_handleClose c s else Ok s.

(** [Channel::remove] wants a registered channel without events; only a
    connected or closed connection has none here. *)
Definition run_destroyed (c : nat) (s : TcpServer) : res TcpServer :=
  x ← get_conn c s;
  _ ← assert (bool_decide (c_status x = Connected) || bool_decide (c_status x = Disconnected));
  _ ← assert (c_registered x);
  Ok (put_conn c (mkSconn (c_loop x) Disconnected false (S (c_destroyed x))) s).

Definition run_functor (f : functor) (s : TcpServer) : res TcpServer :=
  match f with
  | FEstablished c => run_established c s
  | FForceClose c => run_forceClose c s
  | FCloseInLoop c => handleCloseInLoop c s
  | FDestroyed c => run_destroyed c s
  | FInsertEntry _ => Ok s
  end.

(** [runInLoop] from the server's thread. *)
Definition run_or_queue (l : nat) (f : functor) (s : TcpServer) : res TcpServer :=
  if bool_decide (l = 0%nat) then run_functor f s else Ok (queue_functor l f s).

(** ** The server *)

(** The wheel that [start] makes for each loop. *)
Definition server_wheel (idleTimeout : Z) : res TimingWheel :=
  TimingWheel_new idleTimeout f_one (if idleTimeout <? 500 then idleTimeout + 1 else 100).

(** The loop over the pool, [loopNum] times. *)
Fixpoint pool_wheels (loopNum : nat) (p : EventLoopThreadPool) (wheels : gmap nat bool)
    : res (gmap nat bool * EventLoopThreadPool) :=
  match loopNum with
  | O => Ok (wheels, p)
  | S n =>
      '(l, p) ← getNextLoop p;
      match l with
      | None => Fail NullDereference
      | Some l => pool_wheels n p (<[l := true]> wheels)
      end
  end.

Definition server_start (s : TcpServer) : res TcpServer :=
  _ ← assert (negb (m_started s));
  let s := set_started true s in
  s ← (if 0 <? m_idleTimeout s then
         _ ← server_wheel (m_idleTimeout s);
         let s := set_wheels (<[0%nat := true]> (m_timingWheelMap s)) s in
         match m_loopPoolPtr s with
         | None => Ok s
         | Some p =>
             '(wheels, p) ← pool_wheels (length (m_loopThreadList p)) p (m_timingWheelMap s);
             Ok (set_pool (Some p) (set_wheels wheels s))
         end
       else Ok s);
  Ok (set_accepting true s).

(** The loop for a new connection. *)
Definition pick_loop (s : TcpServer) : res (nat * TcpServer) :=
  match m_loopPoolPtr s with
  | Some p =>
      if bool_decide (m_loopThreadList p = []) then Ok (0%nat, s)
      else
        '(l, p) ← getNextLoop p;
        match l with
        | None => Fail NullDereference
        | Some l => Ok (l, set_pool (Some p) s)
        end
  | None => Ok (0%nat, s)
  end.

(** [newConnection], for the connection [c]. *)
Definition server_newConnection (c : nat) (s : TcpServer) : res TcpServer :=
  '(ioLoop, s) ← pick_loop s;
  let s := put_conn c (mkSconn ioLoop Connecting false 0) s in
  s ← (if 0 <? m_idleTimeout s then
         _ ← assert (bool_decide (m_timingWheelMap s !! ioLoop = Some true));
         run_or_queue ioLoop (FInsertEntry c) s
       else Ok s);
  let s := set_connSet ({[ c ]} ∪ m_connSet s) s in
  run_or_queue ioLoop (FEstablished c) s.

(** [forceClose] for each connection of the set. *)
Fixpoint close_all (cs : list nat) (s : TcpServer) : res TcpServer :=
  match cs with
  | [] => Ok s
  | c :: cs =>
      x ← get_conn c s;
      s ← run_or_queue (c_loop x) (FForceClose c) s;
      close_all cs s
  end.

(** The first functor of loop [l]. *)
Fixpoint take_first (l : nat) (p : list (nat * functor)) : option (functor * list (nat * functor)) :=
  match p with
  | [] => None
  | (k, f) :: p =>
      if decide (k = l) then Some (f, p)
      else '(g, q) ← take_first l p; Some (g, (k, f) :: q)
  end.

(** Loop [l] runs its next functor. *)
Definition run_first (l : nat) (s : TcpServer) : res TcpServer :=
  match take_first l (pending s) with
  | Some (f, p) => run_functor f (set_pending p s)
  | None => Ok s
  end.

Fixpoint run_many (n : nat) (l : nat) (s : TcpServer) : res TcpServer :=
  match n with
  | O => Ok s
  | S n => s ← run_first l s; run_many n l s
  end.

(** The last loop of [stop]: each wheel is dropped in its own loop, and the
    caller waits for that, so loop [l] first runs what it has queued.  The
    connections that the entries of a wheel would close are closed by then.  The
    map keeps its entries. *)
Fixpoint stop_wheels (ls : list nat) (s : TcpServer) : res TcpServer :=
  match ls with
  | [] => Ok s
  | l :: ls =>
      _ ← (if bool_decide (m_timingWheelMap s !! l = Some true) then Ok tt else Fail NullDereference);
      s ← (if bool_decide (l = 0%nat) then Ok s
           else if io_dead s then Fail UseAfterFree
           else run_many (length (filter (fun g => g.1 = l) (pending s))) l s);
      stop_wheels ls (set_wheels (<[l := false]> (m_timingWheelMap s)) s)
  end.

Definition stop_connections (s : TcpServer) : res TcpServer :=
  let s := set_accepting false s in
  close_all (elements (m_connSet s)) s.

(** [m_loopPoolPtr.reset()] *)
Definition stop_pool (s : TcpServer) : TcpServer :=
  match m_loopPoolPtr s with
  | Some _ => set_pool None (if pool_owned s then set_io_dead true s else s)
  | None => s
  end.

(** [stop] in the server's thread. *)
Definition server_stop (s : TcpServer) : res TcpServer :=
  s ← stop_connections s;
  let s := stop_pool s in
  stop_wheels (map fst (map_to_list (m_timingWheelMap s))) s.

(** The destructor. *)
Definition server_destroy (s : TcpServer) : res TcpServer :=
  s ← server_stop s; Ok (set_alive false s).

(** ** Runs *)

Inductive server_op :=
  | SAccept (c : nat)            (* the acceptor has a new connection *)
  | SClose (c : nat)             (* the peer closed: an event in the connection's loop *)
  | SShutdown (c : nat)          (* [shutdown], in the connection's loop *)
  | SForce (c : nat)             (* [forceClose], from another thread *)
  | SKick (c : nat)              (* [forceClose] in the connection's loop, by the timing wheel for instance *)
  | SRun (l : nat).              (* loop [l] runs its next functor *)

Definition is_open (st : ConnStatus) : bool :=
  bool_decide (st = Connected) || bool_decide (st = Disconnecting).

Definition server_exec (o : server_op) (s : TcpServer) : res TcpServer :=
  match o with
  | SAccept c => server_newConnection c s
  | SClose c => conn_handleClose c s
  | SShutdown c =>
      x ← get_conn c s;
      Ok (if bool_decide (c_status x = Connected)
          then put_conn c (mkSconn (c_loop x) Disconnecting (c_registered x) (c_destroyed x)) s else s)
  | SForce c => x ← get_conn c s; Ok (queue_functor (c_loop x) (FForceClose c) s)
  | SKick c => run_forceClose c s
  | SRun l => run_first l s
  end.

Definition enabled (o : server_op) (s : TcpServer) : Prop :=
  match o with
  | SAccept c => accepting s = true /\ conns s !! c = None
  | SClose c => exists x, conns s !! c = Some x /\ is_open (c_status x) = true
  | SShutdown c | SForce c | SKick c => is_Some (conns s !! c)
  | SRun _ => True
  end.

Inductive server_run (s0 : TcpServer) : list server_op -> TcpServer -> Prop :=
  | server_run_nil : server_run s0 [] s0
  | server_run_snoc ops o s s' : server_run s0 ops s -> enabled o s -> server_exec o s = Ok s' ->
      server_run s0 (ops ++ [o]) s'.

(** ** Counting functors *)

Definition cnt (g : nat * functor) (p : list (nat * functor)) : nat :=
  length (filter (fun x => x = g) p).
#[local] Arguments cnt : simpl never.

Lemma cnt_app g p q : cnt g (p ++ q) = (cnt g p + cnt g q)%nat.
Proof. unfold cnt. by rewrite filter_app, length_app. Qed.

Lemma cnt_one g h : cnt g [h] = if decide (h = g) then 1%nat else 0%nat.
Proof. unfold cnt. cbn. by case_decide. Qed.

Lemma cnt_cons g h p : cnt g (h :: p) = ((if decide (h = g) then 1 else 0) + cnt g p)%nat.
Proof. change (h :: p) with ([h] ++ p). by rewrite cnt_app, cnt_one. Qed.

Lemma take_first_cnt l p f q g :
  take_first l p = Some (f, q) -> cnt g p = ((if decide ((l, f) = g) then 1 else 0) + cnt g q)%nat.
Proof.
  revert q. induction p as [|[k h] p IH]; intros q; cbn [take_first]; [done|].
  destruct (decide (k = l)) as [Hk|Hk]; [intros [= -> ->]; subst; apply cnt_cons|].
  destruct (take_first l p) as [[h' q']|] eqn:E; [|done]. cbn [mbind option_bind]. intros [= -> <-].
  rewrite !cnt_cons, (IH _ eq_refl). lia.
Qed.

(** ** Invariant *)

Inductive phase := PConnecting | POpen | PClosing | PRemoved | PGone.

(** What is queued and stored for a connection [c] in each phase. *)
Record in_phase (ph : phase) (c : nat) (x : sconn) (s : TcpServer) : Prop := {
  ip_status : match ph with
    | PConnecting => c_status x = Connecting
    | POpen => is_open (c_status x) = true
    | _ => c_status x = Disconnected
    end;
  ip_set : c ∈ m_connSet s <-> ph = PConnecting \/ ph = POpen \/ ph = PClosing;
  ip_registered : c_registered x = match ph with PConnecting | PGone => false | _ => true end;
  ip_destroyed : c_destroyed x = match ph with PGone => 1%nat | _ => 0%nat end;
  ip_established : cnt (c_loop x, FEstablished c) (pending s) = match ph with PConnecting => 1%nat | _ => 0%nat end;
  ip_closing : cnt (0%nat, FCloseInLoop c) (pending s) = match ph with PClosing => 1%nat | _ => 0%nat end;
  ip_destroying : cnt (c_loop x, FDestroyed c) (pending s) = match ph with PRemoved => 1%nat | _ => 0%nat end
}.

Definition functor_conn (f : functor) : nat :=
  match f with FEstablished c | FForceClose c | FCloseInLoop c | FDestroyed c | FInsertEntry c => c end.

(** Functors are queued in the right loop. *)
Definition functor_home (s : TcpServer) (g : nat * functor) : Prop :=
  exists x, conns s !! functor_conn g.2 = Some x /\
    g.1 = match g.2 with FCloseInLoop _ => 0%nat | _ => c_loop x end.

Definition pool_ok (p : @EventLoopThreadPool nat) : Prop :=
  m_loopThreadList p <> [] -> 0 <= m_loopIndex p < Z.of_nat (length (m_loopThreadList p)).

Record sv_inv (s : TcpServer) : Prop := {
  sv_alive : alive s = true;
  sv_phase : forall c x, conns s !! c = Some x -> exists ph, in_phase ph c x s;
  sv_home : Forall (functor_home s) (pending s);
  sv_set : forall c, c ∈ m_connSet s -> is_Some (conns s !! c);
  sv_pool : forall p, m_loopPoolPtr s = Some p -> pool_ok p /\ Z.of_nat (length (m_loopThreadList p)) < size_max;
  sv_wheels : 0 < m_idleTimeout s -> m_timingWheelMap s !! 0%nat = Some true /\
    forall p l, m_loopPoolPtr s = Some p -> l ∈ m_loopThreadList p -> m_timingWheelMap s !! l = Some true
}.

(** ** Frame: functors about one connection *)

(** [p'] is [p] as far as functors about connections other than [c] go. *)
Definition same_for_others (c : nat) (p p' : list (nat * functor)) : Prop :=
  forall l f, functor_conn f <> c -> cnt (l, f) p' = cnt (l, f) p.

Lemma others_push c p l f : functor_conn f = c -> same_for_others c p (p ++ [(l, f)]).
Proof.
  intros Hf k g Hg. rewrite cnt_app, cnt_one. case_decide as E; [|lia]. injection E as -> ->. done.
Qed.

Lemma others_take c p l f q :
  functor_conn f = c -> take_first l p = Some (f, q) -> same_for_others c p q.
Proof.
  intros Hf E k g Hg. rewrite (take_first_cnt _ _ _ _ (k, g) E). case_decide as E'; [|done].
  injection E' as -> ->. done.
Qed.

Lemma others_trans c p q r : same_for_others c p q -> same_for_others c q r -> same_for_others c p r.
Proof. intros H1 H2 l f Hf. by rewrite H2, H1. Qed.

Lemma others_refl c p : same_for_others c p p.
Proof. done. Qed.

(** Another connection stays in its phase. *)
Lemma in_phase_other ph c d x s s' :
  in_phase ph d x s -> d <> c -> same_for_others c (pending s) (pending s') ->
  (d ∈ m_connSet s' <-> d ∈ m_connSet s) -> in_phase ph d x s'.
Proof.
  intros [H1 H2 H3 H4 H5 H6 H7] Hd Hp Hs.
  constructor; try done; [by rewrite Hs|rewrite Hp by done; assumption..].
Qed.

(** The whole invariant, after a step about [c]. *)
Lemma sv_inv_step c x ph s s' :
  sv_inv s -> alive s' = true -> m_loopPoolPtr s' = m_loopPoolPtr s -> m_idleTimeout s' = m_idleTimeout s ->
  m_timingWheelMap s' = m_timingWheelMap s -> conns s' = <[c := x]> (conns s) ->
  same_for_others c (pending s) (pending s') -> Forall (functor_home s') (pending s') ->
  (forall d, d <> c -> d ∈ m_connSet s' <-> d ∈ m_connSet s) -> in_phase ph c x s' -> sv_inv s'.
Proof.
  intros [H1 H2 H3 H4 H5 H6] Ea Ep Ei Ew Ec Ho Hh Hs Hph.
  constructor; rewrite ?Ep, ?Ei, ?Ew; try done.
  - intros d y. rewrite Ec. destruct (decide (d = c)) as [-> | Hd].
    + rewrite lookup_insert_eq. intros [= <-]. eauto.
    + rewrite lookup_insert_ne by done. intros E. destruct (H2 d y E) as [ph' Hph']. exists ph'.
      eapply in_phase_other; eauto.
  - intros d Hd. rewrite Ec. destruct (decide (d = c)) as [-> | Hdc].
    + rewrite lookup_insert_eq. by eexists.
    + rewrite lookup_insert_ne by done. apply H4, Hs; done.
Qed.

(** Replacing a connection by one in the same loop keeps functors at home. *)
Lemma home_insert s s' c x y g :
  functor_home s g -> conns s !! c = Some x -> conns s' = <[c := y]> (conns s) -> c_loop y = c_loop x ->
  functor_home s' g.
Proof.
  intros (z & Ez & Hz) Ex Ec El. unfold functor_home. rewrite Ec.
  destruct (decide (functor_conn g.2 = c)) as [E|E].
  - exists y. rewrite E, lookup_insert_eq. split; [done|]. rewrite E, Ex in Ez. injection Ez as <-.
    rewrite Hz. destruct g.2; done.
  - exists z. rewrite lookup_insert_ne by done. done.
Qed.

Lemma take_first_elem l p f q :
  take_first l p = Some (f, q) -> (l, f) ∈ p /\ forall g, g ∈ q -> g ∈ p.
Proof.
  revert q. induction p as [|[k h] p IH]; intros q; cbn [take_first]; [done|].
  destruct (decide (k = l)) as [Hk|Hk].
  - intros [= -> ->]. subst. split; [by left|]. intros g Hg. by right.
  - destruct (take_first l p) as [[h' q']|] eqn:E; [|done]. cbn [mbind option_bind]. intros [= -> <-].
    destruct (IH _ eq_refl) as [IH1 IH2]. split; [by right|].
    intros g [-> | Hg]%elem_of_cons; [by left|right; auto].
Qed.

(** ** Each step *)

Lemma home_pool s s' p : Forall (functor_home s) p -> conns s' = conns s -> Forall (functor_home s') p.
Proof. intros H E. eapply Forall_impl; [exact H|]. intros g (x & Ex & Hx). exists x. by rewrite E. Qed.

(** Functors that the invariant does not count may come and go. *)
Definition untracked (f : functor) : Prop := match f with FForceClose _ | FInsertEntry _ => True | _ => False end.

Lemma sv_inv_pending s p :
  sv_inv s -> (forall l f, ~ untracked f -> cnt (l, f) p = cnt (l, f) (pending s)) ->
  Forall (functor_home s) p -> sv_inv (set_pending p s).
Proof.
  intros [H1 H2 H3 H4 H5 H6] Hc Hh. constructor; try done.
  intros c x E. destruct (H2 c x E) as [ph [P1 P2 P3 P4 P5 P6 P7]]. exists ph.
  constructor; cbn; try assumption; rewrite Hc; auto.
Qed.

Lemma close_inv c x s :
  sv_inv s -> conns s !! c = Some x -> is_open (c_status x) = true ->
  exists s', conn_handleClose c s = Ok s' /\ sv_inv s'.
Proof.
  intros H Ex Ho. destruct (sv_phase _ H c x Ex) as [ph Hph].
  assert (ph = POpen) as ->.
  { destruct Hph as [P1 _ _ _ _ _ _]. destruct ph; try done; by rewrite P1 in Ho. }
  destruct Hph as [P1 P2 P3 P4 P5 P6 P7]. pose proof (sv_home _ H) as Hh.
  unfold conn_handleClose, get_conn. rewrite Ex. cbn [mbind res_bind].
  set (y := mkSconn (c_loop x) Disconnected (c_registered x) (c_destroyed x)).
  unfold connectionClosed. cbn [alive put_conn set_conns]. rewrite (sv_alive _ H). case_bool_decide as El.
  - unfold handleCloseInLoop. cbn [alive put_conn set_conns]. rewrite (sv_alive _ H).
    rewrite bool_decide_true by (apply P2; auto). cbn [assert mbind res_bind].
    unfold get_conn. cbn. rewrite lookup_insert_eq. cbn. rewrite El. eexists. split; [reflexivity|].
    eapply (sv_inv_step c y PRemoved s); try done; cbn.
    + apply (sv_alive _ H).
    + by apply others_push.
    + apply Forall_app. split.
      * eapply Forall_impl; [exact Hh|]. intros g Hg. by eapply (home_insert s _ c x y).
      * constructor; [|done]. exists y. cbn. by rewrite lookup_insert_eq, El.
    + set_solver.
    + constructor; cbn; try done; try (by rewrite P3); try (by rewrite P4).
      * split; [set_solver|]. intros [? | [? | ?]]; done.
      * rewrite cnt_app, cnt_one, decide_False by done. lia.
      * rewrite cnt_app, cnt_one, decide_False by done. lia.
      * rewrite cnt_app, cnt_one, El, decide_True, <- El by done. lia.
  - eexists. split; [reflexivity|]. eapply (sv_inv_step c y PClosing s); try done; cbn.
    + apply (sv_alive _ H).
    + by apply others_push.
    + apply Forall_app. split.
      * eapply Forall_impl; [exact Hh|]. intros g Hg. by eapply (home_insert s _ c x y).
      * constructor; [|done]. exists y. cbn. by rewrite lookup_insert_eq.
    + constructor; cbn; try done; try (by rewrite P3); try (by rewrite P4).
      * rewrite P2. naive_solver.
      * rewrite cnt_app, cnt_one, decide_False by done. lia.
      * rewrite cnt_app, cnt_one, decide_True by done. lia.
      * rewrite cnt_app, cnt_one, decide_False by done. lia.
Qed.

(** What the queue tells about a functor that is taken out of it. *)
Lemma taken s l f q c :
  sv_inv s -> take_first l (pending s) = Some (f, q) -> functor_conn f = c ->
  exists x ph, conns s !! c = Some x /\ in_phase ph c x s /\
    l = match f with FCloseInLoop _ => 0%nat | _ => c_loop x end /\
    (0 < cnt (l, f) (pending s))%nat /\ Forall (functor_home s) q.
Proof.
  intros H E Hf. destruct (take_first_elem _ _ _ _ E) as [Hin Hsub].
  pose proof (sv_home _ H) as Hh. rewrite Forall_forall in Hh.
  destruct (Hh _ Hin) as (x & Ex & Hl). cbn in Ex, Hl. rewrite Hf in Ex.
  destruct (sv_phase _ H c x Ex) as [ph Hph]. exists x, ph. split_and!; try done.
  - rewrite (take_first_cnt _ _ _ _ (l, f) E), decide_True by done. lia.
  - apply Forall_forall. auto.
Qed.

Lemma established_inv s l c q :
  sv_inv s -> take_first l (pending s) = Some (FEstablished c, q) ->
  exists s', run_established c (set_pending q s) = Ok s' /\ sv_inv s'.
Proof.
  intros H E. destruct (taken s l _ q c H E eq_refl) as (x & ph & Ex & Hph & Hl & Hc & Hq). subst l.
  assert (ph = PConnecting) as -> by (destruct Hph as [_ _ _ _ P5 _ _]; destruct ph; try done; lia).
  destruct Hph as [P1 P2 P3 P4 P5 P6 P7].
  unfold run_established, get_conn. cbn. rewrite Ex. cbn. rewrite P1, bool_decide_true by done. cbn.
  eexists. split; [reflexivity|].
  pose proof (fun g => take_first_cnt _ _ _ _ g E) as Hcnt.
  eapply (sv_inv_step c _ POpen s); try done; cbn.
  - apply (sv_alive _ H).
  - exact (others_take _ _ _ _ _ eq_refl E).
  - eapply Forall_impl; [exact Hq|]. intros g Hg. by eapply (home_insert s _ c x).
  - constructor; cbn; try done.
    + rewrite P2. split; auto.
    + rewrite Hcnt, decide_True in P5 by done. lia.
    + rewrite Hcnt, decide_False in P6 by done. done.
    + rewrite Hcnt, decide_False in P7 by done. done.
Qed.

Lemma closeInLoop_inv s l c q :
  sv_inv s -> take_first l (pending s) = Some (FCloseInLoop c, q) ->
  exists s', handleCloseInLoop c (set_pending q s) = Ok s' /\ sv_inv s'.
Proof.
  intros H E. destruct (taken s l _ q c H E eq_refl) as (x & ph & Ex & Hph & Hl & Hc & Hq). subst l.
  assert (ph = PClosing) as -> by (destruct Hph as [_ _ _ _ _ P6 _]; destruct ph; try done; lia).
  destruct Hph as [P1 P2 P3 P4 P5 P6 P7]. pose proof (fun g => take_first_cnt _ _ _ _ g E) as Hcnt.
  unfold handleCloseInLoop. cbn. rewrite (sv_alive _ H), bool_decide_true by (apply P2; auto). cbn.
  unfold get_conn. cbn. rewrite Ex. cbn. eexists. split; [reflexivity|].
  eapply (sv_inv_step c x PRemoved s); try done; cbn.
  - apply (sv_alive _ H).
  - by rewrite insert_id.
  - eapply others_trans; [exact (others_take _ _ _ _ _ eq_refl E)|by apply others_push].
  - apply Forall_app. split; [by eapply home_pool|]. constructor; [|done]. exists x. done.
  - set_solver.
  - constructor; cbn; try done.
    + split; [set_solver|]. intros [? | [? | ?]]; done.
    + rewrite Hcnt, decide_False in P5 by done. rewrite cnt_app, cnt_one, decide_False by done. lia.
    + rewrite Hcnt, decide_True in P6 by done. rewrite cnt_app, cnt_one, decide_False by done. lia.
    + rewrite Hcnt, decide_False in P7 by done. rewrite cnt_app, cnt_one, decide_True by done. lia.
Qed.

Lemma destroyed_inv s l c q :
  sv_inv s -> take_first l (pending s) = Some (FDestroyed c, q) ->
  exists s', run_destroyed c (set_pending q s) = Ok s' /\ sv_inv s'.
Proof.
  intros H E. destruct (taken s l _ q c H E eq_refl) as (x & ph & Ex & Hph & Hl & Hc & Hq). subst l.
  assert (ph = PRemoved) as -> by (destruct Hph as [_ _ _ _ _ _ P7]; destruct ph; try done; lia).
  destruct Hph as [P1 P2 P3 P4 P5 P6 P7]. pose proof (fun g => take_first_cnt _ _ _ _ g E) as Hcnt.
  unfold run_destroyed, get_conn. cbn. rewrite Ex. cbn.
  rewrite P1, (bool_decide_true (Disconnected = Disconnected)), orb_true_r by done. cbn. rewrite P3. cbn.
  eexists. split; [reflexivity|]. eapply (sv_inv_step c _ PGone s); try done; cbn.
  - apply (sv_alive _ H).
  - exact (others_take _ _ _ _ _ eq_refl E).
  - eapply Forall_impl; [exact Hq|]. intros g Hg. by eapply (home_insert s _ c x).
  - constructor; cbn; try done.
    + rewrite P2. naive_solver.
    + by rewrite P4.
    + rewrite Hcnt, decide_False in P5 by done. done.
    + rewrite Hcnt, decide_False in P6 by done. done.
    + rewrite Hcnt, decide_True in P7 by done. lia.
Qed.

Lemma server_shutdown_inv s c x :
  sv_inv s -> conns s !! c = Some x -> c_status x = Connected ->
  sv_inv (put_conn c (mkSconn (c_loop x) Disconnecting (c_registered x) (c_destroyed x)) s).
Proof.
  intros H Ex Hs. destruct (sv_phase _ H c x Ex) as [ph Hph]. pose proof (sv_home _ H) as Hh.
  assert (ph = POpen) as -> by (destruct Hph as [P1 _ _ _ _ _ _]; destruct ph; congruence).
  destruct Hph as [P1 P2 P3 P4 P5 P6 P7].
  eapply (sv_inv_step c _ POpen s); try done.
  - apply (sv_alive _ H).
  - eapply Forall_impl; [exact Hh|]. intros g Hg. by eapply (home_insert s _ c x).
Qed.

(** Taking out, or queueing, a functor that is not counted. *)
Lemma untracked_take s l f q :
  sv_inv s -> take_first l (pending s) = Some (f, q) -> untracked f -> sv_inv (set_pending q s).
Proof.
  intros H E Hf. apply sv_inv_pending; [done| |].
  - intros k g Hg. rewrite (take_first_cnt _ _ _ _ (k, g) E), decide_False; [done|].
    intros [= -> ->]. done.
  - pose proof (sv_home _ H) as Hh. rewrite Forall_forall in Hh. apply Forall_forall.
    intros g Hg. apply Hh. by apply (take_first_elem _ _ _ _ E).
Qed.

Lemma untracked_push s c x f :
  sv_inv s -> conns s !! c = Some x -> functor_conn f = c -> untracked f ->
  sv_inv (queue_functor (c_loop x) f s).
Proof.
  intros H Ex Hc Hf. apply sv_inv_pending; [done| |].
  - intros k g Hg. rewrite cnt_app, cnt_one, decide_False; [lia|]. intros [= _ <-]. done.
  - apply Forall_app. split; [apply (sv_home _ H)|]. constructor; [|done]. exists x. cbn. rewrite Hc.
    split; [done|]. destruct f; done.
Qed.

Lemma server_forceClose_inv s c x :
  sv_inv s -> conns s !! c = Some x -> exists s', run_forceClose c s = Ok s' /\ sv_inv s'.
Proof.
  intros H Ex. unfold run_forceClose, get_conn. rewrite Ex. cbn [mbind res_bind].
  destruct (is_open (c_status x)) eqn:Eo; unfold is_open in Eo; rewrite Eo; [|eauto].
  by apply (close_inv c x).
Qed.

(** A loop can always run what it has queued. *)
Lemma run_first_inv l s : sv_inv s -> exists s', run_first l s = Ok s' /\ sv_inv s'.
Proof.
  intros H. unfold run_first. destruct (take_first l (pending s)) as [[f q]|] eqn:E; [|eauto].
  destruct (taken s l f q _ H E eq_refl) as (x & ph & Ex & _).
  destruct f as [c|c|c|c|c]; cbn [run_functor]; cbn [functor_conn] in Ex.
  - by apply (established_inv s l).
  - apply (server_forceClose_inv _ c x); [by apply (untracked_take s l _ q H E)|done].
  - by apply (closeInLoop_inv s l).
  - by apply (destroyed_inv s l).
  - eexists. split; [reflexivity|]. by apply (untracked_take s l _ q H E).
Qed.

(** ** Accepting *)

Lemma pick_loop_inv s :
  sv_inv s -> exists l s', pick_loop s = Ok (l, s') /\ sv_inv s' /\ conns s' = conns s /\
    pending s' = pending s /\ accepting s' = accepting s /\ m_idleTimeout s' = m_idleTimeout s /\
    (0 < m_idleTimeout s -> m_timingWheelMap s' !! l = Some true).
Proof.
  intros H. unfold pick_loop. destruct (m_loopPoolPtr s) as [[ts i]|] eqn:Ep.
  2: { exists 0%nat, s. split_and!; try done. by apply (sv_wheels _ H). }
  cbn [m_loopThreadList]. case_bool_decide as Et.
  { exists 0%nat, s. split_and!; try done. by apply (sv_wheels _ H). }
  destruct (sv_pool _ H _ Ep) as [Hp Hm]. specialize (Hp Et). cbn [m_loopIndex m_loopThreadList] in Hp, Hm.
  rewrite getNextLoop_spec by done. cbn [mbind res_bind].
  destruct (lookup_lt_is_Some_2 ts (Z.to_nat i)) as [l Hl]; [lia|]. rewrite Hl.
  exists l. eexists. split; [reflexivity|]. split_and!; try done.
  - destruct H as [H1 H2 H3 H4 H5 H6]. constructor; try done.
    + intros c x Ex. destruct (H2 c x Ex) as [ph [P1 P2 P3 P4 P5 P6 P7]]. by exists ph.
    + intros p [= <-]. split; [|done]. intros _. apply (Z.mod_pos_bound (i + 1)). cbn [m_loopThreadList]. lia.
    + intros Hi. destruct (H6 Hi) as [W0 W]. split; [done|]. intros p k [= <-] Hk.
      by eapply (W _ k Ep).
  - intros Hi. apply (proj2 (sv_wheels _ H Hi) _ l Ep). by eapply list_elem_of_lookup_2.
Qed.

Lemma fresh_cnt s c l f :
  sv_inv s -> conns s !! c = None -> functor_conn f = c -> cnt (l, f) (pending s) = 0%nat.
Proof.
  intros H Hc Hf. unfold cnt. destruct (filter _ (pending s)) as [|g q] eqn:E; [done|].
  assert (g ∈ pending s /\ g = (l, f)) as [Hg ->].
  { assert (g ∈ g :: q) as Hin by left. rewrite <- E in Hin. by apply list_elem_of_filter in Hin as [? ?]. }
  pose proof (sv_home _ H) as Hh. rewrite Forall_forall in Hh. destruct (Hh _ Hg) as (x & Ex & _).
  cbn in Ex. rewrite Hf in Ex. congruence.
Qed.

Lemma home_fresh s s' c y :
  sv_inv s -> conns s !! c = None -> conns s' = <[c := y]> (conns s) -> Forall (functor_home s') (pending s).
Proof.
  intros H Hc Ec. eapply Forall_impl; [exact (sv_home _ H)|]. intros g (x & Ex & Hx).
  exists x. rewrite Ec, lookup_insert_ne; [done|]. intros Hg. rewrite <- Hg in Ex. congruence.
Qed.

(** A fresh connection, once queued for (or already run in) its loop. *)
Lemma fresh_inv s s' c y ph p :
  sv_inv s -> conns s !! c = None ->
  s' = set_pending (pending s ++ p) (set_connSet ({[ c ]} ∪ m_connSet s) (put_conn c y s)) ->
  Forall (fun g => functor_conn g.2 = c /\ (match g.2 with FCloseInLoop _ => False | _ => g.1 = c_loop y end)) p ->
  (ph = PConnecting /\ y = mkSconn (c_loop y) Connecting false 0 /\ cnt (c_loop y, FEstablished c) p = 1%nat \/
   ph = POpen /\ y = mkSconn (c_loop y) Connected true 0 /\ cnt (c_loop y, FEstablished c) p = 0%nat) ->
  cnt (0%nat, FCloseInLoop c) p = 0%nat -> cnt (c_loop y, FDestroyed c) p = 0%nat -> sv_inv s'.
Proof.
  intros H Hc -> Hp Hph H6 H7.
  eapply (sv_inv_step c y ph s); try done; cbn.
  - apply (sv_alive _ H).
  - intros k f Hf. rewrite cnt_app. enough (cnt (k, f) p = 0%nat) by lia. unfold cnt.
    destruct (filter _ p) as [|g q] eqn:E; [done|].
    assert (g ∈ g :: q) as Hin by left. rewrite <- E in Hin. apply list_elem_of_filter in Hin as [-> Hin].
    rewrite Forall_forall in Hp. by destruct (Hp _ Hin) as [? _].
  - apply Forall_app. split; [by eapply home_fresh|]. eapply Forall_impl; [exact Hp|].
    intros [k f] [Hf Hl]. exists y. cbn in *. rewrite Hf, lookup_insert_eq. split; [done|]. by destruct f.
  - set_solver.
  - destruct Hph as [(-> & Ey & H5) | (-> & Ey & H5)]; rewrite Ey in *; cbn in *;
      (constructor; cbn; try done; [set_solver|..]; rewrite cnt_app, (fresh_cnt s c) by done; lia).
Qed.

Lemma accept_inv s c :
  sv_inv s -> conns s !! c = None -> exists s', server_newConnection c s = Ok s' /\ sv_inv s'.
Proof.
  intros H Hc. destruct (pick_loop_inv s H) as (l & s1 & E1 & H1 & Ec & Ep & Ea & Ei & Hw).
  unfold server_newConnection. rewrite E1. cbn [mbind res_bind]. rewrite <- Ec in Hc.
  change (m_idleTimeout (put_conn c _ s1)) with (m_idleTimeout s1). rewrite Ei.
  destruct (Z.ltb_spec 0 (m_idleTimeout s)) as [Hi|_].
  - rewrite bool_decide_true by (apply Hw; done). cbn [assert mbind res_bind]. unfold run_or_queue.
    case_bool_decide as El; cbn; [rewrite El|].
    + unfold run_established, get_conn. cbn. rewrite lookup_insert_eq. cbn. eexists. split; [reflexivity|].
      eapply (fresh_inv s1 _ c (mkSconn 0 Connected true 0) POpen []); try done; [|by right].
      unfold put_conn, set_conns, set_connSet, set_pending. cbn. by rewrite insert_insert_eq, app_nil_r.
    + eexists. split; [reflexivity|].
      eapply (fresh_inv s1 _ c (mkSconn l Connecting false 0) PConnecting [(l, FInsertEntry c); (l, FEstablished c)]); try done.
      * unfold queue_functor, set_connSet, set_pending. cbn. by rewrite <- app_assoc.
      * by repeat constructor.
      * left. split_and!; try done. rewrite !cnt_cons. rewrite decide_False, decide_True by done. done.
      * by rewrite !cnt_cons, !decide_False by done.
      * by rewrite !cnt_cons, !decide_False by done.
  - cbn. unfold run_or_queue. case_bool_decide as El; cbn; [rewrite El|].
    + unfold run_established, get_conn. cbn. rewrite lookup_insert_eq. cbn. eexists. split; [reflexivity|].
      eapply (fresh_inv s1 _ c (mkSconn 0 Connected true 0) POpen []); try done; [|by right].
      unfold put_conn, set_conns, set_connSet, set_pending. cbn. by rewrite insert_insert_eq, app_nil_r.
    + eexists. split; [reflexivity|].
      eapply (fresh_inv s1 _ c (mkSconn l Connecting false 0) PConnecting [(l, FEstablished c)]); try done.
      * by repeat constructor.
      * left. split_and!; try done. rewrite cnt_one, decide_True by done. done.
      * by rewrite cnt_one, decide_False by done.
      * by rewrite cnt_one, decide_False by done.
Qed.

Lemma server_exec_inv o s : sv_inv s -> enabled o s -> exists s', server_exec o s = Ok s' /\ sv_inv s'.
Proof.
  intros H. destruct o as [c|c|c|c|c|l]; cbn [enabled server_exec].
  - intros [_ Hc]. by apply accept_inv.
  - intros (x & Ex & Ho). by apply (close_inv c x).
  - intros [x Ex]. unfold get_conn. rewrite Ex. cbn [mbind res_bind]. eexists. split; [reflexivity|].
    case_bool_decide as Es; [|done]. by apply server_shutdown_inv.
  - intros [x Ex]. unfold get_conn. rewrite Ex. cbn [mbind res_bind]. eexists. split; [reflexivity|].
    by apply (untracked_push s c x).
  - intros [x Ex]. by apply (server_forceClose_inv s c x).
  - intros _. by apply run_first_inv.
Qed.

Lemma server_run_inv s0 ops s : server_run s0 ops s -> sv_inv s0 -> sv_inv s.
Proof.
  intros Hr H0. induction Hr as [|ops o s s' _ IH He Ex]; [done|].
  destruct (server_exec_inv o s IH He) as (s'' & Es & Hs). rewrite Ex in Es. by injection Es as <-.
Qed.

(** ** Starting *)

(** Idle timeouts that a wheel can be made for. *)
Definition good_idle (idle : Z) : Prop := idle = 0 \/ 1 < idle < 2 ^ 57.

Lemma server_wheel_ok idle : 1 < idle < 2 ^ 57 -> exists w, server_wheel idle = Ok w.
Proof.
  intros Hi. unfold server_wheel.
  destruct (TimingWheel_new_spec idle (if idle <? 500 then idle + 1 else 100)) as (w & -> & _); [|by eexists].
  unfold wheel_fits. destruct (Z.ltb_spec idle 500); nia.
Qed.

Lemma pool_wheels_spec ts k i w :
  ts <> [] -> 0 <= i < Z.of_nat (length ts) -> Z.of_nat (length ts) < size_max ->
  exists w', pool_wheels k (mkPool ts i) w = Ok (w', mkPool ts ((i + Z.of_nat k) mod Z.of_nat (length ts))) /\
    (forall l, w !! l = Some true -> w' !! l = Some true) /\
    (forall j l, (j < k)%nat -> ts !! Z.to_nat ((i + Z.of_nat j) mod Z.of_nat (length ts)) = Some l ->
       w' !! l = Some true).
Proof.
  intros Hne Hi Hm. revert i w Hi. induction k as [|k IH]; intros i w Hi.
  { exists w. rewrite Z.add_0_r, Z.mod_small by lia. split_and!; [done|done|lia]. }
  cbn [pool_wheels]. rewrite getNextLoop_spec by done. cbn [mbind res_bind].
  destruct (lookup_lt_is_Some_2 ts (Z.to_nat i)) as [l0 Hl]; [lia|]. rewrite Hl.
  destruct (IH ((i + 1) mod Z.of_nat (length ts)) (<[l0 := true]> w)) as (w' & E & H1 & H2);
    [apply Z.mod_pos_bound; lia|].
  exists w'. rewrite E, Z.add_mod_idemp_l by lia. split_and!.
  - do 4 f_equal. lia.
  - intros l Hw. apply H1. destruct (decide (l = l0)) as [-> | ?]; [by rewrite lookup_insert_eq|].
    by rewrite lookup_insert_ne.
  - intros [|j] l Hj Hlk.
    + rewrite Z.add_0_r, Z.mod_small in Hlk by lia. rewrite Hl in Hlk. injection Hlk as ->.
      apply H1. by rewrite lookup_insert_eq.
    + apply (H2 j); [lia|]. rewrite Z.add_mod_idemp_l by lia. rewrite <- Hlk. do 3 f_equal. lia.
Qed.

Lemma pool_wheels_all ts i w :
  ts <> [] -> 0 <= i < Z.of_nat (length ts) -> Z.of_nat (length ts) < size_max ->
  exists w', pool_wheels (length ts) (mkPool ts i) w = Ok (w', mkPool ts i) /\
    (forall l, w !! l = Some true -> w' !! l = Some true) /\ forall l, l ∈ ts -> w' !! l = Some true.
Proof.
  intros Hne Hi Hm. destruct (pool_wheels_spec ts (length ts) i w Hne Hi Hm) as (w' & E & H1 & H2).
  exists w'. rewrite E. split_and!; [|done|].
  - do 3 f_equal. rewrite <- (Z.mul_1_l (Z.of_nat (length ts))) at 1. rewrite Z.mod_add by lia. by apply Z.mod_small.
  - intros l [t Ht]%list_elem_of_lookup_1. pose proof (lookup_lt_Some _ _ _ Ht) as Hlt.
    apply (H2 (Z.to_nat ((Z.of_nat t - i) mod Z.of_nat (length ts)))).
    + pose proof (Z.mod_pos_bound (Z.of_nat t - i) (Z.of_nat (length ts))). lia.
    + rewrite <- Ht. f_equal. rewrite Z2Nat.id by (apply Z.mod_pos_bound; lia).
      rewrite Z.add_mod_idemp_r by lia. replace (i + (Z.of_nat t - i)) with (Z.of_nat t) by lia.
      rewrite Z.mod_small by lia. lia.
Qed.

Definition good_pool (pool : option (@EventLoopThreadPool nat)) : Prop :=
  forall p, pool = Some p -> pool_ok p /\ Z.of_nat (length (m_loopThreadList p)) < size_max.

Lemma server_start_ok idle pool owned :
  good_idle idle -> good_pool pool ->
  exists s, server_start (TcpServer_new idle pool owned) = Ok s /\ sv_inv s /\ accepting s = true /\
    m_loopPoolPtr s = pool /\ pool_owned s = owned /\ m_idleTimeout s = idle /\ conns s = ∅ /\
    m_connSet s = ∅ /\ pending s = [].
Proof.
  intros Hi Hp. unfold server_start. cbn [TcpServer_new m_started negb assert mbind res_bind set_started m_idleTimeout].
  assert (forall w, (0 < idle -> w !! 0%nat = Some true /\ forall p l, pool = Some p -> l ∈ m_loopThreadList p -> w !! l = Some true) ->
     sv_inv (set_accepting true (set_wheels w (set_started true (TcpServer_new idle pool owned))))) as Hinv.
  { intros w Hw. by constructor. }
  destruct Hi as [-> | Hi].
  { eexists. split; [reflexivity|]. split_and!; done. }
  rewrite (proj2 (Z.ltb_lt 0 idle)) by lia. destruct (server_wheel_ok idle Hi) as [w0 ->].
  cbn [mbind res_bind set_wheels m_loopPoolPtr TcpServer_new set_started m_timingWheelMap].
  destruct pool as [[ts i]|].
  2: { eexists. split; [reflexivity|]. split_and!; done. }
  destruct (Hp _ eq_refl) as [Hok Hm]. cbn [m_loopThreadList].
  destruct (decide (ts = [])) as [-> | Hne].
  { eexists. split; [reflexivity|]. split_and!; try done. apply (Hinv (<[0%nat := true]> ∅)). intros _. rewrite lookup_insert_eq.
    split; [done|]. intros p l [= <-] Hl. by apply elem_of_nil in Hl. }
  destruct (pool_wheels_all ts i (<[0%nat := true]> ∅) Hne (Hok Hne) Hm) as (w' & E & H1 & H2).
  rewrite E. cbn [mbind res_bind]. eexists. split; [reflexivity|]. split_and!; try done.
  apply (Hinv w'). intros _. split; [by apply H1; rewrite lookup_insert_eq|]. intros p l [= <-]. apply H2.
Qed.

(** ** Queues run empty *)

(** How many functors may still come of one. *)
Definition weight (f : functor) : nat :=
  match f with FForceClose _ => 3 | FCloseInLoop _ => 2 | _ => 1 end.
Definition load (p : list (nat * functor)) : nat := list_sum (map (fun g => weight g.2) p).

#[local] Arguments load : simpl never.

Lemma load_snoc p l f : load (p ++ [(l, f)]) = (load p + weight f)%nat.
Proof. unfold load. rewrite map_app, list_sum_app. cbn. lia. Qed.

Lemma closeInLoop_load c s s' : handleCloseInLoop c s = Ok s' -> load (pending s') = S (load (pending s)).
Proof.
  unfold handleCloseInLoop. intros. destruct (alive s); [|done]. ok_inv. simplify_eq/=. rewrite load_snoc. cbn [weight]. lia.
Qed.

Lemma handleClose_load c s s' :
  conn_handleClose c s = Ok s' -> (load (pending s') <= 2 + load (pending s))%nat.
Proof.
  unfold conn_handleClose, connectionClosed. intros E. ok_inv.
  destruct (alive _); [|done]. case_bool_decide.
  - apply closeInLoop_load in E. cbn in E. lia.
  - simplify_eq/=. rewrite load_snoc. cbn [weight]. lia.
Qed.

Lemma run_head_load l f p s s' :
  pending s = (l, f) :: p -> run_first l s = Ok s' -> (load (pending s') < load (pending s))%nat.
Proof.
  intros Ep. unfold run_first. rewrite Ep. cbn [take_first]. rewrite decide_True by done.
  change (load ((l, f) :: p)) with (weight f + load p)%nat. destruct f as [c|c|c|c|c]; cbn [run_functor weight].
  - unfold run_established. intros. ok_inv. simplify_eq/=. lia.
  - unfold run_forceClose. intros. ok_inv. destruct (_ || _).
    + match goal with H : conn_handleClose _ _ = _ |- _ => apply handleClose_load in H; cbn in H end. lia.
    + simplify_eq/=. lia.
  - intros E%closeInLoop_load. cbn in E. lia.
  - unfold run_destroyed. intros. ok_inv. simplify_eq/=. lia.
  - intros [= <-]. cbn. lia.
Qed.

Lemma server_run_app s0 ops s ops' s' : server_run s0 ops s -> server_run s ops' s' -> server_run s0 (ops ++ ops') s'.
Proof.
  intros H1 H2. induction H2 as [|ops' o s1 s2 _ IH He Ex]; [by rewrite app_nil_r|].
  rewrite app_assoc. by eapply server_run_snoc.
Qed.

Lemma server_drains s :
  sv_inv s -> exists ls s', server_run s (map SRun ls) s' /\ pending s' = [].
Proof.
  remember (load (pending s)) as n eqn:En. revert s En.
  induction (lt_wf n) as [n _ IH]; intros s -> H.
  destruct (pending s) as [|[l f] p] eqn:Ep; [exists [], s; by split; [constructor|]|].
  destruct (run_first_inv l s H) as (s1 & E1 & H1).
  destruct (IH (load (pending s1))) with (s := s1) as (ls & s' & Hr & Hp); [|done|done|].
  { rewrite <- Ep. by eapply run_head_load. }
  exists (l :: ls), s'. split; [|done]. change (map SRun (l :: ls)) with ([SRun l] ++ map SRun ls).
  eapply server_run_app; [|exact Hr]. apply (server_run_snoc s [] (SRun l) s s1); [constructor|done|done].
Qed.

(** ** Stopping *)

(** What functors leave alone. *)
Definition server_frame (s : TcpServer) : gmap nat bool * option EventLoopThreadPool * bool * bool * Z :=
  (m_timingWheelMap s, m_loopPoolPtr s, pool_owned s, io_dead s, m_idleTimeout s).

Lemma closeInLoop_frame c s s' : handleCloseInLoop c s = Ok s' -> server_frame s' = server_frame s.
Proof. unfold handleCloseInLoop. intros E. destruct (alive s); [|done]. by ok_inv. Qed.

Lemma handleClose_frame c s s' : conn_handleClose c s = Ok s' -> server_frame s' = server_frame s.
Proof.
  unfold conn_handleClose, connectionClosed. intros E. ok_inv. destruct (alive _); [|done].
  case_bool_decide; [by apply closeInLoop_frame in E|by ok_inv].
Qed.

Lemma run_functor_frame f s s' : run_functor f s = Ok s' -> server_frame s' = server_frame s.
Proof.
  destruct f as [c|c|c|c|c]; cbn [run_functor].
  - unfold run_established. intros. by ok_inv.
  - unfold run_forceClose. intros E. ok_inv. destruct (_ || _); [by apply handleClose_frame in E|by ok_inv].
  - apply closeInLoop_frame.
  - unfold run_destroyed. intros. by ok_inv.
  - by intros [= <-].
Qed.

Lemma run_many_frame n l s s' : run_many n l s = Ok s' -> server_frame s' = server_frame s.
Proof.
  revert s. induction n as [|n IH]; intros s; cbn [run_many]; [by intros [= ->]|].
  intros (t & Et & E)%bind_Ok. rewrite (IH _ E). revert Et. unfold run_first.
  destruct (take_first l (pending s)) as [[f p]|]; [by intros Hr%run_functor_frame|by intros [= ->]].
Qed.

Lemma close_all_frame cs s s' : close_all cs s = Ok s' -> server_frame s' = server_frame s.
Proof.
  revert s. induction cs as [|c cs IH]; intros s; cbn [close_all]; [by intros [= ->]|].
  intros (x & _ & (t & Et & E)%bind_Ok)%bind_Ok. rewrite (IH _ E). revert Et. unfold run_or_queue.
  case_bool_decide; [apply run_functor_frame|by intros [= <-]].
Qed.

(** After a pass every wheel in the list is gone, and none was gone before. *)
Lemma stop_wheels_Ok ls s s' :
  stop_wheels ls s = Ok s' ->
  (forall l, l ∈ ls -> m_timingWheelMap s' !! l = Some false) /\
  (forall l, m_timingWheelMap s !! l = Some false -> (l ∉ ls) /\ m_timingWheelMap s' !! l = Some false).
Proof.
  revert s. induction ls as [|k ls IH]; intros s; cbn [stop_wheels].
  { intros [= ->]. split; [intros l Hl; by apply elem_of_nil in Hl|].
    intros l Hl. split; [apply not_elem_of_nil|done]. }
  intros (u & E1 & (t & E2 & E)%bind_Ok)%bind_Ok.
  destruct (decide (m_timingWheelMap s !! k = Some true)) as [Hk|Hk]; [|by rewrite bool_decide_false in E1].
  assert (m_timingWheelMap t = m_timingWheelMap s) as Em.
  { destruct (bool_decide (k = 0%nat)); [by injection E2 as ->|]. revert E2. destruct (io_dead s); [done|].
    intros Hr%run_many_frame. unfold server_frame in Hr. congruence. }
  destruct (IH _ E) as [H1 H2]. cbn [m_timingWheelMap set_wheels] in H2. rewrite Em in H2. split.
  - intros l [-> | Hl]%elem_of_cons; [|by apply H1]. apply H2. by rewrite lookup_insert_eq.
  - intros l Hl. assert (l <> k) as Hlk by congruence.
    destruct (H2 l) as [H3 H4]; [by rewrite lookup_insert_ne|]. split; [|done].
    by intros [-> | ?]%elem_of_cons.
Qed.

(** Dead loops cannot drop their wheels. *)
Lemma stop_wheels_dead ls s s' l :
  io_dead s = true -> l ∈ ls -> l <> 0%nat -> stop_wheels ls s <> Ok s'.
Proof.
  revert s. induction ls as [|k ls IH]; intros s Hd Hl Hn; [by apply elem_of_nil in Hl|].
  cbn [stop_wheels]. intros (u & _ & (t & E & E')%bind_Ok)%bind_Ok. revert E E'.
  rewrite Hd. case_bool_decide as Ek; [|done]. intros [= <-]. subst k.
  apply elem_of_cons in Hl as [-> | Hl]; [done|]. by apply IH.
Qed.


(** ** The pool of a running server *)

Definition pool_loops (s : TcpServer) : bool * option (list nat) * Z :=
  (pool_owned s, m_loopThreadList <$> m_loopPoolPtr s, m_idleTimeout s).

Lemma frame_pool s s' : server_frame s' = server_frame s -> pool_loops s' = pool_loops s.
Proof. unfold server_frame, pool_loops. intros [= _ -> -> _ ->]. done. Qed.

Lemma run_or_queue_pool l f s s' : run_or_queue l f s = Ok s' -> pool_loops s' = pool_loops s.
Proof.
  unfold run_or_queue. case_bool_decide; [intros E%run_functor_frame; by apply frame_pool|by intros [= <-]].
Qed.

Lemma pick_loop_pool s l s' : pick_loop s = Ok (l, s') -> pool_loops s' = pool_loops s.
Proof.
  unfold pick_loop. destruct (m_loopPoolPtr s) as [[ts i]|] eqn:Ep; [|by intros [= _ <-]].
  case_bool_decide; [by intros [= _ <-]|]. unfold getNextLoop. cbn [m_loopThreadList].
  rewrite bool_decide_false by done. destruct (ts !! _); [|done]. cbn [mbind res_bind]. intros [= _ <-].
  unfold pool_loops. cbn. by rewrite Ep.
Qed.

Lemma server_exec_pool o s s' : server_exec o s = Ok s' -> pool_loops s' = pool_loops s.
Proof.
  destruct o as [c|c|c|c|c|l]; cbn [server_exec].
  - unfold server_newConnection. intros ([l t] & Ep%pick_loop_pool & E)%bind_Ok.
    apply bind_Ok in E as (t' & Et & E). apply run_or_queue_pool in E. rewrite E, <- Ep. revert Et.
    destruct (0 <? _); [|by intros [= <-]]. by intros (_ & _ & Hr%run_or_queue_pool)%bind_Ok.
  - intros E%handleClose_frame. by apply frame_pool.
  - intros (x & _ & [= <-])%bind_Ok. by case_bool_decide.
  - by intros (x & _ & [= <-])%bind_Ok.
  - intros E. by apply frame_pool, (run_functor_frame (FForceClose c)).
  - unfold run_first. destruct (take_first l (pending s)) as [[f p]|]; [|by intros [= <-]].
    intros E%run_functor_frame. by apply frame_pool in E.
Qed.

Lemma server_run_pool s0 ops s : server_run s0 ops s -> pool_loops s = pool_loops s0.
Proof. induction 1 as [|ops o s s' _ IH _ E]; [done|]. by rewrite (server_exec_pool _ _ _ E). Qed.

(** [stop] of a running server starts its last loop with a wheel for loop 0
    and for every loop of the pool. *)
Lemma stop_reaches_wheels s s1 :
  server_stop s = Ok s1 -> exists s', stop_connections s = Ok s' /\ server_frame s' = server_frame s /\
    stop_wheels (map fst (map_to_list (m_timingWheelMap s))) (stop_pool s') = Ok s1.
Proof.
  unfold server_stop, stop_connections. intros (s' & Es & E)%bind_Ok. exists s'.
  assert (server_frame s' = server_frame s) as Hf by (by apply close_all_frame in Es).
  split_and!; [done|done|]. rewrite <- E. f_equal. do 2 f_equal.
  unfold server_frame in Hf. unfold stop_pool. destruct (m_loopPoolPtr s'); [destruct (pool_owned s')|]; cbn; congruence.
Qed.

Lemma elem_of_keys (m : gmap nat bool) l b : m !! l = Some b -> l ∈ map fst (map_to_list m).
Proof. intros E. apply list_elem_of_fmap. exists (l, b). split; [done|]. by apply elem_of_map_to_list. Qed.

(** ** Properties *)

(** C12. Connections of a server live and die once.  A server with an idle
    timeout of 0 or from 2 up to below 2^57 seconds, and any pool of loops with
    its index in range, starts; and in
    every state it can reach by accepting, closing, shutting down, forcing
    closed and running queued functors, in any order over any loops: every
    operation succeeds (no assertion fails: a connection is established once,
    removed from the set once, and its channel is registered when it is
    removed); every functor is queued in the loop it belongs to; a connection is
    destroyed at most once, and only when it has left the set; the loops can run
    until nothing is queued, and then the set holds exactly the connections that
    are not closed, and each closed one has been destroyed. *)
Theorem server_conn_lifecycle idle pool owned :
  good_idle idle -> good_pool pool ->
  exists s0, server_start (TcpServer_new idle pool owned) = Ok s0 /\ accepting s0 = true /\
    forall ops s, server_run s0 ops s ->
      (forall o, enabled o s -> exists s', server_exec o s = Ok s') /\
      (forall g, g ∈ pending s -> functor_home s g) /\
      (forall c x, conns s !! c = Some x -> (c_destroyed x <= 1)%nat /\
         (c_destroyed x = 1%nat -> ~ c ∈ m_connSet s /\ c_status x = Disconnected /\ c_registered x = false)) /\
      (exists ls s', server_run s (map SRun ls) s' /\ pending s' = []) /\
      (pending s = [] -> forall c x, conns s !! c = Some x ->
         is_open (c_status x) = true /\ c ∈ m_connSet s /\ c_destroyed x = 0%nat \/
         c_status x = Disconnected /\ ~ c ∈ m_connSet s /\ c_destroyed x = 1%nat).
Proof.
  intros Hi Hp. destruct (server_start_ok idle pool owned Hi Hp) as (s0 & E0 & H0 & Ha & _).
  exists s0. split_and!; [done|done|]. intros ops s Hr. pose proof (server_run_inv _ _ _ Hr H0) as H.
  split_and!.
  - intros o Ho. destruct (server_exec_inv o s H Ho) as (s' & E & _). eauto.
  - apply Forall_forall, (sv_home _ H).
  - intros c x Ex. destruct (sv_phase _ H c x Ex) as [ph [P1 P2 P3 P4 _ _ _]]. rewrite P2, P3, P4.
    destruct ph; cbn; split; try lia; intros; try lia. split_and!; [|done|done]. by intros [? | [? | ?]].
  - by apply server_drains.
  - intros Hn c x Ex. destruct (sv_phase _ H c x Ex) as [ph [P1 P2 P3 P4 P5 P6 P7]]. rewrite Hn in P5, P6, P7.
    rewrite P2, P4. destruct ph; try done; [left|right]; split_and!; auto. by intros [? | [? | ?]].
Qed.

Lemma server_conn_lifecycle_witness :
  exists s0, server_start (TcpServer_new 10 (Some (mkPool [1; 2]%nat 0)) true) = Ok s0 /\ accepting s0 = true.
Proof.
  destruct (server_conn_lifecycle 10 (Some (mkPool [1; 2]%nat 0)) true) as (s0 & E & Ha & _).
  - right. split; vm_compute; reflexivity.
  - intros p [= <-]. split; [intros _; vm_compute; split; congruence|vm_compute; reflexivity].
  - exists s0. exact (conj E Ha).
Defined.

(** With an idle timeout, [stop] leaves null pointers in the map of wheels,
    so the destructor, which calls [stop] again, cannot complete after a
    [stop]; and when the server holds the last reference to its pool
    ([setIoLoopNum]), not even the first [stop] completes: the loops are gone
    before their wheels are asked for their loop. *)
Theorem stop_breaks_with_idle_timeout idle pool owned s0 ops s :
  1 < idle < 2 ^ 57 -> good_pool pool ->
  server_start (TcpServer_new idle pool owned) = Ok s0 -> server_run s0 ops s ->
  (forall s1 s2, server_stop s = Ok s1 -> server_destroy s1 <> Ok s2) /\
  (forall p l s1, pool = Some p -> l ∈ m_loopThreadList p -> l <> 0%nat -> owned = true -> server_stop s <> Ok s1).
Proof.
  intros Hi Hp E0 Hr. destruct (server_start_ok idle pool owned) as (s0' & E0' & H0 & _ & Epl & Eow & Eid & _); [by right|done|].
  rewrite E0 in E0'. injection E0' as <-. pose proof (server_run_inv _ _ _ Hr H0) as H.
  pose proof (server_run_pool _ _ _ Hr) as Hpl. unfold pool_loops in Hpl. rewrite Epl, Eow, Eid in Hpl.
  injection Hpl as Ho Hl Hid. destruct (sv_wheels _ H) as [W0 W]; [lia|]. split.
  - intros s1 s2 E1 E2. destruct (stop_reaches_wheels _ _ E1) as (s' & _ & Hf & Ew).
    destruct (stop_wheels_Ok _ _ _ Ew) as [Hall _]. specialize (Hall 0%nat (elem_of_keys _ _ _ W0)).
    apply bind_Ok in E2 as (s3 & E3 & _). destruct (stop_reaches_wheels _ _ E3) as (s'' & _ & Hf' & Ew').
    destruct (stop_wheels_Ok _ _ _ Ew') as [_ Hno]. destruct (Hno 0%nat) as [Hn _].
    + unfold server_frame in Hf'. unfold stop_pool. destruct (m_loopPoolPtr s''); [destruct (pool_owned s'')|]; cbn; congruence.
    + apply Hn. by eapply elem_of_keys.
  - intros p l s1 -> Hin Hl0 -> E1. destruct (stop_reaches_wheels _ _ E1) as (s' & _ & Hf & Ew).
    destruct (m_loopPoolPtr s) as [p'|] eqn:Ep'; [|done]. injection Hl as Hl. rewrite <- Hl in Hin.
    unfold server_frame in Hf. rewrite Ep', Ho in Hf. injection Hf as Hf1 Hf2 Hf3 _ _.
    revert Ew. apply (stop_wheels_dead _ _ _ l); [| |done].
    + unfold stop_pool. by rewrite Hf2, Hf3.
    + by eapply elem_of_keys, (W p').
Qed.

Definition idle_server : res TcpServer := server_start (TcpServer_new 10 None false).

Lemma stop_breaks_with_idle_timeout_witness :
  exists s0 s1, idle_server = Ok s0 /\ server_stop s0 = Ok s1 /\ server_destroy s1 = Fail NullDereference /\
    forall s2, server_destroy s1 <> Ok s2.
Proof.
  destruct idle_server as [s0|] eqn:E0; [|vm_compute in E0; discriminate E0].
  exists s0. destruct (server_stop s0) as [s1|] eqn:E1.
  - exists s1. split; [reflexivity|]. split; [reflexivity|]. split.
    + vm_compute in E0. injection E0 as <-. vm_compute in E1. injection E1 as <-. reflexivity.
    + intros s2.
      refine (proj1 (stop_breaks_with_idle_timeout 10 None false s0 [] s0 _ _ E0 (server_run_nil s0)) s1 s2 E1).
      * split; reflexivity.
      * intros p; discriminate.
  - vm_compute in E0. injection E0 as <-. vm_compute in E1. discriminate E1.
Defined.

(** One connection, accepted, established and then the server destroyed: the
    next functor of the connection's loop. *)
Definition destroy_then_run (pool : option EventLoopThreadPool) (l : nat) : res TcpServer * res TcpServer :=
  let s := (s ← server_start (TcpServer_new 0 pool false); s ← server_newConnection 5 s;
            s ← run_first l s; server_destroy s) in
  (s, s ← s; run_first l s).

(** The close callbacks keep a plain pointer to the server, and its
    destructor only queues [forceClose] for the connections of other loops: it
    returns, and when such a loop runs what was queued it reaches into the
    server that is gone.  A server without a pool closes its connections
    before it is gone, and its loop can then destroy them. *)
Theorem destructor_leaves_callbacks :
  (exists s, (destroy_then_run (Some (mkPool [1%nat] 0)) 1).1 = Ok s /\ alive s = false) /\
  (destroy_then_run (Some (mkPool [1%nat] 0)) 1).2 = Fail UseAfterFree /\
  (exists s x, (destroy_then_run None 0).2 = Ok s /\ conns s !! 5%nat = Some x /\ c_destroyed x = 1%nat).
Proof.
  split; [eexists; split; [vm_compute; reflexivity|reflexivity]|]. split; [vm_compute; reflexivity|].
  eexists _, _. split; [vm_compute; reflexivity|]. split; vm_compute; reflexivity.
Qed.
