(* ===== verification/ServerControl.v ===== *)
(** * Control of a server: [netpoll/net/tcp_server.{h,cc}], [wrap/tcp_listener.h]

    The ends of a server's life, over [TcpServer]: how it is configured and
    started by calls from the thread of its loop or another one, and how it is
    stopped, in either thread.

    - [stop] in the loop's thread is [stop_connections] and then [stop_rest];
      from another thread the first is a functor that the caller waits for,
      behind what the loop has queued, and all loops go on meanwhile.
    - [kickoffIdleConnections] and [start] hand a functor to the loop when they
      are called elsewhere; the other setters act at once.
    - A [Listener] makes its server without a loop; [None] is the null pointer. *)

From stdpp Require Import gmap fin_sets.
From S2P Require Import Prelude TimingWheel EventLoopThread TcpServer.
From S2P Require TcpConnection.
Import TcpConnection (ConnStatus, Disconnected, Connecting, Connected, Disconnecting, ConnStatus_eq_dec).

(** ** Stopping *)

Module Stopping.

(** What [stop] does after the connections: in the caller's thread. *)
Definition stop_rest (s : TcpServer) : res TcpServer :=
  let s := stop_pool s in
  stop_wheels (map fst (map_to_list (m_timingWheelMap s))) s.

Lemma stop_in_loop s : server_stop s = (s ← stop_connections s; stop_rest s).
Proof. reflexivity. Qed.

(** *** What a functor does to the rest *)

Definition no_establish (p : list (nat * functor)) : Prop := forall l c, (l, FEstablished c) ∉ p.

(** Queues only grow, by other functors than [connectEstablished]; connections
    stay in their loops, and closed. *)
Definition effect (s s' : TcpServer) : Prop :=
  (exists extra, pending s' = pending s ++ extra /\ no_establish extra) /\
  (forall c x', conns s' !! c = Some x' -> exists x, conns s !! c = Some x /\ c_loop x' = c_loop x /\
     (c_status x = Disconnected -> c_status x' = Disconnected)) /\
  (dom (conns s'), accepting s') = (dom (conns s), accepting s).

Lemma no_establish_nil : no_establish [].
Proof. intros l c H. by apply elem_of_nil in H. Qed.

Lemma no_establish_one l f : (forall c, f <> FEstablished c) -> no_establish [(l, f)].
Proof. intros Hf k c [= -> <-]%list_elem_of_singleton. by destruct (Hf c). Qed.

Lemma no_establish_app p q : no_establish p -> no_establish q -> no_establish (p ++ q).
Proof. intros Hp Hq l c [?|?]%elem_of_app; [by eapply Hp|by eapply Hq]. Qed.

Lemma effect_refl s : effect s s.
Proof. split_and!; [exists []; by rewrite app_nil_r; auto using no_establish_nil|eauto|done]. Qed.

Lemma effect_trans s1 s2 s3 : effect s1 s2 -> effect s2 s3 -> effect s1 s3.
Proof.
  intros ((e1 & E1 & N1) & C1 & D1) ((e2 & E2 & N2) & C2 & D2). split_and!; [| |congruence].
  - exists (e1 ++ e2). rewrite E2, E1, app_assoc. split; [done|by apply no_establish_app].
  - intros c x3 E3. destruct (C2 c x3 E3) as (x2 & Ex2 & L2 & S2). destruct (C1 c x2 Ex2) as (x1 & Ex1 & L1 & S1).
    exists x1. split_and!; [done|congruence|auto].
Qed.

Lemma effect_queue l f s : (forall c, f <> FEstablished c) -> effect s (queue_functor l f s).
Proof.
  intros Hf. split_and!; [exists [(l, f)]; split; [done|by apply no_establish_one]| |done]. cbn. eauto.
Qed.

Lemma effect_put c x y s :
  conns s !! c = Some x -> c_loop y = c_loop x -> (c_status x = Disconnected -> c_status y = Disconnected) ->
  effect s (put_conn c y s).
Proof.
  intros Ex Hl Hd. split_and!; [exists []; cbn; rewrite app_nil_r; auto using no_establish_nil| |].
  2: { cbn. rewrite dom_insert_L. apply elem_of_dom_2 in Ex. f_equal. set_solver. }
  intros d x'. cbn. destruct (decide (c = d)) as [<- | Hne].
  - rewrite lookup_insert_eq. intros [= <-]. eauto.
  - rewrite lookup_insert_ne by done. eauto.
Qed.

Lemma get_conn_Ok c s x : get_conn c s = Ok x -> conns s !! c = Some x.
Proof. unfold get_conn. by destruct (conns s !! c); intros; simplify_eq. Qed.

Lemma closeInLoop_effect c s s' : handleCloseInLoop c s = Ok s' -> effect s s'.
Proof.
  unfold handleCloseInLoop. intros E. destruct (alive s); [|done]. ok_inv. simplify_eq.
  match goal with |- effect _ (queue_functor ?l ?f ?t) => apply (effect_trans _ t); [|by apply effect_queue] end.
  split_and!; [exists []; cbn; rewrite app_nil_r; auto using no_establish_nil|cbn; eauto|done].
Qed.

Lemma handleClose_effect c s s' : conn_handleClose c s = Ok s' -> effect s s'.
Proof.
  unfold conn_handleClose, connectionClosed. intros (x & Ex%get_conn_Ok & E)%bind_Ok. destruct (alive _); [|done].
  eapply effect_trans; [by apply (effect_put c x (mkSconn (c_loop x) Disconnected (c_registered x) (c_destroyed x)))|].
  case_bool_decide; [by apply closeInLoop_effect in E|]. injection E as <-. by apply effect_queue.
Qed.

Lemma run_functor_effect f s s' : run_functor f s = Ok s' -> effect s s'.
Proof.
  destruct f as [c|c|c|c|c]; cbn [run_functor].
  - intros (x & Ex%get_conn_Ok & (u & E1 & [= <-])%bind_Ok)%bind_Ok. apply (effect_put c x); [done|done|].
    intros Hd. rewrite Hd in E1. by rewrite bool_decide_false in E1.
  - intros (x & Ex%get_conn_Ok & E)%bind_Ok. destruct (_ || _); [by apply handleClose_effect in E|].
    injection E as <-. apply effect_refl.
  - apply closeInLoop_effect.
  - intros (x & Ex%get_conn_Ok & (u & _ & (v & _ & [= <-])%bind_Ok)%bind_Ok)%bind_Ok. by apply (effect_put c x).
  - intros [= <-]. apply effect_refl.
Qed.

(** A forced close leaves no open connection. *)
Lemma forceClose_closes c s s' x' :
  run_forceClose c s = Ok s' -> conns s' !! c = Some x' -> is_open (c_status x') = false.
Proof.
  intros (x & Ex%get_conn_Ok & E)%bind_Ok Ex'. destruct (_ || _) eqn:Ho.
  - unfold conn_handleClose, get_conn in E. rewrite Ex in E. cbn [mbind res_bind] in E.
    assert (effect (put_conn c (mkSconn (c_loop x) Disconnected (c_registered x) (c_destroyed x)) s) s') as (_ & Hc & _).
    { unfold connectionClosed in E. destruct (alive _); [|done]. case_bool_decide; [by apply closeInLoop_effect in E|].
      injection E as <-. by apply effect_queue. }
    destruct (Hc c x' Ex') as (y & Ey & _ & Hd). cbn in Ey. rewrite lookup_insert_eq in Ey. injection Ey as <-.
    by rewrite Hd.
  - injection E as <-. rewrite Ex in Ex'. by injection Ex' as <-.
Qed.

(** *** Condemned connections *)

(** Closed, or a forced close is queued, and no [connectEstablished] behind it. *)
Definition condemned (c : nat) (x : sconn) (s : TcpServer) : Prop :=
  c_status x = Disconnected \/
  exists p q, pending s = p ++ (c_loop x, FForceClose c) :: q /\ (c_loop x, FEstablished c) ∉ q.

Definition all_condemned (s : TcpServer) : Prop := forall c x, conns s !! c = Some x -> condemned c x s.

Lemma condemned_effect c x x' s s' :
  condemned c x s -> effect s s' -> conns s !! c = Some x -> conns s' !! c = Some x' -> condemned c x' s'.
Proof.
  intros Hc ((extra & Ep & Hn) & He & _) Ex Ex'. destruct (He c x' Ex') as (y & Ey & Hl & Hd).
  rewrite Ex in Ey. injection Ey as <-. destruct Hc as [Hc | (p & q & E & Hq)]; [left; auto|right].
  exists p, (q ++ extra). rewrite Hl, Ep, E, <- app_assoc. split; [done|].
  intros [?|?]%elem_of_app; [done|by eapply Hn].
Qed.

(** A functor is taken out of the queue: another one stays, or it is that one. *)
Lemma take_first_split l p g q f r :
  take_first l (p ++ g :: q) = Some (f, r) ->
  (g = (l, f) /\ r = p ++ q /\ forall h, (l, h) ∉ p) \/
  exists p' q', r = p' ++ g :: q' /\ forall h, h ∈ q' -> h ∈ q.
Proof.
  revert r. induction p as [|[k h] p IH]; intros r; cbn [app take_first].
  - destruct g as [k h]. destruct (decide (k = l)) as [-> | Hk].
    + intros [= -> ->]. left. split_and!; [done|done|]. intros h. apply not_elem_of_nil.
    + destruct (take_first l q) as [[f' r']|] eqn:E; [|done]. cbn. intros [= -> <-]. right.
      exists [], r'. split; [done|]. by apply (take_first_elem _ _ _ _ E).
  - destruct (decide (k = l)) as [-> | Hk].
    + intros [= <- <-]. right. by exists p, q.
    + destruct (take_first l (p ++ g :: q)) as [[f' r']|] eqn:E; [|done]. cbn. intros [= -> <-].
      destruct (IH r' eq_refl) as [(-> & -> & Hn) | (p' & q' & -> & Hq)]; [left|right].
      * split_and!; [done|done|]. intros h' [[= -> ->]|Hin]%elem_of_cons; [done|by eapply Hn].
      * by exists ((k, h) :: p'), q'.
Qed.

Lemma cnt_zero g p : g ∉ p -> cnt g p = 0%nat.
Proof.
  intros Hg. unfold cnt. destruct (filter (fun x => x = g) p) as [|h q] eqn:E; [done|].
  assert (h ∈ h :: q) as Hin by left. rewrite <- E in Hin. by apply list_elem_of_filter in Hin as [-> ?].
Qed.

(** Without a queued establishment a connection is open or closed. *)
Lemma not_connecting s c x :
  sv_inv s -> conns s !! c = Some x -> (c_loop x, FEstablished c) ∉ pending s ->
  is_open (c_status x) = false -> c_status x = Disconnected.
Proof.
  intros H Ex Hn Ho. destruct (sv_phase _ H c x Ex) as [ph [P1 _ _ _ P5 _ _]].
  rewrite (cnt_zero _ _ Hn) in P5. destruct ph; try done. by rewrite P1 in Ho.
Qed.

Lemma run_first_condemned l s s' :
  sv_inv s' -> run_first l s = Ok s' -> all_condemned s -> all_condemned s'.
Proof.
  intros H' E Ha c x' Ex'. unfold run_first in E. destruct (take_first l (pending s)) as [[f r]|] eqn:Et.
  2: { injection E as <-. by apply Ha. }
  pose proof (run_functor_effect _ _ _ E) as He.
  destruct (proj1 (proj2 He) c x' Ex') as (x & Ex & Hl & Hd). cbn in Ex.
  destruct (Ha c x Ex) as [Hc | (p & q & Ep & Hq)]; [left; auto|]. rewrite Ep in Et.
  destruct (take_first_split _ _ _ _ _ _ Et) as [(Hg & -> & Hn) | (p' & q' & -> & Hq')].
  - injection Hg as <- <-. left. apply (not_connecting s' c); [done|done| |by eapply forceClose_closes].
    destruct He as ((extra & -> & Hx) & _). cbn. rewrite Hl.
    intros [[Hin|Hin]%elem_of_app|Hin]%elem_of_app; [by eapply Hn|done|by eapply Hx].
  - apply (condemned_effect c x x' (set_pending (p' ++ (c_loop x, FForceClose c) :: q') s)); try done.
    right. exists p', q'. split; [done|]. auto.
Qed.

Lemma effect_condemned s s' : effect s s' -> all_condemned s -> all_condemned s'.
Proof.
  intros He Ha c x' Ex'. destruct (proj1 (proj2 He) c x' Ex') as (x & Ex & _). eapply condemned_effect; eauto.
Qed.

Lemma server_exec_condemned o s s' :
  sv_inv s' -> accepting s = false -> enabled o s -> server_exec o s = Ok s' -> all_condemned s -> all_condemned s'.
Proof.
  intros H' Hacc Hen E. destruct o as [c|c|c|c|c|l]; cbn [server_exec enabled] in *.
  - destruct Hen. congruence.
  - by apply effect_condemned, (handleClose_effect c).
  - apply bind_Ok in E as (x & Ex%get_conn_Ok & [= <-]). apply effect_condemned. case_bool_decide as Hs; [|apply effect_refl].
    apply (effect_put c x); [done|done|]. cbn. congruence.
  - apply bind_Ok in E as (x & _ & [= <-]). by apply effect_condemned, effect_queue.
  - by apply effect_condemned, (run_functor_effect (FForceClose c)).
  - by apply (run_first_condemned l).
Qed.

(** *** The connections of a server that is stopped *)

(** Connections in the server's own loop are established at once. *)
Definition none_waits_here (s : TcpServer) : Prop := forall c, (0%nat, FEstablished c) ∉ pending s.

Lemma effect_waits s s' : effect s s' -> none_waits_here s -> none_waits_here s'.
Proof. intros ((extra & E & Hn) & _ & _) H c. rewrite E. intros [?|?]%elem_of_app; [by eapply H|by eapply Hn]. Qed.

Lemma take_waits l s f r : take_first l (pending s) = Some (f, r) -> none_waits_here s -> none_waits_here (set_pending r s).
Proof. intros E H c Hin. cbn in Hin. apply (H c). by apply (take_first_elem _ _ _ _ E). Qed.

Lemma run_or_queue_waits l f s s' : run_or_queue l f s = Ok s' -> none_waits_here s -> none_waits_here s'.
Proof.
  unfold run_or_queue. case_bool_decide as El.
  - intros E. by apply effect_waits, (run_functor_effect f).
  - intros [= <-] H c Hin. cbn in Hin. apply elem_of_app in Hin as [Hin|Hin]; [by apply (H c)|].
    apply list_elem_of_singleton in Hin. by injection Hin as <- _.
Qed.

Lemma pick_loop_frame s l s' : pick_loop s = Ok (l, s') -> pending s' = pending s /\ m_timingWheelMap s' = m_timingWheelMap s.
Proof.
  unfold pick_loop. destruct (m_loopPoolPtr s) as [p|]; [|by intros [= _ <-]].
  case_bool_decide; [by intros [= _ <-]|]. intros ([o p'] & _ & E)%bind_Ok. destruct o; [|done]. by injection E as _ <-.
Qed.

Lemma server_exec_waits o s s' : server_exec o s = Ok s' -> none_waits_here s -> none_waits_here s'.
Proof.
  destruct o as [c|c|c|c|c|l]; cbn [server_exec]; intros E H.
  - unfold server_newConnection in E. apply bind_Ok in E as ([l t] & [Ep _]%pick_loop_frame & E).
    apply bind_Ok in E as (t' & Et & E). eapply run_or_queue_waits; [exact E|].
    enough (none_waits_here t') by done.
    assert (none_waits_here (put_conn c (mkSconn l Connecting false 0) t)) as Hp by (intros d; cbn; rewrite Ep; apply H).
    destruct (0 <? _); [|by injection Et as <-]. apply bind_Ok in Et as (_ & _ & Et). by eapply run_or_queue_waits.
  - by eapply effect_waits; [eapply handleClose_effect|].
  - apply bind_Ok in E as (x & _ & [= <-]). by case_bool_decide.
  - apply bind_Ok in E as (x & _ & [= <-]). eapply effect_waits; [by apply effect_queue|done].
  - by eapply effect_waits; [apply (run_functor_effect (FForceClose c))|].
  - unfold run_first in E. destruct (take_first l (pending s)) as [[f r]|] eqn:Et; [|by injection E as <-].
    eapply effect_waits; [by eapply run_functor_effect|]. by eapply take_waits.
Qed.

Lemma server_exec_wheels o s s' : server_exec o s = Ok s' -> m_timingWheelMap s' = m_timingWheelMap s.
Proof.
  assert (forall t t', server_frame t' = server_frame t -> m_timingWheelMap t' = m_timingWheelMap t) as Hf.
  { unfold server_frame. intros t t'. congruence. }
  assert (forall l f t t', run_or_queue l f t = Ok t' -> m_timingWheelMap t' = m_timingWheelMap t) as Hr.
  { intros l f t t'. unfold run_or_queue. case_bool_decide; [intros E; by apply Hf, (run_functor_frame f)|by intros [= <-]]. }
  destruct o as [c|c|c|c|c|l]; cbn [server_exec]; intros E.
  - unfold server_newConnection in E. apply bind_Ok in E as ([l t] & [_ Ew]%pick_loop_frame & E).
    apply bind_Ok in E as (t' & Et & E). apply Hr in E. rewrite E, <- Ew. cbn.
    destruct (0 <? _); [|by injection Et as <-]. apply bind_Ok in Et as (_ & _ & Et). by apply Hr in Et.
  - by eapply Hf, handleClose_frame.
  - apply bind_Ok in E as (x & _ & [= <-]). by case_bool_decide.
  - by apply bind_Ok in E as (x & _ & [= <-]).
  - by apply Hf, (run_functor_frame (FForceClose c)).
  - unfold run_first in E. destruct (take_first l (pending s)) as [[f r]|]; [|by injection E as <-].
    by apply Hf in E || (apply run_functor_frame, Hf in E; by rewrite E).
Qed.

Lemma server_run_keeps s0 ops s :
  server_run s0 ops s -> none_waits_here s0 -> none_waits_here s /\ m_timingWheelMap s = m_timingWheelMap s0.
Proof.
  intros Hr H0. induction Hr as [|ops o s s' _ [IH1 IH2] _ E]; [done|]. split.
  - by eapply server_exec_waits.
  - by rewrite (server_exec_wheels _ _ _ E).
Qed.

Lemma effect_still s s' c : effect s s' -> is_Some (conns s !! c) -> is_Some (conns s' !! c).
Proof. intros (_ & _ & [= E _]). rewrite <- !elem_of_dom. by rewrite E. Qed.

Lemma effect_accepting s s' : effect s s' -> accepting s' = accepting s.
Proof. by intros (_ & _ & [= _ E]). Qed.

(** [forceClose] of one connection. *)
Lemma close_one c x s :
  sv_inv s -> none_waits_here s -> conns s !! c = Some x ->
  exists t, run_or_queue (c_loop x) (FForceClose c) s = Ok t /\ sv_inv t /\ effect s t /\
    forall x', conns t !! c = Some x' -> condemned c x' t.
Proof.
  intros H Hw Ex. unfold run_or_queue. case_bool_decide as El.
  - destruct (server_forceClose_inv s c x H Ex) as (t & Et & Ht). exists t. cbn [run_functor].
    pose proof (run_functor_effect (FForceClose c) s t Et) as He. split_and!; [done|done|done|].
    intros x' Ex'. left. apply (not_connecting t c); [done|done| |by eapply forceClose_closes].
    destruct (proj1 (proj2 He) c x' Ex') as (y & Ey & Hl & _). rewrite Ex in Ey. injection Ey as <-.
    rewrite Hl, El. by apply (effect_waits s t).
  - eexists. split; [reflexivity|]. split; [by apply (untracked_push s c x)|]. split; [by apply effect_queue|].
    intros x'. cbn. rewrite Ex. intros [= <-]. right. exists (pending s), []. split; [done|]. apply not_elem_of_nil.
Qed.

(** And of one after the other. *)
Lemma close_all_spec cs s :
  sv_inv s -> none_waits_here s -> (forall c, c ∈ cs -> is_Some (conns s !! c)) ->
  exists s', close_all cs s = Ok s' /\ sv_inv s' /\ effect s s' /\
    forall c x', c ∈ cs -> conns s' !! c = Some x' -> condemned c x' s'.
Proof.
  revert s. induction cs as [|c cs IH]; intros s H Hw Hin; cbn [close_all].
  { exists s. split_and!; try done; [apply effect_refl|]. intros c x' Hc. by apply elem_of_nil in Hc. }
  destruct (Hin c) as [x Ex]; [by left|]. unfold get_conn. rewrite Ex. cbn [mbind res_bind].
  destruct (close_one c x s H Hw Ex) as (t & -> & Ht & He & Hc). cbn [mbind res_bind].
  destruct (IH t Ht) as (s' & E' & H' & He' & Hc').
  { by eapply effect_waits. }
  { intros d Hd. eapply effect_still; [exact He|]. apply Hin. by right. }
  exists s'. split_and!; [done|done|by eapply effect_trans|].
  intros d x' [-> | Hd]%elem_of_cons Ex'; [|by apply Hc'].
  destruct (proj1 (proj2 He') c x' Ex') as (y & Ey & _). by apply (condemned_effect c y x' t s'); [apply Hc|..].
Qed.

Lemma sv_inv_accepting b s : sv_inv s -> sv_inv (set_accepting b s).
Proof.
  intros [H1 H2 H3 H4 H5 H6]. constructor; try done. intros c x Ex. destruct (H2 c x Ex) as [ph []]. by exists ph.
Qed.

Lemma stop_connections_spec s :
  sv_inv s -> none_waits_here s ->
  exists s', stop_connections s = Ok s' /\ sv_inv s' /\ accepting s' = false /\ all_condemned s' /\
    none_waits_here s' /\ server_frame s' = server_frame s.
Proof.
  intros H Hw. unfold stop_connections.
  destruct (close_all_spec (elements (m_connSet s)) (set_accepting false s) (sv_inv_accepting false s H)) as (s' & E & H' & He & Hc).
  { exact Hw. }
  { intros c Hc%elem_of_elements. by apply (sv_set _ H). }
  exists s'. split_and!; [done|done|by apply effect_accepting in He| |by apply (effect_waits _ _ He)|by apply close_all_frame in E].
  intros c x' Ex'. destruct (proj1 (proj2 He) c x' Ex') as (x & Ex & _). cbn in Ex.
  destruct (decide (c ∈ m_connSet s)) as [Hs|Hs]; [apply Hc; [by apply elem_of_elements|done]|].
  apply (condemned_effect c x x' (set_accepting false s) s'); [|done..].
  destruct (sv_phase _ H c x Ex) as [ph [P1 P2 _ _ _ _ _]]. left. destruct ph; try done; exfalso; apply Hs, P2; auto.
Qed.

Lemma server_run_condemned s0 ops s :
  server_run s0 ops s -> sv_inv s0 -> accepting s0 = false -> all_condemned s0 ->
  sv_inv s /\ accepting s = false /\ all_condemned s.
Proof.
  intros Hr H0 A0 C0. induction Hr as [|ops o s s' _ (H & A & C) Hen E]; [done|].
  destruct (server_exec_inv o s H Hen) as (s'' & E' & H'). rewrite E in E'. injection E' as <-.
  split; [done|]. split; [|by eapply server_exec_condemned].
  rewrite <- A. destruct o as [c|c|c|c|c|l]; cbn [server_exec enabled] in *.
  - destruct Hen. congruence.
  - by eapply effect_accepting, handleClose_effect.
  - apply bind_Ok in E as (x & _ & [= <-]). by case_bool_decide.
  - by apply bind_Ok in E as (x & _ & [= <-]).
  - by apply effect_accepting, (run_functor_effect (FForceClose c)).
  - unfold run_first in E. destruct (take_first l (pending s)) as [[f r]|]; [|by injection E as <-].
    apply run_functor_effect, effect_accepting in E. by rewrite E.
Qed.

(** When nothing is queued every condemned connection has been destroyed. *)
Lemma condemned_gone s :
  sv_inv s -> all_condemned s -> pending s = [] ->
  m_connSet s = ∅ /\ forall c x, conns s !! c = Some x -> c_status x = Disconnected /\ c_destroyed x = 1%nat.
Proof.
  intros H Ha Hp.
  assert (forall c x, conns s !! c = Some x -> (c ∉ m_connSet s) /\ c_status x = Disconnected /\ c_destroyed x = 1%nat) as Hg.
  { intros c x Ex. assert (c_status x = Disconnected) as Hs.
    { destruct (Ha c x Ex) as [?|(p & q & E & _)]; [done|]. rewrite Hp in E. by destruct p. }
    destruct (sv_phase _ H c x Ex) as [ph [P1 P2 _ P4 P5 P6 P7]]. rewrite Hp in P5, P6, P7.
    destruct ph; try (by rewrite Hs in P1); try done.
    split_and!; [|done|done]. intros [?|[?|?]]%P2; done. }
  split; [|intros c x Ex; by apply (Hg c x)].
  apply set_eq. intros c. split; [|set_solver]. intros Hc. destruct (sv_set _ H c Hc) as [x Ex]. by destruct (Hg c x Ex).
Qed.

(** What [stop] leaves to do without an idle timeout: the pool. *)
Lemma stop_rest_plain s :
  sv_inv s -> m_timingWheelMap s = ∅ -> pool_owned s = false -> m_idleTimeout s = 0 ->
  exists s', stop_rest s = Ok s' /\ sv_inv s' /\ pending s' = pending s /\ conns s' = conns s /\
    accepting s' = accepting s /\ m_connSet s' = m_connSet s /\ server_frame s' = (∅, None, false, io_dead s, 0).
Proof.
  intros H Hw Ho Hi. unfold stop_rest, stop_pool. destruct (m_loopPoolPtr s) as [p|] eqn:Ep.
  - rewrite Ho. cbn [m_timingWheelMap set_pool]. rewrite Hw, map_to_list_empty. cbn [map stop_wheels].
    eexists. split; [reflexivity|]. split_and!; try done.
    + destruct H as [H1 H2 H3 H4 H5 H6]. constructor; cbn; try done.
      * intros c x Ex. destruct (H2 c x Ex) as [ph []]. by exists ph.
      * rewrite Hi. lia.
    + unfold server_frame. cbn. by rewrite Hw, Ho, Hi.
  - rewrite Hw, map_to_list_empty. cbn [map stop_wheels]. exists s. split_and!; try done.
    unfold server_frame. by rewrite Hw, Ep, Ho, Hi.
Qed.

Lemma frame_run s0 ops s :
  server_run s0 ops s -> none_waits_here s0 -> m_timingWheelMap s0 = ∅ -> pool_owned s0 = false -> m_idleTimeout s0 = 0 ->
  m_timingWheelMap s = ∅ /\ pool_owned s = false /\ m_idleTimeout s = 0 /\ none_waits_here s.
Proof.
  intros Hr Hn Hw Ho Hi. destruct (server_run_keeps _ _ _ Hr Hn) as [Hn' Hw'].
  pose proof (server_run_pool _ _ _ Hr) as Hp. unfold pool_loops in Hp. split_and!; [congruence|congruence|congruence|done].
Qed.

(** ** Properties *)

(** C13. An orderly end.  A server without idle timeout, on its own loop and a
    pool that somebody else holds too, is stopped, in any state that its users
    can bring it to.  Neither half of [stop] fails, whichever thread calls it and
    whatever the loops do in between; the server accepts no more; and however the
    loops and the users go on, the loops can run until nothing is queued, and
    whenever nothing is queued the set is empty, every connection there has
    been is closed and destroyed exactly once, also those that were still on their
    way to their loop, and the destructor runs without leaving anything behind. *)
Theorem orderly_shutdown pool s0 ops s :
  good_pool pool -> server_start (TcpServer_new 0 pool false) = Ok s0 -> server_run s0 ops s ->
  exists s1, stop_connections s = Ok s1 /\ accepting s1 = false /\
    forall ops1 s2, server_run s1 ops1 s2 ->
      exists s3, stop_rest s2 = Ok s3 /\
        forall ops3 s4, server_run s3 ops3 s4 ->
          (exists ls s5, server_run s4 (map SRun ls) s5 /\ pending s5 = []) /\
          (pending s4 = [] ->
             m_connSet s4 = ∅ /\
             (forall c x, conns s4 !! c = Some x -> c_status x = Disconnected /\ c_destroyed x = 1%nat) /\
             exists s6, server_destroy s4 = Ok s6 /\ pending s6 = []).
Proof.
  intros Hp E0 Hr. destruct (server_start_ok 0 pool false (or_introl eq_refl) Hp) as (t & Et & H0 & _ & _ & Ho & Hi & _ & _ & Hq).
  rewrite E0 in Et. injection Et as <-.
  assert (m_timingWheelMap s0 = ∅) as W0 by (unfold server_start in E0; by injection E0 as <-).
  assert (none_waits_here s0) as N0 by (intros c; rewrite Hq; apply not_elem_of_nil).
  destruct (frame_run _ _ _ Hr N0 W0 Ho Hi) as (W & O & I & N). pose proof (server_run_inv _ _ _ Hr H0) as H.
  destruct (stop_connections_spec s H N) as (s1 & E1 & H1 & A1 & C1 & N1 & F1). exists s1. split; [done|]. split; [done|].
  unfold server_frame in F1. rewrite W, O, I in F1. injection F1 as W1 _ O1 _ I1.
  intros ops1 s2 Hr1. destruct (server_run_condemned _ _ _ Hr1 H1 A1 C1) as (H2 & A2 & C2).
  destruct (frame_run _ _ _ Hr1 N1 W1 O1 I1) as (W2 & O2 & I2 & N2).
  destruct (stop_rest_plain s2 H2 W2 O2 I2) as (s3 & E3 & H3 & P3 & K3 & A3 & S3 & F3). exists s3. split; [done|].
  unfold server_frame in F3. injection F3 as W3 _ O3 _ I3.
  assert (none_waits_here s3) as N3 by (intros c; rewrite P3; apply N2).
  assert (all_condemned s3) as C3.
  { intros c x. rewrite K3. intros Ex. unfold condemned. rewrite P3. by apply C2. }
  intros ops3 s4 Hr3. destruct (server_run_condemned _ _ _ Hr3 H3) as (H4 & A4 & C4); [congruence|done|].
  split; [by apply server_drains|]. intros Hq4. destruct (condemned_gone s4 H4 C4 Hq4) as [S4 K4]. split_and!; [done|done|].
  destruct (frame_run _ _ _ Hr3 N3 W3 O3 I3) as (W4 & O4 & I4 & _).
  unfold server_destroy. rewrite stop_in_loop. unfold stop_connections. cbn [m_connSet set_accepting]. rewrite S4, elements_empty. cbn [close_all mbind res_bind].
  destruct (stop_rest_plain (set_accepting false s4)) as (s5 & E5 & _ & P5 & _).
  { by apply sv_inv_accepting. }
  1-3: done.
  rewrite E5. cbn [mbind res_bind]. eexists. split; [reflexivity|]. cbn. by rewrite P5.
Qed.

(** Two loops of a pool; one connection is established and one is on its way. *)
Lemma orderly_shutdown_witness :
  exists s0 s s1, server_start (TcpServer_new 0 (Some (pool_new [1; 2]%nat)) false) = Ok s0 /\
    server_run s0 [SAccept 5; SRun 1; SAccept 6] s /\ stop_connections s = Ok s1 /\ accepting s1 = false /\
    length (pending s1) = 3%nat /\
    forall ops1 s2, server_run s1 ops1 s2 -> exists s3, stop_rest s2 = Ok s3.
Proof.
  eexists _, _.
  eassert (server_start (TcpServer_new 0 (Some (pool_new [1; 2]%nat)) false) = Ok _) as E by (vm_compute; reflexivity).
  match type of E with _ = Ok ?s0 =>
    eassert (server_run s0 ([] ++ [SAccept 5] ++ [SRun 1] ++ [SAccept 6]) _) as Hr end.
  { rewrite !app_assoc. eapply server_run_snoc; [eapply server_run_snoc; [eapply server_run_snoc; [apply server_run_nil|..]|..]|..];
      [split; reflexivity|vm_compute; reflexivity|exact I|vm_compute; reflexivity|split; reflexivity|vm_compute; reflexivity]. }
  assert (good_pool (Some (pool_new [1; 2]%nat))) as G.
  { intros p [= <-]. split; [intros _; vm_compute; split; congruence|vm_compute; reflexivity]. }
  destruct (orderly_shutdown (Some (pool_new [1; 2]%nat)) _ _ _ G E Hr) as (s1 & E1 & A1 & R1).
  exists s1. split; [exact E|]. split; [exact Hr|]. split; [exact E1|]. split; [exact A1|]. split.
  - vm_compute in E1. injection E1 as <-. reflexivity.
  - intros ops1 s2 H2. destruct (R1 ops1 s2 H2) as (s3 & E3 & _). exists s3. exact E3.
Defined.
End Stopping.

(** ** Configuration *)

Module Configuration.

(** Functors that the calls hand to the loop. *)
Inductive body := BKickoff (timeout : Z) | BStart.

Record controlled := mkControlled {
  m_loop : option nat;
  server : TcpServer;
  queued : list body
}.

Inductive control :=
  | CKickoff (timeout : Z)                          (* [kickoffIdleConnections] *)
  | CSetIoLoopNum (threads : list nat)              (* the loops of the new pool *)
  | CSetIoLoopThreadPool (p : @EventLoopThreadPool nat)
  | CStart.

Definition set_idleTimeout (t : Z) (s : TcpServer) : TcpServer :=
  mkServer (m_started s) t (m_loopPoolPtr s) (pool_owned s) (m_timingWheelMap s) (m_connSet s) (accepting s)
    (conns s) (pending s) (io_dead s) (alive s).

Definition set_loops (p : @EventLoopThreadPool nat) (owned : bool) (s : TcpServer) : TcpServer :=
  mkServer (m_started s) (m_idleTimeout s) (Some p) owned (m_timingWheelMap s) (m_connSet s) (accepting s)
    (conns s) (pending s) (io_dead s) (alive s).

Definition run_body (b : body) (s : TcpServer) : res TcpServer :=
  match b with
  | BKickoff t => _ ← assert (negb (m_started s)); Ok (set_idleTimeout t s)
  | BStart => server_start s
  end.

(** [m_loop->runInLoop], in the thread of that loop ([here]) or in another. *)
Definition in_loop (here : bool) (b : body) (st : controlled) : res controlled :=
  match m_loop st with
  | None => Fail NullDereference
  | Some l =>
      if here then s ← run_body b (server st); Ok (mkControlled (Some l) s (queued st))
      else Ok (mkControlled (Some l) (server st) (queued st ++ [b]))
  end.

Definition control_exec (here : bool) (c : control) (st : controlled) : res controlled :=
  match c with
  | CKickoff t => in_loop here (BKickoff t) st
  | CStart => in_loop here BStart st
  | CSetIoLoopNum ls =>
      _ ← assert (negb (m_started (server st)));
      Ok (mkControlled (m_loop st) (set_loops (pool_new ls) true (server st)) (queued st))
  | CSetIoLoopThreadPool p =>
      _ ← assert (negb (bool_decide (m_loopThreadList p = [])));
      _ ← assert (negb (m_started (server st)));
      Ok (mkControlled (m_loop st) (set_loops p false (server st)) (queued st))
  end.

(** The loop runs its next functor. *)
Definition loop_runs (st : controlled) : res controlled :=
  match queued st with
  | [] => Ok st
  | b :: q => s ← run_body b (server st); Ok (mkControlled (m_loop st) s q)
  end.

(** Calls of another thread, and the loop ([None]). *)
Fixpoint control_run (ops : list (option control)) (st : controlled) : res controlled :=
  match ops with
  | [] => Ok st
  | Some c :: ops => st ← control_exec false c st; control_run ops st
  | None :: ops => st ← loop_runs st; control_run ops st
  end.

(** [Listener::New]: a server without a loop. *)
Definition Listener_New : controlled := mkControlled None (TcpServer_new 0 None false) [].

(** [TcpServer::setLoop], and [Listener::enableKickoffIdle]. *)
Definition setLoop (l : nat) (st : controlled) : controlled := mkControlled (Some l) (server st) (queued st).
Definition enableKickoffIdle (t : Z) (st : controlled) : controlled :=
  mkControlled (m_loop st) (set_idleTimeout t (server st)) (queued st).

(** The destructor asks [m_loop] for its thread. *)
Definition controlled_destroy (st : controlled) : res TcpServer :=
  match m_loop st with None => Fail NullDereference | Some _ => server_destroy (server st) end.

(** *** Reference *)

(** What a list of calls asks for: the last of each kind. *)
Definition wish : Type := Z * option (@EventLoopThreadPool nat) * bool.
Definition wish_control (w : wish) (c : control) : wish :=
  match c, w with
  | CKickoff t, (_, p, o) => (t, p, o)
  | CSetIoLoopNum ls, (i, _, _) => (i, Some (pool_new ls), true)
  | CSetIoLoopThreadPool p, (i, _, _) => (i, Some p, false)
  | CStart, _ => w
  end.
Definition wishes (cs : list control) (w : wish) : wish := foldl wish_control w cs.

Definition made (w : wish) : TcpServer := let '(i, p, o) := w in TcpServer_new i p o.

(** Calls that set something, and can. *)
Definition setter (c : control) : Prop :=
  match c with CStart => False | CSetIoLoopThreadPool p => m_loopThreadList p <> [] | _ => True end.

(** The functors of [ks] turn [v] into [w]. *)
Definition kicks (ks : list Z) (v : wish) : wish := foldl (fun v t => wish_control v (CKickoff t)) v ks.

Lemma kicks_snoc ks t v : kicks (ks ++ [t]) v = wish_control (kicks ks v) (CKickoff t).
Proof. unfold kicks. by rewrite foldl_app. Qed.

Lemma kicks_pool ks (i : Z) p o : exists i', kicks ks (i, p, o) = (i', p, o) /\
  forall p' o', kicks ks (i, p', o') = (i', p', o').
Proof.
  revert i. induction ks as [|t ks IH]; intros i; cbn; [eauto|]. destruct (IH t) as (i' & E & Ef). eauto.
Qed.

(** Before [start] is called: the server as made, and [kickoff] functors. *)
Definition waiting (ks : list Z) (v : wish) (tail : list body) (st : controlled) : Prop :=
  exists l, st = mkControlled (Some l) (made v) (map BKickoff ks ++ tail).

Lemma setter_step c ks v st :
  setter c -> waiting ks v [] st ->
  exists st' ks' v', control_exec false c st = Ok st' /\ waiting ks' v' [] st' /\
    kicks ks' v' = wish_control (kicks ks v) c /\ (length ks' <= S (length ks))%nat.
Proof.
  intros Hc (l & ->). destruct v as [[i p] o]. destruct c as [t|ls|q|]; cbn [setter] in Hc; [| | |done].
  - eexists _, (ks ++ [t]), (i, p, o). split; [reflexivity|]. rewrite length_app. cbn [length].
    split_and!; [exists l|by apply kicks_snoc|lia]. by rewrite app_nil_r, map_app, app_nil_r.
  - eexists _, ks, (i, Some (pool_new ls), true). split; [reflexivity|]. split; [by exists l|].
    destruct (kicks_pool ks i p o) as (i' & -> & ->). split; [done|lia].
  - cbn [control_exec server]. rewrite bool_decide_false by done. cbn. eexists _, ks, (i, Some q, false).
    split; [reflexivity|]. split; [by exists l|]. destruct (kicks_pool ks i p o) as (i' & -> & ->). split; [done|lia].
Qed.

Lemma loop_step ks v tail st :
  waiting ks v tail st -> ks <> [] ->
  exists st' ks' v', loop_runs st = Ok st' /\ waiting ks' v' tail st' /\ kicks ks' v' = kicks ks v /\ (length ks' <= length ks)%nat.
Proof.
  intros (l & ->) Hne. destruct ks as [|t ks]; [done|]. destruct v as [[i p] o].
  eexists _, ks, (t, p, o). split; [reflexivity|]. split; [by exists l|]. split; [done|cbn; lia].
Qed.

(** After [start] is called: [start] waits behind the others, or has been run. *)
Definition going (w : wish) (st : controlled) : Prop :=
  (exists ks v, waiting ks v [BStart] st /\ kicks ks v = w) \/
  (queued st = [] /\ is_Some (m_loop st) /\ server_start (made w) = Ok (server st)).

Lemma going_step w st :
  is_ok (server_start (made w)) -> going w st ->
  exists st', loop_runs st = Ok st' /\ going w st' /\ length (queued st') = pred (length (queued st)).
Proof.
  intros [s E] [(ks & v & Hw & Hk)|(Hq & Hm & Hs)].
  - destruct ks as [|t ks].
    + destruct Hw as (l & ->). cbn in Hk. subst v. unfold loop_runs. cbn.
      rewrite E. cbn. eexists. split; [reflexivity|]. split; [right; by eauto|done].
    + destruct Hw as (l & ->). destruct v as [[i p] o]. unfold loop_runs. cbn.
      eexists. split; [reflexivity|]. split; [|done]. left. exists ks, (t, p, o). split; [by exists l|done].
  - unfold loop_runs. rewrite Hq. exists st. split; [done|]. split; [by right|by rewrite Hq].
Qed.

Lemma going_run w n st :
  is_ok (server_start (made w)) -> going w st ->
  exists st', control_run (replicate n None) st = Ok st' /\ going w st' /\
    length (queued st') = (length (queued st) - n)%nat.
Proof.
  intros He. revert st. induction n as [|n IH]; intros st Hg; cbn [replicate control_run].
  { exists st. split_and!; [done|done|lia]. }
  destruct (going_step w st He Hg) as (st' & -> & Hg' & Hl). cbn [mbind res_bind].
  destruct (IH st' Hg') as (st2 & -> & Hg2 & Hl2). exists st2. split_and!; [done|done|lia].
Qed.

(** Setters of another thread, with the loop running in between. *)
Lemma setup_run ops ks v st :
  Forall setter (omap id ops) -> waiting ks v [] st ->
  exists st' ks' v', control_run ops st = Ok st' /\ waiting ks' v' [] st' /\
    kicks ks' v' = wishes (omap id ops) (kicks ks v) /\ (length ks' <= length ops + length ks)%nat.
Proof.
  revert ks v st. induction ops as [|[c|] ops IH]; intros ks v st Hs Hw; cbn [control_run].
  - exists st, ks, v. split_and!; try done; cbn; lia.
  - cbn in Hs. apply Forall_cons in Hs as [Hc Hs].
    destruct (setter_step c ks v st Hc Hw) as (st1 & ks1 & v1 & -> & Hw1 & Hk1 & Hl1). cbn [mbind res_bind].
    destruct (IH ks1 v1 st1 Hs Hw1) as (st2 & ks2 & v2 & -> & Hw2 & Hk2 & Hl2). exists st2, ks2, v2.
    split_and!; [done|done| |cbn; lia]. by rewrite Hk2, Hk1.
  - destruct ks as [|t ks].
    + destruct Hw as (l & ->). unfold loop_runs. cbn [map app queued mbind res_bind].
      destruct (IH [] v (mkControlled (Some l) (made v) []) Hs) as (st2 & ks2 & v2 & -> & Hw2 & Hk2 & Hl2); [by exists l|].
      exists st2, ks2, v2. split_and!; [done|done|done|cbn in *; lia].
    + destruct (loop_step (t :: ks) v [] st Hw) as (st1 & ks1 & v1 & -> & Hw1 & Hk1 & Hl1); [done|]. cbn [mbind res_bind].
      destruct (IH ks1 v1 st1 Hs Hw1) as (st2 & ks2 & v2 & -> & Hw2 & Hk2 & Hl2). exists st2, ks2, v2.
      split_and!; [done|done|by rewrite Hk2, Hk1|cbn in *; lia].
Qed.

Lemma control_run_app ops ops' st : control_run (ops ++ ops') st = (st ← control_run ops st; control_run ops' st).
Proof.
  revert st. induction ops as [|[c|] ops IH]; intros st; cbn [app control_run]; [done| |].
  - destruct (control_exec false c st); cbn [mbind res_bind]; [apply IH|done].
  - destruct (loop_runs st); cbn [mbind res_bind]; [apply IH|done].
Qed.

(** ** Properties *)

(** C39. Configuration from another thread.  When a thread that is not the
    server's loop makes a server with a loop, calls setters on it, in any order
    and any number, and then [start], and the loop runs functors in between as it
    pleases, no call and no functor fails; and as soon as the loop has run what
    was queued, which it has after as many functors as there were calls, the
    server is the one that is made with the last timeout and the last pool that
    were set and started.  From then on every setter fails its assertion,
    [kickoffIdleConnections] when the loop runs it.  A pool that is handed over
    is not empty, the last timeout is 0 or at least 2 seconds, which is what
    the assertion of the timing wheel asks for, and below 2^57, and the last
    pool has its index in range ([good_pool]). *)
Theorem configured_then_started l ops n :
  let w := wishes (omap id ops) (0, None, false) in
  Forall setter (omap id ops) -> good_idle w.1.1 -> good_pool w.1.2 ->
  exists st, control_run (ops ++ Some CStart :: replicate n None) (setLoop l Listener_New) = Ok st /\
    ((length ops < n)%nat -> queued st = []) /\
    (queued st = [] ->
       server_start (made w) = Ok (server st) /\ accepting (server st) = true /\
       (forall ls, control_exec false (CSetIoLoopNum ls) st = Fail AssertFailed) /\
       (forall p, control_exec false (CSetIoLoopThreadPool p) st = Fail AssertFailed) /\
       (forall t, (st' ← control_exec false (CKickoff t) st; loop_runs st') = Fail AssertFailed)).
Proof.
  intros w Hs Hi Hp.
  destruct (setup_run ops [] (0, None, false) (setLoop l Listener_New) Hs) as (st1 & ks & v & E1 & Hw & Hk & Hl); [by exists l|].
  change (wishes (omap id ops) (kicks [] (0, None, false))) with w in Hk.
  assert (exists s, server_start (made w) = Ok s /\ accepting s = true /\ m_started s = true) as (s & Es & Ha & Hst).
  { destruct w as [[i p] o] eqn:Ew. destruct (server_start_ok i p o Hi Hp) as (s & E & _ & Ha & _). exists s.
    split; [exact E|]. split; [done|]. unfold server_start in E. cbn [assert TcpServer_new m_started negb mbind res_bind] in E.
    apply bind_Ok in E as (s' & E' & [= <-]). cbn. revert E'. destruct (0 <? _); [|by intros [= <-]].
    intros (w0 & _ & E')%bind_Ok. destruct (m_loopPoolPtr _); [|by injection E' as <-].
    by apply bind_Ok in E' as ([wh p'] & _ & [= <-]). }
  assert (going w (mkControlled (m_loop st1) (server st1) (queued st1 ++ [BStart]))) as Hg.
  { left. exists ks, v. split; [|done]. destruct Hw as (l' & ->). exists l'. by rewrite app_nil_r. }
  destruct (going_run w n _ (ex_intro _ s Es) Hg) as (st & E & Hgo & Hlen). exists st. split_and!.
  - rewrite control_run_app, E1. cbn [mbind res_bind control_run]. destruct Hw as (l' & ->). exact E.
  - intros Hn. apply nil_length_inv. rewrite Hlen. destruct Hw as (l' & ->). cbn [queued].
    rewrite !length_app, length_map. cbn in *. lia.
  - intros Hq. destruct Hgo as [(ks' & v' & (l' & ->) & _)|(_ & [l' Em] & E')]; [by destruct ks'|].
    assert (server st = s) as Ess by congruence. rewrite Ess. split_and!; [done|done| | |].
    + intros ls. cbn [control_exec]. by rewrite Ess, Hst.
    + intros p. cbn [control_exec]. rewrite Ess, Hst. by case_bool_decide.
    + intros t. cbn [control_exec]. unfold in_loop. rewrite Em. cbn [mbind res_bind].
      unfold loop_runs. cbn [queued]. rewrite Hq. cbn. by rewrite Ess, Hst.
Qed.

(** A timeout, a functor, another timeout and a pool; the loop then runs. *)
Lemma configured_then_started_witness :
  exists st, control_run ([Some (CKickoff 5); None; Some (CKickoff 10); Some (CSetIoLoopThreadPool (pool_new [1; 2]%nat))] ++
      Some CStart :: replicate 5 None) (setLoop 0 Listener_New) = Ok st /\
    server_start (TcpServer_new 10 (Some (pool_new [1; 2]%nat)) false) = Ok (server st) /\
    accepting (server st) = true /\
    control_exec false (CSetIoLoopThreadPool (pool_new [3]%nat)) st = Fail AssertFailed.
Proof.
  destruct (configured_then_started 0
    [Some (CKickoff 5); None; Some (CKickoff 10); Some (CSetIoLoopThreadPool (pool_new [1; 2]%nat))] 5)
    as (st & E & Hq & H).
  - repeat constructor. discriminate.
  - right. split; vm_compute; reflexivity.
  - intros p [= <-]. split; [intros _; vm_compute; split; congruence|vm_compute; reflexivity].
  - exists st. destruct H as (Es & Ha & _ & Hf & _); [apply Hq; cbn; lia|]. exact (conj E (conj Es (conj Ha (Hf _)))).
Defined.

(** A listener that is never served has no loop, and its destructor, [stop],
    asks the null pointer for its thread. *)
Lemma unserved_listener_crashes t : controlled_destroy (enableKickoffIdle t Listener_New) = Fail NullDereference.
Proof. reflexivity. Qed.

(** Which is also why [Listener] sets the timeout without [kickoffIdleConnections]. *)
Lemma kickoff_without_loop here t : control_exec here (CKickoff t) Listener_New = Fail NullDereference.
Proof. reflexivity. Qed.

End Configuration.
