(* ===== verification/Wrap.v ===== *)
(** * Wrappers: [netpoll/wrap/]

    [EventLoopWrap::serve] gives loops to a listener or to dialers and waits;
    [QuitAllEventLoop] ends the loops that wrappers with [enableQuit] have
    registered.  [Listener::bind] and [Dialer::bind] set the callbacks that a
    type has.

    - Loop 0 is the one of the thread that serves, [getEventLoop()]; the loops of
      a pool have other numbers.
    - [QuitAllEventLoop] runs in a thread of its own while the loops it has told
      to quit end: a loop is destroyed with the thread that made it,
      [threadWorker] or the one that served.  Each access of [quit] to its loop
      is a step; an access to a loop that is gone is undefined, and the run ends
      there.
    - [serveAsDaemon] is [serve] in another thread.  Names are left out. *)

From stdpp Require Import gmap fin_sets.
From S2P Require Import Prelude TimingWheel EventLoopThread TcpServer.

(** ** [EventLoopWrap] *)

Record EventLoopWrap := mkWrap {
  wrap_quit : bool;
  wrap_pool : @EventLoopThreadPool nat
}.

Definition enableQuit (w : EventLoopWrap) : EventLoopWrap := mkWrap true (wrap_pool w).

Definition getEventLoop : nat := 0.

(** The loops of the pool, by [getLoop]; a null pointer would be registered too. *)
Definition pool_registers (w : EventLoopWrap) : list (option nat) :=
  map (fun i => getLoop (Z.of_nat i) (wrap_pool w)) (seq 0 (length (m_loopThreadList (wrap_pool w)))).

(** [serve(tcp::Listener &)], up to [loop()]: the registry, and the server,
    whose pool and loop are set before it starts. *)
Definition serve_listener (w : EventLoopWrap) (s : TcpServer) (allEventLoop : list (option nat))
    : res (list (option nat) * TcpServer) :=
  let reg := if wrap_quit w then allEventLoop ++ [Some getEventLoop] ++ pool_registers w else allEventLoop in
  (* [setIoLoopThreadPool] *)
  _ ← assert (negb (bool_decide (m_loopThreadList (wrap_pool w) = [])));
  _ ← assert (negb (m_started s));
  s ← server_start (set_pool (Some (wrap_pool w)) s);
  Ok (reg, s).

(** One [setLoop] and [connect]. *)
Definition start_dialer (pool : @EventLoopThreadPool nat) : res (nat * @EventLoopThreadPool nat) :=
  '(l, pool) ← getNextLoop pool;
  match l with
  | Some l => Ok (l, pool)
  | None => Fail AssertFailed   (* [assert(m_loop != nullptr)] in [connect] *)
  end.

Fixpoint start_dialers (n : nat) (pool : @EventLoopThreadPool nat) : res (list nat * @EventLoopThreadPool nat) :=
  match n with
  | O => Ok ([], pool)
  | S n => '(l, pool) ← start_dialer pool; '(ls, pool) ← start_dialers n pool; Ok (l :: ls, pool)
  end.

(** [serve(const std::vector<tcp::Dialer> &)] of [n] dialers, up to
    [m_pool->start()]: the registry and the loop of each dialer. *)
Definition serve_dialers (w : EventLoopWrap) (n : nat) (allEventLoop : list (option nat))
    : res (list (option nat) * list nat * EventLoopWrap) :=
  let reg := if wrap_quit w then allEventLoop ++ pool_registers w else allEventLoop in
  '(ls, pool) ← start_dialers n (wrap_pool w);
  Ok (reg, ls, mkWrap (wrap_quit w) pool).
(** [serve(tcp::Dialer &)] *)
Definition serve_dialer (w : EventLoopWrap) (allEventLoop : list (option nat))
    : res (list (option nat) * list nat * EventLoopWrap) := serve_dialers w 1 allEventLoop.

(** ** [QuitAllEventLoop] *)

(** The accesses of [quit] to its loop: the load of [m_quit], its store, and
    [isInLoopThread] with [wakeup]. *)
Inductive quit_access := AtLoad | AtStore | AtWakeup.

(** Where the thread stands that runs [QuitAllEventLoop]. *)
Inductive quit_pc :=
  | QNext                               (* at the next loop of the iteration *)
  | QLoaded (l : nat)                   (* [m_quit] of [l] was false *)
  | QStored (l : nat)                   (* [m_quit] is stored, before [isInLoopThread] and [wakeup] *)
  | QDangling (a : quit_access) (l : nat) (* [a] was on a loop that is gone *)
  | QNull.                              (* a null pointer was registered *)

Record quitting := mkQuitting {
  to_quit : list (option nat);   (* what the iteration has before it *)
  quit_at : quit_pc;
  told : gset nat;               (* [m_quit] is set *)
  ended : gset nat               (* destroyed *)
}.

Definition quit_start (allEventLoop : list (option nat)) : quitting := mkQuitting allEventLoop QNext ∅ ∅.

(** An access that leads on to [pc], if the loop is there. *)
Definition access (a : quit_access) (l : nat) (gone : gset nat) (pc : quit_pc) : quit_pc :=
  if bool_decide (l ∈ gone) then QDangling a l else pc.

Definition defined (pc : quit_pc) : bool := match pc with QDangling _ _ | QNull => false | _ => true end.

Inductive quit_step (s : quitting) : quitting -> Prop :=
  (* [quit] returns at once when [m_quit] is set *)
  | quit_load l rest : quit_at s = QNext -> to_quit s = Some l :: rest ->
      quit_step s (mkQuitting rest
        (access AtLoad l (ended s) (if bool_decide (l ∈ told s) then QNext else QLoaded l)) (told s) (ended s))
  | quit_null rest : quit_at s = QNext -> to_quit s = None :: rest ->
      quit_step s (mkQuitting rest QNull (told s) (ended s))
  | quit_store l : quit_at s = QLoaded l ->
      quit_step s (mkQuitting (to_quit s) (access AtStore l (ended s) (QStored l)) ({[ l ]} ∪ told s) (ended s))
  | quit_wakeup l : quit_at s = QStored l ->
      quit_step s (mkQuitting (to_quit s) (access AtWakeup l (ended s) QNext) (told s) (ended s))
  (* the thread of a loop leaves [loop()] and destroys it *)
  | quit_end l : defined (quit_at s) = true -> l ∈ told s -> l ∉ ended s ->
      quit_step s (mkQuitting (to_quit s) (quit_at s) (told s) ({[ l ]} ∪ ended s)).

(** *** Lemmas *)

Lemma pool_registers_spec w : pool_registers w = map Some (m_loopThreadList (wrap_pool w)).
Proof.
  unfold pool_registers, getLoop. destruct (wrap_pool w) as [ts i]. cbn [m_loopThreadList].
  apply list_eq. intros j. rewrite !list_lookup_fmap. destruct (decide (j < length ts)%nat) as [Hj|Hj].
  - rewrite lookup_seq_lt by done. cbn. rewrite (proj2 (Z.ltb_lt _ _)) by lia. rewrite Nat2Z.id.
    destruct (lookup_lt_is_Some_2 ts j Hj) as [x Hx]. by rewrite Hx.
  - rewrite lookup_seq_ge, (lookup_ge_None_2 ts) by lia. done.
Qed.

Lemma start_dialers_spec n ts i :
  ts <> [] -> 0 <= i < Z.of_nat (length ts) -> Z.of_nat (length ts) < size_max ->
  exists ls i', start_dialers n (mkPool ts i) = Ok (ls, mkPool ts i') /\ length ls = n /\ 0 <= i' < Z.of_nat (length ts) /\
    forall j, (j < n)%nat -> ls !! j = ts !! Z.to_nat ((i + Z.of_nat j) mod Z.of_nat (length ts)).
Proof.
  intros Hne Hi Hm. revert i Hi. induction n as [|n IH]; intros i Hi; cbn [start_dialers]; [exists [], i; split_and!; try done; lia|].
  unfold start_dialer. rewrite getNextLoop_spec by done. cbn [mbind res_bind].
  destruct (lookup_lt_is_Some_2 ts (Z.to_nat i)) as [x Hx]; [lia|]. rewrite Hx. cbn [mbind res_bind].
  destruct (IH ((i + 1) mod Z.of_nat (length ts))) as (ls & i' & -> & Hlen & Hi' & Hls); [apply Z.mod_pos_bound; lia|]. cbn [mbind res_bind].
  exists (x :: ls), i'. split; [done|]. split; [cbn; lia|]. split; [done|]. intros [|j] Hj; cbn.
  - by rewrite Z.add_0_r, Z.mod_small.
  - rewrite Hls by lia. do 2 f_equal. rewrite Z.add_mod_idemp_l by lia. f_equal. lia.
Qed.

(** *** Quitting *)

(** Which of the loops before the iteration's place have been told. *)
Definition told_before (pc : quit_pc) (before : list nat) (s : quitting) : Prop :=
  match pc with
  | QNext => told s = list_to_set before
  | QLoaded l => exists b, before = b ++ [l] /\ told s = list_to_set b
  | QStored l => exists b, before = b ++ [l] /\ told s = list_to_set before
  | QDangling AtWakeup l => exists b, before = b ++ [l] /\ told s = list_to_set before /\ l ∈ ended s
  | _ => False
  end.

(** Loops end only after they were told, and only the wakeup can be late. *)
Record quit_inv (ls : list nat) (s : quitting) : Prop := {
  qi_place : exists before after, ls = before ++ after /\ to_quit s = map Some after /\
    told_before (quit_at s) before s;
  qi_ended : ended s ⊆ told s
}.

Definition pc_work (pc : quit_pc) : nat := match pc with QLoaded _ => 3 | QStored _ => 1 | _ => 0 end.
Definition quit_work (s : quitting) : nat := 4 * length (to_quit s) + pc_work (quit_at s) + size (told s ∖ ended s).

Lemma quit_step_inv ls s s' : NoDup ls -> quit_step s s' -> quit_inv ls s -> quit_inv ls s'.
Proof.
  intros Hn Hst [(before & after & Hls & Hq & Ht) He].
  destruct Hst as [l rest Ep E|rest Ep E|l Ep|l Ep|l Hd Hl Hne]; try rewrite Ep in Ht; cbn in Ht.
  - rewrite E in Hq. destruct after as [|l' after]; [done|]. injection Hq as -> ->.
    assert (l' ∉ before) as Hl'.
    { rewrite Hls in Hn. apply NoDup_app in Hn as (_ & Hn & _). intros Hin. apply (Hn l' Hin). by left. }
    assert (l' ∉ told s) as Hnt by (rewrite Ht; by rewrite elem_of_list_to_set).
    constructor; cbn; [|done]. exists (before ++ [l']), after. rewrite <- app_assoc. split_and!; [done|done|].
    unfold access. rewrite !bool_decide_false by set_solver. by exists before.
  - rewrite E in Hq. by destruct after.
  - destruct Ht as (b & -> & Ht).
    assert (l ∉ told s) as Hnt.
    { rewrite Ht, elem_of_list_to_set. rewrite Hls in Hn. apply NoDup_app in Hn as (Hn & _).
      apply NoDup_app in Hn as (_ & Hn & _). intros Hin. apply (Hn l Hin). left. }
    constructor; cbn; [|set_solver]. exists (b ++ [l]), after. split_and!; [done|done|].
    unfold access. rewrite bool_decide_false by set_solver. exists b. split; [done|]. cbn. rewrite Ht, list_to_set_app_L. set_solver.
  - destruct Ht as (b & -> & Ht). constructor; cbn; [|done]. exists (b ++ [l]), after. split_and!; [done|done|].
    unfold access. case_bool_decide; cbn; [by exists b|done].
  - constructor; cbn; [|set_solver]. exists before, after. split_and!; [done|done|].
    destruct (quit_at s) as [| | |[]|]; done.
Qed.

Lemma size_tell (l : nat) (t e : gset nat) : (size (({[l]} ∪ t) ∖ e) <= 1 + size (t ∖ e))%nat.
Proof.
  etrans; [apply (subseteq_size _ ({[l]} ∪ (t ∖ e))); set_solver|].
  rewrite size_union_alt, size_singleton. apply le_n_S, subseteq_size. set_solver.
Qed.

Lemma pc_work_access a l gone pc : (pc_work (access a l gone pc) <= pc_work pc)%nat.
Proof. unfold access. case_bool_decide; cbn; lia. Qed.

Lemma quit_step_work s s' : quit_step s s' -> (quit_work s' < quit_work s)%nat.
Proof.
  intros Hst. unfold quit_work. destruct Hst as [l rest Ep E|rest Ep E|l Ep|l Ep|l Hd Hl Hne]; cbn [to_quit quit_at told ended];
    rewrite ?Ep, ?E; cbn [length pc_work].
  - pose proof (pc_work_access AtLoad l (ended s) (if bool_decide (l ∈ told s) then QNext else QLoaded l)).
    destruct (bool_decide (l ∈ told s)); cbn [pc_work] in *; lia.
  - lia.
  - pose proof (pc_work_access AtStore l (ended s) (QStored l)). pose proof (size_tell l (told s) (ended s)). cbn [pc_work] in *. lia.
  - pose proof (pc_work_access AtWakeup l (ended s) QNext). cbn [pc_work] in *. lia.
  - assert (size (told s ∖ ({[l]} ∪ ended s)) < size (told s ∖ ended s))%nat; [|lia].
    apply subset_size. set_solver.
Qed.

Lemma quit_nsteps ls k s s' :
  NoDup ls -> nsteps quit_step k s s' -> quit_inv ls s -> quit_inv ls s' /\ (k + quit_work s' <= quit_work s)%nat.
Proof.
  intros Hn Hr. induction Hr as [s|k s s1 s' Hst Hr IH]; intros H; [split; [done|lia]|].
  destruct (IH (quit_step_inv _ _ _ Hn Hst H)) as [H' Hk]. split; [done|].
  pose proof (quit_step_work _ _ Hst). lia.
Qed.

Lemma quit_start_inv ls : quit_inv ls (quit_start (map Some ls)).
Proof. constructor; [by exists [], ls|set_solver]. Qed.

(** Only the last access of [quit] can find the loop gone. *)
Lemma quit_dangling ls s a l : quit_inv ls s -> quit_at s = QDangling a l -> a = AtWakeup /\ l ∈ ls /\ l ∈ ended s.
Proof.
  intros [(before & after & -> & _ & Ht) _] E. rewrite E in Ht. destruct a; try done. destruct Ht as (b & -> & _ & Hl).
  split; [done|]. split; [set_solver|done].
Qed.

(** The iteration and the threads of the loops come to rest only when all have
    ended, or at a wakeup that came too late. *)
Lemma quit_done ls s :
  quit_inv ls s -> (forall s', ~ quit_step s s') ->
  (exists l, quit_at s = QDangling AtWakeup l) \/ forall l, l ∈ ls -> l ∈ ended s.
Proof.
  intros [(before & after & -> & Hq & Ht) _] Hstuck. destruct (quit_at s) as [|l|l|[] l|] eqn:Ep; try done; try (left; eauto; fail).
  - right. intros l Hl. destruct after as [|l' after].
    + rewrite app_nil_r in Hl. destruct (decide (l ∈ ended s)) as [|Hn]; [done|]. exfalso.
      eapply Hstuck, (quit_end s l); [by rewrite Ep| |done]. rewrite Ht. by apply elem_of_list_to_set.
    + exfalso. by eapply Hstuck, (quit_load s l' (map Some after)).
  - exfalso. by eapply Hstuck, quit_store.
  - exfalso. by eapply Hstuck, quit_wakeup.
Qed.

Section serving.
Context (w : EventLoopWrap) (idle : Z).
Let loops : list nat := m_loopThreadList (wrap_pool w).
Context (Hw : wrap_quit w = true) (Hi : good_idle idle) (Hp : pool_ok (wrap_pool w))
  (Hne : loops <> []) (Hsz : Z.of_nat (length loops) < size_max).

Lemma serve_listener_ok reg :
  exists s, serve_listener w (TcpServer_new idle None false) reg = Ok (reg ++ map Some (getEventLoop :: loops), s) /\
    accepting s = true /\ m_loopPoolPtr s = Some (wrap_pool w).
Proof using Hw Hi Hp Hne Hsz.
  destruct (server_start_ok idle (Some (wrap_pool w)) false Hi) as (s & E & _ & Ha & Hpl & _).
  { intros p [= <-]. by split. }
  exists s. unfold serve_listener. rewrite Hw, bool_decide_false by done. cbn [negb assert mbind res_bind TcpServer_new m_started].
  change (set_pool (Some (wrap_pool w)) (TcpServer_new idle None false)) with (TcpServer_new idle (Some (wrap_pool w)) false).
  rewrite E. cbn [mbind res_bind]. by rewrite pool_registers_spec.
Qed.

Lemma serve_dialers_ok n reg :
  exists ls w', serve_dialers w n reg = Ok (reg ++ map Some loops, ls, w') /\ length ls = n /\
    forall j, (j < n)%nat -> ls !! j = loops !! Z.to_nat ((m_loopIndex (wrap_pool w) + Z.of_nat j) mod Z.of_nat (length loops)).
Proof using Hw Hp Hne Hsz.
  unfold serve_dialers. rewrite Hw, pool_registers_spec. unfold loops in *. destruct (wrap_pool w) as [ts i] eqn:Ew. cbn [m_loopThreadList m_loopIndex] in *.
  destruct (start_dialers_spec n ts i Hne (Hp Hne) Hsz) as (ls & i' & -> & Hl & _ & Hj). cbn [mbind res_bind].
  by eexists ls, _.
Qed.
End serving.



(** One call of [quit] on a loop that is there and has not been told. *)
Lemma tell_one l rest t e :
  l ∉ e -> l ∉ t ->
  rtc quit_step (mkQuitting (Some l :: rest) QNext t e) (mkQuitting rest (QStored l) ({[l]} ∪ t) e).
Proof.
  intros He Ht. eapply rtc_l; [by apply (quit_load _ l)|]. cbn [told ended quit_at to_quit]. unfold access at 1.
  rewrite !bool_decide_false by done.
  eapply rtc_l; [by apply (quit_store _ l)|]. cbn [told ended quit_at to_quit]. unfold access. rewrite bool_decide_false by done.
  apply rtc_refl.
Qed.

(** The iteration tells distinct loops up to a place, while none ends. *)
Lemma tell_all before after t e :
  NoDup before -> (forall l, l ∈ before -> (l ∉ e) /\ (l ∉ t)) ->
  rtc quit_step (mkQuitting (map Some before ++ after) QNext t e) (mkQuitting after QNext (list_to_set before ∪ t) e).
Proof.
  intros Hn. revert t. induction Hn as [|l before Hl Hn IH]; intros t He; cbn [map app].
  - replace (list_to_set [] ∪ t) with t by set_solver. apply rtc_refl.
  - destruct (He l ltac:(left)) as [He1 He2]. etrans; [by apply tell_one|].
    eapply rtc_l; [by apply (quit_wakeup _ l)|]. cbn [told ended quit_at to_quit]. unfold access. rewrite bool_decide_false by done.
    replace (list_to_set (l :: before) ∪ t) with (list_to_set before ∪ ({[l]} ∪ t)) by set_solver.
    apply IH. intros x Hx. destruct (He x ltac:(by right)). split; [done|].
    apply not_elem_of_union. split; [|done]. intros ->%elem_of_singleton. done.
Qed.

(** The flaw of [quit]: the loop is told, ends, and is woken up after that. *)
Lemma wakeup_can_dangle l rest :
  exists q, rtc quit_step (quit_start (Some l :: rest)) q /\ quit_at q = QDangling AtWakeup l.
Proof.
  eexists. split.
  - etrans; [apply (tell_one l); set_solver|].
    eapply rtc_l; [apply (quit_end _ l); [done|cbn; set_solver..]|]. cbn [told ended quit_at to_quit].
    eapply rtc_l; [by apply (quit_wakeup _ l)|]. cbn [told ended quit_at to_quit]. apply rtc_refl.
  - cbn [quit_at]. unfold access. by rewrite bool_decide_true by set_solver.
Qed.

(** *** A loop that is registered twice *)

Lemma registered_twice_dangles a l b c :
  NoDup (a ++ l :: b) ->
  exists q, rtc quit_step (quit_start (map Some (a ++ l :: b ++ l :: c))) q /\ quit_at q = QDangling AtLoad l.
Proof.
  intros Hn. replace (a ++ l :: b ++ l :: c) with ((a ++ l :: b) ++ l :: c) by (rewrite <- app_assoc; done).
  rewrite map_app. eexists. split.
  - etrans; [apply (tell_all (a ++ l :: b)); [done|set_solver]|].
    eapply rtc_l; [apply (quit_end _ l); [done|cbn; set_solver..]|]. cbn [told ended quit_at to_quit].
    eapply rtc_l; [by apply (quit_load _ l)|]. cbn [told ended quit_at to_quit]. apply rtc_refl.
  - cbn [quit_at]. unfold access. by rewrite bool_decide_true by set_solver.
Qed.

(** A wrapper that serves twice registers the loops of its pool twice, and
    [QuitAllEventLoop] can then call [quit] on a loop that the first of the two
    calls has ended. *)
Theorem serving_twice_dangles w idle n :
  wrap_quit w = true -> good_idle idle -> pool_ok (wrap_pool w) -> m_loopThreadList (wrap_pool w) <> [] ->
  Z.of_nat (length (m_loopThreadList (wrap_pool w))) < size_max ->
  NoDup (getEventLoop :: m_loopThreadList (wrap_pool w)) ->
  exists reg s reg' ls w' q l, serve_listener w (TcpServer_new idle None false) [] = Ok (reg, s) /\
    serve_dialers w n reg = Ok (reg', ls, w') /\ rtc quit_step (quit_start reg') q /\ quit_at q = QDangling AtLoad l.
Proof.
  intros Hw Hi Hp Hne Hsz Hn. destruct (serve_listener_ok w idle Hw Hi Hp Hne Hsz []) as (s & E & _).
  destruct (serve_dialers_ok w Hw Hp Hne Hsz n (map Some (getEventLoop :: m_loopThreadList (wrap_pool w)))) as (ls & w' & E' & _).
  destruct (m_loopThreadList (wrap_pool w)) as [|l rest] eqn:El; [done|].
  destruct (registered_twice_dangles [getEventLoop] l rest rest Hn) as (q & Hr & Hd).
  eexists _, s, _, ls, w', q, l. split; [exact E|]. split; [exact E'|]. rewrite <- map_app. by split.
Qed.

Lemma serving_twice_dangles_witness :
  exists reg s reg' ls w' q l, serve_listener (mkWrap true (pool_new [1]%nat)) (TcpServer_new 0 None false) [] = Ok (reg, s) /\
    serve_dialers (mkWrap true (pool_new [1]%nat)) 1 reg = Ok (reg', ls, w') /\ rtc quit_step (quit_start reg') q /\
    quit_at q = QDangling AtLoad l.
Proof. apply serving_twice_dangles; [reflexivity|by left|done|discriminate|by vm_compute|repeat constructor; set_solver]. Defined.

(** Dialers get the loops of the pool in turn, from its index on. *)
Theorem dialers_spread w n reg :
  wrap_quit w = true -> pool_ok (wrap_pool w) -> m_loopThreadList (wrap_pool w) <> [] ->
  Z.of_nat (length (m_loopThreadList (wrap_pool w))) < size_max ->
  exists ls w', serve_dialers w n reg = Ok (reg ++ map Some (m_loopThreadList (wrap_pool w)), ls, w') /\ length ls = n /\
    forall j, (j < n)%nat -> ls !! j = m_loopThreadList (wrap_pool w) !!
      Z.to_nat ((m_loopIndex (wrap_pool w) + Z.of_nat j) mod Z.of_nat (length (m_loopThreadList (wrap_pool w)))).
Proof. intros Hw Hp Hne Hsz. by apply serve_dialers_ok. Qed.

(** A pool without threads serves nothing: both calls fail an assertion. *)
Lemma empty_pool_fails q s reg n i :
  serve_listener (mkWrap q (mkPool [] i)) s reg = Fail AssertFailed /\
  serve_dialers (mkWrap q (mkPool [] i)) (S n) reg = Fail AssertFailed.
Proof. done. Qed.

(** ** [Listener::bind] and [Dialer::bind] *)

(** Which of the members a type has ([trait.h]). *)
Record traits := mkTraits { has_msg : bool; has_conn : bool; has_write_complete : bool; has_conn_error : bool }.

(** The callbacks that are set; [BadConnection] is a lambda that calls
    [onConnection] with a buffer too, which no type with the trait takes. *)
Inductive binding := OnMessage | OnConnection | OnWriteComplete | OnConnectionError | BadConnection.
#[global] Instance binding_eq_dec : EqDecision binding.
Proof. solve_decision. Defined.

(** The overloads of [Listener::bind]: the condition of [enable_if], and what the
    body sets. *)
Definition listener_overloads (t : traits) : list (bool * list binding) :=
  let m := has_msg t in let c := has_conn t in let w := has_write_complete t in
  [(m && c && w, [OnMessage; OnConnection; OnWriteComplete]);
   (m && c && negb w, [OnMessage; OnConnection]);
   (m && negb c && w, [OnMessage; OnWriteComplete]);
   (negb m && c && w, [BadConnection; OnWriteComplete]);
   (m && negb c && negb w, [OnMessage]);
   (c && negb m && negb w, [OnConnection]);
   (w && negb m && negb c, [OnWriteComplete])].

(** A call is valid when one overload is enabled. *)
Definition Listener_bind (t : traits) : option (list binding) :=
  match filter (fun o => fst o = true) (listener_overloads t) with
  | [(_, bs)] => Some bs
  | _ => None
  end.

Definition Dialer_bind (t : traits) : option (list binding) :=
  if has_msg t || has_conn t || has_conn_error t || has_write_complete t then
    Some ((if has_msg t then [OnMessage] else []) ++ (if has_conn t then [OnConnection] else []) ++
          (if has_conn_error t then [OnConnectionError] else []) ++ (if has_write_complete t then [OnWriteComplete] else []))
  else None.

(** The seven overloads do what the one function of the dialer does, except for
    a type with [onConnection] and [onWriteComplete] but without [onMessage]. *)
Theorem listener_binds_like_dialer t :
  has_conn_error t = false ->
  Listener_bind t = if negb (has_msg t) && has_conn t && has_write_complete t
                    then Some [BadConnection; OnWriteComplete] else Dialer_bind t.
Proof. destruct t as [[] [] [] []]; intros; simplify_eq; reflexivity. Qed.

Lemma listener_binds_like_dialer_witness :
  Listener_bind (mkTraits true true false false) = Dialer_bind (mkTraits true true false false).
Proof. apply (listener_binds_like_dialer (mkTraits true true false false)). reflexivity. Defined.

(** ** [Dialer] before C++17 *)

Section registered.
Context {T : Type}.

(** [RegisteredEntity]: a static variable, initialised by the first call with
    its argument; [slot] is [None] before. *)
Definition RegisteredEntity (entity : option T) (slot : option (option T)) : option T * option (option T) :=
  match slot with
  | Some instance => (instance, slot)
  | None => (entity, Some entity)
  end.

(** [Register], with the object it makes. *)
Definition dialer_Register (made : T) (slot : option (option T)) : option T * option (option T) :=
  RegisteredEntity (Some made) slot.

(** [bindOnMessage] and its like: the object of the callback that is set, if one is. *)
Definition bindOn (slot : option (option T)) : option T * option (option T) := RegisteredEntity None slot.

(** The first object that is registered is the only one; and after a [bindOn...]
    that came too early no object can be registered any more. *)
Lemma registered_once a b :
  (bindOn (dialer_Register b (dialer_Register a None).2).2).1 = Some a /\
  (bindOn (dialer_Register b (bindOn None).2).2).1 = None.
Proof. done. Qed.
End registered.
