(* ===== verification/SignalTask.v ===== *)
(** * Signals: [netpoll/wrap/signal_task.{h,cc}]

    Tasks that a signal handler runs before it ends the process, and what that
    means for the way the documentation proposes to end a program: a task that
    calls [QuitAllEventLoop] ([Wrap]).

    - The handler runs in a thread that it interrupts, here the one of loop
      [own], which therefore does nothing else until the handler is done; the
      threads of the other loops go on meanwhile.
    - The first [Register] counts ([std::call_once]).  That handlers may only
      call a few functions of the library is left aside. *)

From stdpp Require Import gmap fin_sets.
From S2P Require Import Prelude TimingWheel EventLoopThread TcpServer Wrap.

Inductive task := QuitAll | UserTask (n : nat).

#[global] Instance task_eq_dec : EqDecision task.
Proof. solve_decision. Defined.

Record SignalTask := mkSignals {
  flag : bool;                       (* of [call_once] *)
  handled : gset Z;                  (* the signals with [HandleTask] *)
  instance : list task
}.

Definition signals_new : SignalTask := mkSignals false ∅ [].

Definition Add (t : task) (s : SignalTask) : SignalTask := mkSignals (flag s) (handled s) (instance s ++ [t]).

Definition Register (sigs : list Z) (s : SignalTask) : SignalTask :=
  if flag s then s else mkSignals true (list_to_set sigs ∪ handled s) (instance s).

(** What a signal starts: the tasks of the handler, or what the system does. *)
Definition raise (sig : Z) (s : SignalTask) : option (list task) :=
  if bool_decide (sig ∈ handled s) then Some (instance s) else None.

(** ** [HandleTask] *)

Record handling := mkHandling {
  rest : list task;             (* what the loop over the tasks has before it *)
  ran : list task;              (* what it has called *)
  loops : quitting;             (* the loops, and the place in [QuitAllEventLoop] *)
  aborted : bool
}.

Definition with_loops (q : quitting) (h : handling) : handling := mkHandling (rest h) (ran h) q (aborted h).

Section handler.
Variable reg : list (option nat).      (* [allEventLoop()] *)
Variable own : nat.

Definition HandleTask_start (ts : list task) : handling := mkHandling ts [] (quit_start []) false.

(** What a task begins with. *)
Definition call_task (t : task) (q : quitting) : quitting :=
  match t with
  | QuitAll => mkQuitting reg QNext (told q) (ended q)
  | UserTask _ => q
  end.

(** The loop over the tasks has the thread. *)
Definition between_tasks (h : handling) : Prop := quit_at (loops h) = QNext /\ to_quit (loops h) = [].

Inductive handler_step (h : handling) : handling -> Prop :=
  | h_task t ts : aborted h = false -> between_tasks h -> rest h = t :: ts ->
      handler_step h (mkHandling ts (ran h ++ [t]) (call_task t (loops h)) false)
  (* [QuitAllEventLoop] goes on, or the thread of another loop leaves it *)
  | h_quit q : aborted h = false -> quit_step (loops h) q -> own ∉ ended q ->
      handler_step h (with_loops q h)
  | h_abort : aborted h = false -> between_tasks h -> rest h = [] ->
      handler_step h (mkHandling [] (ran h) (loops h) true).

(** ** Lemmas *)

Definition task_cost (t : task) : nat := match t with QuitAll => 1 + 4 * length reg | UserTask _ => 1 end.

Definition handler_work (h : handling) : nat :=
  list_sum (map task_cost (rest h)) + quit_work (loops h) + (if aborted h then 0 else 1).

Lemma handler_step_work h h' : handler_step h h' -> (handler_work h' < handler_work h)%nat.
Proof.
  unfold handler_work. intros [t ts Ha [Hp Hq] Hr|q Ha Hs _|Ha [Hp Hq] Hr]; cbn [rest loops aborted with_loops].
  - unfold quit_work. rewrite Ha, Hp, Hq, Hr. cbn [map list_sum foldr length]. change (foldr Nat.add 0%nat (map task_cost ts)) with (list_sum (map task_cost ts)).
    destruct t; cbn [call_task task_cost to_quit quit_at told ended pc_work]; rewrite ?Hp, ?Hq; cbn [length pc_work]; lia.
  - rewrite Ha. pose proof (quit_step_work _ _ Hs). lia.
  - rewrite Ha, Hr. cbn. lia.
Qed.

(** The registered loops that were not told yet are before the iteration. *)
Definition tells (q : quitting) (l : nat) : Prop :=
  l ∈ told q \/ Some l ∈ to_quit q \/ quit_at q = QLoaded l \/ defined (quit_at q) = false.

Record handler_inv (ts : list task) (h : handling) : Prop := {
  hi_order : ran h ++ rest h = ts;
  hi_own : own ∉ ended (loops h);
  hi_told : QuitAll ∈ ran h -> forall l, Some l ∈ reg -> tells (loops h) l;
  hi_null : None ∉ reg -> (None ∉ to_quit (loops h)) /\ quit_at (loops h) <> QNull;
  hi_abort : aborted h = true -> rest h = [] /\ between_tasks h
}.

Lemma tells_step q q' l : quit_step q q' -> tells q l -> tells q' l.
Proof.
  unfold tells. intros [l' ls Ep Eq|ls Ep Eq|l' Ep|l' Ep|l' Ed Ht Hn] H; cbn [told ended to_quit quit_at]; unfold access.
  - rewrite Ep, Eq in H. destruct H as [?|[[[= ->]|?]%elem_of_cons|[?|?]]]; auto; try done.
    repeat case_bool_decide; auto.
  - auto.
  - rewrite Ep in H. destruct H as [?|[?|[[= ->]|?]]]; auto; try done; left; set_solver.
  - rewrite Ep in H. naive_solver.
  - done.
Qed.

Lemma none_step q q' :
  quit_step q q' -> (None ∉ to_quit q) /\ quit_at q <> QNull -> (None ∉ to_quit q') /\ quit_at q' <> QNull.
Proof.
  intros [l' ls Ep Eq|ls Ep Eq|l' Ep|l' Ep|l' Ed Ht Hn] [H1 H2]; cbn [told ended to_quit quit_at]; unfold access;
    repeat case_bool_decide; split; try done; try (rewrite Eq in H1; set_solver).
Qed.

Lemma handler_step_inv ts h h' : handler_inv ts h -> handler_step h h' -> handler_inv ts h'.
Proof.
  intros [Ho Hw Ht Hn Hb] [t ts' Ha [Hp Hq] Hr|q Ha Hs He|Ha Hq Hr].
  - constructor; cbn [rest ran loops aborted]; try done.
    + rewrite <- Ho, Hr. by rewrite <- app_assoc.
    + by destruct t.
    + intros [HQ|HQ%list_elem_of_singleton]%elem_of_app l Hl.
      * destruct (Ht HQ l Hl) as [?|[Hbad|[Hbad|Hbad]]]; [|rewrite Hq in Hbad; by apply elem_of_nil in Hbad|congruence|by rewrite Hp in Hbad].
        left. by destruct t.
      * subst t. right. by left.
    + intros Hnone. destruct t; [done|]. cbn. by apply Hn.
  - constructor; cbn [with_loops rest ran loops aborted]; try done.
    + intros HQ x Hx. eapply tells_step; eauto.
    + intros Hnone. eapply none_step; eauto.
    + congruence.
  - constructor; cbn [rest ran loops aborted]; try done. by rewrite <- Ho, Hr.
Qed.

Lemma handler_nsteps ts k h h' :
  handler_inv ts h -> nsteps handler_step k h h' -> handler_inv ts h' /\ (k + handler_work h' <= handler_work h)%nat.
Proof.
  intros Hi Hs. revert Hi. induction Hs as [h|k h h1 h2 H1 _ IH]; intros Hi; [split; [done|lia]|].
  destruct (IH (handler_step_inv ts h h1 Hi H1)). pose proof (handler_step_work h h1 H1). split; [done|lia].
Qed.

Lemma handler_stuck ts h :
  handler_inv ts h -> None ∉ reg -> (forall h', ~ handler_step h h') -> defined (quit_at (loops h)) = true ->
  aborted h = true /\ ran h = ts /\ between_tasks h.
Proof.
  intros [Ho Hw Ht Hn Hb] Hnone Hst Hdef. destruct (aborted h) eqn:Ha.
  - destruct (Hb eq_refl) as [Hr Hq]. split_and!; [done| |apply Hq..]. by rewrite <- Ho, Hr, app_nil_r.
  - exfalso. destruct (quit_at (loops h)) as [|l|l|a l|] eqn:Hp; try done.
    + destruct (to_quit (loops h)) as [|[l|] ls] eqn:Hq.
      * destruct (rest h) as [|t ts'] eqn:Hr; eapply Hst; [by apply h_abort|by eapply h_task].
      * eapply Hst, h_quit; [done|by eapply quit_load|done].
      * apply Hn in Hnone as [Hbad _]. apply Hbad. by left.
    + eapply Hst, h_quit; [done|by eapply quit_store|done].
    + eapply Hst, h_quit; [done|by eapply quit_wakeup|done].
Qed.
End handler.

(** Registering again does nothing: later signals keep their default. *)
Lemma second_register_ignored sigs sigs' ts sig :
  raise sig (Register sigs' (foldr Add (Register sigs signals_new) ts)) =
  if bool_decide (sig ∈ sigs) then Some (rev ts) else None.
Proof.
  assert (foldr Add (Register sigs signals_new) ts = mkSignals true (list_to_set sigs ∪ ∅) (rev ts)) as ->.
  { induction ts as [|t ts IH]; [done|]. cbn [foldr]. rewrite IH. reflexivity. }
  unfold Register, raise. cbn. case_bool_decide as H1; case_bool_decide as H2; set_solver.
Qed.

(** ** Properties *)

(** A signal ends the process and not the loops.  The handler runs the tasks
    that were added, each once and in their order, and after a bounded number
    of steps of all threads the process aborts, unless a call of [quit] has
    used a loop that was gone.  With [QuitAllEventLoop] among
    the tasks every registered loop has then been told to quit; but the loop of
    the thread that the signal interrupted has not ended, in any interleaving,
    so that its [serve] does not return and nothing is destroyed in order. *)
Theorem signal_ends_process_not_loops reg own ts sig s k h :
  raise sig s = Some ts -> None ∉ reg ->
  nsteps (handler_step reg own) k (HandleTask_start ts) h ->
  (k <= handler_work reg (HandleTask_start ts))%nat /\ (own ∉ ended (loops h)) /\
  ((forall h', ~ handler_step reg own h h') -> defined (quit_at (loops h)) = true ->
     aborted h = true /\ ran h = instance s /\
     (QuitAll ∈ instance s -> forall l, Some l ∈ reg -> l ∈ told (loops h))).
Proof.
  intros E Hn Hs. assert (ts = instance s) as -> by (unfold raise in E; case_bool_decide; congruence).
  assert (handler_inv reg own (instance s) (HandleTask_start (instance s))) as Hi.
  { constructor; cbn; try done; set_solver. }
  destruct (handler_nsteps reg own _ _ _ _ Hi Hs) as [H Hk].
  split; [lia|]. split; [apply (hi_own _ _ _ _ H)|]. intros Hst Hdef.
  destruct (handler_stuck reg own _ _ H Hn Hst Hdef) as (Ha & Hr & Hp & Hq). split_and!; [done|done|].
  intros HQ l Hl. rewrite <- Hr in HQ. destruct (hi_told _ _ _ _ H HQ l Hl) as [?|[Hin|[Hin|Hin]]]; [done|..].
  - rewrite Hq in Hin. by apply elem_of_nil in Hin.
  - congruence.
  - by rewrite Hp in Hin.
Qed.

(** The example of the documentation, with the loops of a listener: signal 2
    in the thread that serves. *)
Lemma signal_ends_process_not_loops_witness :
  forall k h, nsteps (handler_step [Some 0; Some 1]%nat getEventLoop) k (HandleTask_start [QuitAll]) h ->
    (k <= 10)%nat /\ getEventLoop ∉ ended (loops h).
Proof.
  intros k h Hs.
  destruct (signal_ends_process_not_loops [Some 0; Some 1]%nat getEventLoop [QuitAll] 2
    (Add QuitAll (Register [2; 15] signals_new)) k h) as (Hk & Ho & _).
  - reflexivity.
  - intros Hin. repeat (apply elem_of_cons in Hin as [Hin|Hin]; [discriminate|]). by apply elem_of_nil in Hin.
  - exact Hs.
  - split; [exact Hk|exact Ho].
Defined.
