(* ===== verification/Setup.v ===== *)
(** * Callbacks: [netpoll/net/tcp_server.h], [netpoll/net/tcp_client.{h,cc}], [wrap/]

    Which functions run for a connection: the setters of servers and clients,
    what [newConnection] gives to a connection, and what [bind] of the wrappers
    sets; and the client that is made without a loop, for a [Dialer].

    - A server copies its message callback into each connection, but installs
      lambdas that read the other two callbacks of the server when they are
      called.  A client copies all three.
    - A message callback works on the readable bytes of the connection: it
      leaves what it does not retrieve.  The others are just functions. *)

From S2P Require Import Prelude Connector TcpClient Wrap.

Section callbacks.
(** The functions a user can give: for messages, and for everything else. *)
Context {F : Type}.

Definition message_callback : Type := list byte -> list byte.

(** [retrieveAll]: the default of servers and of clients that are made with a loop. *)
Definition defaultMessageCallback : message_callback := fun _ => [].

Record callbacks := mkCallbacks {
  m_messageCallback : option message_callback;
  m_connectionCallback : option F;
  m_writeCompleteCallback : option F;
  m_connectionErrorCallback : option F
}.

Inductive set_callback :=
  | SetMessage (f : message_callback)
  | SetConnection (f : F)
  | SetWriteComplete (f : F)
  | SetConnectionError (f : F).          (* clients only *)

Definition set_one (cbs : callbacks) (s : set_callback) : callbacks :=
  match s with
  | SetMessage f => mkCallbacks (Some f) (m_connectionCallback cbs) (m_writeCompleteCallback cbs) (m_connectionErrorCallback cbs)
  | SetConnection f => mkCallbacks (m_messageCallback cbs) (Some f) (m_writeCompleteCallback cbs) (m_connectionErrorCallback cbs)
  | SetWriteComplete f => mkCallbacks (m_messageCallback cbs) (m_connectionCallback cbs) (Some f) (m_connectionErrorCallback cbs)
  | SetConnectionError f => mkCallbacks (m_messageCallback cbs) (m_connectionCallback cbs) (m_writeCompleteCallback cbs) (Some f)
  end.
Definition set_all (l : list set_callback) (cbs : callbacks) : callbacks := foldl set_one cbs l.

Definition server_callbacks : callbacks := mkCallbacks (Some defaultMessageCallback) None None None.
(** [defaultConnectionCallback] only writes a trace: [trace]. *)
Definition client_callbacks (trace : F) : callbacks := mkCallbacks (Some defaultMessageCallback) (Some trace) None None.
Definition loopless_client_callbacks : callbacks := mkCallbacks None None None None.

(** ** Connections *)

(** A callback of a connection: a copy, or a lambda that reads the server. *)
Inductive slot := Empty | Copy (f : F) | Reads.

Record installed := mkInstalled {
  i_message : option message_callback;
  i_connection : slot;
  i_writeComplete : slot
}.

Definition slot_of (o : option F) : slot := match o with Some f => Copy f | None => Empty end.

(** [TcpServer::newConnection] and [TcpClient::newConnection]. *)
Definition server_install (cbs : callbacks) : installed :=
  mkInstalled (m_messageCallback cbs)
    (match m_connectionCallback cbs with Some _ => Reads | None => Empty end)
    (match m_writeCompleteCallback cbs with Some _ => Reads | None => Empty end).
Definition client_install (cbs : callbacks) : installed :=
  mkInstalled (m_messageCallback cbs) (slot_of (m_connectionCallback cbs)) (slot_of (m_writeCompleteCallback cbs)).

(** What runs, with [current] what the server has now. *)
Definition call_slot (current : option F) (s : slot) : option F :=
  match s with Empty => None | Copy f => Some f | Reads => current end.

(** [handleRead] with a chunk of input: the readable bytes afterwards. *)
Definition receive (i : installed) (buffer chunk : list byte) : list byte :=
  match i_message i with Some f => f (buffer ++ chunk) | None => buffer ++ chunk end.
Definition receive_all (i : installed) (chunks : list (list byte)) : list byte := foldl (receive i) [] chunks.

(** ** Lemmas *)

Definition last_connection (l : list set_callback) : option F :=
  last (omap (fun s => match s with SetConnection f => Some f | _ => None end) l).
Definition last_message (l : list set_callback) : option message_callback :=
  last (omap (fun s => match s with SetMessage f => Some f | _ => None end) l).

Lemma set_all_snoc l s cbs : set_all (l ++ [s]) cbs = set_one (set_all l cbs) s.
Proof. unfold set_all. by rewrite foldl_app. Qed.

Lemma set_all_message l cbs :
  m_messageCallback (set_all l cbs) = match last_message l with Some f => Some f | None => m_messageCallback cbs end.
Proof.
  induction l as [|s l IH] using rev_ind; [done|]. rewrite set_all_snoc. unfold last_message in *.
  rewrite omap_app. destruct s; cbn [set_one m_messageCallback omap list_omap]; rewrite ?last_snoc, ?app_nil_r; done.
Qed.

Lemma set_all_connection l cbs :
  m_connectionCallback (set_all l cbs) = match last_connection l with Some f => Some f | None => m_connectionCallback cbs end.
Proof.
  induction l as [|s l IH] using rev_ind; [done|]. rewrite set_all_snoc. unfold last_connection in *.
  rewrite omap_app. destruct s; cbn [set_one m_connectionCallback omap list_omap]; rewrite ?last_snoc, ?app_nil_r; done.
Qed.

(** ** Properties *)

(** Setters before and after a connection is made.  A connection of a
    server keeps the message callback that was set last when it was accepted;
    its connection callback is the one that is set last when it is called, but
    only if there was one when the connection was accepted.  A connection of a
    client keeps both. *)
Theorem callbacks_of_connections before after trace :
  let server := set_all before server_callbacks in
  let client := set_all before (client_callbacks trace) in
  i_message (server_install server) = Some (default defaultMessageCallback (last_message before)) /\
  call_slot (m_connectionCallback (set_all after server)) (i_connection (server_install server)) =
    match last_connection before with
    | Some f => Some (default f (last_connection after))
    | None => None
    end /\
  i_message (client_install client) = Some (default defaultMessageCallback (last_message before)) /\
  call_slot (m_connectionCallback (set_all after client)) (i_connection (client_install client)) =
    Some (default trace (last_connection before)).
Proof.
  cbn zeta. unfold server_install, client_install. cbn [i_message i_connection].
  rewrite !set_all_message, !set_all_connection. split_and!.
  - by destruct (last_message before).
  - cbn [m_connectionCallback server_callbacks]. destruct (last_connection before); [|done]. cbn.
    by destruct (last_connection after).
  - by destruct (last_message before).
  - cbn [m_connectionCallback client_callbacks]. by destruct (last_connection before).
Qed.

(** Input without a message callback is never consumed. *)
Lemma receive_all_kept i chunks : i_message i = None -> receive_all i chunks = concat chunks.
Proof.
  intros Hi. unfold receive_all.
  enough (forall b, foldl (receive i) b chunks = b ++ concat chunks) as H by apply H.
  induction chunks as [|c chunks IH]; intros b; cbn; [by rewrite app_nil_r|].
  rewrite IH. unfold receive. by rewrite Hi, app_assoc.
Qed.

Lemma receive_all_dropped i chunks : i_message i = Some defaultMessageCallback -> receive_all i chunks = [].
Proof.
  intros Hi. unfold receive_all. induction chunks as [|c chunks IH]; cbn; [done|]. unfold receive at 2. by rewrite Hi.
Qed.

(** ** [Dialer::bind] *)

(** The setters that a call of [bind] makes, for an object with these members. *)
Definition bound (msg : message_callback) (other : binding -> F) (b : binding) : set_callback :=
  match b with
  | OnMessage => SetMessage msg
  | OnConnectionError => SetConnectionError (other b)
  | OnWriteComplete => SetWriteComplete (other b)
  | OnConnection | BadConnection => SetConnection (other b)
  end.

(** A client that is made with a loop drops what nobody asked for.  That of
    a [Dialer], which is bound to a type without [onMessage], keeps everything
    the server ever sends. *)
Theorem dialer_without_onMessage_keeps_input t msg other bs trace chunks :
  has_msg t = false -> Dialer_bind t = Some bs ->
  receive_all (client_install (set_all (map (bound msg other) bs) loopless_client_callbacks)) chunks = concat chunks /\
  receive_all (client_install (set_all (map (bound msg other) bs) (client_callbacks trace))) chunks = [].
Proof.
  intros Ht Hb.
  assert (last_message (map (bound msg other) bs) = None) as Hm.
  { unfold Dialer_bind in Hb. rewrite Ht in Hb. destruct (_ || _); [|done]. injection Hb as <-.
    by destruct (has_conn t), (has_conn_error t), (has_write_complete t). }
  split; [apply receive_all_kept|apply receive_all_dropped]; cbn [client_install i_message]; by rewrite set_all_message, Hm.
Qed.
End callbacks.
Arguments callbacks : clear implicits.

Lemma dialer_without_onMessage_keeps_input_witness :
  receive_all (client_install (set_all (map (bound (fun b => b) (fun _ => tt)) [OnConnection]) loopless_client_callbacks)) [[Byte.x61]; [Byte.x62]] = [Byte.x61; Byte.x62].
Proof.
  apply (dialer_without_onMessage_keeps_input (mkTraits false true false false) (fun b => b) (fun _ => tt) [OnConnection] tt [[Byte.x61]; [Byte.x62]]);
    reflexivity.
Defined.

(** ** The client of a [Dialer] *)

Record loopless := mkLoopless { m_loop : option nat; client : TcpClient }.

(** The private constructor, and [TcpClient::setLoop]. *)
Definition loopless_new : loopless := mkLoopless None TcpClient_new.
Definition client_setLoop (l : option nat) (c : loopless) : loopless := mkLoopless l (client c).

Definition loopless_connect (fd : Z) (r : connect_result) (c : loopless) : res loopless :=
  _ ← assert (bool_decide (is_Some (m_loop c)));
  cl ← client_connect fd r (client c); Ok (mkLoopless (m_loop c) cl).

(** How the destructor begins. *)
Definition loopless_destroy (c : loopless) : res loopless :=
  _ ← assert (bool_decide (is_Some (m_loop c))); Ok c.

(** A dialer that is never served fails the assertion of its destructor. *)
Lemma unserved_dialer_aborts : loopless_destroy loopless_new = Fail AssertFailed.
Proof. reflexivity. Qed.

(** With a loop it connects as a client that was made with one. *)
Lemma served_dialer_connects l fd r :
  loopless_connect fd r (client_setLoop (Some l) loopless_new) =
    (cl ← client_connect fd r TcpClient_new; Ok (mkLoopless (Some l) cl)).
Proof. reflexivity. Qed.
