(* ===== verification/ServerConnections.v ===== *)
(** * The server with its connections

    [TcpServer.v] keeps of a connection only its status and whether its channel
    is registered.  Here the server runs with the connections of
    [TcpConnection.v]: each operation that concerns a connection is the
    connection's own, with the user's callbacks, and the close callback leads
    back into the server.

    The first part shows what of a connection the server can see ([polite]),
    the second composes the two and simulates the composition by the server
    of [TcpServer.v], so that its life cycle holds for the real
    connections. *)

From stdpp Require Import gmap fin_sets.
From S2P Require Import Prelude TimingWheel EventLoopThread.
From S2P Require Import TcpConnection TcpServer.

(** ** What the server and the user see *)

Definition is_up (b : bool) (e : event) : bool :=
  match e with EvConnection b' => Bool.eqb b b' | _ => false end.
(** How often the user was told that the connection is up, and down. *)
Definition told (b : bool) (x : conn) : nat := length (filter (fun e => is_up b e = true) (events x)).

Record life := mkLife {
  l_status : ConnStatus; l_reading : bool; l_writing : bool; l_registered : bool; l_up : nat; l_down : nat
}.
Definition life_of (x : conn) : life :=
  mkLife (m_status x) (isReading x) (isWriting x) (registered x) (told true x) (told false x).

(** The flags of the channel fit the status, and the user has been told. *)
Definition life_ok (v : life) : Prop :=
  match l_status v with
  | Connecting => l_reading v = false /\ l_writing v = false /\ l_registered v = false /\ l_up v = 0%nat /\ l_down v = 0%nat
  | Connected | Disconnecting => l_reading v = true /\ l_registered v = true /\ l_up v = 1%nat /\ l_down v = 0%nat
  | Disconnected => l_reading v = false /\ l_writing v = false /\ l_up v = 1%nat /\ l_down v = 1%nat
  end.

(** Nothing happened that concerns the server, except perhaps a [shutdown]. *)
Record polite_life (v v' : life) : Prop := {
  po_status : l_status v' = l_status v \/ l_status v = Connected /\ l_status v' = Disconnecting;
  po_reading : l_reading v' = l_reading v;
  po_registered : l_registered v' = l_registered v;
  po_up : l_up v' = l_up v;
  po_down : l_down v' = l_down v;
  po_writing : is_open (l_status v) = false -> l_writing v' = l_writing v
}.
Definition polite (x x' : conn) : Prop := polite_life (life_of x) (life_of x').

#[global] Instance polite_life_refl : Reflexive polite_life.
Proof. constructor; auto. Qed.
#[global] Instance polite_life_trans : Transitive polite_life.
Proof.
  intros u v w [S1 R1 G1 U1 D1 W1] [S2 R2 G2 U2 D2 W2]. constructor; try congruence.
  - destruct S1 as [E1|[E1 E1']], S2 as [E2|[E2 E2']]; first [left; congruence|right; split; congruence|congruence].
  - intros Ho. rewrite W2, W1; [done|done|]. destruct S1 as [->|[E _]]; [done|]. by rewrite E in Ho.
Qed.

#[global] Instance polite_refl : Reflexive polite.
Proof. intros x. unfold polite. reflexivity. Qed.
#[global] Instance polite_trans : Transitive polite.
Proof. intros x y z. unfold polite. apply transitivity. Qed.

Lemma polite_ok v v' : polite_life v v' -> life_ok v -> life_ok v'.
Proof.
  intros [[S|[S S']] R G U D W]; unfold life_ok; rewrite ?S, ?S', R, G, U, D; [|done].
  destruct (l_status v); try done; rewrite W by done; done.
Qed.

(** A change that the server cannot see. *)
Lemma polite_eq x x' : life_of x' = life_of x -> polite x x'.
Proof. unfold polite. intros ->. reflexivity. Qed.

Lemma told_log b e x : told b (log e x) = (told b x + if is_up b e then 1 else 0)%nat.
Proof.
  unfold told. cbn. rewrite filter_app, length_app. f_equal. destruct (is_up b e) eqn:E; cbn; rewrite E; done.
Qed.

Lemma log_polite e x : is_up true e = false -> is_up false e = false -> polite x (log e x).
Proof.
  intros E1 E2. apply polite_eq. unfold life_of. cbn [log set_events m_status isReading isWriting registered].
  f_equal; rewrite told_log, ?E1, ?E2; lia.
Qed.

(** Write interest of an open connection. *)
Lemma writing_polite b x : life_ok (life_of x) -> is_open (m_status x) = true ->
  polite x (set_registered true (set_writing b x)).
Proof.
  intros H Ho. assert (registered x = true) as Er.
  { unfold life_ok in H. cbn in H. by destruct (m_status x); [done|done|apply H..]. }
  constructor; cbn; auto. by rewrite Ho.
Qed.

Lemma extendLife_polite now x : polite x (extendLife now x).
Proof. apply polite_eq. unfold extendLife. repeat case_match; reflexivity. Qed.

Lemma writeInLoop_life d x o x' : writeInLoop d x = (o, x') -> life_of x' = life_of x.
Proof.
  unfold writeInLoop, answer. destruct (script x) as [|[n|e] os]; intros [= <- <-]; reflexivity.
Qed.

Lemma enable_polite x : life_ok (life_of x) -> is_open (m_status x) = true ->
  polite x (if isWriting x then x else enableWriting x).
Proof. intros H Ho. destruct (isWriting x); [reflexivity|]. by apply writing_polite. Qed.

(** The same for a state that looks alike. *)
Lemma enable_polite' x y : life_of y = life_of x -> life_ok (life_of x) -> is_open (m_status x) = true ->
  polite x (if isWriting y then y else enableWriting y).
Proof.
  intros E H Ho. pose proof (enable_polite y) as P. unfold polite in *. rewrite E in P. apply P; [done|].
  injection E as Es _ _ _ _ _. by rewrite Es.
Qed.

Lemma open_status x y : life_of y = life_of x -> m_status y = m_status x.
Proof. by intros [= ? _ _ _ _ _]. Qed.

Ltac same_life := first [reflexivity | assumption | (etransitivity; [|eassumption]; reflexivity)].

(** ** Sending *)

Lemma sendFile_kernel_polite rest n x :
  life_ok (life_of x) -> is_open (m_status x) = true -> polite x (sendFile_kernel rest n x).
Proof.
  intros H Ho. unfold sendFile_kernel, answer.
  assert (forall os, polite x (set_fatal true (if isWriting x then disableWriting (set_script os x) else set_script os x))) as Hf.
  { intros os. destruct (isWriting x); [|by apply polite_eq]. apply (writing_polite false x H Ho). }
  destruct (script x) as [|[k|e] os]; [reflexivity| |].
  - cbv zeta. destruct (_ && _); [by apply polite_eq|]. apply enable_polite'; [reflexivity|done|done].
  - case_bool_decide; [by apply polite_eq|]. apply (Hf os).
Qed.

Lemma stream_loop_polite fuel chunks n x y z :
  life_of y = life_of x -> life_ok (life_of x) -> is_open (m_status x) = true ->
  stream_loop fuel chunks n y = Ok z -> polite x z.
Proof.
  revert chunks n y. induction fuel as [|fuel IH]; intros chunks n y E H Ho; cbn [stream_loop].
  - destruct (_ || _); [done|]. intros [= <-]. by apply enable_polite'.
  - destruct (_ || _); [|intros [= <-]; by apply enable_polite'].
    destruct (stream_fetch chunks n y) as [[chunks' n'] y1] eqn:Ef.
    assert (life_of y1 = life_of x) as E1.
    { rewrite <- E. unfold stream_fetch in Ef. case_bool_decide; [|by injection Ef as _ _ <-].
      destruct chunks; injection Ef as _ _ <-; reflexivity. }
    cbv zeta. set (y2 := put_front _ y1). assert (life_of y2 = life_of x) as E2 by (rewrite <- E1; reflexivity).
    clearbody y2. destruct (bool_decide _); [intros [= <-]; by apply enable_polite'|].
    destruct (writeInLoop _ _) as [o y3] eqn:Ew. apply writeInLoop_life in Ew. rewrite E2 in Ew.
    destruct o as [k|e].
    + destruct (_ <? _); [intros [= <-]; apply (enable_polite' x (set_fileBuffer _ y3)); [rewrite <- Ew; reflexivity|done|done]|].
      apply IH; [|done|done]. rewrite <- Ew. reflexivity.
    + destruct (WriteSocketError e); intros [= <-]; [by apply polite_eq|by apply enable_polite'].
Qed.

Lemma sendFileInLoop_polite x z :
  life_ok (life_of x) -> is_open (m_status x) = true -> sendFileInLoop x = Ok z -> polite x z.
Proof.
  intros H Ho. unfold sendFileInLoop. destruct (m_writeBufferList x) as [|[b|r n|ch n] l]; try done.
  - intros [= <-]. by apply sendFile_kernel_polite.
  - by apply stream_loop_polite.
Qed.

Lemma write_front_life b x : life_of (write_front b x) = life_of x.
Proof.
  unfold write_front. destruct (writeInLoop b x) as [[n|e] y] eqn:E; apply writeInLoop_life in E; rewrite <- E;
    repeat case_match; reflexivity.
Qed.

Lemma sendNext_polite x z : life_ok (life_of x) -> is_open (m_status x) = true -> sendNext x = Ok z -> polite x z.
Proof.
  intros H Ho. unfold sendNext. destruct (m_writeBufferList x) as [|[b|r n|ch n] l]; try done.
  - intros [= <-]. apply polite_eq, write_front_life.
  - by apply sendFileInLoop_polite.
  - by apply sendFileInLoop_polite.
Qed.

(** User code that may send, and shut down, but does not close; the close
    callback is the server's and comes with the composition. *)
Record polite_callbacks (cb : callbacks) : Prop := {
  pc_connection x x' : life_ok (life_of x) -> m_connectionCallback cb x = Ok x' -> polite x x';
  pc_recv x x' : life_ok (life_of x) -> m_recvMsgCallback cb x = Ok x' -> polite x x';
  pc_complete x x' : life_ok (life_of x) -> m_writeCompleteCallback cb x = Ok x' -> polite x x';
  pc_high n x x' : life_ok (life_of x) -> m_highWaterMarkCallback cb n x = Ok x' -> polite x x';
  pc_close x : m_closeCallback cb x = Ok x
}.

Lemma writing_open x : life_ok (life_of x) -> isWriting x = true -> is_open (m_status x) = true.
Proof. intros H Hw. unfold life_ok in H. cbn in H. destruct (m_status x); try done; naive_solver congruence. Qed.

Lemma reading_open x : life_ok (life_of x) -> isReading x = true -> is_open (m_status x) = true.
Proof. intros H Hw. unfold life_ok in H. cbn in H. destruct (m_status x); try done; naive_solver congruence. Qed.

Section polite_sending.
Context (cb : callbacks) (Hcb : polite_callbacks cb) (now : Z).
Implicit Types x y z : conn.

Lemma pop_finished_polite x z :
  life_ok (life_of x) -> is_open (m_status x) = true -> pop_finished cb x = Ok z -> polite x z.
Proof.
  intros H Ho. unfold pop_finished. cbv zeta. set (y := set_list _ x).
  assert (life_of y = life_of x) as E by reflexivity.
  destruct (m_writeBufferList y) as [|n l].
  - intros E'. ok_inv. rename x0 into w. set (y1 := log EvWriteComplete (disableWriting y)) in *.
    assert (polite x y1) as P1.
    { etransitivity; [apply (writing_polite false x H Ho)|]. by apply (log_polite EvWriteComplete (disableWriting y)). }
    etransitivity; [exact P1|]. etransitivity; [eapply (pc_complete _ Hcb); [|eassumption]; by eapply polite_ok|].
    case_bool_decide; [|reflexivity]. by apply log_polite.
  - intros E'. apply (sendNext_polite y) in E'; [|done|done]. etransitivity; [by apply polite_eq|exact E'].
Qed.

Lemma handleWrite_polite x z : life_ok (life_of x) -> handleWrite cb now x = Ok z -> polite x z.
Proof.
  intros H. unfold handleWrite. cbv zeta. pose proof (extendLife_polite now x) as P.
  set (y := extendLife now x) in *. clearbody y. pose proof (polite_ok _ _ P H) as Hy.
  destruct (isWriting y) eqn:Ew; [|by intros [= <-]]. pose proof (writing_open y Hy Ew) as Ho.
  intros E. etransitivity; [exact P|].
  destruct (m_writeBufferList y) as [|[b|r n|ch n] l]; [done| | |].
  - destruct (bool_decide _); [by apply pop_finished_polite|]. injection E as <-. apply polite_eq, write_front_life.
  - destruct (n <=? 0); [by apply pop_finished_polite|by apply sendFileInLoop_polite].
  - destruct (n <=? 0); [by apply pop_finished_polite|by apply sendFileInLoop_polite].
Qed.

Lemma queue_rest_polite rest x z :
  life_ok (life_of x) -> is_open (m_status x) = true -> queue_rest cb rest x = Ok z -> polite x z.
Proof.
  intros H Ho. unfold queue_rest. cbv zeta. set (y := match last (m_writeBufferList x) with Some (NBuf b) => _ | _ => _ end).
  assert (life_of y = life_of x) as E by (unfold y; repeat case_match; reflexivity). clearbody y.
  pose proof (enable_polite' x y E H Ho) as P. set (w := if isWriting y then y else enableWriting y) in *. clearbody w.
  assert (forall n u, m_highWaterMarkCallback cb n (log (EvHighWater n) w) = Ok u -> polite x u) as Hh.
  { intros n u Hu. assert (polite x (log (EvHighWater n) w)) as P' by (etransitivity; [exact P|by apply log_polite]).
    etransitivity; [exact P'|]. eapply (pc_high _ Hcb); [|exact Hu]. by eapply polite_ok. }
  intros Hz. destruct (m_highWaterMarkLen w) as [mark|]; [|by injection Hz as <-].
  destruct (last (m_writeBufferList w)) as [[b|r n|ch n]|]; try by injection Hz as <-.
  destruct (mark <? zlen b); [by eapply Hh|by injection Hz as <-].
Qed.

Lemma sendInLoop_polite msg x z : life_ok (life_of x) -> sendInLoop cb now msg x = Ok z -> polite x z.
Proof.
  intros H. unfold sendInLoop. cbv zeta. set (x1 := set_handled _ x).
  case_bool_decide as Hs; [|by intros [= <-]; apply polite_eq].
  pose proof (extendLife_polite now x1) as P. set (y := extendLife now x1) in *.
  assert (polite x y) as Py by exact P. pose proof (polite_ok _ _ Py H) as Hy.
  assert (is_open (m_status y) = true) as Ho.
  { unfold y, extendLife. repeat case_match; cbn; cbn in Hs; by rewrite Hs. }
  clearbody y. clear P. assert (forall o u, (if negb (isWriting y) && bool_decide (m_writeBufferList y = [])
      then writeInLoop msg y else (Done 0, y)) = (o, u) -> life_of u = life_of y) as Hw.
  { intros o u. destruct (_ && _); [apply writeInLoop_life|by intros [= _ <-]]. }
  destruct (if negb (isWriting y) && bool_decide (m_writeBufferList y = []) then writeInLoop msg y else (Done 0, y)) as [o u].
  specialize (Hw o u eq_refl).
  intros E. etransitivity; [exact Py|].
  assert (polite y u) as Pu by (by apply polite_eq).
  assert (forall rest, queue_rest cb rest u = Ok z -> polite y z) as Hq.
  { intros rest Hz. etransitivity; [exact Pu|]. eapply queue_rest_polite; [|by rewrite (open_status y u Hw)|exact Hz].
    by rewrite Hw. }
  destruct o as [n|e]; [|destruct (WriteSocketError e)];
    first [by (injection E as <-; etransitivity; [exact Pu|]; apply polite_eq) |
           destruct (bool_decide _); [by injection E as <-|by eapply Hq]].
Qed.

Lemma pushNode_polite n x z :
  life_ok (life_of x) -> is_open (m_status x) = true -> pushNode n x = Ok z -> polite x z.
Proof.
  intros H Ho. unfold pushNode. cbv zeta. set (y := set_list _ _). assert (life_of y = life_of x) as E by reflexivity.
  destruct (bool_decide _); [|by intros [= <-]; apply polite_eq].
  intros Hz. apply (sendFileInLoop_polite y) in Hz; [|done|done]. etransitivity; [by apply polite_eq|exact Hz].
Qed.

(** Files and streams are only started on an open connection. *)
Definition timely (r : request) x : Prop :=
  match r with RSend _ => True | RNode _ => is_open (m_status x) = true end.

Lemma handle_request_polite r x z :
  life_ok (life_of x) -> timely r x -> handle_request cb now r x = Ok z -> polite x z.
Proof. destruct r as [m|n]; cbn; intros H Ht; [by apply sendInLoop_polite|by apply pushNode_polite]. Qed.
End polite_sending.

(** ** Operations on one connection *)

(** What users, other threads, the socket and the loop do with a connection
    besides opening and closing it. *)
Inductive data_op :=
  | DSend (now : Z) (r : request)          (* a send call in the loop thread *)
  | DSendLocked (now : Z) (msg : list byte)
  | DRemoteBegin                           (* a send call in another thread, its two steps *)
  | DRemoteQueue (r : request)
  | DFunctor (now : Z)                     (* a queued send *)
  | DWritable (now : Z)
  | DKeepAlive
  | DKickOff (timeout : Z)
  | DHighWater (mark : option Z)
  | DSocket (os : list outcome).

Definition data_exec (cb : callbacks) (d : data_op) (x : conn) : res conn :=
  match d with
  | DSend now r => send_in_loop cb now r x
  | DSendLocked now msg => send_in_loop_locked cb now msg x
  | DRemoteBegin => send_remote_begin x
  | DRemoteQueue r => send_remote_queue r x
  | DFunctor now => TcpConnection.run_functor cb now x
  | DWritable now => handleWrite cb now x
  | DKeepAlive => Ok (keepAlive x)
  | DKickOff t => enableKickingOff t x
  | DHighWater mark => Ok (set_highWaterMark mark x)
  | DSocket os => Ok (set_script os x)
  end.

Definition data_ok (d : data_op) (x : conn) : Prop :=
  match d with
  | DSend _ r => timely r x
  | DFunctor _ => match functors x with [] => True | r :: _ => timely r x end
  | DWritable _ => isWriting x = true
  | _ => True
  end.

(** Whether [handleRead] closes. *)
Definition read_closes (r : received) : bool :=
  match r with
  | RError e => negb (bool_decide (e = EPIPE) || bool_decide (e = ECONNRESET)) && negb (bool_decide (e = EAGAIN))
  | RBytes b => bool_decide (b = [])
  end.

Section one_connection.
Context (cb : callbacks) (Hcb : polite_callbacks cb).
Implicit Types x y z : conn.

Lemma enqueue_life r x z : enqueue r x = Ok z -> life_of z = life_of x.
Proof. unfold enqueue. destruct (_ <? _); [|done]. by intros [= <-]. Qed.

Lemma data_exec_polite d x z :
  life_ok (life_of x) -> data_ok d x -> data_exec cb d x = Ok z -> polite x z.
Proof.
  intros H Hd. destruct d as [now r|now m| |r|now|now| |t|m|os]; cbn [data_exec].
  - unfold send_in_loop. cbv zeta. intros E. ok_inv. destruct (_ =? 0).
    + etransitivity; [|eapply (handle_request_polite cb Hcb now r (record_call r x)); [exact H| |exact E]]; [by apply polite_eq|].
      by destruct r.
    + ok_inv. apply enqueue_life in E. apply polite_eq. rewrite E. unfold plusSendNumByGuard in *.
      by case_match; ok_inv.
  - unfold send_in_loop_locked. cbv zeta. destruct (m_sendNumMutex _); [done|]. intros E. ok_inv.
    set (y := set_mutex true (record_call (RSend m) x)) in *. rename x0 into w, H0 into Ew.
    assert (polite y w) as P.
    { destruct (m_sendNum y =? 0); [by eapply (sendInLoop_polite cb Hcb)|]. apply enqueue_life in Ew. by apply polite_eq. }
    etransitivity; [exact P|]. by apply polite_eq.
  - unfold send_remote_begin, plusSendNumByGuard. intros E. ok_inv. apply polite_eq. repeat case_match; by ok_inv.
  - unfold send_remote_queue. intros E. ok_inv. apply enqueue_life in E. by apply polite_eq.
  - unfold TcpConnection.run_functor. cbn in Hd. destruct (functors x) as [|r fs]; [by intros [= <-]|]. intros E. ok_inv.
    rename x0 into w, H0 into Ew. etransitivity.
    + eapply (handle_request_polite cb Hcb now r (set_functors fs x)); [exact H| |exact Ew]. by destruct r.
    + apply polite_eq. unfold minusSendNumByGuard in E. case_match; by ok_inv.
  - by apply handleWrite_polite.
  - intros [= <-]. by apply polite_eq.
  - unfold enableKickingOff. intros E. ok_inv. by apply polite_eq.
  - intros [= <-]. by apply polite_eq.
  - intros [= <-]. by apply polite_eq.
Qed.

Lemma shutdown_polite x : polite x (shutdown x).
Proof.
  unfold shutdown. case_bool_decide as Hs; [|reflexivity]. cbv zeta.
  assert (polite x (set_status Disconnecting x)) as P.
  { constructor; cbn; auto. }
  case_match; [done|]. etransitivity; [exact P|]. by apply log_polite.
Qed.

Definition life_closed (reg : bool) : life := mkLife Disconnected false false reg 1 1.

(** A closed connection keeps what the server sees of it. *)
Lemma closed_polite reg x z : life_of x = life_closed reg -> polite x z -> life_of z = life_closed reg.
Proof.
  unfold polite. intros ->. generalize (life_of z). intros [zs zr zw zg zu zd] [S R G U D W]. cbn in *.
  destruct S as [-> |[? _]]; [|done]. rewrite W by done. by subst.
Qed.

Lemma life_closed_ok reg : life_ok (life_closed reg).
Proof. done. Qed.

Lemma up_life x : life_ok (life_of x) -> m_status x = Connecting ->
  life_of (log (EvConnection true) (set_status Connected (set_registered true (set_reading true x)))) =
    mkLife Connected true false true 1 0.
Proof.
  intros H Hs. unfold life_of. rewrite !told_log. cbn. unfold life_ok in H. cbn in H. rewrite Hs in H.
  destruct H as (_ & -> & _ & U & D). unfold told in *. cbn in *. by rewrite U, D.
Qed.

Lemma established_life x z :
  life_ok (life_of x) -> connectEstablished cb x = Ok z ->
  m_status x = Connecting /\ polite_life (mkLife Connected true false true 1 0) (life_of z).
Proof.
  intros H. unfold connectEstablished. intros E. ok_inv. rewrite bool_decide_eq_true in *. split; [done|].
  rewrite <- (up_life x) by done. eapply (pc_connection _ Hcb); [|exact E]. by rewrite up_life.
Qed.

Lemma down_life x : life_ok (life_of x) -> is_open (m_status x) = true ->
  life_of (log (EvConnection false) (disableAll (set_status Disconnected x))) = life_closed true.
Proof.
  intros H Ho. unfold life_of. rewrite !told_log. cbn. unfold life_ok in H. cbn in H.
  assert (told true x = 1%nat /\ told false x = 0%nat) as [U D] by (destruct (m_status x); try done; naive_solver).
  unfold told in *. cbn in *. by rewrite U, D.
Qed.

Lemma handleClose_life x z :
  life_ok (life_of x) -> is_open (m_status x) = true -> handleClose cb x = Ok z -> life_of z = life_closed true.
Proof.
  intros H Ho. unfold handleClose. cbv zeta. intros E. ok_inv. rename x0 into w, H0 into Ew.
  rewrite (pc_close _ Hcb) in E. injection E as <-. pose proof (down_life x H Ho) as El.
  assert (life_of w = life_closed true) as Elw.
  { eapply closed_polite; [exact El|]. eapply (pc_connection _ Hcb); [|exact Ew]. by rewrite El. }
  eapply closed_polite; [exact Elw|]. by apply log_polite.
Qed.

Lemma set_disconnecting_ok x : life_ok (life_of x) -> is_open (m_status x) = true ->
  life_ok (life_of (set_status Disconnecting x)).
Proof. unfold life_ok. cbn. unfold told. cbn. destruct (m_status x); try done. Qed.

Lemma forceClose_life x z :
  life_ok (life_of x) -> forceClose cb x = Ok z ->
  if is_open (m_status x) then life_of z = life_closed true else z = x.
Proof.
  intros H. unfold forceClose. change (bool_decide _ || bool_decide _) with (is_open (m_status x)).
  destruct (is_open (m_status x)) eqn:Ho; [|by intros [= <-]].
  apply handleClose_life; [by apply set_disconnecting_ok|done].
Qed.

Lemma handleRead_life now r x z :
  life_ok (life_of x) -> is_open (m_status x) = true -> handleRead cb now r x = Ok z ->
  if read_closes r then life_of z = life_closed true else polite x z.
Proof.
  intros H Ho. destruct r as [b|e]; cbn [handleRead read_closes].
  - intros E. ok_inv. rename x0 into w, H0 into Ew. case_bool_decide as Hb.
    + apply handleClose_life in Ew; [|done|done]. ok_inv. eapply closed_polite; [exact Ew|]. apply extendLife_polite.
    + injection Ew as <-. set (w := extendLife now x) in *. pose proof (extendLife_polite now x) as P. fold w in P.
      etransitivity; [exact P|]. etransitivity; [|eapply (pc_recv _ Hcb); [|exact E]].
      * etransitivity; [|by apply log_polite]. by apply polite_eq.
      * eapply polite_ok; [|exact H]. etransitivity; [exact P|]. etransitivity; [|by apply log_polite]. by apply polite_eq.
  - destruct (bool_decide (e = EPIPE) || bool_decide (e = ECONNRESET)); cbn [negb andb]; [by intros [= <-]|].
    destruct (bool_decide (e = EAGAIN)); cbn [negb]; [by intros [= <-]|]. by apply handleClose_life.
Qed.

Lemma destroyed_life x z :
  life_ok (life_of x) -> m_status x = Connected \/ m_status x = Disconnected -> connectDestroyed cb x = Ok z ->
  life_of z = life_closed false.
Proof.
  intros H Hs. unfold connectDestroyed. intros E. ok_inv. rename x0 into w, H0 into Ew.
  assert (life_of w = life_closed (registered w)) as El.
  { case_bool_decide as Hc.
    - assert (life_of w = life_closed true) as E1.
      { eapply closed_polite; [apply (down_life x H); by rewrite Hc|]. eapply (pc_connection _ Hcb); [|exact Ew].
        rewrite (down_life x H) by (by rewrite Hc). done. }
      rewrite E1. by injection E1 as _ _ _ -> _ _.
    - injection Ew as <-. destruct Hs as [Hs|Hs]; [done|]. unfold life_ok in H. cbn in H. rewrite Hs in H.
      unfold life_of. destruct H as (-> & -> & -> & ->). by rewrite Hs. }
  injection El as E1 E2 E3 E4 E5. unfold life_of, life_closed, told in *. cbn. by rewrite E1, E2, E3, E4, E5.
Qed.

(** ** The calls that open and close succeed *)

Definition total_callback : Prop := forall x, life_ok (life_of x) -> is_ok (m_connectionCallback cb x).

Lemma handleClose_total x : total_callback ->
  life_ok (life_of x) -> is_open (m_status x) = true -> is_ok (handleClose cb x).
Proof.
  intros Ht H Ho. unfold handleClose. cbv zeta. destruct (Ht (log (EvConnection false) (disableAll (set_status Disconnected x)))) as [w Ew].
  { by rewrite down_life. }
  rewrite Ew. cbn [mbind res_bind]. rewrite (pc_close _ Hcb). by eexists.
Qed.

Lemma destroyed_total x : total_callback ->
  life_ok (life_of x) -> m_status x = Connected \/ m_status x = Disconnected -> registered x = true ->
  is_ok (connectDestroyed cb x).
Proof.
  intros Ht H Hs Hr. unfold connectDestroyed. case_bool_decide as Hc.
  - set (y := log _ _). assert (life_of y = life_closed true) as Ey by (apply (down_life x H); by rewrite Hc).
    destruct (Ht y) as [w Ew]; [by rewrite Ey|]. rewrite Ew. cbn [mbind res_bind].
    assert (life_of w = life_closed true) as El.
    { eapply closed_polite; [exact Ey|]. eapply (pc_connection _ Hcb); [|exact Ew]. by rewrite Ey. }
    injection El as _ -> -> -> _ _. by eexists.
  - destruct Hs as [Hs|Hs]; [done|]. unfold life_ok in H. cbn in H. rewrite Hs in H. destruct H as (E1 & E2 & _).
    cbn [mbind res_bind]. rewrite E1, E2, Hr. by eexists.
Qed.
End one_connection.

(** ** The composition *)

Record joint := mkJoint {
  srv : TcpServer;
  full : gmap nat conn
}.

Section joint_system.
Context (cb : callbacks).
Implicit Types (j : joint) (c l : nat).

Definition on_server (f : TcpServer -> res TcpServer) j : res joint :=
  s ← f (srv j); Ok (mkJoint s (full j)).

Definition get_full c j : res conn :=
  match full j !! c with Some x => Ok x | None => Fail UseAfterFree end.

(** The server's view follows the connection. *)
Definition mirror (x : conn) (destroyed : nat) (y : sconn) : sconn :=
  mkSconn (c_loop y) (m_status x) (registered x) (destroyed + c_destroyed y).
Definition put_full (destroyed : nat) c (x : conn) j : res joint :=
  y ← get_conn c (srv j);
  Ok (mkJoint (put_conn c (mirror x destroyed y) (srv j)) (<[c := x]> (full j))).

Definition on_conn (op : conn -> res conn) c j : res joint :=
  x ← get_full c j; x ← op x; put_full 0 c x j.

(** The close callback: [TcpServer::connectionClosed], in the connection's loop. *)
Definition j_closed c j : res joint :=
  y ← get_conn c (srv j); on_server (connectionClosed (c_loop y) c) j.

Definition j_handleRead (now : Z) (r : received) c j : res joint :=
  j ← on_conn (handleRead cb now r) c j;
  if read_closes r then j_closed c j else Ok j.

Definition j_forceClose c j : res joint :=
  x ← get_full c j;
  j ← on_conn (forceClose cb) c j;
  if is_open (m_status x) then j_closed c j else Ok j.

Definition j_functor (f : functor) j : res joint :=
  match f with
  | FEstablished c => on_conn (connectEstablished cb) c j
  | FForceClose c => j_forceClose c j
  | FCloseInLoop c => on_server (handleCloseInLoop c) j
  | FDestroyed c => x ← get_full c j; x ← connectDestroyed cb x; put_full 1 c x j
  | FInsertEntry _ => Ok j
  end.

Definition j_run_first l j : res joint :=
  match take_first l (pending (srv j)) with
  | Some (f, p) => j_functor f (mkJoint (set_pending p (srv j)) (full j))
  | None => Ok j
  end.

Definition j_run_or_queue l (f : functor) j : res joint :=
  if bool_decide (l = 0%nat) then j_functor f j
  else on_server (fun s => Ok (queue_functor l f s)) j.

(** [TcpServer::newConnection] *)
Definition j_newConnection c j : res joint :=
  '(ioLoop, s) ← pick_loop (srv j);
  let j := mkJoint (put_conn c (mkSconn ioLoop Connecting false 0) s) (<[c := TcpConnection_new]> (full j)) in
  j ← (if 0 <? m_idleTimeout s then
         _ ← assert (bool_decide (m_timingWheelMap s !! ioLoop = Some true));
         j ← on_conn (enableKickingOff (m_idleTimeout s)) c j;
         j_run_or_queue ioLoop (FInsertEntry c) j
       else Ok j);
  let j := mkJoint (set_connSet ({[ c ]} ∪ m_connSet (srv j)) (srv j)) (full j) in
  j_run_or_queue ioLoop (FEstablished c) j.

Inductive joint_op :=
  | JAccept c
  | JRead c (now : Z) (r : received)    (* the channel is readable *)
  | JData c (d : data_op)
  | JShutdown c
  | JForce c                            (* [forceClose], from another thread *)
  | JKick c                             (* [forceClose], in the connection's loop *)
  | JRun l.

Definition j_exec (o : joint_op) j : res joint :=
  match o with
  | JAccept c => j_newConnection c j
  | JRead c now r => j_handleRead now r c j
  | JData c d => on_conn (data_exec cb d) c j
  | JShutdown c => on_conn (fun x => Ok (shutdown x)) c j
  | JForce c => y ← get_conn c (srv j); on_server (fun s => Ok (queue_functor (c_loop y) (FForceClose c) s)) j
  | JKick c => j_forceClose c j
  | JRun l => j_run_first l j
  end.

Definition j_enabled (o : joint_op) j : Prop :=
  match o with
  | JAccept c => accepting (srv j) = true /\ full j !! c = None
  | JRead c _ _ => exists x, full j !! c = Some x /\ isReading x = true
  | JData c d => exists x, full j !! c = Some x /\ data_ok d x
  | JShutdown c | JForce c | JKick c => is_Some (full j !! c)
  | JRun _ => True
  end.

Inductive j_run (j0 : joint) : list joint_op -> joint -> Prop :=
  | j_run_nil : j_run j0 [] j0
  | j_run_snoc ops o j j' : j_run j0 ops j -> j_enabled o j -> j_exec o j = Ok j' -> j_run j0 (ops ++ [o]) j'.

(** Opening, closing and running functors, as opposed to moving data. *)
Definition opens_or_closes (o : joint_op) : bool :=
  match o with
  | JData _ _ => false
  | JRead _ _ r => read_closes r
  | _ => true
  end.

(** ** Simulation *)

Definition in_step (x : conn) (y : sconn) : Prop :=
  c_status y = m_status x /\ c_registered y = registered x /\ life_ok (life_of x).

Definition synced j : Prop :=
  forall c, match full j !! c, conns (srv j) !! c with
            | Some x, Some y => in_step x y
            | None, None => True
            | _, _ => False
            end.

Lemma synced_full j c x : synced j -> full j !! c = Some x ->
  exists y, conns (srv j) !! c = Some y /\ in_step x y.
Proof. intros H E. specialize (H c). rewrite E in H. destruct (conns (srv j) !! c); naive_solver. Qed.

Lemma synced_conns j c y : synced j -> conns (srv j) !! c = Some y ->
  exists x, full j !! c = Some x /\ in_step x y.
Proof. intros H E. specialize (H c). rewrite E in H. destruct (full j !! c); naive_solver. Qed.

Lemma synced_put s m c x y : synced (mkJoint s m) -> in_step x y -> synced (mkJoint (put_conn c y s) (<[c := x]> m)).
Proof.
  intros H Hs d. cbn. destruct (decide (d = c)) as [->|Hd]; [by rewrite !lookup_insert_eq|].
  rewrite !lookup_insert_ne by done. apply H.
Qed.

Lemma synced_frame s s' m : synced (mkJoint s m) -> conns s' = conns s -> synced (mkJoint s' m).
Proof. intros H E c. cbn. rewrite E. apply H. Qed.

Lemma put_conn_id s c y : conns s !! c = Some y -> put_conn c y s = s.
Proof. intros E. unfold put_conn. rewrite insert_id by done. by destruct s. Qed.

Lemma put_conn_twice s c y y' : put_conn c y (put_conn c y' s) = put_conn c y s.
Proof. unfold put_conn, set_conns. cbn. by rewrite insert_insert_eq. Qed.

Lemma server_run_one s o s' : enabled o s -> server_exec o s = Ok s' -> server_run s [o] s'.
Proof. intros He E. apply (server_run_snoc s [] o s s'); [constructor|done|done]. Qed.

(** A polite change is nothing to the server, or a [shutdown]. *)
Lemma polite_sim s c y v x :
  conns s !! c = Some y -> c_status y = l_status v -> c_registered y = l_registered v ->
  polite_life v (life_of x) -> exists ops, server_run s ops (put_conn c (mirror x 0 y) s).
Proof.
  intros Ey Es Er [[S|[S S']] _ G _ _ _]; cbn in *.
  - exists []. assert (mirror x 0 y = y) as ->; [|rewrite put_conn_id by done; constructor].
    unfold mirror. destruct y as [l0 st r d]. cbn in *. congruence.
  - exists [SShutdown c]. apply server_run_one; [by eexists|]. cbn [server_exec]. unfold get_conn. rewrite Ey. cbn [mbind res_bind].
    rewrite bool_decide_true by congruence. unfold mirror. by rewrite S', G, <- Er.
Qed.

Lemma mirror_in_step x y d : life_ok (life_of x) -> in_step x (mirror x d y).
Proof. intros H. done. Qed.

Lemma run_established_eq s c y :
  conns s !! c = Some y -> c_status y = Connecting ->
  run_established c s = Ok (put_conn c (mkSconn (c_loop y) Connected true (c_destroyed y)) s).
Proof. intros E Es. unfold run_established, get_conn. rewrite E. cbn [mbind res_bind]. by rewrite bool_decide_true. Qed.

Lemma connectionClosed_conns l c s s' : connectionClosed l c s = Ok s' -> conns s' = conns s.
Proof.
  unfold connectionClosed, handleCloseInLoop. destruct (alive s); [|done]. case_bool_decide; intros E; ok_inv; done.
Qed.
End joint_system.

Section simulation.
Context (cb : callbacks) (Hcb : polite_callbacks cb).
Implicit Types (j : joint) (c l : nat) (s : TcpServer) (m : gmap nat conn).

(** From a state of the server to that of a composition. *)
Definition simulates s j' : Prop := synced j' /\ exists ops, server_run s ops (srv j').

Lemma simulates_refl j : synced j -> simulates (srv j) j.
Proof. intros H. split; [done|]. exists []. constructor. Qed.

Lemma simulates_trans s o s1 j' :
  enabled o s -> server_exec o s = Ok s1 -> simulates s1 j' -> simulates s j'.
Proof.
  intros He E [Hs [ops Hr]]. split; [done|]. exists ([o] ++ ops). eapply server_run_app; [|exact Hr].
  by apply server_run_one.
Qed.

Lemma polite_simulates s m c x y v z :
  synced (mkJoint s m) -> conns s !! c = Some y -> m !! c = Some x ->
  c_status y = l_status v -> c_registered y = l_registered v -> life_ok v -> polite_life v (life_of z) ->
  simulates s (mkJoint (put_conn c (mirror z 0 y) s) (<[c := z]> m)).
Proof.
  intros Hs Ey Ex Es Er Hv Hp. split; [|by eapply polite_sim].
  apply synced_put; [done|]. apply mirror_in_step. by eapply polite_ok.
Qed.

Lemma get_full_some c j x : full j !! c = Some x -> get_full c j = Ok x.
Proof. intros E. unfold get_full. by rewrite E. Qed.
Lemma get_conn_some c s y : conns s !! c = Some y -> get_conn c s = Ok y.
Proof. intros E. unfold get_conn. by rewrite E. Qed.

(** An operation of a connection, opened. *)
Lemma on_conn_inv op c j j' :
  synced j -> on_conn op c j = Ok j' ->
  exists x y z, full j !! c = Some x /\ conns (srv j) !! c = Some y /\ in_step x y /\ op x = Ok z /\
    j' = mkJoint (put_conn c (mirror z 0 y) (srv j)) (<[c := z]> (full j)).
Proof.
  intros Hs. unfold on_conn, get_full. destruct (full j !! c) as [x|] eqn:Ex; [|done]. cbn [mbind res_bind].
  destruct (synced_full j c x Hs Ex) as (y & Ey & Hy). intros E. ok_inv. rename x0 into z, H into Ez.
  unfold put_full in E. rewrite (get_conn_some _ _ _ Ey) in E. cbn [mbind res_bind] in E. ok_inv. by exists x, y, z.
Qed.

Lemma on_conn_polite op c j j' :
  synced j -> (forall x z, full j !! c = Some x -> life_ok (life_of x) -> op x = Ok z -> polite x z) ->
  on_conn op c j = Ok j' -> simulates (srv j) j'.
Proof.
  intros Hs Hop E. destruct (on_conn_inv _ _ _ _ Hs E) as (x & y & z & Ex & Ey & (H1 & H2 & H3) & Ez & ->).
  destruct j as [s m]. eapply (polite_simulates s m c x y (life_of x) z); eauto. by eapply Hop.
Qed.

(** Closing: the server's view of it. *)
Lemma close_mirror c s x y z :
  conns s !! c = Some y -> in_step x y -> is_open (m_status x) = true -> life_of z = life_closed true ->
  conn_handleClose c s = connectionClosed (c_loop y) c (put_conn c (mirror z 0 y) s).
Proof.
  intros Ey (H1 & H2 & H3) Ho [= Es _ _ Er _ _]. unfold conn_handleClose. rewrite (get_conn_some _ _ _ Ey). cbn [mbind res_bind].
  assert (registered x = true) as Ex. { unfold life_ok in H3. cbn in H3. destruct (m_status x); try done; apply H3. }
  unfold mirror. by rewrite H2, Ex, Er, Es.
Qed.

Lemma close_simulates c s m x y z j' :
  synced (mkJoint s m) -> conns s !! c = Some y -> in_step x y -> is_open (m_status x) = true ->
  life_of z = life_closed true ->
  j_closed c (mkJoint (put_conn c (mirror z 0 y) s) (<[c := z]> m)) = Ok j' ->
  conn_handleClose c s = Ok (srv j') /\ synced j'.
Proof.
  intros Hs Ey Hy Ho Ez. unfold j_closed, on_server. cbn [srv full].
  rewrite (get_conn_some _ _ (mirror z 0 y)) by (cbn; by rewrite lookup_insert_eq). cbn [mbind res_bind mirror c_loop].
  intros E. ok_inv. rename x0 into s', H into Ec. cbn [srv].
  split; [by rewrite (close_mirror c s x y z)|]. eapply synced_frame; [|by eapply connectionClosed_conns].
  apply synced_put; [done|]. apply mirror_in_step. by rewrite Ez.
Qed.

Lemma j_forceClose_simulates c j j' :
  synced j -> j_forceClose cb c j = Ok j' -> run_forceClose c (srv j) = Ok (srv j') /\ synced j'.
Proof.
  intros Hs. unfold j_forceClose, get_full. destruct (full j !! c) as [x|] eqn:Ex; [|done]. cbn [mbind res_bind].
  destruct (on_conn _ _ _) as [j1|] eqn:E1; [|done]. cbn [mbind res_bind].
  destruct (on_conn_inv _ _ _ _ Hs E1) as (x' & y & z & Ex' & Ey & Hy & Ez & ->). simplify_eq.
  pose proof (forceClose_life cb Hcb x z (proj2 (proj2 Hy)) Ez) as Hl.
  unfold run_forceClose. rewrite (get_conn_some _ _ _ Ey). cbn [mbind res_bind].
  change (bool_decide (c_status y = Connected) || bool_decide (c_status y = Disconnecting)) with (is_open (c_status y)).
  rewrite (proj1 Hy). destruct j as [s m]. destruct (is_open (m_status x)) eqn:Ho.
  - by apply (close_simulates c s m x y z).
  - subst z. intros [= <-]. cbn [srv full]. assert (mirror x 0 y = y) as ->.
    { unfold mirror. destruct Hy as (<- & <- & _). by destruct y. }
    rewrite put_conn_id by done. split; [done|]. cbn [srv full] in *. by rewrite insert_id.
Qed.

Lemma destroyed_status x z : life_ok (life_of x) -> connectDestroyed cb x = Ok z ->
  (m_status x = Connected \/ m_status x = Disconnected) /\ registered x = true.
Proof.
  intros H E. unfold life_ok in H. cbn in H. unfold connectDestroyed in E. ok_inv. rename x0 into w, H0 into Ew.
  destruct (m_status x) eqn:Es; cbn in Ew.
  - injection Ew as ->. split; [by right|]. done.
  - injection Ew as ->. destruct H as (_ & _ & H & _). congruence.
  - split; [by left|]. apply H.
  - injection Ew as ->. destruct H as (H & _). rewrite H in *. done.
Qed.

(** A functor of the server, with the connection's part of it. *)
Lemma functor_simulates f j j' :
  synced j -> j_functor cb f j = Ok j' -> exists s1, run_functor f (srv j) = Ok s1 /\ simulates s1 j'.
Proof.
  intros Hs. destruct f as [c|c|c|c|c]; cbn [j_functor run_functor].
  - intros E. destruct (on_conn_inv _ _ _ _ Hs E) as (x & y & z & Ex & Ey & (H1 & H2 & H3) & Ez & ->).
    destruct (established_life cb Hcb x z H3 Ez) as [Hc Hp]. rewrite (run_established_eq _ _ y Ey) by congruence.
    eexists. split; [done|]. destruct j as [s m]. cbn [srv full] in *.
    set (y1 := mkSconn (c_loop y) Connected true (c_destroyed y)).
    split; [apply synced_put; [done|]; apply mirror_in_step; by eapply polite_ok|].
    destruct (polite_sim (put_conn c y1 s) c y1 (mkLife Connected true false true 1 0) z) as [ops Hr];
      [cbn; apply lookup_insert_eq|done|done|done|].
    exists ops. by rewrite put_conn_twice in Hr.
  - intros E. apply j_forceClose_simulates in E as [E Hj]; [|done]. eexists. split; [done|]. by apply simulates_refl.
  - unfold on_server. intros E. ok_inv. eexists. split; [done|]. apply simulates_refl. destruct j as [s m].
    eapply synced_frame; [done|]. cbn [srv] in *. unfold handleCloseInLoop in *. destruct (alive s); [|done]. by ok_inv.
  - unfold get_full. destruct (full j !! c) as [x|] eqn:Ex; [|done]. cbn [mbind res_bind].
    destruct (synced_full j c x Hs Ex) as (y & Ey & (H1 & H2 & H3)).
    destruct (connectDestroyed cb x) as [z|] eqn:Ez; [|done]. cbn [mbind res_bind]. unfold put_full.
    rewrite (get_conn_some _ _ _ Ey). intros [= <-]. destruct (destroyed_status x z H3 Ez) as [Hst Hr].
    pose proof (destroyed_life cb Hcb x z H3 Hst Ez) as El.
    exists (put_conn c (mirror z 1 y) (srv j)). split.
    + unfold run_destroyed. rewrite (get_conn_some _ _ _ Ey). cbn [mbind res_bind]. rewrite H1, H2, Hr.
      assert (bool_decide (m_status x = Connected) || bool_decide (m_status x = Disconnected) = true) as ->.
      { destruct Hst as [-> | ->]; done. }
      cbn [assert mbind res_bind]. injection El as E1 _ _ E2 _ _. unfold mirror. by rewrite E1, E2.
    + destruct j as [s m]. apply simulates_refl, synced_put; [done|]. apply mirror_in_step. by rewrite El.
  - intros [= <-]. eexists. split; [done|]. by apply simulates_refl.
Qed.

Lemma run_or_queue_simulates l f j j' :
  synced j -> j_run_or_queue cb l f j = Ok j' -> exists s1, run_or_queue l f (srv j) = Ok s1 /\ simulates s1 j'.
Proof.
  intros Hs. unfold j_run_or_queue, run_or_queue. case_bool_decide; [by apply functor_simulates|].
  intros [= <-]. eexists. split; [done|]. destruct j as [s m]. by apply simulates_refl, (synced_frame s).
Qed.

Lemma run_first_simulates l j j' :
  synced j -> j_run_first cb l j = Ok j' -> simulates (srv j) j'.
Proof.
  intros Hs. unfold j_run_first. destruct (take_first l (pending (srv j))) as [[f p]|] eqn:Et.
  - intros E. destruct j as [s m]. cbn [srv full] in *.
    apply functor_simulates in E as (s1 & E1 & H1); [|by apply (synced_frame s)].
    eapply (simulates_trans _ (SRun l)); [done| |exact H1]. cbn [server_exec]. unfold run_first. by rewrite Et.
  - intros [= <-]. by apply simulates_refl.
Qed.

(** ** Accepting *)

Lemma pick_loop_fields s l s1 : pick_loop s = Ok (l, s1) ->
  conns s1 = conns s /\ m_idleTimeout s1 = m_idleTimeout s /\ m_connSet s1 = m_connSet s.
Proof.
  unfold pick_loop. destruct (m_loopPoolPtr s) as [p|]; [|by intros [= <- <-]].
  case_bool_decide; [by intros [= <- <-]|]. intros E. ok_inv. destruct x as [[l0|] p']; [|done]. by ok_inv.
Qed.

Lemma new_life : life_ok (life_of TcpConnection_new).
Proof. done. Qed.

(** [enableKickingOff] on the new connection. *)
Lemma kick_new c l s m idle j' :
  let y := mkSconn l Connecting false 0 in
  on_conn (enableKickingOff idle) c (mkJoint (put_conn c y s) (<[c := TcpConnection_new]> m)) = Ok j' ->
  exists x, j' = mkJoint (put_conn c y s) (<[c := x]> m) /\ life_of x = life_of TcpConnection_new.
Proof.
  intros y. unfold on_conn. rewrite (get_full_some _ _ TcpConnection_new) by (cbn; apply lookup_insert_eq). cbn [mbind res_bind].
  intros E. ok_inv. rename x into z, H into Ez. unfold put_full in E. cbn [srv full] in E.
  rewrite (get_conn_some _ _ y) in E by (cbn; apply lookup_insert_eq). cbn [mbind res_bind] in E. ok_inv.
  unfold enableKickingOff in Ez. ok_inv. exists (set_wheel_inserts [idle] (set_kickoffEntry true TcpConnection_new)).
  split; [|reflexivity]. rewrite put_conn_twice, insert_insert_eq. reflexivity.
Qed.

(** The last part of [newConnection]: the set, and [connectEstablished]. *)
Lemma establish_new c l s m j' :
  synced (mkJoint s m) -> 
  j_run_or_queue cb l (FEstablished c) (mkJoint (set_connSet ({[ c ]} ∪ m_connSet s) s) m) = Ok j' ->
  exists s1, run_or_queue l (FEstablished c) (set_connSet ({[ c ]} ∪ m_connSet s) s) = Ok s1 /\ simulates s1 j'.
Proof. intros Hs E. apply run_or_queue_simulates in E; [done|]. by apply (synced_frame s). Qed.

Lemma insert_entry l c s m j' :
  j_run_or_queue cb l (FInsertEntry c) (mkJoint s m) = Ok j' ->
  exists s', run_or_queue l (FInsertEntry c) s = Ok s' /\ j' = mkJoint s' m /\ conns s' = conns s.
Proof.
  unfold j_run_or_queue, run_or_queue. case_bool_decide; intros [= <-]; by eexists.
Qed.

Lemma accept_simulates c j j' :
  synced j -> full j !! c = None -> j_newConnection cb c j = Ok j' ->
  exists s1, server_newConnection c (srv j) = Ok s1 /\ simulates s1 j'.
Proof.
  intros Hs Hn. destruct j as [s m]. cbn [srv full] in *. unfold j_newConnection, server_newConnection. cbn [srv full].
  destruct (pick_loop s) as [[l s0]|] eqn:Ep; [|done]. cbn [mbind res_bind].
  destruct (pick_loop_fields _ _ _ Ep) as (Ec & _ & _). set (y := mkSconn l Connecting false 0).
  assert (forall x, life_of x = life_of TcpConnection_new -> synced (mkJoint (put_conn c y s0) (<[c := x]> m))) as Hnew.
  { intros x Ex. apply synced_put; [by apply (synced_frame s)|]. split_and!; [| |by rewrite Ex]; by injection Ex. }
  change (m_idleTimeout (put_conn c y s0)) with (m_idleTimeout s0).
  change (m_timingWheelMap (put_conn c y s0)) with (m_timingWheelMap s0).
  destruct (0 <? m_idleTimeout s0).
  - destruct (assert _) as [[]|]; [|done]. cbn [mbind res_bind].
    destruct (on_conn _ _ _) as [j1|] eqn:E1; [|done]. cbn [mbind res_bind].
    apply kick_new in E1 as (x & -> & Ex). destruct (j_run_or_queue cb l (FInsertEntry c) _) as [j2|] eqn:E2; [|done].
    cbn [mbind res_bind]. apply insert_entry in E2 as (s' & E3 & -> & Ec'). fold y in E3, Ec'. rewrite E3. cbn [mbind res_bind srv full].
    apply establish_new. eapply synced_frame; [by apply (Hnew x)|done].
  - cbn [mbind res_bind srv full]. apply establish_new. by apply Hnew.
Qed.

(** ** Every step *)

Lemma exec_simulates o j j' :
  synced j -> j_enabled o j -> j_exec cb o j = Ok j' -> simulates (srv j) j'.
Proof.
  intros Hs. destruct o as [c|c now r|c d|c|c|c|l]; cbn [j_enabled j_exec].
  - intros [Ha Hn] E. apply accept_simulates in E as (s1 & E1 & H1); [|done|done].
    eapply (simulates_trans _ (SAccept c)); [|exact E1|exact H1]. split; [done|].
    specialize (Hs c). rewrite Hn in Hs. by destruct (conns (srv j) !! c).
  - intros (x & Ex & Hr). unfold j_handleRead. destruct (on_conn _ _ _) as [j1|] eqn:E1; [|done]. cbn [mbind res_bind].
    destruct (on_conn_inv _ _ _ _ Hs E1) as (x' & y & z & Ex' & Ey & Hy & Ez & ->). simplify_eq.
    pose proof Hy as (H1 & H2 & H3). pose proof (reading_open x H3 Hr) as Ho.
    pose proof (handleRead_life cb Hcb now r x z H3 Ho Ez) as Hl. destruct j as [s m]. cbn [srv full] in *.
    destruct (read_closes r).
    + intros E. eapply (close_simulates c s m x y z) in E as [E Hj]; [|done..].
      eapply (simulates_trans _ (SClose c)); [|exact E|by apply simulates_refl].
      exists y. split; [done|]. by rewrite H1.
    + intros [= <-]. eapply (polite_simulates s m c x y (life_of x) z); eauto.
  - intros (x & Ex & Hd). apply on_conn_polite; [done|]. intros x' z Ex' H Ez. simplify_eq. by eapply (data_exec_polite cb Hcb d).
  - intros [x Ex]. apply on_conn_polite; [done|]. intros x' z _ _ [= <-]. apply shutdown_polite.
  - intros [x Ex] E. destruct (synced_full j c x Hs Ex) as (y & Ey & _). rewrite (get_conn_some _ _ _ Ey) in E.
    cbn [mbind res_bind] in E. injection E as <-. destruct j as [s m].
    eapply (simulates_trans _ (SForce c)); [by eexists| |by apply simulates_refl, (synced_frame s)].
    cbn [server_exec srv] in *. by rewrite (get_conn_some _ _ _ Ey).
  - intros [x Ex] E. apply j_forceClose_simulates in E as [E Hj]; [|done].
    destruct (synced_full j c x Hs Ex) as (y & Ey & _).
    eapply (simulates_trans _ (SKick c)); [by eexists|exact E|by apply simulates_refl].
  - intros _. by apply run_first_simulates.
Qed.

Lemma j_run_simulates s0 ops j :
  j_run cb (mkJoint s0 ∅) ops j -> conns s0 = ∅ -> simulates s0 j.
Proof.
  intros Hr E0. induction Hr as [|ops o j j' Hr IH He E].
  - apply (simulates_refl (mkJoint s0 ∅)). intros c. cbn. by rewrite E0, lookup_empty.
  - destruct IH as [Hs [ops1 R1]]. destruct (exec_simulates o j j' Hs He E) as [Hs' [ops2 R2]].
    split; [done|]. exists (ops1 ++ ops2). by eapply server_run_app.
Qed.

(** ** Nothing gets stuck *)

Context (Htotal : total_callback cb).

Lemma on_conn_ok op c j x y z :
  full j !! c = Some x -> conns (srv j) !! c = Some y -> op x = Ok z ->
  on_conn op c j = Ok (mkJoint (put_conn c (mirror z 0 y) (srv j)) (<[c := z]> (full j))).
Proof.
  intros Ex Ey Ez. unfold on_conn. rewrite (get_full_some _ _ _ Ex). cbn [mbind res_bind]. rewrite Ez.
  cbn [mbind res_bind]. unfold put_full. by rewrite (get_conn_some _ _ _ Ey).
Qed.

Lemma closed_progress c s m x y z s' :
  conns s !! c = Some y -> in_step x y -> is_open (m_status x) = true -> life_of z = life_closed true ->
  conn_handleClose c s = Ok s' ->
  is_ok (j_closed c (mkJoint (put_conn c (mirror z 0 y) s) (<[c := z]> m))).
Proof.
  intros Ey Hy Ho Ez E. rewrite (close_mirror c s x y z) in E by done. unfold j_closed, on_server. cbn [srv].
  rewrite (get_conn_some _ _ (mirror z 0 y)) by (cbn; apply lookup_insert_eq). cbn [mbind res_bind].
  change (c_loop (mirror z 0 y)) with (c_loop y). rewrite E. by eexists.
Qed.

Lemma forceClose_progress c j x s' :
  synced j -> full j !! c = Some x -> run_forceClose c (srv j) = Ok s' -> is_ok (j_forceClose cb c j).
Proof.
  intros Hs Ex. destruct (synced_full j c x Hs Ex) as (y & Ey & Hy). pose proof Hy as (H1 & H2 & H3).
  unfold run_forceClose. rewrite (get_conn_some _ _ _ Ey). cbn [mbind res_bind].
  change (bool_decide (c_status y = Connected) || bool_decide (c_status y = Disconnecting)) with (is_open (c_status y)).
  rewrite H1. intros E. unfold j_forceClose. rewrite (get_full_some _ _ _ Ex). cbn [mbind res_bind].
  assert (is_ok (forceClose cb x)) as [z Ez].
  { unfold forceClose. change (bool_decide _ || bool_decide _) with (is_open (m_status x)).
    destruct (is_open (m_status x)) eqn:Ho; [|by eexists]. apply (handleClose_total cb Hcb); [done|by apply set_disconnecting_ok|done]. }
  rewrite (on_conn_ok _ _ _ _ _ _ Ex Ey Ez). cbn [mbind res_bind].
  pose proof (forceClose_life cb Hcb x z H3 Ez) as Hl. destruct (is_open (m_status x)) eqn:Ho; [|by eexists].
  by eapply closed_progress.
Qed.

Lemma established_total x : life_ok (life_of x) -> m_status x = Connecting -> is_ok (connectEstablished cb x).
Proof.
  intros H Hc. unfold connectEstablished. rewrite bool_decide_true by done. cbn [assert mbind res_bind]. cbv zeta.
  apply Htotal. by rewrite up_life.
Qed.

Lemma functor_progress f j s' :
  synced j -> run_functor f (srv j) = Ok s' -> is_ok (j_functor cb f j).
Proof.
  intros Hs. destruct f as [c|c|c|c|c]; cbn [run_functor j_functor].
  - unfold run_established. intros E. ok_inv. rename x into y, H into Ey. unfold get_conn in Ey.
    destruct (conns (srv j) !! c) as [y'|] eqn:Ey'; [|done]. injection Ey as ->. rewrite bool_decide_eq_true in *.
    destruct (synced_conns j c y Hs Ey') as (x & Ex & (S1 & S2 & S3)).
    destruct (established_total x S3 ltac:(congruence)) as [z Ez]. rewrite (on_conn_ok _ _ _ _ _ _ Ex Ey' Ez). by eexists.
  - intros E. pose proof E as E'. unfold run_forceClose, get_conn in E'.
    destruct (conns (srv j) !! c) as [y|] eqn:Ey; [|done]. destruct (synced_conns j c y Hs Ey) as (x & Ex & _).
    by eapply forceClose_progress.
  - unfold on_server. intros ->. by eexists.
  - unfold run_destroyed. intros E. ok_inv. rename x into y, H into Ey. unfold get_conn in Ey.
    destruct (conns (srv j) !! c) as [y'|] eqn:Ey'; [|done]. injection Ey as ->.
    destruct (synced_conns j c y Hs Ey') as (x & Ex & (S1 & S2 & S3)).
    destruct (destroyed_total cb Hcb x) as [z Ez]; [done|done| |congruence|].
    { rewrite <- S1. rewrite orb_true_iff, !bool_decide_eq_true in *. done. }
    rewrite (get_full_some _ _ _ Ex). cbn [mbind res_bind]. rewrite Ez. cbn [mbind res_bind]. unfold put_full.
    rewrite (get_conn_some _ _ _ Ey'). by eexists.
  - by eexists.
Qed.

Lemma run_or_queue_progress l f j s' :
  synced j -> run_or_queue l f (srv j) = Ok s' -> is_ok (j_run_or_queue cb l f j).
Proof.
  intros Hs. unfold run_or_queue, j_run_or_queue. case_bool_decide; [by apply functor_progress|]. by eexists.
Qed.

Lemma accept_progress c j s' :
  synced j -> full j !! c = None -> server_newConnection c (srv j) = Ok s' -> is_ok (j_newConnection cb c j).
Proof.
  intros Hs Hn. destruct j as [s m]. cbn [srv full] in *. unfold j_newConnection, server_newConnection. cbn [srv full].
  destruct (pick_loop s) as [[l s0]|] eqn:Ep; [|done]. cbn [mbind res_bind].
  destruct (pick_loop_fields _ _ _ Ep) as (Ec & _ & _). set (y := mkSconn l Connecting false 0).
  assert (forall x, life_of x = life_of TcpConnection_new -> synced (mkJoint (put_conn c y s0) (<[c := x]> m))) as Hnew.
  { intros x Ex. apply synced_put; [by apply (synced_frame s)|]. split_and!; [| |by rewrite Ex]; by injection Ex. }
  change (m_idleTimeout (put_conn c y s0)) with (m_idleTimeout s0).
  change (m_timingWheelMap (put_conn c y s0)) with (m_timingWheelMap s0).
  assert (forall x s1, life_of x = life_of TcpConnection_new -> conns s1 = conns (put_conn c y s0) ->
    run_or_queue l (FEstablished c) (set_connSet ({[ c ]} ∪ m_connSet s1) s1) = Ok s' ->
    is_ok (j_run_or_queue cb l (FEstablished c) (mkJoint (set_connSet ({[ c ]} ∪ m_connSet s1) s1) (<[c := x]> m)))) as Hlast.
  { intros x s1 Ex Ec1 E. eapply run_or_queue_progress; [|exact E]. eapply synced_frame; [by apply (Hnew x)|done]. }
  destruct (0 <? m_idleTimeout s0) eqn:Hi.
  - destruct (assert _) as [[]|]; [|done]. cbn [mbind res_bind].
    assert (is_ok (on_conn (enableKickingOff (m_idleTimeout s0)) c (mkJoint (put_conn c y s0) (<[c := TcpConnection_new]> m))))
      as [j1 E1].
    { erewrite on_conn_ok; [by eexists|cbn; apply lookup_insert_eq|cbn; apply lookup_insert_eq|].
      unfold enableKickingOff. rewrite Hi. reflexivity. }
    rewrite E1. cbn [mbind res_bind]. apply kick_new in E1 as (x & -> & Ex). fold y.
    assert (exists s1, run_or_queue l (FInsertEntry c) (put_conn c y s0) = Ok s1 /\ conns s1 = conns (put_conn c y s0) /\
      j_run_or_queue cb l (FInsertEntry c) (mkJoint (put_conn c y s0) (<[c := x]> m)) = Ok (mkJoint s1 (<[c := x]> m)))
      as (s1 & -> & Ec1 & ->).
    { unfold run_or_queue, j_run_or_queue. case_bool_decide; by eexists. }
    cbn [mbind res_bind srv full]. by apply Hlast.
  - cbn [mbind res_bind srv full]. by apply Hlast.
Qed.

Lemma exec_progress o j :
  sv_inv (srv j) -> synced j -> j_enabled o j -> opens_or_closes o = true -> is_ok (j_exec cb o j).
Proof.
  intros Hi Hs. destruct o as [c|c now r|c d|c|c|c|l]; cbn [j_enabled j_exec opens_or_closes]; [| |done|..].
  - intros [Ha Hn] _. assert (conns (srv j) !! c = None) as Hc.
    { specialize (Hs c). rewrite Hn in Hs. by destruct (conns (srv j) !! c). }
    destruct (accept_inv _ c Hi Hc) as (s' & E & _). by eapply accept_progress.
  - intros (x & Ex & Hr) Hc. destruct (synced_full j c x Hs Ex) as (y & Ey & Hy). pose proof Hy as (H1 & H2 & H3).
    pose proof (reading_open x H3 Hr) as Ho. unfold j_handleRead.
    assert (is_ok (handleRead cb now r x)) as [z Ez].
    { destruct (handleClose_total cb Hcb x Htotal H3 Ho) as [w Ew]. destruct r as [b|e]; cbn [handleRead read_closes] in *.
      - rewrite Hc, Ew. by eexists.
      - apply andb_true_iff in Hc as [Hc1%negb_true_iff Hc2%negb_true_iff]. rewrite Hc1, Hc2. by eexists. }
    rewrite (on_conn_ok _ _ _ _ _ _ Ex Ey Ez). cbn [mbind res_bind]. rewrite Hc.
    pose proof (handleRead_life cb Hcb now r x z H3 Ho Ez) as Hl. rewrite Hc in Hl.
    destruct (server_exec_inv (SClose c) (srv j) Hi) as (s' & E & _); [exists y; split; [done|by rewrite H1]|].
    destruct j as [s m]. by eapply closed_progress.
  - intros [x Ex] _. destruct (synced_full j c x Hs Ex) as (y & Ey & _). erewrite on_conn_ok by done. by eexists.
  - intros [x Ex] _. destruct (synced_full j c x Hs Ex) as (y & Ey & _). rewrite (get_conn_some _ _ _ Ey). by eexists.
  - intros [x Ex] _. destruct (synced_full j c x Hs Ex) as (y & Ey & _).
    destruct (server_exec_inv (SKick c) (srv j) Hi) as (s' & E & _); [by eexists|]. by eapply forceClose_progress.
  - intros _ _. destruct (run_first_inv l (srv j) Hi) as (s' & E & _). unfold j_run_first. unfold run_first in E.
    destruct (take_first l (pending (srv j))) as [[f p]|]; [|by eexists]. destruct j as [s m].
    eapply functor_progress; [|exact E]. by apply (synced_frame s).
Qed.
End simulation.

(** ** Claims *)

(** C5. The life cycle of the server holds for its real connections.  With an idle
    timeout of 0 or from 2 up to below 2^57 seconds, a pool whose index is in range, and user callbacks
    that send and shut down but do not close, every run of the composition (accepting,
    events, sends from any thread, shutting down, forcing closed, functors of any
    loop, in any order; files and streams only on open connections) is, as far as the server can see, a run of the server of
    [TcpServer.v]; the channel of a connection is registered and reads exactly as its
    status says; each user hears once that the connection is up
    and once that it is down; and no call that opens or closes fails, so
    the assertions of [connectEstablished], [handleCloseInLoop] and [Channel::remove] hold, as long as the
    connection callback returns.  A stream or file that arrives late is not
    covered ([late_stream_breaks_close]). *)
Theorem connections_refine_server cb idle pool owned :
  polite_callbacks cb -> good_idle idle -> good_pool pool ->
  exists s0, server_start (TcpServer_new idle pool owned) = Ok s0 /\
    forall ops j, j_run cb (mkJoint s0 ∅) ops j ->
      (exists ops', server_run s0 ops' (srv j)) /\
      (forall c x, full j !! c = Some x ->
         (exists y, conns (srv j) !! c = Some y /\ c_status y = m_status x /\ c_registered y = registered x) /\
         (isReading x = true <-> is_open (m_status x) = true) /\
         told true x = (if bool_decide (m_status x = Connecting) then 0 else 1)%nat /\
         told false x = (if bool_decide (m_status x = Disconnected) then 1 else 0)%nat) /\
      (total_callback cb -> forall o, j_enabled o j -> opens_or_closes o = true -> exists j', j_exec cb o j = Ok j').
Proof.
  intros Hcb Hi Hp. destruct (server_start_ok idle pool owned Hi Hp) as (s0 & E0 & H0 & _ & _ & _ & _ & Hc & _).
  exists s0. split; [done|]. intros ops j Hr. destruct (j_run_simulates cb Hcb s0 ops j Hr Hc) as [Hs Hsim].
  split; [done|]. split.
  - intros c x Ex. destruct (synced_full j c x Hs Ex) as (y & Ey & (H1 & H2 & H3)). split; [by exists y|].
    unfold life_ok in H3. cbn [life_of l_status l_reading l_writing l_registered l_up l_down] in H3.
    destruct (m_status x); destruct_and? H3; (split; [split; intros; first [done|congruence]|split; done]).
  - intros Ht o He Ho. destruct Hsim as [ops' Hsv]. pose proof (server_run_inv _ _ _ Hsv H0) as Hinv.
    exact (exec_progress cb Hcb Ht o j Hinv Hs He Ho).
Qed.

Lemma no_callbacks_polite : polite_callbacks no_callbacks /\ total_callback no_callbacks.
Proof. split; [constructor; cbn; try (by intros ? ? _ [= <-])|]; [by intros ? ? ? _ [= <-]|done|by eexists]. Qed.

(** A callback that greets the peer, and shuts the connection down at once. *)
Definition greet : callbacks :=
  mkCallbacks (fun x => x ← sendInLoop no_callbacks 0 [Byte.x68; Byte.x69] x; Ok (shutdown x)) Ok Ok (fun _ => Ok) Ok.

Lemma greet_polite : polite_callbacks greet.
Proof.
  constructor; try (by intros ? ? _ [= <-]); [|by intros ? ? ? _ [= <-]|done].
  intros x x' H E. cbn in E. ok_inv. etransitivity; [|apply shutdown_polite].
  by eapply (sendInLoop_polite no_callbacks (proj1 no_callbacks_polite)).
Qed.

Lemma connections_refine_server_witness :
  exists s0, server_start (TcpServer_new 0 (Some (mkPool [1; 2]%nat 0)) true) = Ok s0 /\
    exists j, j_run greet (mkJoint s0 ∅) [JAccept 7; JRun 1] j /\ (exists ops', server_run s0 ops' (srv j)) /\
      option_map (fun x => (m_status x, told true x, events x)) (full j !! 7%nat) =
        Some (Disconnecting, 1%nat, [EvConnection true]).
Proof.
  destruct (connections_refine_server greet 0 (Some (mkPool [1; 2]%nat 0)) true greet_polite) as (s0 & E0 & H).
  - by left.
  - intros p [= <-]. split; [intros _; vm_compute; split; congruence|vm_compute; reflexivity].
  - exists s0. split; [done|]. vm_compute in E0. injection E0 as <-.
    eexists. match goal with |- ?P /\ _ => assert P as Hr end.
    { eapply (j_run_snoc greet _ [JAccept 7] (JRun 1)); [eapply (j_run_snoc greet _ [] (JAccept 7)); [constructor| |]| |].
      - split; reflexivity.
      - vm_compute; reflexivity.
      - exact I.
      - vm_compute; reflexivity. }
    split; [exact Hr|]. split; [exact (proj1 (H _ _ Hr))|]. vm_compute. reflexivity.
Defined.

(** [sendStream] and [sendFile] do not look at the status.  A stream that was queued before
    the connection closed, and reaches the loop after, switches writing
    on again: the channel is back in the poller, though it may have been removed for
    good, and the assertion of [Channel::remove] in [connectDestroyed] fails. *)
Theorem late_stream_breaks_close cb now x reg chunk chunks fs :
  life_of x = life_closed reg -> m_writeBufferList x = [] -> m_fileBufferPtr x = [] -> m_sendNumMutex x = false ->
  functors x = RNode (NStream (chunk :: chunks) 1) :: fs -> chunk <> [] -> script x = [] ->
  exists z, TcpConnection.run_functor cb now x = Ok z /\ isWriting z = true /\ registered z = true /\
    connectDestroyed cb z = Fail AssertFailed.
Proof.
  intros El Ew Ef Em Ec Hne Es. unfold TcpConnection.run_functor. rewrite Ec. cbn [handle_request]. unfold pushNode. cbv zeta.
  set (y := set_list _ _). assert (m_writeBufferList y = [NStream (chunk :: chunks) 1]) as Ey by (cbn; by rewrite Ew).
  rewrite Ey. rewrite bool_decide_true by done. unfold sendFileInLoop. rewrite Ey. cbn [length].
  assert (m_fileBufferPtr y = [] /\ script y = [] /\ isWriting y = false) as (Efy & Esy & Ewy).
  { injection El as _ _ ? _ _ _. done. }
  assert (stream_loop (S (S (S (length chunks)))) (chunk :: chunks) 1 y =
    Ok (enableWriting (put_front (NStream chunks 1) (set_fileBuffer chunk y)))) as ->.
  { cbn [stream_loop]. unfold stream_fetch. rewrite Efy, (bool_decide_true ([] = [])) by done.
    rewrite (bool_decide_false (chunk = [])) by done. change (0 <? 1) with true. cbn [orb].
    unfold writeInLoop, answer. cbn [put_front set_list set_fileBuffer script m_fileBufferPtr]. rewrite Esy.
    cbn [m_fileBufferPtr set_list set_fileBuffer]. rewrite (bool_decide_false (chunk = [])) by done.
    change (isWriting (put_front (NStream chunks 1) (set_fileBuffer chunk y))) with (isWriting y). by rewrite Ewy. }
  cbn [mbind res_bind]. unfold minusSendNumByGuard. cbn [enableWriting set_registered set_writing put_front set_list set_fileBuffer m_sendNumMutex].
  rewrite (Em : m_sendNumMutex y = false). eexists. split; [reflexivity|]. split; [done|]. split; [done|].
  unfold connectDestroyed. injection El as Est _ _ _ _ _.
  rewrite bool_decide_false; [|cbn; rewrite Est; done]. cbn [mbind res_bind].
  cbn [isWriting isReading set_sendNum enableWriting set_registered set_writing put_front set_list set_fileBuffer].
  by rewrite andb_false_r.
Qed.

(** A connection that its peer has closed, with a stream on the way. *)
Definition closed_with_stream : conn :=
  set_sendNum 1 (set_functors [RNode (NStream [[Byte.x61]] 1)]
    (log (EvConnection false) (disableAll (set_status Disconnected
      (log (EvConnection true) (set_status Connected (set_registered true (set_reading true TcpConnection_new)))))))).

Lemma late_stream_breaks_close_witness :
  exists z, TcpConnection.run_functor no_callbacks 0 closed_with_stream = Ok z /\ isWriting z = true /\ registered z = true /\
    connectDestroyed no_callbacks z = Fail AssertFailed.
Proof.
  apply (late_stream_breaks_close no_callbacks 0 closed_with_stream true [Byte.x61] [] []); try reflexivity. discriminate.
Defined.
