(* ===== verification/ClientConnection.v ===== *)
(** * The client with its connection, and its destructor

    [TcpClient::~TcpClient] closes the connection from any thread: it replaces
    the close callback, which leads into the client, by one that does not, and
    forces the connection closed; both run in the loop, and events of the
    connection may come before them.  Here the client of [TcpClient.v] runs with
    the connection of [TcpConnection.v]. *)

From S2P Require Import Prelude.
From S2P Require Import Connector TcpClient.
From S2P Require Import TcpConnection ServerConnections.

(** Functors queued in the loop by the destructor and by the close callbacks. *)
Inductive cfunctor := DSetCallback | DForceClose | DConnectDestroyed.

#[global] Instance cfunctor_eq_dec : EqDecision cfunctor.
Proof. solve_decision. Defined.

Record joined := mkJoined {
  client : option TcpClient;              (* [None] once the destructor has run *)
  cconn : conn;
  conn_fd : Z;                            (* what [TcpClient.v] calls the connection *)
  replaced : bool;                        (* the close callback is the destructor's *)
  cqueue : list cfunctor;
  cdestroyed : nat;                       (* calls of [connectDestroyed] *)
  abandoned : bool                        (* the destructor returned early *)
}.

Section client_connection.
Context (cb : callbacks).
Implicit Type j : joined.

Definition set_client v j := mkJoined v (cconn j) (conn_fd j) (replaced j) (cqueue j) (cdestroyed j) (abandoned j).
Definition set_cconn v j := mkJoined (client j) v (conn_fd j) (replaced j) (cqueue j) (cdestroyed j) (abandoned j).
Definition set_replaced v j := mkJoined (client j) (cconn j) (conn_fd j) v (cqueue j) (cdestroyed j) (abandoned j).
Definition set_cqueue v j := mkJoined (client j) (cconn j) (conn_fd j) (replaced j) v (cdestroyed j) (abandoned j).
Definition count_destroyed j := mkJoined (client j) (cconn j) (conn_fd j) (replaced j) (cqueue j) (S (cdestroyed j)) (abandoned j).
Definition abandon j := mkJoined None (cconn j) (conn_fd j) (replaced j) (cqueue j) (cdestroyed j) true.

Definition enqueue_c f j := set_cqueue (cqueue j ++ [f]) j.

(** The close callback: [closeCb] of [newConnection] holds the client weakly;
    [fd] and [r] are for the reconnection. *)
Definition close_callback (fd : Z) (r : connect_result) j : res joined :=
  if replaced j then Ok (enqueue_c DConnectDestroyed j)
  else
    match client j with
    | Some c => c ← removeConnection (conn_fd j) fd r c; Ok (enqueue_c DConnectDestroyed (set_client (Some c) j))
    | None => Ok (enqueue_c DConnectDestroyed j)
    end.

Definition c_forceClose (fd : Z) (r : connect_result) j : res joined :=
  x ← forceClose cb (cconn j);
  if TcpServer.is_open (m_status (cconn j)) then close_callback fd r (set_cconn x j) else Ok (set_cconn x j).

Definition c_handleRead (now : Z) (rd : received) (fd : Z) (r : connect_result) j : res joined :=
  x ← handleRead cb now rd (cconn j);
  if read_closes rd then close_callback fd r (set_cconn x j) else Ok (set_cconn x j).

(** [~TcpClient]; [ended]: the loop is one of [allEventLoop], and the destructor
    returns at once (what it does to the connection is then to drop a reference). *)
Definition client_destroy (ended inLoop : bool) (fd : Z) (r : connect_result) j : res joined :=
  match client j with
  | None => Fail UseAfterFree
  | Some c =>
      if ended then Ok (abandon j)
      else if bool_decide (TcpClient.m_connection c = None) then Ok (set_client None j)    (* and [m_connector->stop()] *)
      else if inLoop then c_forceClose fd r (set_replaced true (set_client None j))
      else Ok (enqueue_c DForceClose (enqueue_c DSetCallback (set_client None j)))
  end.

Definition c_run_functor (fd : Z) (r : connect_result) j : res joined :=
  match cqueue j with
  | [] => Ok j
  | f :: q =>
      let j := set_cqueue q j in
      match f with
      | DSetCallback => Ok (set_replaced true j)
      | DForceClose => c_forceClose fd r j
      | DConnectDestroyed => x ← connectDestroyed cb (cconn j); Ok (count_destroyed (set_cconn x j))
      end
  end.

Inductive client_op :=
  | KRead (now : Z) (rd : received)
  | KData (d : data_op)
  | KShutdown
  | KForce                               (* [forceClose] in the loop *)
  | KDestroy (ended inLoop : bool)
  | KRun.

Definition k_exec (o : client_op) (fd : Z) (r : connect_result) j : res joined :=
  match o with
  | KRead now rd => c_handleRead now rd fd r j
  | KData d => x ← data_exec cb d (cconn j); Ok (set_cconn x j)
  | KShutdown => Ok (set_cconn (shutdown (cconn j)) j)
  | KForce => c_forceClose fd r j
  | KDestroy ended inLoop => client_destroy ended inLoop fd r j
  | KRun => c_run_functor fd r j
  end.

Definition k_enabled (o : client_op) j : Prop :=
  match o with
  | KRead _ _ => isReading (cconn j) = true
  | KData d => data_ok d (cconn j)
  | KDestroy _ _ => is_Some (client j)
  | _ => True
  end.

Inductive k_run (j0 : joined) : list client_op -> joined -> Prop :=
  | k_run_nil : k_run j0 [] j0
  | k_run_snoc ops o fd r j j' : k_run j0 ops j -> k_enabled o j -> k_exec o fd r j = Ok j' -> k_run j0 (ops ++ [o]) j'.

(** ** Invariant *)

Definition closed (x : conn) : bool := bool_decide (m_status x = Disconnected).
Definition destroys_queued (q : list cfunctor) : nat := length (filter (fun f => f = DConnectDestroyed) q).

#[local] Arguments destroys_queued : simpl never.
#[local] Arguments closed : simpl never.

Record k_core j : Prop := {
  ki_life : life_ok (life_of (cconn j));
  ki_up : m_status (cconn j) <> Connecting;
  ki_once : (cdestroyed j + destroys_queued (cqueue j) = if closed (cconn j) then 1 else 0)%nat;
  ki_registered : registered (cconn j) = bool_decide (cdestroyed j = 0%nat);
  ki_client c : client j = Some c -> replaced j = false /\
    TcpClient.m_connection c = (if closed (cconn j) then None else Some (conn_fd j)) /\
    Forall (fun f => f = DConnectDestroyed) (cqueue j)
}.

(** The destructor's [forceClose] has worked, or is on its way, unless it
    returned early. *)
Definition k_gone j : Prop :=
  client j = None -> abandoned j = false -> closed (cconn j) = true \/ DForceClose ∈ cqueue j.
Definition k_inv j : Prop := k_core j /\ k_gone j.

Lemma destroys_snoc q f : destroys_queued (q ++ [f]) = (destroys_queued q + if decide (f = DConnectDestroyed) then 1 else 0)%nat.
Proof. unfold destroys_queued. rewrite filter_app, length_app. cbn. by case_decide. Qed.

Lemma destroys_cons q f : destroys_queued (f :: q) = ((if decide (f = DConnectDestroyed) then 1 else 0) + destroys_queued q)%nat.
Proof. unfold destroys_queued. cbn. by case_decide. Qed.

Lemma open_not_closed x : TcpServer.is_open (m_status x) = true -> closed x = false.
Proof. unfold closed. by destruct (m_status x). Qed.

Lemma not_open_closed x : m_status x <> Connecting -> TcpServer.is_open (m_status x) = false -> closed x = true.
Proof. unfold closed. by destruct (m_status x). Qed.

(** Politeness in terms of the connection. *)
Lemma polite_fields x z : polite x z -> life_ok (life_of x) -> m_status x <> Connecting ->
  life_ok (life_of z) /\ m_status z <> Connecting /\ closed z = closed x /\ registered z = registered x.
Proof.
  intros P H Hc. split; [by eapply polite_ok|]. destruct P as [S _ G _ _ _]. cbn in S, G. split_and!; [| |done].
  - destruct S as [->|[_ ->]]; done.
  - unfold closed. destruct S as [->|[-> ->]]; done.
Qed.

Lemma polite_inv j z : k_inv j -> polite (cconn j) z -> k_inv (set_cconn z j).
Proof.
  intros [[H1 H2 H3 H4 H5] H6] P. destruct (polite_fields _ _ P H1 H2) as (E1 & E2 & E3 & E4).
  split; [constructor|unfold k_gone]; cbn; rewrite ?E3, ?E4; done.
Qed.

Context (Hcb : polite_callbacks cb) (Htotal : total_callback cb).

(** The connection has just closed; its callback runs. *)
Lemma close_callback_core fd r j z :
  k_core j -> TcpServer.is_open (m_status (cconn j)) = true -> life_of z = life_closed true ->
  exists j', close_callback fd r (set_cconn z j) = Ok j' /\ k_core j' /\ cconn j' = z /\
    cqueue j' = cqueue j ++ [DConnectDestroyed] /\ (client j = None -> client j' = None) /\ abandoned j' = abandoned j.
Proof.
  intros [H1 H2 H3 H4 H5] Ho Ez. pose proof (open_not_closed _ Ho) as Hc. rewrite Hc in H3.
  assert (cdestroyed j = 0%nat /\ destroys_queued (cqueue j) = 0%nat) as [D1 D2] by lia.
  assert (closed z = true /\ registered z = true /\ life_ok (life_of z) /\ m_status z <> Connecting) as (C1 & C2 & C3 & C4).
  { rewrite Ez. injection Ez as E1 _ _ E2 _ _. unfold closed. rewrite E1, E2. done. }
  assert (forall cl, (forall c, cl = Some c -> replaced j = false /\ TcpClient.m_connection c = None /\
      Forall (fun f => f = DConnectDestroyed) (cqueue j)) ->
    k_core (enqueue_c DConnectDestroyed (set_client cl (set_cconn z j)))) as Hk.
  { intros cl Hcl. constructor; cbn [enqueue_c set_cqueue set_client set_cconn cconn cdestroyed cqueue client replaced conn_fd]; try done.
    - by rewrite C1, D1, destroys_snoc, D2.
    - by rewrite C2, D1.
    - intros c Ec. destruct (Hcl c Ec) as (R1 & R2 & R3). rewrite C1. split_and!; [done|done|].
      apply Forall_app. split; [done|by apply Forall_singleton]. }
  unfold close_callback. cbn [replaced set_cconn client conn_fd].
  assert (client j = None -> k_core (enqueue_c DConnectDestroyed (set_cconn z j))) as Hn.
  { intros Ecl. specialize (Hk None). unfold set_client in Hk. cbn [set_cconn cconn cdestroyed cqueue client replaced conn_fd] in Hk.
    unfold set_cconn. rewrite Ecl. by apply Hk. }
  destruct (replaced j) eqn:Er.
  - destruct (client j) as [c|] eqn:Ecl; [destruct (H5 c eq_refl) as (? & _); congruence|]. eauto 8.
  - destruct (client j) as [c|] eqn:Ecl; [|by eauto 8].
    destruct (H5 c eq_refl) as (_ & M & N). rewrite Hc in M. destruct (removeConnection_total (conn_fd j) fd r c M) as (c' & -> & M').
    cbn [mbind res_bind]. eexists. split; [done|]. split; [|done]. apply Hk. intros c1 [= <-]. done.
Qed.

Lemma closed_gone j : closed (cconn j) = true -> k_gone j.
Proof. intros H _ _. by left. Qed.

(** Functors to run, and the one that closing adds. *)
Definition k_work j : nat := (length (cqueue j) + if closed (cconn j) then 0 else 1)%nat.

Lemma c_forceClose_core fd r j :
  k_core j -> exists j', c_forceClose fd r j = Ok j' /\ k_core j' /\ closed (cconn j') = true /\
    (k_work j' <= k_work j)%nat /\ (client j = None -> client j' = None) /\ abandoned j' = abandoned j.
Proof.
  intros H. pose proof H as [H1 H2 _ _ _]. unfold c_forceClose.
  assert (is_ok (forceClose cb (cconn j))) as [z Ez].
  { unfold forceClose. change (bool_decide _ || bool_decide _) with (TcpServer.is_open (m_status (cconn j))).
    destruct (TcpServer.is_open _) eqn:Ho; [|by eexists]. apply (handleClose_total cb Hcb); [done|by apply set_disconnecting_ok|done]. }
  rewrite Ez. cbn [mbind res_bind]. pose proof (forceClose_life cb Hcb _ _ H1 Ez) as Hl.
  destruct (TcpServer.is_open (m_status (cconn j))) eqn:Ho.
  - destruct (close_callback_core fd r j z H Ho Hl) as (j' & E & Hi & Ej & Hq & Hn & Hab). exists j'.
    assert (closed (cconn j') = true) as Hc by (rewrite Ej; unfold closed; by injection Hl as -> _ _ _ _ _).
    split_and!; try done. unfold k_work. rewrite Hc, Hq, (open_not_closed _ Ho), length_app. cbn. lia.
  - subst z. eexists. split; [done|]. destruct j. split; [done|]. split; [by apply not_open_closed|done].
Qed.

(** A functor leaves the queue. *)
Lemma functor_step fd r j :
  k_inv j -> exists j', c_run_functor fd r j = Ok j' /\ k_inv j' /\ (client j = None -> client j' = None) /\ abandoned j' = abandoned j /\
    (cqueue j <> [] -> (k_work j' < k_work j)%nat).
Proof.
  intros [H G]. unfold c_run_functor. destruct (cqueue j) as [|f q] eqn:Eq; [by exists j|]. cbv zeta.
  assert (k_work j = S (length q + if closed (cconn j) then 0 else 1)) as Hw by (unfold k_work; by rewrite Eq).
  pose proof H as [H1 H2 H3 H4 H5]. rewrite Eq, destroys_cons in H3.
  assert (f <> DConnectDestroyed -> client j = None) as Hnone.
  { intros Hf. destruct (client j) as [c|] eqn:Ec; [|done]. destruct (H5 c eq_refl) as (_ & _ & Hall).
    rewrite Eq in Hall. by apply Forall_cons_1 in Hall as [? _]. }
  destruct f.
  - specialize (Hnone ltac:(done)). eexists. split; [done|]. split; [split|split; [done|split; [done|unfold k_work; cbn; unfold k_work in Hw; lia]]].
    + constructor; cbn [set_replaced set_cqueue cconn cdestroyed cqueue client replaced conn_fd]; try done. by rewrite Hnone.
    + intros _ Hab. destruct (G Hnone Hab) as [?|Hin]; [by left|right]. rewrite Eq in Hin. by apply elem_of_cons in Hin as [|].
  - specialize (Hnone ltac:(done)). destruct (c_forceClose_core fd r (set_cqueue q j)) as (j' & -> & Hi & Hz & Hl & Hn & Hab).
    { constructor; cbn [set_cqueue cconn cdestroyed cqueue client replaced conn_fd]; try done. by rewrite Hnone. }
    exists j'. split; [done|]. split; [by split; [done|apply closed_gone]|]. split; [done|]. split; [done|].
    intros _. rewrite Hw. unfold k_work at 2 in Hl. cbn in Hl. lia.
  - rewrite decide_True in H3 by done. destruct (closed (cconn j)) eqn:Ecl; [|lia].
    assert (cdestroyed j = 0%nat /\ destroys_queued q = 0%nat) as [D1 D2] by lia. rewrite D1 in H4.
    assert (m_status (cconn j) = Disconnected) as Hs by (by apply bool_decide_eq_true in Ecl).
    destruct (destroyed_total cb Hcb (cconn j) Htotal H1) as [z Ez]; [by right|done|].
    cbn [set_cqueue cconn]. rewrite Ez. cbn [mbind res_bind]. eexists. split; [done|].
    pose proof (destroyed_life cb Hcb _ _ H1 (or_intror Hs) Ez) as El.
    assert (closed z = true /\ registered z = false /\ life_ok (life_of z) /\ m_status z <> Connecting) as (C1 & C2 & C3 & C4).
    { rewrite El. injection El as E1 _ _ E2 _ _. unfold closed. rewrite E1, E2. done. }
    split; [split; [|by apply closed_gone]|split; [done|split; [done|intros _; rewrite Hw; unfold k_work; cbn; rewrite C1; lia]]].
    constructor; cbn [count_destroyed set_cqueue set_cconn cconn cdestroyed cqueue client replaced conn_fd]; try done.
    + by rewrite C1, D1, D2.
    + intros c Ec. destruct (H5 c Ec) as (R1 & R2 & R3). rewrite C1. rewrite Eq in R3. by apply Forall_cons_1 in R3 as [_ ?].
Qed.

(** Every call that opens or closes succeeds and keeps the invariant; the
    others keep it. *)
Definition k_closing (o : client_op) : bool :=
  match o with KData _ => false | KRead _ rd => read_closes rd | _ => true end.

Lemma k_exec_inv o fd r j j' : k_inv j -> k_enabled o j -> k_exec o fd r j = Ok j' -> k_inv j'.
Proof.
  intros H. pose proof H as [[H1 H2 H3 H4 H5] G]. destruct o as [now rd|d| | |ended inLoop|]; cbn [k_enabled k_exec].
  - intros Hr. unfold c_handleRead. intros E. ok_inv. rename x into z. pose proof (reading_open _ H1 Hr) as Ho.
    pose proof (handleRead_life cb Hcb now rd _ _ H1 Ho ltac:(eassumption)) as Hl. destruct (read_closes rd).
    + destruct (close_callback_core fd r j z (proj1 H) Ho Hl) as (j1 & E1 & Hi & Ez & _). rewrite E1 in E. injection E as <-.
      split; [done|]. apply closed_gone. rewrite Ez. unfold closed. by injection Hl as -> _ _ _ _ _.
    + injection E as <-. by apply polite_inv.
  - intros Hd E. ok_inv. apply polite_inv; [done|]. by eapply (data_exec_polite cb Hcb d).
  - intros _ [= <-]. apply polite_inv; [done|]. apply shutdown_polite.
  - intros _ E. destruct (c_forceClose_core fd r j (proj1 H)) as (j1 & E1 & Hi & Hz & _). rewrite E1 in E. injection E as <-.
    split; [done|by apply closed_gone].
  - intros [c Ec]. unfold client_destroy. rewrite Ec. destruct (H5 c Ec) as (R1 & R2 & R3).
    destruct ended; [intros [= <-]; split; [by constructor|by intros _ ?]|].
    destruct (bool_decide (TcpClient.m_connection c = None)) eqn:Hm.
    + intros [= <-]. rewrite bool_decide_eq_true, R2 in Hm. split; [by constructor|]. apply closed_gone. cbn. by destruct (closed (cconn j)).
    + destruct inLoop.
      * intros E. destruct (c_forceClose_core fd r (set_replaced true (set_client None j))) as (j1 & E1 & Hi & Hz & _); [by constructor|].
        rewrite E1 in E. injection E as <-. split; [done|by apply closed_gone].
      * intros [= <-]. split.
        -- constructor; cbn [enqueue_c set_cqueue set_client cconn cdestroyed cqueue client replaced conn_fd]; try done.
           by rewrite !destroys_snoc, !Nat.add_0_r.
        -- intros _ _. right. cbn. apply elem_of_app. right. by apply list_elem_of_singleton.
  - intros _ E. destruct (functor_step fd r j H) as (j1 & E1 & Hi & _). rewrite E1 in E. by injection E as <-.
Qed.

Lemma k_exec_progress o fd r j : k_inv j -> k_enabled o j -> k_closing o = true -> is_ok (k_exec o fd r j).
Proof.
  intros H. pose proof H as [[H1 H2 H3 H4 H5] G]. destruct o as [now rd|d| | |ended inLoop|]; cbn [k_enabled k_exec k_closing]; [|done|..].
  - intros Hr Hc. unfold c_handleRead. pose proof (reading_open _ H1 Hr) as Ho.
    destruct (handleClose_total cb Hcb (cconn j) Htotal H1 Ho) as [w Ew].
    assert (is_ok (handleRead cb now rd (cconn j))) as [z Ez].
    { destruct rd as [b|e]; cbn [handleRead read_closes] in *; [rewrite Hc, Ew; by eexists|].
      apply andb_true_iff in Hc as [Hc1%negb_true_iff Hc2%negb_true_iff]. rewrite Hc1, Hc2. by eexists. }
    rewrite Ez. cbn [mbind res_bind]. rewrite Hc. pose proof (handleRead_life cb Hcb now rd _ _ H1 Ho Ez) as Hl. rewrite Hc in Hl.
    destruct (close_callback_core fd r j z (proj1 H) Ho Hl) as (j1 & E1 & _). exists j1. exact E1.
  - by eexists.
  - intros _ _. destruct (c_forceClose_core fd r j (proj1 H)) as (j1 & E1 & _). exists j1. exact E1.
  - intros [c Ec] _. unfold client_destroy. rewrite Ec. destruct ended; [by eexists|].
    destruct (bool_decide (TcpClient.m_connection c = None)); [by eexists|]. destruct inLoop; [|by eexists].
    destruct (H5 c Ec) as (R1 & R2 & R3).
    destruct (c_forceClose_core fd r (set_replaced true (set_client None j))) as (j1 & E1 & _); [by constructor|]. exists j1. exact E1.
  - intros _ _. destruct (functor_step fd r j H) as (j1 & E1 & _). exists j1. exact E1.
Qed.

Lemma k_run_inv j0 ops j : k_inv j0 -> k_run j0 ops j -> k_inv j.
Proof. intros H0. induction 1 as [|ops o fd r j j' Hr IH He E]; [done|]. by eapply k_exec_inv. Qed.

Lemma k_run_app j0 ops j ops' j' : k_run j0 ops j -> k_run j ops' j' -> k_run j0 (ops ++ ops') j'.
Proof.
  intros H1. induction 1 as [|ops' o fd r j1 j2 Hr IH He E]; [by rewrite app_nil_r|].
  rewrite (assoc_L (++)). by eapply k_run_snoc.
Qed.

Lemma k_drain n j : k_inv j -> client j = None -> (k_work j <= n)%nat ->
  exists m j', k_run j (replicate m KRun) j' /\ k_inv j' /\ client j' = None /\ abandoned j' = abandoned j /\ cqueue j' = [].
Proof.
  revert j. induction n as [n IH] using lt_wf_ind. intros j H Hc Hn.
  destruct (decide (cqueue j = [])) as [E|E]; [exists 0%nat, j; split; [constructor|done]|].
  destruct (functor_step 0 CRefused j H) as (j1 & E1 & H1 & Hc1 & Hab & Hw). specialize (Hw E). specialize (Hc1 Hc).
  destruct (IH (k_work j1) ltac:(lia) j1 H1 Hc1 ltac:(done)) as (m & j' & Hr & H' & Hc' & Hab' & Hq').
  exists (S m), j'. split; [|rewrite <- Hab; done]. change (replicate (S m) KRun) with ([KRun] ++ replicate m KRun).
  eapply k_run_app; [|exact Hr]. by apply (k_run_snoc j [] KRun 0 CRefused j j1); [constructor| |].
Qed.
End client_connection.

(** ** Claims *)

(** Only the early return abandons the connection. *)
Lemma k_exec_abandoned cb o fd r j j' :
  k_exec cb o fd r j = Ok j' -> (forall inLoop, o <> KDestroy true inLoop) -> abandoned j' = abandoned j.
Proof.
  assert (forall j j', close_callback fd r j = Ok j' -> abandoned j' = abandoned j) as Hcc.
  { clear. intros j j'. unfold close_callback. destruct (replaced j); [by intros [= <-]|].
    destruct (client j); [|by intros [= <-]]. by intros (c & _ & [= <-])%bind_Ok. }
  assert (forall j j', c_forceClose cb fd r j = Ok j' -> abandoned j' = abandoned j) as Hf.
  { intros k k'. unfold c_forceClose. intros (x & _ & E)%bind_Ok.
    destruct (TcpServer.is_open _); [by apply Hcc in E|by injection E as <-]. }
  intros E Ho. destruct o as [now rd|d| | |ended inLoop|]; cbn [k_exec] in E.
  - unfold c_handleRead in E. apply bind_Ok in E as (x & _ & E). destruct (read_closes rd); [by apply Hcc in E|by injection E as <-].
  - by apply bind_Ok in E as (x & _ & [= <-]).
  - by injection E as <-.
  - by apply Hf.
  - unfold client_destroy in E. destruct (client j); [|done]. destruct ended; [by destruct (Ho inLoop)|].
    destruct (bool_decide _); [by injection E as <-|]. destruct inLoop; [by apply Hf in E|by injection E as <-].
  - unfold c_run_functor in E. destruct (cqueue j) as [|[] q]; [by injection E as <-|by injection E as <-|by apply Hf in E|].
    by apply bind_Ok in E as (x & _ & [= <-]).
Qed.

Lemma k_run_abandoned cb j0 ops j :
  abandoned j0 = false -> k_run cb j0 ops j -> abandoned j = true ->
  exists ops1 inLoop ops2, ops = ops1 ++ KDestroy true inLoop :: ops2.
Proof.
  intros H0. induction 1 as [|ops o fd r j j' Hr IH He E]; intros Ha; [congruence|].
  assert ((exists inLoop, o = KDestroy true inLoop) \/ forall inLoop, o <> KDestroy true inLoop) as [[inLoop ->]|Ho].
  { destruct o as [| | | |[] inLoop|]; try (right; done). left. by eexists. }
  - by exists ops, inLoop, [].
  - rewrite (k_exec_abandoned _ _ _ _ _ _ E Ho) in Ha. destruct (IH Ha) as (o1 & i & o2 & ->).
    exists o1, i, (o2 ++ [o]). by rewrite <- app_assoc.
Qed.

(** A client whose connection has just been established. *)
Record connected_state (j : joined) : Prop := {
  cs_client : exists c, client j = Some c /\ TcpClient.m_connection c = Some (conn_fd j);
  cs_life : life_ok (life_of (cconn j));
  cs_open : TcpServer.is_open (m_status (cconn j)) = true;
  cs_quiet : replaced j = false /\ cqueue j = [] /\ cdestroyed j = 0%nat /\ abandoned j = false
}.

Lemma connected_inv j : connected_state j -> k_inv j.
Proof.
  intros [(c & Ec & Em) Hl Ho (Hr & Hq & Hd & _)]. pose proof (open_not_closed _ Ho) as Hc. split; [|intros E; congruence].
  constructor; rewrite ?Hc, ?Hq, ?Hd; try done.
  - intros Hs. by rewrite Hs in Ho.
  - unfold life_ok in Hl. cbn in Hl. by destruct (m_status (cconn j)); [done|done|apply Hl..].
  - intros c' Ec'. simplify_eq. by rewrite Em.
Qed.


(** A connected client, destroyed from another thread while the peer closes. *)
Definition up_conn : conn :=
  log (EvConnection true) (set_status Connected (set_registered true (set_reading true TcpConnection_new))).
Definition up_client : joined :=
  mkJoined (Some (TcpClient.newConnection 5 TcpClient_new)) up_conn 5 false [] 0 false.

