(* ===== verification/Acceptor.v ===== *)
(** * Accepting: [netpoll/net/inner/acceptor.{h,cc}]

    The listening socket, its channel and the spare descriptor that is given up
    for a moment when the process has run out of descriptors, so that a
    connection that cannot be served is taken and closed instead of keeping the
    listening socket readable for ever.

    - The kernel is an interface, [Kernel]: a table of descriptors and the
      connections that wait, with what POSIX says of [open], [accept] and [close].
    - Other threads may open and close descriptors between two calls: [env i]
      is what they do before the [i]-th call of the handler after its first. *)

From stdpp Require Import gmap fin_sets.
From S2P Require Import Prelude.

Inductive errno := EMFILE | EAGAIN | EBADF.

#[global] Instance errno_eq_dec : EqDecision errno.
Proof. solve_decision. Defined.

(** ** The kernel *)

Class KernelOps (K : Type) := {
  in_use : K -> gset Z;                        (* open descriptors *)
  backlog : K -> nat;                          (* connections that wait in the listening socket *)
  limit : nat;
  sys_open : K -> (Z + errno) * K;             (* of "/dev/null" *)
  sys_accept : K -> (Z + errno) * K;
  sys_close : Z -> K -> K
}.

Class Kernel (K : Type) `{KernelOps K} := {
  open_full k : (limit <= size (in_use k))%nat -> sys_open k = (inr EMFILE, k);
  open_free k : (size (in_use k) < limit)%nat ->
    exists fd k', sys_open k = (inl fd, k') /\ 0 <= fd /\ (fd ∉ in_use k) /\
      in_use k' = {[ fd ]} ∪ in_use k /\ backlog k' = backlog k;
  accept_none k : backlog k = 0%nat -> exists e, sys_accept k = (inr e, k);
  accept_full k : (0 < backlog k)%nat -> (limit <= size (in_use k))%nat -> sys_accept k = (inr EMFILE, k);
  accept_free k n : backlog k = S n -> (size (in_use k) < limit)%nat ->
    exists fd k', sys_accept k = (inl fd, k') /\ 0 <= fd /\ (fd ∉ in_use k) /\
      in_use k' = {[ fd ]} ∪ in_use k /\ backlog k' = n;
  in_use_nonneg fd k : fd ∈ in_use k -> 0 <= fd;
  close_spec fd k : in_use (sys_close fd k) = in_use k ∖ {[ fd ]} /\ backlog (sys_close fd k) = backlog k
}.

(** The number a call returns: -1 for an error. *)
Definition fd_of (r : Z + errno) : Z := match r with inl fd => fd | inr _ => -1 end.

Section acceptor.
Context {K : Type} `{KernelOps K}.

Record Acceptor := mkAcceptor {
  m_idleFd : Z;
  m_sock : Z;
  reading : bool;                      (* the channel of [m_sock] is enabled *)
  has_callback : bool;                 (* [m_newConnectionCallback] is set *)
  delivered : list Z                   (* the descriptors given to the callback *)
}.

Implicit Type a : Acceptor.
Implicit Type k : K.

Definition set_idleFd (fd : Z) a : Acceptor :=
  mkAcceptor fd (m_sock a) (reading a) (has_callback a) (delivered a).

(** [sock]: what [createNonblockingSocketOrDie] returns, after the spare
    descriptor has been opened. *)
Definition Acceptor_new (sock : K -> Z * K) k : Acceptor * K :=
  let (r, k) := sys_open k in
  let (s, k) := sock k in
  (mkAcceptor (fd_of r) s false false [], k).

Definition setNewConnectionCallback a : Acceptor :=
  mkAcceptor (m_idleFd a) (m_sock a) (reading a) true (delivered a).

Definition listen a : Acceptor :=
  mkAcceptor (m_idleFd a) (m_sock a) true (has_callback a) (delivered a).

(** What is left to do when [accept] has failed with [EMFILE]. *)
Definition handle_emfile (env : nat -> K -> K) a k : Acceptor * K :=
  let k := sys_close (m_idleFd a) (env 0%nat k) in
  let (r, k) := sys_accept (env 1%nat k) in
  let a := set_idleFd (fd_of r) a in
  let k := sys_close (m_idleFd a) (env 2%nat k) in
  let (r, k) := sys_open (env 3%nat k) in
  (set_idleFd (fd_of r) a, k).

Definition acceptor_handleRead (env : nat -> K -> K) a k : Acceptor * K :=
  let (r, k) := sys_accept k in
  match r with
  | inl newsock =>
      if has_callback a
      then (mkAcceptor (m_idleFd a) (m_sock a) (reading a) (has_callback a) (delivered a ++ [newsock]), k)
      else (a, sys_close newsock k)
  | inr EMFILE => handle_emfile env a k
  | inr _ => (a, k)
  end.

(** The destructor; that of [m_sock] closes the socket. *)
Definition Acceptor_destroy a k : K := sys_close (m_sock a) (sys_close (m_idleFd a) k).

(** [n] rounds of the loop in which nobody else touches descriptors: the
    channel is level triggered, so the handler runs while something waits. *)
Fixpoint serve (n : nat) a k : Acceptor * K :=
  match n with
  | O => (a, k)
  | S n =>
      if bool_decide (backlog k = 0%nat) then (a, k)
      else let (a, k) := acceptor_handleRead (fun _ k => k) a k in serve n a k
  end.

(** ** Invariant *)

(** The spare descriptor is open and nobody else's. *)
Record acceptor_ok a k : Prop := {
  ao_idle : 0 <= m_idleFd a /\ m_idleFd a ∈ in_use k /\ m_idleFd a <> m_sock a;
  ao_sock : m_sock a ∈ in_use k;
  ao_limit : (size (in_use k) <= limit)%nat
}.

Context `{!Kernel K}.

(** The table without the spare descriptor. *)
Definition others a k : gset Z := in_use k ∖ {[ m_idleFd a ]}.

Lemma size_add (X : gset Z) fd : fd ∉ X -> size ({[ fd ]} ∪ X) = S (size X).
Proof. intros. rewrite size_union by set_solver. by rewrite size_singleton. Qed.

Lemma size_remove (X : gset Z) fd : fd ∈ X -> size X = S (size (X ∖ {[ fd ]})).
Proof.
  intros Hin. rewrite <- (size_add (X ∖ {[ fd ]}) fd) by set_solver.
  f_equal. by apply leibniz_equiv, union_difference_singleton.
Qed.

(** The whole dance with a full table: one connection is taken and closed. *)
Lemma handle_emfile_ok a k n :
  acceptor_ok a k -> backlog k = S n ->
  exists a' k', handle_emfile (fun _ k => k) a k = (a', k') /\ acceptor_ok a' k' /\ backlog k' = n /\
    others a' k' = others a k /\ delivered a' = delivered a /\ size (in_use k') = size (in_use k).
Proof.
  intros [(Hi & Hin & Hne) Hs Hl] Hb. unfold handle_emfile.
  destruct (close_spec (m_idleFd a) k) as [C1 B1]. set (k1 := sys_close (m_idleFd a) k) in *.
  pose proof (size_remove _ _ Hin) as Hsz. rewrite <- C1 in Hsz.
  destruct (accept_free k1 n) as (fd & k2 & -> & Hfd & Hnew & C2 & B2); [congruence|lia|].
  cbn [fd_of set_idleFd m_idleFd]. destruct (close_spec fd k2) as [C3 B3].
  set (k3 := sys_close fd k2) in *.
  assert (in_use k3 = in_use k1) as E3 by (rewrite C3, C2; set_solver).
  destruct (open_free k3) as (fd' & k4 & -> & Hfd' & Hnew' & C4 & B4); [rewrite E3; lia|].
  cbn [fd_of set_idleFd m_sock reading has_callback delivered].
  eexists _, k4. split; [reflexivity|]. rewrite E3 in Hnew', C4.
  assert (size (in_use k4) = size (in_use k)) as Hk4 by (rewrite C4, size_add by done; lia).
  split_and!; [|congruence| |done|done].
  - constructor; cbn; [|set_solver|lia]. split_and!; [done|set_solver|]. intros ->. set_solver.
  - unfold others. cbn. set_solver.
Qed.

(** One round, whatever the table holds. *)
Lemma handleRead_ok a k n :
  acceptor_ok a k -> backlog k = S n ->
  exists a' k', acceptor_handleRead (fun _ k => k) a k = (a', k') /\ acceptor_ok a' k' /\ backlog k' = n /\
    (if bool_decide (size (in_use k) = limit)
     then others a' k' = others a k /\ delivered a' = delivered a
     else m_idleFd a' = m_idleFd a /\
       if has_callback a
       then exists fd, (fd ∉ in_use k) /\ in_use k' = {[ fd ]} ∪ in_use k /\ delivered a' = delivered a ++ [fd]
       else in_use k' = in_use k /\ delivered a' = delivered a).
Proof.
  intros Ha Hb. pose proof Ha as [(Hi & Hin & Hne) Hs Hl]. unfold acceptor_handleRead.
  case_bool_decide as Hf.
  { rewrite accept_full by lia. destruct (handle_emfile_ok a k n Ha Hb) as (a' & k' & -> & ? & ? & ? & ? & _). eauto 10. }
  destruct (accept_free k n Hb) as (fd & k' & -> & Hfd & Hnew & C & B); [lia|].
  destruct (has_callback a) eqn:Hc.
  - eexists _, k'. split; [reflexivity|]. split_and!; [|done|done|eauto].
    constructor; cbn; [set_solver|set_solver|]. rewrite C, size_add by done. lia.
  - destruct (close_spec fd k') as [C' B']. eexists a, _. split; [reflexivity|].
    assert (in_use (sys_close fd k') = in_use k) as E by (rewrite C', C; set_solver).
    split_and!; [|congruence|done|done|done]. by constructor; rewrite E.
Qed.

Lemma serve_ok n a k :
  acceptor_ok a k -> (backlog k <= n)%nat ->
  exists a' k', serve n a k = (a', k') /\ acceptor_ok a' k' /\ backlog k' = 0%nat.
Proof.
  revert a k. induction n as [|n IH]; intros a k Ha Hb; cbn [serve]; [exists a, k; split_and!; [done|done|lia]|].
  case_bool_decide as E; [eauto|]. destruct (backlog k) as [|b] eqn:Eb; [done|].
  destruct (handleRead_ok a k b Ha Eb) as (a' & k' & -> & Ha' & Hb' & _). apply IH; [done|lia].
Qed.

(** ** Without the spare descriptor *)

Lemma close_invalid k : in_use (sys_close (-1) k) = in_use k /\ backlog (sys_close (-1) k) = backlog k.
Proof.
  destruct (close_spec (-1) k) as [C B]. split; [|done]. rewrite C.
  enough (-1 ∉ in_use k) by set_solver. intros Hin%in_use_nonneg. lia.
Qed.

Lemma emfile_stuck a k :
  m_idleFd a = -1 -> (0 < backlog k)%nat -> (limit <= size (in_use k))%nat ->
  exists k', acceptor_handleRead (fun _ k => k) a k = (a, k') /\ in_use k' = in_use k /\ backlog k' = backlog k.
Proof.
  intros Hi Hb Hf. unfold acceptor_handleRead. rewrite accept_full by done. unfold handle_emfile. rewrite Hi.
  destruct (close_invalid k) as [C1 B1]. rewrite accept_full by (rewrite ?C1, ?B1; done).
  cbn [fd_of set_idleFd m_idleFd]. destruct (close_invalid (sys_close (-1) k)) as [C2 B2].
  rewrite open_full by (rewrite C2, C1; done). destruct a; cbn in Hi |- *; subst.
  eexists. split; [reflexivity|]. split; congruence.
Qed.

Lemma serve_stuck n a k :
  m_idleFd a = -1 -> (0 < backlog k)%nat -> (limit <= size (in_use k))%nat ->
  exists k', serve n a k = (a, k') /\ in_use k' = in_use k /\ backlog k' = backlog k.
Proof.
  intros Hi. revert k. induction n as [|n IH]; intros k Hb Hf; cbn [serve]; [eauto|].
  rewrite bool_decide_false by lia. destruct (emfile_stuck a k Hi Hb Hf) as (k' & -> & C & B).
  destruct (IH k') as (k'' & -> & C' & B'); [lia|by rewrite C|]. eexists. split; [done|]. split; congruence.
Qed.

End acceptor.
Arguments Acceptor : clear implicits.

(** ** A kernel *)

Record table := mkTable { t_fds : gset Z; t_waiting : nat }.

(** Descriptors are never negative. *)
Definition open_fds (X : gset Z) : gset Z := filter (fun fd => 0 <= fd) X.

(** A number that is not in use. *)
Definition next_fd (X : gset Z) : Z := 1 + foldr Z.max 0 (elements X).

#[global] Instance table_ops (max : nat) : KernelOps table := {
  in_use t := open_fds (t_fds t);
  backlog := t_waiting;
  limit := max;
  sys_open t :=
    if bool_decide (max <= size (open_fds (t_fds t)))%nat then (inr EMFILE, t)
    else (inl (next_fd (t_fds t)), mkTable ({[ next_fd (t_fds t) ]} ∪ t_fds t) (t_waiting t));
  sys_accept t :=
    match t_waiting t with
    | O => (inr EAGAIN, t)
    | S n =>
        if bool_decide (max <= size (open_fds (t_fds t)))%nat then (inr EMFILE, t)
        else (inl (next_fd (t_fds t)), mkTable ({[ next_fd (t_fds t) ]} ∪ t_fds t) n)
    end;
  sys_close fd t := mkTable (t_fds t ∖ {[ fd ]}) (t_waiting t)
}.

Lemma foldr_max_bound (l : list Z) x : x ∈ l -> x <= foldr Z.max 0 l.
Proof. induction 1; cbn; lia. Qed.

Lemma foldr_max_nonneg (l : list Z) : 0 <= foldr Z.max 0 l.
Proof. induction l; cbn; lia. Qed.

Lemma next_fd_fresh X : 0 <= next_fd X /\ (next_fd X ∉ X).
Proof.
  unfold next_fd. pose proof (foldr_max_nonneg (elements X)). split; [lia|].
  intros Hin%elem_of_elements%foldr_max_bound. lia.
Qed.

Lemma next_fd_table X n :
  0 <= next_fd X /\ (next_fd X ∉ open_fds X) /\
  open_fds (t_fds (mkTable ({[ next_fd X ]} ∪ X) n)) =
    {[ next_fd X ]} ∪ open_fds X.
Proof.
  destruct (next_fd_fresh X) as [H1 H2]. unfold open_fds. split_and!; [done|set_solver|].
  cbn. unfold open_fds. apply leibniz_equiv. set_solver.
Qed.

#[global] Instance table_kernel (max : nat) : @Kernel table (table_ops max).
Proof.
  constructor; unfold in_use, backlog, limit, sys_open, sys_accept, sys_close; cbn [table_ops].
  - intros k Hf. by rewrite bool_decide_true.
  - intros k Hf. rewrite bool_decide_false by lia. destruct (next_fd_table (t_fds k) (t_waiting k)) as (? & ? & ?).
    eexists _, _. by split_and!.
  - intros k ->. eauto.
  - intros k Hb Hf. destruct (t_waiting k); [lia|]. by rewrite bool_decide_true.
  - intros k n -> Hf. rewrite bool_decide_false by lia. destruct (next_fd_table (t_fds k) n) as (? & ? & ?).
    eexists _, _. by split_and!.
  - intros fd k [? _]%elem_of_filter. done.
  - intros fd k. split; [|done]. unfold open_fds. apply leibniz_equiv. set_solver.
Qed.

(** ** Properties *)

(** C34. The spare descriptor keeps the acceptor going.  As long as it is held,
    nobody else uses descriptors during a round ([spare_fd_lost] shows what
    happens otherwise), and logging the failure of [accept] leaves [errno] alone, every round takes exactly
    one waiting connection: into the callback, when the table has room (or
    closed at once, when there is no callback), and closed when the table is
    full; then the spare descriptor is open again and the rest of the table is
    as before.  So as many rounds as connections wait leave none, with a full
    table too, and the level-triggered loop comes to rest. *)
Theorem acceptor_survives_emfile {K} `{Kernel K} (a : Acceptor) (k : K) :
  acceptor_ok a k ->
  (forall n, backlog k = S n ->
     exists a' k', acceptor_handleRead (fun _ k => k) a k = (a', k') /\ acceptor_ok a' k' /\ backlog k' = n /\
       (if bool_decide (size (in_use k) = limit)
        then others a' k' = others a k /\ delivered a' = delivered a
        else m_idleFd a' = m_idleFd a /\
          if has_callback a
          then exists fd, (fd ∉ in_use k) /\ in_use k' = {[ fd ]} ∪ in_use k /\ delivered a' = delivered a ++ [fd]
          else in_use k' = in_use k /\ delivered a' = delivered a)) /\
  (exists a' k', serve (backlog k) a k = (a', k') /\ acceptor_ok a' k' /\ backlog k' = 0%nat).
Proof. intros Ha. split; [intros n; by apply handleRead_ok|]. by apply serve_ok. Qed.

(** Three connections wait; the table of four is full. *)
Definition full_table : table := mkTable {[ 0; 1; 2; 3 ]} 3.
Definition full_acceptor : Acceptor := mkAcceptor 2 3 true true [].

Lemma full_acceptor_ok : @acceptor_ok table (table_ops 4) full_acceptor full_table.
Proof. split; [split_and!; [cbn; lia|by vm_compute|cbn; lia]|by vm_compute|by vm_compute; lia]. Qed.

Lemma acceptor_survives_emfile_witness :
  exists a' k', @serve table (table_ops 4) 3 full_acceptor full_table = (a', k') /\
    @acceptor_ok table (table_ops 4) a' k' /\ t_waiting k' = 0%nat.
Proof.
  exact (proj2 (@acceptor_survives_emfile table (table_ops 4) (table_kernel 4)
    full_acceptor full_table full_acceptor_ok)).
Defined.

(** The spare descriptor can be lost for good.  When another thread takes
    the descriptor that the handler has given up before the handler's second
    [accept], and the table stays full, the handler ends with -1 in
    [m_idleFd]; from then on, while the table is full, a round takes no
    connection and changes nothing, however often the loop, woken at once every
    time, runs it. *)
Theorem spare_fd_lost {K} `{Kernel K} (a : Acceptor) (k : K) (env : K -> K) :
  acceptor_ok a k -> size (in_use k) = limit -> (0 < backlog k)%nat ->
  (forall k, backlog (env k) = backlog k) ->
  (limit <= size (in_use (env (sys_close (m_idleFd a) k))))%nat ->
  exists a' k', acceptor_handleRead (fun i k => match i with 1%nat => env k | _ => k end) a k = (a', k') /\
    m_idleFd a' = -1 /\
    forall n, exists k'', serve n a' k' = (a', k'') /\ in_use k'' = in_use k' /\ backlog k'' = backlog k.
Proof.
  intros Ha Hf Hb He Hfull. unfold acceptor_handleRead. rewrite accept_full by lia.
  unfold handle_emfile. cbn -[sys_close sys_accept sys_open serve].
  destruct (close_spec (m_idleFd a) k) as [_ B1]. set (k1 := env (sys_close (m_idleFd a) k)) in *.
  assert (backlog k1 = backlog k) as Bk by (unfold k1; by rewrite He).
  rewrite accept_full by (done || lia). cbn -[sys_close sys_open serve].
  destruct (close_invalid k1) as [C2 B2]. rewrite open_full by (by rewrite C2).
  eexists _, _. split; [reflexivity|]. split; [done|]. intros n.
  destruct (serve_stuck n (set_idleFd (-1) (set_idleFd (-1) a)) (sys_close (-1) k1)) as (k'' & E & C & B).
  - done.
  - lia.
  - by rewrite C2.
  - exists k''. split; [exact E|]. split; [done|]. lia.
Qed.

(** The other thread opens a file. *)
Definition thief (t : table) : table := mkTable ({[ next_fd (t_fds t) ]} ∪ t_fds t) (t_waiting t).

Lemma spare_fd_lost_witness :
  exists a' k', @acceptor_handleRead table (table_ops 4)
      (fun i k => match i with 1%nat => thief k | _ => k end) full_acceptor full_table = (a', k') /\
    m_idleFd a' = -1.
Proof.
  destruct (@spare_fd_lost table (table_ops 4) (table_kernel 4) full_acceptor full_table thief)
    as (a' & k' & E & Hi & _).
  - exact full_acceptor_ok.
  - vm_compute. reflexivity.
  - vm_compute. lia.
  - intros k. reflexivity.
  - vm_compute. lia.
  - exists a', k'. exact (conj E Hi).
Defined.
