(* ===== verification/Socket.v ===== *)
(** * Sockets: [netpoll/net/inner/socket.{h,cc}]

    The descriptors of [Socket]: how a new
    descriptor becomes non-blocking and close-on-exec, with [accept4] on Linux
    and with four calls of [fcntl] elsewhere, the options, and the error that is
    pending on a socket; and what the two ways to accept mean for [Acceptor].

    - The kernel is that of [Acceptor], with the flags, options and pending
      errors of its descriptors ([SocketOps]), and what POSIX says of [fcntl],
      [accept4], [socket], [setsockopt] and [getsockopt] ([SocketKernel]).
    - [errno] is a variable of its own, because what it holds after several
      calls is the point: a call that fails sets it, a call that succeeds is
      taken to leave it alone.
    - A message of level FATAL is a flag in the result: whether it ends the
      process is up to the logging library.  The Windows branches
      are left out; the calls that pass or fetch an address are in
      [SocketAddress]. *)

From stdpp Require Import gmap fin_sets.
From S2P Require Import Prelude Acceptor.

Inductive fcntl_cmd := F_GETFL | F_SETFL (flags : Z) | F_GETFD | F_SETFD (flags : Z).

Inductive sockopt := TCP_NODELAY | SO_REUSEADDR | SO_REUSEPORT | SO_KEEPALIVE.

#[global] Instance sockopt_eq_dec : EqDecision sockopt.
Proof. solve_decision. Defined.

#[global] Instance sockopt_countable : Countable sockopt.
Proof.
  apply (inj_countable' (fun o => match o with TCP_NODELAY => 0 | SO_REUSEADDR => 1 | SO_REUSEPORT => 2 | SO_KEEPALIVE => 3 end)
    (fun z => if decide (z = 0) then TCP_NODELAY else if decide (z = 1) then SO_REUSEADDR
              else if decide (z = 2) then SO_REUSEPORT else SO_KEEPALIVE)).
  by intros [].
Defined.

Class SocketOps (K : Type) `{KernelOps K} := {
  O_NONBLOCK : Z;
  FD_CLOEXEC : Z;
  status_flags : K -> Z -> Z;                     (* what [F_GETFL] reads *)
  fd_flags : K -> Z -> Z;                         (* what [F_GETFD] reads *)
  option_of : K -> Z -> sockopt -> Z;
  so_error : K -> Z -> option errno;              (* pending; [None]: 0 *)
  fcntl : Z -> fcntl_cmd -> K -> (Z + errno) * K;
  sys_accept4 : K -> (Z + errno) * K;             (* with SOCK_NONBLOCK | SOCK_CLOEXEC *)
  sys_socket : K -> (Z + errno) * K;              (* no flags *)
  sys_socket_flags : K -> (Z + errno) * K;        (* with SOCK_NONBLOCK | SOCK_CLOEXEC *)
  sys_setsockopt : Z -> sockopt -> Z -> K -> (Z + errno) * K;
  sys_getsockopt_error : Z -> K -> (option errno + errno) * K
}.

Definition nonblocking `{SocketOps K} (k : K) (fd : Z) : Prop := Z.land (status_flags k fd) O_NONBLOCK = O_NONBLOCK.
Definition closed_on_exec `{SocketOps K} (k : K) (fd : Z) : Prop := Z.land (fd_flags k fd) FD_CLOEXEC = FD_CLOEXEC.

(** The tables of descriptors and of waiting connections are the same. *)
Definition same_table `{KernelOps K} (k k' : K) : Prop := in_use k' = in_use k /\ backlog k' = backlog k.

(** A call that makes a descriptor behaves as another one, and the new
    descriptor has the two flags. *)
Definition made_with_flags `{SocketOps K} (plain flagged : K -> (Z + errno) * K) : Prop :=
  forall k,
    match plain k with
    | (inr e, k1) => flagged k = (inr e, k1)
    | (inl fd, k1) => exists k2, flagged k = (inl fd, k2) /\ same_table k1 k2 /\ nonblocking k2 fd /\ closed_on_exec k2 fd
    end.

Class SocketKernel (K : Type) `{SocketOps K} `{!Kernel K} := {
  fcntl_closed fd c k : (fd ∉ in_use k) -> fcntl fd c k = (inr EBADF, k);
  getfl_open fd k : fd ∈ in_use k -> fcntl fd F_GETFL k = (inl (status_flags k fd), k);
  getfd_open fd k : fd ∈ in_use k -> fcntl fd F_GETFD k = (inl (fd_flags k fd), k);
  setfl_open fd f k : fd ∈ in_use k ->
    exists k', fcntl fd (F_SETFL f) k = (inl 0, k') /\ same_table k k' /\
      status_flags k' fd = f /\ forall g, fd_flags k' g = fd_flags k g;
  setfd_open fd f k : fd ∈ in_use k ->
    exists k', fcntl fd (F_SETFD f) k = (inl 0, k') /\ same_table k k' /\
      fd_flags k' fd = f /\ forall g, status_flags k' g = status_flags k g;
  accept4_spec : made_with_flags sys_accept sys_accept4;
  socket_flags_spec : made_with_flags sys_socket sys_socket_flags;
  socket_open k fd k' : sys_socket k = (inl fd, k') -> 0 <= fd /\ in_use k' = {[ fd ]} ∪ in_use k /\ backlog k' = backlog k;
  setsockopt_open fd o v k : fd ∈ in_use k ->
    exists k', sys_setsockopt fd o v k = (inl 0, k') /\ same_table k k' /\
      (forall g p, option_of k' g p = if decide (g = fd /\ p = o) then v else option_of k g p);
  (* SO_ERROR: get and clear *)
  so_error_open fd k : fd ∈ in_use k ->
    exists k', sys_getsockopt_error fd k = (inl (so_error k fd), k') /\ same_table k k' /\ so_error k' fd = None;
  so_error_closed fd k : (fd ∉ in_use k) -> sys_getsockopt_error fd k = (inr EBADF, k)
}.

Section socket.
Context {K : Type} `{SocketOps K}.
Implicit Types (k : K) (fd : Z).

(** [errno] after a call that returned [r]. *)
Definition set_errno {A} (r : A + errno) (e : option errno) : option errno :=
  match r with inl _ => e | inr e => Some e end.

(** One call of [fcntl]: what it returns, and [errno] after it. *)
Definition fcntl_c fd (c : fcntl_cmd) (s : option errno * K) : Z * (option errno * K) :=
  let (e, k) := s in
  let (r, k) := fcntl fd c k in
  (fd_of r, (set_errno r e, k)).

Definition setNonBlockAndCloseOnExec fd (s : option errno * K) : option errno * K :=
  (* non-block *)
  let (flags, s) := fcntl_c fd F_GETFL s in
  let (_, s) := fcntl_c fd (F_SETFL (Z.lor flags O_NONBLOCK)) s in
  (* close-on-exec *)
  let (flags, s) := fcntl_c fd F_GETFD s in
  let (_, s) := fcntl_c fd (F_SETFD (Z.lor flags FD_CLOEXEC)) s in
  s.

(** [createNonblockingSocketOrDie]: the descriptor and whether the message of
    level FATAL is written. *)
Definition create_linux k : Z * bool * K :=
  let (r, k) := sys_socket_flags k in
  (fd_of r, fd_of r <? 0, k).

Definition create_portable k : Z * bool * K :=
  let (r, k) := sys_socket k in
  let (_, k) := setNonBlockAndCloseOnExec (fd_of r) (set_errno r None, k) in
  (fd_of r, fd_of r <? 0, k).

(** [Socket::accept], and what [errno] is for its caller when it fails. *)
Definition accept_linux k : (Z + errno) * K := sys_accept4 k.

Definition accept_portable k : (Z + errno) * K :=
  let (r, k) := sys_accept k in
  let (e, k) := setNonBlockAndCloseOnExec (fd_of r) (set_errno r None, k) in
  match r, e with
  | inl connfd, _ => (inl connfd, k)
  | inr _, Some e => (inr e, k)
  | inr e, None => (inr e, k)
  end.

Definition setsockopt_bool fd (o : sockopt) (on : bool) k : K :=
  (sys_setsockopt fd o (if on then 1 else 0) k).2.

Definition setTcpNoDelay fd (on : bool) k : K := setsockopt_bool fd TCP_NODELAY on k.
Definition setReuseAddr fd (on : bool) k : K := setsockopt_bool fd SO_REUSEADDR on k.
Definition setReusePort fd (on : bool) k : K := setsockopt_bool fd SO_REUSEPORT on k.
Definition setKeepAlive fd (on : bool) k : K := setsockopt_bool fd SO_KEEPALIVE on k.

(** The pending error, or that of [getsockopt] itself. *)
Definition getSocketError fd k : option errno * K :=
  let (r, k) := sys_getsockopt_error fd k in
  (match r with inl optval => optval | inr e => Some e end, k).

(** The static variant, which [Connector] uses, has a body of its own. *)
Definition getSocketError_static (sockfd : Z) k : option errno * K :=
  match sys_getsockopt_error sockfd k with
  | (inr errno, k) => (Some errno, k)
  | (inl optval, k) => (optval, k)
  end.

Definition Socket_destroy (m_sockFd : Z) k : K := if 0 <=? m_sockFd then sys_close m_sockFd k else k.

(** ** Lemmas *)

Context `{!Kernel K} `{!SocketKernel K}.

Lemma same_table_trans k1 k2 k3 : same_table k1 k2 -> same_table k2 k3 -> same_table k1 k3.
Proof. intros [] []. split; congruence. Qed.

Lemma land_lor_r a b : Z.land (Z.lor a b) b = b.
Proof. apply Z.bits_inj'. intros n _. rewrite Z.land_spec, Z.lor_spec. by destruct (Z.testbit a n), (Z.testbit b n). Qed.

Lemma setNonBlock_open fd e k :
  fd ∈ in_use k ->
  exists k', setNonBlockAndCloseOnExec fd (e, k) = (e, k') /\ same_table k k' /\
    status_flags k' fd = Z.lor (status_flags k fd) O_NONBLOCK /\ fd_flags k' fd = Z.lor (fd_flags k fd) FD_CLOEXEC.
Proof.
  intros Hin. unfold setNonBlockAndCloseOnExec, fcntl_c. rewrite getfl_open by done. cbn [fd_of set_errno].
  destruct (setfl_open fd (Z.lor (status_flags k fd) O_NONBLOCK) k Hin) as (k1 & -> & T1 & F1 & G1).
  cbn [fd_of set_errno]. assert (fd ∈ in_use k1) as Hin1 by (rewrite (proj1 T1); done).
  rewrite getfd_open by done. cbn [fd_of set_errno].
  destruct (setfd_open fd (Z.lor (fd_flags k1 fd) FD_CLOEXEC) k1 Hin1) as (k2 & -> & T2 & F2 & G2).
  cbn [fd_of set_errno]. exists k2. split; [done|]. split; [by eapply same_table_trans|]. split.
  - by rewrite G2.
  - by rewrite F2, G1.
Qed.

Lemma setNonBlock_closed fd e k :
  (fd ∉ in_use k) -> setNonBlockAndCloseOnExec fd (e, k) = (Some EBADF, k).
Proof.
  intros Hin. unfold setNonBlockAndCloseOnExec, fcntl_c.
  by repeat (rewrite fcntl_closed by done; cbn [fd_of set_errno]).
Qed.

Lemma minus_one_closed k : -1 ∉ in_use k.
Proof. intros Hin%in_use_nonneg. lia. Qed.

Lemma accept_portable_fails k e k1 :
  sys_accept k = (inr e, k1) -> accept_portable k = (inr EBADF, k1).
Proof.
  intros E. unfold accept_portable. rewrite E. cbn [fd_of].
  by rewrite setNonBlock_closed by apply minus_one_closed.
Qed.

(** [SO_ERROR] is cleared by reading it: a second call finds no error. *)
Lemma pending_error_once k fd :
  fd ∈ in_use k ->
  let (e, k') := getSocketError fd k in e = so_error k fd /\ (getSocketError fd k').1 = None.
Proof.
  intros Hin. unfold getSocketError. destruct (so_error_open fd k Hin) as (k1 & -> & [T _] & E).
  split; [done|]. destruct (so_error_open fd k1) as (k2 & -> & _); [by rewrite T|]. done.
Qed.

Lemma getSocketError_variants k fd : getSocketError_static fd k = getSocketError fd k.
Proof. unfold getSocketError_static, getSocketError. by destruct (sys_getsockopt_error fd k) as [[] ?]. Qed.

(** An option is set for one descriptor, and nothing else changes. *)
Lemma option_set k fd o on g p :
  fd ∈ in_use k ->
  option_of (setsockopt_bool fd o on k) g p = (if decide (g = fd /\ p = o) then if on then 1 else 0 else option_of k g p).
Proof.
  intros Hin. unfold setsockopt_bool. destruct (setsockopt_open fd o (if on then 1 else 0) k Hin) as (k1 & -> & _ & E).
  apply E.
Qed.

Lemma accepted_in_use k fd k1 : sys_accept k = (inl fd, k1) -> fd ∈ in_use k1.
Proof.
  intros E. destruct (backlog k) as [|n] eqn:Hb.
  - destruct (accept_none k Hb) as [e E']. congruence.
  - destruct (decide (limit <= size (in_use k))%nat) as [Hf|Hf].
    + rewrite accept_full in E by lia. congruence.
    + destruct (accept_free k n Hb) as (fd' & k' & E' & _ & _ & Hin & _); [lia|].
      rewrite E in E'. injection E' as -> ->. rewrite Hin. set_solver.
Qed.

Lemma flags_set k k' fd :
  status_flags k' fd = Z.lor (status_flags k fd) O_NONBLOCK -> fd_flags k' fd = Z.lor (fd_flags k fd) FD_CLOEXEC ->
  nonblocking k' fd /\ closed_on_exec k' fd.
Proof. unfold nonblocking, closed_on_exec. intros -> ->. split; apply land_lor_r. Qed.

Lemma accept_portable_ok k fd k1 :
  sys_accept k = (inl fd, k1) -> fd ∈ in_use k1 ->
  exists k2, accept_portable k = (inl fd, k2) /\ same_table k1 k2 /\ nonblocking k2 fd /\ closed_on_exec k2 fd.
Proof.
  intros E Hin. unfold accept_portable. rewrite E. cbn [fd_of set_errno].
  destruct (setNonBlock_open fd None k1 Hin) as (k2 & -> & T & F & G).
  exists k2. split; [done|]. split; [done|]. by eapply flags_set.
Qed.

End socket.

(** The kernel as [Acceptor] sees it through [Socket::accept] of a system
    without [accept4]. *)
Definition portable_ops {K} `{SocketOps K} : KernelOps K := {|
  in_use := in_use;
  backlog := backlog;
  limit := limit;
  sys_open := sys_open;
  sys_accept := accept_portable;
  sys_close := sys_close
|}.

(** And through that of Linux. *)
Definition linux_ops {K} `{SocketOps K} : KernelOps K := {|
  in_use := in_use;
  backlog := backlog;
  limit := limit;
  sys_open := sys_open;
  sys_accept := accept_linux;
  sys_close := sys_close
|}.

(** What [accept_linux] promises is what [Acceptor] needs. *)
#[global] Instance linux_kernel {K} `{SocketKernel K} : @Kernel K linux_ops.
Proof.
  constructor; cbn [in_use backlog limit sys_open sys_accept sys_close linux_ops]; unfold accept_linux.
  - exact open_full.
  - exact open_free.
  - intros k Hb. destruct (accept_none k Hb) as [e E]. pose proof (accept4_spec k) as A. rewrite E in A. eauto.
  - intros k Hb Hf. pose proof (accept4_spec k) as A. by rewrite (accept_full k Hb Hf) in A.
  - intros k n Hb Hf. destruct (accept_free k n Hb Hf) as (fd & k1 & E & Hfd & Hnew & Hin & Hbk).
    pose proof (accept4_spec k) as A. rewrite E in A. destruct A as (k2 & -> & [T1 T2] & _).
    exists fd, k2. split_and!; [done|done|done|congruence|congruence].
  - exact in_use_nonneg.
  - exact close_spec.
Qed.

Lemma portable_emfile {K} `{SocketKernel K} (a : Acceptor) (k : K) env :
  (0 < backlog k)%nat -> (limit <= size (in_use k))%nat ->
  @acceptor_handleRead K portable_ops env a k = (a, k).
Proof.
  intros Hb Hf. unfold acceptor_handleRead, sys_accept. cbn [portable_ops].
  by rewrite (accept_portable_fails k EMFILE k) by (by apply accept_full).
Qed.

Lemma portable_serve_stuck {K} `{SocketKernel K} n (a : Acceptor) (k : K) :
  (0 < backlog k)%nat -> (limit <= size (in_use k))%nat -> @serve K portable_ops n a k = (a, k).
Proof.
  intros Hb Hf. induction n as [|n IH]; [done|]. cbn [serve]. unfold backlog at 1. cbn [portable_ops].
  rewrite bool_decide_false by lia. by rewrite portable_emfile.
Qed.

(** ** A kernel *)

Record sockets := mkSockets {
  sk_table : table;
  sk_status : gmap Z Z;
  sk_fd : gmap Z Z;
  sk_options : gmap (Z * sockopt) Z;
  sk_error : gmap Z errno
}.

Definition with_table (t : table) (s : sockets) : sockets := mkSockets t (sk_status s) (sk_fd s) (sk_options s) (sk_error s).
Definition with_status (m : gmap Z Z) (s : sockets) : sockets := mkSockets (sk_table s) m (sk_fd s) (sk_options s) (sk_error s).
Definition with_fd (m : gmap Z Z) (s : sockets) : sockets := mkSockets (sk_table s) (sk_status s) m (sk_options s) (sk_error s).

Definition lift_call {A} (f : table -> A * table) (s : sockets) : A * sockets :=
  let (r, t) := f (sk_table s) in (r, with_table t s).

(** 2048 is O_NONBLOCK and 1 FD_CLOEXEC. *)
Definition flagged (call : sockets -> (Z + errno) * sockets) (s : sockets) : (Z + errno) * sockets :=
  let (r, s) := call s in
  match r with
  | inl fd => (inl fd, with_fd (<[fd := 1]> (sk_fd s)) (with_status (<[fd := 2048]> (sk_status s)) s))
  | inr e => (inr e, s)
  end.

Section sockets.
Variable max : nat.

Definition open_in (fd : Z) (s : sockets) : bool := bool_decide (fd ∈ open_fds (t_fds (sk_table s))).

#[global] Instance sockets_kernel_ops : KernelOps sockets := {
  in_use s := open_fds (t_fds (sk_table s));
  backlog s := t_waiting (sk_table s);
  limit := max;
  sys_open := lift_call (@sys_open table (table_ops max));
  sys_accept := lift_call (@sys_accept table (table_ops max));
  sys_close fd s := with_table (@sys_close table (table_ops max) fd (sk_table s)) s
}.

#[global] Instance sockets_kernel : Kernel sockets.
Proof.
  pose proof (table_kernel max) as T.
  constructor; unfold in_use, backlog, limit, sys_open, sys_accept, sys_close; cbn [sockets_kernel_ops]; unfold lift_call.
  - intros k Hf. pose proof (@open_full table _ T (sk_table k) Hf) as E. rewrite E. by destruct k.
  - intros k Hf. destruct (@open_free table _ T (sk_table k) Hf) as (fd & t & E & ?). rewrite E. by eexists _, _.
  - intros k Hb. destruct (@accept_none table _ T (sk_table k) Hb) as (e & E). rewrite E. exists e. by destruct k.
  - intros k Hb Hf. pose proof (@accept_full table _ T (sk_table k) Hb Hf) as E. rewrite E. by destruct k.
  - intros k n Hb Hf. destruct (@accept_free table _ T (sk_table k) n Hb Hf) as (fd & t & E & ?). rewrite E. by eexists _, _.
  - intros fd k. apply (@in_use_nonneg table _ T fd (sk_table k)).
  - intros fd k. apply (@close_spec table _ T fd (sk_table k)).
Qed.

Definition sockets_fcntl (fd : Z) (c : fcntl_cmd) (s : sockets) : (Z + errno) * sockets :=
  if open_in fd s then
    match c with
    | F_GETFL => (inl (default 0 (sk_status s !! fd)), s)
    | F_SETFL f => (inl 0, with_status (<[fd := f]> (sk_status s)) s)
    | F_GETFD => (inl (default 0 (sk_fd s !! fd)), s)
    | F_SETFD f => (inl 0, with_fd (<[fd := f]> (sk_fd s)) s)
    end
  else (inr EBADF, s).

#[global] Instance sockets_ops : SocketOps sockets := {
  O_NONBLOCK := 2048;
  FD_CLOEXEC := 1;
  status_flags s fd := default 0 (sk_status s !! fd);
  fd_flags s fd := default 0 (sk_fd s !! fd);
  option_of s fd o := default 0 (sk_options s !! (fd, o));
  so_error s fd := sk_error s !! fd;
  fcntl := sockets_fcntl;
  sys_accept4 := flagged (lift_call (@sys_accept table (table_ops max)));
  sys_socket := lift_call (@sys_open table (table_ops max));
  sys_socket_flags := flagged (lift_call (@sys_open table (table_ops max)));
  sys_setsockopt fd o v s :=
    if open_in fd s
    then (inl 0, mkSockets (sk_table s) (sk_status s) (sk_fd s) (<[(fd, o) := v]> (sk_options s)) (sk_error s))
    else (inr EBADF, s);
  sys_getsockopt_error fd s :=
    if open_in fd s
    then (inl (sk_error s !! fd), mkSockets (sk_table s) (sk_status s) (sk_fd s) (sk_options s) (delete fd (sk_error s)))
    else (inr EBADF, s)
}.

Lemma flagged_spec call : made_with_flags call (flagged call).
Proof.
  intros k. unfold flagged. destruct (call k) as [[fd|e] k1]; [|done].
  eexists. split; [reflexivity|]. split; [by split|].
  unfold nonblocking, closed_on_exec, status_flags, fd_flags; cbn.
  by rewrite !lookup_insert_eq.
Qed.

#[global] Instance sockets_socket_kernel : SocketKernel sockets.
Proof.
  constructor.
  - intros fd c k Hn. cbn. unfold sockets_fcntl, open_in. by rewrite bool_decide_false.
  - intros fd k Hin. cbn. unfold sockets_fcntl, open_in. by rewrite bool_decide_true.
  - intros fd k Hin. cbn. unfold sockets_fcntl, open_in. by rewrite bool_decide_true.
  - intros fd f k Hin. cbn. unfold sockets_fcntl, open_in. rewrite bool_decide_true by done.
    eexists. split; [reflexivity|]. split; [by split|]. cbn. by rewrite lookup_insert_eq.
  - intros fd f k Hin. cbn. unfold sockets_fcntl, open_in. rewrite bool_decide_true by done.
    eexists. split; [reflexivity|]. split; [by split|]. cbn. by rewrite lookup_insert_eq.
  - apply flagged_spec.
  - apply flagged_spec.
  - intros k fd k'. cbn [sys_socket sockets_ops]. unfold lift_call. destruct (@sys_open table (table_ops max) (sk_table k)) as [r t] eqn:E. intros [= -> <-].
    pose proof (table_kernel max) as T. destruct (decide (max <= size (open_fds (t_fds (sk_table k))))%nat) as [Hf|Hf].
    + pose proof (@open_full table _ T (sk_table k) Hf). congruence.
    + destruct (@open_free table _ T (sk_table k)) as (fd' & t' & E' & ? & _ & ? & ?); [cbn; lia|].
      rewrite E in E'. injection E' as -> ->. done.
  - intros fd o v k Hin. cbn. unfold open_in. rewrite bool_decide_true by done.
    eexists. split; [reflexivity|]. split; [by split|]. intros g p. cbn.
    case_decide as D.
    + destruct D as [-> ->]. by rewrite lookup_insert_eq.
    + rewrite lookup_insert_ne; [done|]. intros [= -> ->]. by apply D.
  - intros fd k Hin. cbn. unfold open_in. rewrite bool_decide_true by done.
    eexists. split; [reflexivity|]. split; [by split|]. cbn. apply lookup_delete_eq.
  - intros fd k Hin. cbn. unfold open_in. by rewrite bool_decide_false.
Qed.
End sockets.

(** ** Properties *)

(** Accepted sockets are ready, by either way: when [accept] delivers a
    descriptor, [Socket::accept] with [accept4] and the one with four calls of
    [fcntl] return the same descriptor and leave the same table of descriptors,
    and in both the descriptor is non-blocking and closed on exec.  When
    [accept] fails both return a failure, but only Linux's says why: the four
    calls on descriptor -1 that follow elsewhere leave EBADF in [errno]. *)
Theorem accepted_sockets_ready {K} `{SocketKernel K} (k : K) :
  match sys_accept k with
  | (inl fd, k1) =>
      exists k2 k3, accept_linux k = (inl fd, k2) /\ accept_portable k = (inl fd, k3) /\
        same_table k2 k3 /\ nonblocking k2 fd /\ closed_on_exec k2 fd /\ nonblocking k3 fd /\ closed_on_exec k3 fd
  | (inr e, k1) => accept_linux k = (inr e, k1) /\ accept_portable k = (inr EBADF, k1)
  end.
Proof.
  pose proof (accept4_spec k) as A. destruct (sys_accept k) as [[fd|e] k1] eqn:E.
  - destruct A as (k2 & A & [T1 T2] & F & G).
    destruct (accept_portable_ok k fd k1 E (accepted_in_use k fd k1 E)) as (k3 & P & [T1' T2'] & F' & G').
    exists k2, k3. split_and!; try done. split; congruence.
  - split; [exact A|]. by eapply accept_portable_fails.
Qed.

(** One connection waits, and two of four descriptors are in use. *)
Definition calm_sockets : sockets := mkSockets (mkTable {[ 0; 1 ]} 1) ∅ ∅ ∅ ∅.

Lemma accepted_sockets_ready_witness :
  exists k2 k3, @accept_linux sockets _ (sockets_ops 4) calm_sockets = (inl 2, k2) /\
    @accept_portable sockets _ (sockets_ops 4) calm_sockets = (inl 2, k3) /\
    @nonblocking sockets _ (sockets_ops 4) k2 2 /\ @nonblocking sockets _ (sockets_ops 4) k3 2.
Proof.
  destruct (@accepted_sockets_ready sockets (sockets_kernel_ops 4) (sockets_ops 4) (sockets_kernel 4)
    (sockets_socket_kernel 4) calm_sockets) as (k2 & k3 & A & P & _ & F & _ & F' & _).
  exists k2, k3. exact (conj A (conj P (conj F F'))).
Defined.

(** Running out of descriptors without [accept4].  With a full table of
    descriptors, the spare one held and connections waiting, the acceptor of
    Linux serves them all in as many rounds as there are.  The same acceptor on
    the other systems never looks at its spare descriptor, because [errno] is
    EBADF and not EMFILE when it is tested: every round leaves everything as it
    was, so the level-triggered loop calls the handler for ever. *)
Theorem portable_acceptor_spins {K} `{SocketKernel K} (a : Acceptor) (k : K) :
  acceptor_ok a k -> size (in_use k) = limit -> (0 < backlog k)%nat ->
  (exists a' k', @serve K linux_ops (backlog k) a k = (a', k') /\ backlog k' = 0%nat) /\
  (forall n, @serve K portable_ops n a k = (a, k)).
Proof.
  intros Ha Hf Hb. split.
  - destruct (@serve_ok K linux_ops linux_kernel (backlog k) a k) as (a' & k' & E & _ & B); [|done|eauto].
    destruct Ha. by constructor.
  - intros n. apply portable_serve_stuck; [done|lia].
Qed.

Definition full_sockets : sockets := mkSockets full_table ∅ ∅ ∅ ∅.

Lemma portable_acceptor_spins_witness :
  (exists a' k', @serve sockets (@linux_ops sockets _ (sockets_ops 4)) 3 full_acceptor full_sockets = (a', k') /\ t_waiting (sk_table k') = 0%nat) /\
  @serve sockets (@portable_ops sockets _ (sockets_ops 4)) 100 full_acceptor full_sockets = (full_acceptor, full_sockets).
Proof.
  destruct (@portable_acceptor_spins sockets (sockets_kernel_ops 4) (sockets_ops 4) (sockets_kernel 4)
    (sockets_socket_kernel 4) full_acceptor full_sockets) as [L P].
  - destruct full_acceptor_ok. constructor; assumption.
  - vm_compute. reflexivity.
  - vm_compute. lia.
  - split; [exact L|exact (P 100%nat)].
Defined.
