(* ===== verification/ConcurrentTaskQueue.v ===== *)
(** * Worker threads: [netpoll/util/concurrent_task_queue.{h,cc}]

    A queue of tasks under a mutex with a condition variable, worker threads
    that take tasks and run them, and [stop], which sets a flag, wakes the
    workers and joins them.

    - Each worker is at a program point [pc] of [queueFunc]; a step of a worker
      is what it does between two points where another thread can interfere
      ([m_stop] is atomic and is read and written without the mutex).
    - [m_cv.wait] gives up the mutex and blocks in one step; a blocked worker is
      woken by a notification or spuriously, and then needs the mutex again.
    - [runTask] holds the mutex from beginning to end, so it is one step, taken
      when the mutex is free; which blocked worker [notify_one] wakes is up to
      the implementation.
    - One thread calls [stop]; [join] of a worker succeeds when it has ended.
    - Tasks are numbers; [pushed], [taken] and [executed] record what happened. *)

From stdpp Require Import list.
From S2P Require Import Prelude.

Inductive pc :=
  | PTop               (* at [while (!m_stop)] *)
  | PLock              (* at [unique_lock lock(m_mtx)] *)
  | PTest              (* at [while (!m_stop && m_que.empty())], with the mutex *)
  | PWait              (* in the body of that loop, with the mutex *)
  | PBlocked           (* in [wait], without the mutex *)
  | PRelock            (* woken, about to take the mutex again *)
  | PTake              (* behind the loop, with the mutex *)
  | PRun (t : nat)     (* about to call [cb] *)
  | PDone.

#[global] Instance pc_eq_dec : EqDecision pc.
Proof. solve_decision. Defined.

Inductive stop_pc := SIdle | SNotify | SJoin (k : nat) | SStopped.

#[global] Instance stop_pc_eq_dec : EqDecision stop_pc.
Proof. solve_decision. Defined.

Record ConcurrentTaskQueue := mkTaskQueue {
  m_stop : bool;
  m_mtx : option nat;                  (* the worker that holds the mutex *)
  m_que : list nat;
  m_threads : list pc;
  stopping : stop_pc;
  pushed : list nat;
  taken : list nat;
  executed : list nat
}.

Section setters.
Implicit Type s : ConcurrentTaskQueue.
Definition set_pc (i : nat) (p : pc) s : ConcurrentTaskQueue := mkTaskQueue (m_stop s) (m_mtx s) (m_que s)
  (<[i := p]> (m_threads s)) (stopping s) (pushed s) (taken s) (executed s).
Definition set_mtx (o : option nat) s : ConcurrentTaskQueue := mkTaskQueue (m_stop s) o (m_que s)
  (m_threads s) (stopping s) (pushed s) (taken s) (executed s).
Definition set_stopping (b : bool) (ths : list pc) (p : stop_pc) s : ConcurrentTaskQueue :=
  mkTaskQueue b (m_mtx s) (m_que s) ths p (pushed s) (taken s) (executed s).
End setters.

(** The constructor, with the threads it starts. *)
Definition TaskQueue_new (threadNum : nat) : ConcurrentTaskQueue :=
  mkTaskQueue false None [] (replicate threadNum PTop) SIdle [] [] [].

(** ** Workers: [queueFunc] *)

Definition worker_step (i : nat) (s : ConcurrentTaskQueue) : option ConcurrentTaskQueue :=
  p ← m_threads s !! i;
  match p with
  | PTop => Some (set_pc i (if m_stop s then PDone else PLock) s)
  | PLock | PRelock =>
      match m_mtx s with
      | None => Some (set_pc i PTest (set_mtx (Some i) s))
      | Some _ => None
      end
  | PTest => Some (set_pc i (if negb (m_stop s) && bool_decide (m_que s = []) then PWait else PTake) s)
  | PWait => Some (set_pc i PBlocked (set_mtx None s))
  | PBlocked => None
  | PTake =>
      match m_que s with
      | [] => Some (set_pc i PTop (set_mtx None s))
      | t :: q => Some (mkTaskQueue (m_stop s) None q (<[i := PRun t]> (m_threads s)) (stopping s)
                          (pushed s) (taken s ++ [t]) (executed s))
      end
  | PRun t => Some (mkTaskQueue (m_stop s) (m_mtx s) (m_que s) (<[i := PTop]> (m_threads s)) (stopping s)
                      (pushed s) (taken s) (executed s ++ [t]))
  | PDone => None
  end.

(** [wait] returns without a notification. *)
Definition spurious_wakeup (i : nat) (s : ConcurrentTaskQueue) : option ConcurrentTaskQueue :=
  if decide (m_threads s !! i = Some PBlocked) then Some (set_pc i PRelock s) else None.

(** ** Calls *)

(** [w]: the worker that [notify_one] wakes, [None] when none is blocked. *)
Definition queue_runTask (t : nat) (w : option nat) (s : ConcurrentTaskQueue) : option ConcurrentTaskQueue :=
  match m_mtx s with
  | Some _ => None
  | None =>
      let s := mkTaskQueue (m_stop s) (m_mtx s) (m_que s ++ [t]) (m_threads s) (stopping s)
                 (pushed s ++ [t]) (taken s) (executed s) in
      match w with
      | Some i => if decide (m_threads s !! i = Some PBlocked) then Some (set_pc i PRelock s) else None
      | None => if decide (PBlocked ∈ m_threads s) then None else Some s
      end
  end.

Definition wake (p : pc) : pc := match p with PBlocked => PRelock | _ => p end.

(** [stop], one step at a time. *)
Definition stop_step (s : ConcurrentTaskQueue) : option ConcurrentTaskQueue :=
  match stopping s with
  | SIdle =>
      if m_stop s then Some (set_stopping true (m_threads s) SStopped s)
      else Some (set_stopping true (m_threads s) SNotify s)
  | SNotify => Some (set_stopping (m_stop s) (map wake (m_threads s)) (SJoin 0) s)
  | SJoin k =>
      match m_threads s !! k with
      | None => Some (set_stopping (m_stop s) (m_threads s) SStopped s)
      | Some PDone => Some (set_stopping (m_stop s) (m_threads s) (SJoin (S k)) s)
      | Some _ => None
      end
  | SStopped => None
  end.

Definition getTaskCount (s : ConcurrentTaskQueue) : nat := length (m_que s).

(** ** Runs *)

Inductive task_op :=
  | OWorker (i : nat)
  | OSpurious (i : nat)
  | ORunTask (t : nat) (w : option nat)
  | OStop.

Definition task_exec (o : task_op) (s : ConcurrentTaskQueue) : option ConcurrentTaskQueue :=
  match o with
  | OWorker i => worker_step i s
  | OSpurious i => spurious_wakeup i s
  | ORunTask t w => queue_runTask t w s
  | OStop => stop_step s
  end.

Fixpoint task_run (ops : list task_op) (s : ConcurrentTaskQueue) : option ConcurrentTaskQueue :=
  match ops with
  | [] => Some s
  | o :: ops => s ← task_exec o s; task_run ops s
  end.

(** ** Invariant *)

Definition holds (p : pc) : bool := match p with PTest | PWait | PTake => true | _ => false end.

Definition run_of (p : pc) : option nat := match p with PRun t => Some t | _ => None end.
Definition running (ths : list pc) : list nat := omap run_of ths.
#[local] Arguments running : simpl never.

Record tq_inv (s : ConcurrentTaskQueue) : Prop := {
  tq_fifo : pushed s = taken s ++ m_que s;
  tq_once : executed s ++ running (m_threads s) ≡ₚ taken s;
  tq_owner : forall i p, m_threads s !! i = Some p -> (holds p = true <-> m_mtx s = Some i);
  tq_wait : PWait ∈ m_threads s -> m_que s = [];
  tq_awake : m_que s <> [] -> m_threads s <> [] ->
    exists i p, m_threads s !! i = Some p /\ p <> PBlocked;
  tq_mutex : forall i, m_mtx s = Some i -> is_Some (m_threads s !! i);
  tq_done : PDone ∈ m_threads s -> m_stop s = true;
  tq_stopping : stopping s = SIdle <-> m_stop s = false
}.

Lemma running_insert ths i p p' :
  ths !! i = Some p ->
  running (<[i := p']> ths) ++ option_list (run_of p) ≡ₚ running ths ++ option_list (run_of p').
Proof.
  intros E. pose proof (lookup_lt_Some _ _ _ E) as Hi.
  rewrite <- (take_drop_middle ths i p E) at 2. rewrite insert_take_drop by done. unfold running.
  rewrite !omap_app. cbn. destruct (run_of p), (run_of p'); cbn; solve_Permutation.
Qed.

(** The same worker at another point: no task starts or ends. *)
Lemma running_same ths i p p' :
  ths !! i = Some p -> run_of p = None -> run_of p' = None -> running (<[i := p']> ths) ≡ₚ running ths.
Proof.
  intros E H1 H2. pose proof (running_insert ths i p p' E) as H. rewrite H1, H2 in H. cbn in H.
  by rewrite !app_nil_r in H.
Qed.

Lemma insert_cases (ths : list pc) i j p q :
  <[i := p]> ths !! j = Some q -> i = j /\ q = p \/ i <> j /\ ths !! j = Some q.
Proof.
  destruct (decide (i = j)) as [<- | Hne]; [|rewrite list_lookup_insert_ne by done; auto].
  intros E. pose proof (lookup_lt_Some _ _ _ E) as Hi. rewrite length_insert in Hi.
  rewrite list_lookup_insert_eq in E by done. injection E as <-. auto.
Qed.

(** A step that moves worker [i] from [p] to [p']. *)
Lemma tq_move s s' i p p' :
  tq_inv s -> m_threads s !! i = Some p -> m_threads s' = <[i := p']> (m_threads s) ->
  m_stop s' = m_stop s -> stopping s' = stopping s -> pushed s' = taken s' ++ m_que s' ->
  executed s' ++ running (m_threads s') ≡ₚ taken s' ->
  (holds p' = true <-> m_mtx s' = Some i) -> (forall j, j <> i -> (m_mtx s' = Some j <-> m_mtx s = Some j)) ->
  (p' = PWait -> m_que s' = []) -> (forall j, j <> i -> m_threads s !! j = Some PWait -> m_que s' = []) ->
  (p' = PBlocked -> m_que s' = []) -> (p' = PDone -> m_stop s = true) -> tq_inv s'.
Proof.
  intros H Ei Et Es Ep Hf Hr Hh Hm Hw Hw' Hb Hd. pose proof (lookup_lt_Some _ _ _ Ei) as Hlt.
  constructor; try done.
  - intros j q. rewrite Et. intros [[<- ->] | [Hne E]]%insert_cases; [done|]. rewrite Hm by done. by apply (tq_owner _ H).
  - rewrite Et. intros [j [[<- <-] | [Hne E]]%insert_cases]%list_elem_of_lookup_1; [by apply Hw|by eapply Hw'].
  - intros Hq _. exists i, p'. rewrite Et, list_lookup_insert_eq by done. split; [done|]. auto.
  - intros j Ej. rewrite Et. destruct (decide (j = i)) as [-> | Hne]; [by rewrite list_lookup_insert_eq|].
    rewrite list_lookup_insert_ne by done. apply (tq_mutex _ H). by apply Hm.
  - rewrite Et, Es. intros [j [[<- <-] | [Hne E]]%insert_cases]%list_elem_of_lookup_1; [by apply Hd|].
    apply (tq_done _ H). by eapply list_elem_of_lookup_2.
  - rewrite Es, Ep. apply (tq_stopping _ H).
Qed.

(** Who holds the mutex stops the others from waiting with a full queue. *)
Lemma mutex_wait s j : tq_inv s -> m_threads s !! j = Some PWait -> m_mtx s = Some j /\ m_que s = [].
Proof.
  intros H E. split; [by apply (tq_owner _ H j PWait E)|]. apply (tq_wait _ H). by eapply list_elem_of_lookup_2.
Qed.

Lemma worker_step_inv i s s' : tq_inv s -> worker_step i s = Some s' -> tq_inv s'.
Proof.
  intros H. unfold worker_step. destruct (m_threads s !! i) as [p|] eqn:Ei; [|done]. cbn [mbind option_bind].
  pose proof (tq_owner _ H i p Ei) as Ho. pose proof (fun j => mutex_wait s j H) as Hmw.
  pose proof (tq_once _ H) as Honce. pose proof (tq_fifo _ H) as Hfifo.
  destruct p as [| | | | | | |t|]; cbn in Ho; try done.
  - intros [= <-]. eapply (tq_move s _ i PTop _ H Ei); try done.
    all: try (by destruct (m_stop s)); cbn.
    + by rewrite running_same by (done || by destruct (m_stop s)).
    + intros j Hj E. by apply Hmw in E as [_ ?].
  - destruct (m_mtx s) as [o|] eqn:Em; [done|]. intros [= <-].
    eapply (tq_move s _ i PLock _ H Ei); try done; cbn.
    + by rewrite running_same.
    + intros j Hj. rewrite Em. split; congruence.
    + intros j Hj E. by apply Hmw in E as [_ ?].
  - intros [= <-]. eapply (tq_move s _ i PTest _ H Ei); try done; cbn.
    + by rewrite running_same by (done || by case_match).
    + case_match; cbn; apply Ho.
    + case_match eqn:E; [|done]. intros _. apply andb_true_iff in E as [_ ?%bool_decide_eq_true]. done.
    + intros j Hj E. by apply Hmw in E as [_ ?].
    + by case_match.
    + by case_match.
  - intros [= <-]. pose proof (proj1 Ho eq_refl) as Em.
    eapply (tq_move s _ i PWait _ H Ei); try done; cbn.
    + by rewrite running_same.
    + intros j Hj. rewrite Em. split; congruence.
    + intros j Hj E. by apply Hmw in E as [_ ?].
    + intros _. by apply (Hmw i).
  - destruct (m_mtx s) as [o|] eqn:Em; [done|]. intros [= <-].
    eapply (tq_move s _ i PRelock _ H Ei); try done; cbn.
    + by rewrite running_same.
    + intros j Hj. rewrite Em. split; congruence.
    + intros j Hj E. by apply Hmw in E as [_ ?].
  - pose proof (proj1 Ho eq_refl) as Em. destruct (m_que s) as [|t q] eqn:Eq; intros [= <-].
    + eapply (tq_move s _ i PTake _ H Ei); try done; cbn.
      * by rewrite Eq.
      * by rewrite running_same.
      * intros j Hj. rewrite Em. split; congruence.
    + eapply (tq_move s _ i PTake _ H Ei); try done; cbn.
      * by rewrite Hfifo, <- app_assoc.
      * pose proof (running_insert _ i PTake (PRun t) Ei) as Hr. cbn in Hr. rewrite app_nil_r in Hr.
        by rewrite Hr, app_assoc, Honce.
      * intros j Hj. rewrite Em. split; congruence.
      * intros j Hj E. by apply Hmw in E as [_ ?].
  - intros [= <-]. eapply (tq_move s _ i (PRun t) _ H Ei); try done; cbn.
    + pose proof (running_insert _ i (PRun t) PTop Ei) as Hr. cbn in Hr. rewrite app_nil_r in Hr.
      rewrite <- Honce, <- Hr. solve_Permutation.
    + intros j Hj E. by apply Hmw in E as [_ ?].
Qed.

Lemma spurious_inv i s s' : tq_inv s -> spurious_wakeup i s = Some s' -> tq_inv s'.
Proof.
  intros H. unfold spurious_wakeup. case_decide as Ei; [|done]. intros [= <-].
  eapply (tq_move s _ i PBlocked _ H Ei); try done; cbn.
  - apply (tq_fifo _ H).
  - rewrite running_same by done. apply (tq_once _ H).
  - apply (tq_owner _ H i PBlocked Ei).
  - intros j Hj E. by apply (mutex_wait s j H) in E as [_ ?].
Qed.

Lemma queue_runTask_inv t w s s' : tq_inv s -> queue_runTask t w s = Some s' -> tq_inv s'.
Proof.
  intros H. unfold queue_runTask. destruct (m_mtx s) eqn:Em; [done|]. cbn.
  assert (PWait ∉ m_threads s) as Hw.
  { intros [j Ej]%list_elem_of_lookup_1. apply (mutex_wait s j H) in Ej as [? _]. congruence. }
  destruct w as [i|]; case_decide as Ei; try done; intros [= <-].
  - eapply (tq_move s _ i PBlocked _ H Ei); try done; cbn.
    + by rewrite (tq_fifo _ H), app_assoc.
    + rewrite running_same by done. apply (tq_once _ H).
    + intros j Hj. by rewrite Em.
    + intros j Hj E. by apply list_elem_of_lookup_2 in E.
  - destruct H as [H1 H2 H3 H4 H5 H6 H7 H8]. rewrite Em in H3. constructor; cbn; try done.
    + by rewrite H1, app_assoc.
    + intros _ Hne. destruct (m_threads s) as [|p ths] eqn:Et; [done|]. exists 0%nat, p. split; [done|].
      intros ->. apply Ei. by left.
Qed.

Lemma running_wake ths : running (map wake ths) = running ths.
Proof. unfold running. induction ths as [|p ths IH]; [done|]. cbn. rewrite IH. by destruct p. Qed.

Lemma lookup_wake ths i q : map wake ths !! i = Some q -> exists p, ths !! i = Some p /\ q = wake p.
Proof. intros E. apply list_lookup_fmap_Some in E as (p & -> & E). eauto. Qed.

Lemma stop_step_inv s s' : tq_inv s -> stop_step s = Some s' -> tq_inv s'.
Proof.
  intros [H1 H2 H3 H4 H5 H6 H7 H8]. unfold stop_step. destruct (stopping s) as [| |k|] eqn:Es.
  - rewrite (proj1 H8 eq_refl). intros [= <-]. by constructor.
  - intros [= <-]. assert (m_stop s = true) as Hst by (destruct (m_stop s); [done|]; discriminate (proj2 H8 eq_refl)).
    constructor; cbn; try done.
    + by rewrite running_wake.
    + intros i q (p & E & ->)%lookup_wake. specialize (H3 i p E). by destruct p.
    + intros [j (p & E & Hp)%lookup_wake]%list_elem_of_lookup_1. apply H4. destruct p; try done.
      by eapply list_elem_of_lookup_2.
    + intros _ Hne. destruct (m_threads s) as [|p ths]; [done|]. exists 0%nat, (wake p). split; [done|by destruct p].
    + intros i [p E]%H6. exists (wake p). by apply list_lookup_fmap_Some; eauto.
    + split; congruence.
  - assert (m_stop s = true) as Hst by (destruct (m_stop s); [done|]; discriminate (proj2 H8 eq_refl)).
    destruct (m_threads s !! k) as [[]|]; try done; intros [= <-]; constructor; cbn; try done; split; congruence.
  - done.
Qed.

Lemma task_exec_inv o s s' : tq_inv s -> task_exec o s = Some s' -> tq_inv s'.
Proof.
  destruct o; cbn [task_exec]; eauto using worker_step_inv, spurious_inv, queue_runTask_inv, stop_step_inv.
Qed.

Lemma task_run_inv ops s s' : tq_inv s -> task_run ops s = Some s' -> tq_inv s'.
Proof.
  revert s. induction ops as [|o ops IH]; intros s H; cbn [task_run]; [by intros [= <-]|].
  destruct (task_exec o s) as [s1|] eqn:E; [|done]. cbn [mbind option_bind]. apply IH. by eapply task_exec_inv.
Qed.

Lemma TaskQueue_new_inv n : tq_inv (TaskQueue_new n).
Proof.
  constructor; cbn; try done.
  - unfold running. by induction n.
  - intros i p [-> _]%lookup_replicate. done.
  - intros [i [E _]%lookup_replicate]%list_elem_of_lookup_1. done.
Qed.

Lemma task_run_app ops ops' s : task_run (ops ++ ops') s = s' ← task_run ops s; task_run ops' s'.
Proof.
  revert s. induction ops as [|o ops IH]; intros s; cbn [task_run app]; [done|].
  destruct (task_exec o s); cbn [mbind option_bind]; [apply IH|done].
Qed.

(** ** Everything pushed can be run *)

Lemma worker_frame i s s' :
  worker_step i s = Some s' ->
  m_stop s' = m_stop s /\ pushed s' = pushed s /\ stopping s' = stopping s /\
  length (m_threads s') = length (m_threads s).
Proof.
  unfold worker_step. destruct (m_threads s !! i) as [p|]; [|done]. cbn [mbind option_bind].
  destruct p; repeat case_match; intros; simplify_eq/=; by rewrite ?length_insert.
Qed.

(** Steps from a program point to taking the next task. *)
Definition distance (p : pc) : nat :=
  match p with PTake => 0 | PTest => 1 | PLock | PRelock => 2 | PTop => 3 | PRun _ => 4 | _ => 5 end.

Lemma drive d j s p t q :
  m_threads s !! j = Some p -> distance p = d -> (d < 5)%nat -> holds p = true \/ m_mtx s = None ->
  m_stop s = false -> m_que s = t :: q ->
  exists n s', task_run (replicate n (OWorker j)) s = Some s' /\ m_que s' = q.
Proof.
  revert s p. induction d as [|d IH]; intros s p Ej Hd Hlt Hm Hs Hq.
  { destruct p; try done. exists 1%nat. eexists. cbn. unfold worker_step. rewrite Ej. cbn. rewrite Hq. done. }
  pose proof (lookup_lt_Some _ _ _ Ej) as Hj.
  enough (exists s1 p1, worker_step j s = Some s1 /\ m_threads s1 !! j = Some p1 /\ distance p1 = d /\
    (holds p1 = true \/ m_mtx s1 = None) /\ m_stop s1 = false /\ m_que s1 = t :: q) as (s1 & p1 & E1 & H1 & H2 & H3 & H4 & H5).
  { destruct (IH s1 p1) as (n & s' & E & Eq); try done; [lia|]. exists (S n), s'. cbn. by rewrite E1. }
  unfold worker_step. rewrite Ej. cbn [mbind option_bind].
  destruct p as [| | | | | | |t'|]; cbn in Hd, Hm; try lia; injection Hd as <-.
  - destruct Hm as [? | Hm]; [done|]. rewrite Hs. eexists _, PLock. split; [done|]. cbn.
    rewrite list_lookup_insert_eq by done. auto.
  - destruct Hm as [? | Hm]; [done|]. rewrite Hm. eexists _, PTest. split; [done|]. cbn.
    rewrite list_lookup_insert_eq by done. auto.
  - rewrite Hs, Hq, bool_decide_false by done. eexists _, PTake. split; [done|]. cbn.
    rewrite list_lookup_insert_eq by done. auto.
  - destruct Hm as [? | Hm]; [done|]. rewrite Hm. eexists _, PTest. split; [done|]. cbn.
    rewrite list_lookup_insert_eq by done. auto.
  - destruct Hm as [? | Hm]; [done|]. eexists _, PTop. split; [done|]. cbn.
    rewrite list_lookup_insert_eq by done. auto.
Qed.

Lemma workers_frame ws s s' :
  task_run (map OWorker ws) s = Some s' ->
  m_stop s' = m_stop s /\ pushed s' = pushed s /\ length (m_threads s') = length (m_threads s).
Proof.
  revert s. induction ws as [|i ws IH]; intros s; cbn; [by intros [= <-]|].
  destruct (worker_step i s) as [s1|] eqn:E; [|done]. cbn. intros (-> & -> & ->)%IH.
  by apply worker_frame in E as (? & ? & _ & ?).
Qed.

(** Some worker can go and take the next task. *)
Lemma take_next s t q :
  tq_inv s -> m_stop s = false -> m_threads s <> [] -> m_que s = t :: q ->
  exists ws s', task_run (map OWorker ws) s = Some s' /\ m_que s' = q.
Proof.
  intros H Hs Hne Hq.
  enough (exists j p, m_threads s !! j = Some p /\ (distance p < 5)%nat /\ (holds p = true \/ m_mtx s = None))
    as (j & p & Ej & Hd & Hm).
  { destruct (drive _ j s p t q Ej eq_refl Hd Hm Hs Hq) as (n & s' & E & Eq).
    exists (replicate n j), s'. split; [|done]. rewrite <- E. f_equal. clear. by induction n as [|n IH]; cbn; rewrite ?IH. }
  assert (forall j p, m_threads s !! j = Some p -> p <> PWait /\ p <> PDone) as Hno.
  { intros j p E. split; intros ->.
    - apply (mutex_wait s j H) in E as [_ ?]. congruence.
    - apply list_elem_of_lookup_2 in E. apply (tq_done _ H) in E. congruence. }
  destruct (m_mtx s) as [o|] eqn:Em.
  - destruct (tq_mutex _ H o Em) as [p E]. exists o, p. destruct (Hno o p E) as [? ?].
    pose proof (proj2 (tq_owner _ H o p E) Em) as Hh. split_and!; [done| |auto]. destruct p; cbn; try done; lia.
  - destruct (tq_awake _ H) as (j & p & E & Hb); [congruence|done|]. exists j, p. destruct (Hno j p E) as [? ?].
    split_and!; [done| |auto]. destruct p; cbn; try done; lia.
Qed.

Lemma take_all s :
  tq_inv s -> m_stop s = false -> m_threads s <> [] ->
  exists ws s', task_run (map OWorker ws) s = Some s' /\ m_que s' = [].
Proof.
  remember (m_que s) as q eqn:Eq. revert s Eq. induction q as [|t q IH]; intros s Eq H Hs Hne; [by exists [], s|].
  destruct (take_next s t q H Hs Hne (eq_sym Eq)) as (ws & s1 & E1 & Eq1).
  pose proof (task_run_inv _ _ _ H E1) as H1. destruct (workers_frame _ _ _ E1) as (Es & _ & El).
  destruct (IH s1) as (ws' & s' & E' & Eq'); [done|done|congruence| |].
  { intros E0. apply Hne, nil_length_inv. by rewrite <- El, E0. }
  exists (ws ++ ws'), s'. split; [|done]. rewrite map_app, task_run_app, E1. done.
Qed.

(** Running tasks can end. *)
Lemma end_all s :
  tq_inv s -> m_que s = [] ->
  exists ws s', task_run (map OWorker ws) s = Some s' /\ running (m_threads s') = [] /\ m_que s' = [].
Proof.
  remember (length (running (m_threads s))) as n eqn:En. revert s En.
  induction n as [|n IH]; intros s En H Hq; [exists [], s; split_and!; [done|by apply nil_length_inv|done]|].
  destruct (running (m_threads s)) as [|t r] eqn:Er; [done|].
  assert (exists i, m_threads s !! i = Some (PRun t)) as [i Ei].
  { assert (t ∈ running (m_threads s)) as Hin by (rewrite Er; by left). unfold running in Hin.
    apply list_elem_of_omap in Hin as (p & Hp & Ht). destruct p; try done. injection Ht as ->.
    by apply list_elem_of_lookup_1. }
  assert (exists s1, worker_step i s = Some s1 /\ m_threads s1 = <[i := PTop]> (m_threads s) /\ m_que s1 = [])
    as (s1 & E1 & Et & Eq1) by (unfold worker_step; rewrite Ei; cbn; eauto).
  pose proof (running_insert _ _ _ PTop Ei) as Hp. rewrite <- Et in Hp. cbn in Hp. rewrite app_nil_r, Er in Hp.
  apply Permutation_length in Hp. rewrite length_app in Hp. cbn in Hp, En.
  destruct (IH s1) as (ws & s' & E' & Hr & Hq'); [lia|by eapply worker_step_inv|done|].
  exists (i :: ws), s'. split; [|done]. cbn. by rewrite E1.
Qed.

Lemma run_everything s :
  tq_inv s -> m_stop s = false -> m_threads s <> [] ->
  exists ws s', task_run (map OWorker ws) s = Some s' /\ executed s' ≡ₚ pushed s.
Proof.
  intros H Hs Hne. destruct (take_all s H Hs Hne) as (ws & s1 & E1 & Q1).
  pose proof (task_run_inv _ _ _ H E1) as H1. destruct (end_all s1 H1 Q1) as (ws' & s' & E2 & R2 & Q2).
  pose proof (task_run_inv _ _ _ H1 E2) as H2. exists (ws ++ ws'), s'.
  rewrite map_app, task_run_app, E1. split; [done|].
  destruct (workers_frame _ _ _ E1) as (_ & P1 & _), (workers_frame _ _ _ E2) as (_ & P2 & _).
  pose proof (tq_once _ H2) as Ho. rewrite R2, app_nil_r in Ho. rewrite Ho, <- P1, <- P2, (tq_fifo _ H2), Q2.
  by rewrite app_nil_r.
Qed.

(** ** Stopping *)

(** Steps of the workers and of [stop] alone: no spurious wakeup, no new task. *)
Definition quiet (o : task_op) : bool := match o with OWorker _ | OStop => true | _ => false end.

Definition quiet_run (ops : list task_op) (s s' : ConcurrentTaskQueue) : Prop :=
  Forall (fun o => quiet o = true) ops /\ task_run ops s = Some s'.

(** Worker [i] sleeps, or is about to, and [stop] waits for it or an earlier one. *)
Definition doomed (i : nat) (s : ConcurrentTaskQueue) : Prop :=
  (m_threads s !! i = Some PWait \/ m_threads s !! i = Some PBlocked) /\
  exists k, stopping s = SJoin k /\ (k <= i)%nat.

Lemma doomed_step i o s s' : quiet o = true -> task_exec o s = Some s' -> doomed i s -> doomed i s'.
Proof.
  intros Hq E [Hi (k & Hk & Hle)]. destruct o as [j| | |]; try done; cbn [task_exec] in E.
  - destruct (worker_frame _ _ _ E) as (_ & _ & Es & _). split; [|exists k; by rewrite Es].
    revert E. unfold worker_step. destruct (decide (j = i)) as [-> | Hne].
    + destruct Hi as [Hi|Hi]; rewrite Hi; cbn; [|done]. intros [= <-]. right. cbn.
      apply list_lookup_insert_eq. by eapply lookup_lt_Some.
    + destruct (m_threads s !! j) as [p|]; [|done]. cbn.
      destruct p; repeat case_match; intros; simplify_eq/=; rewrite list_lookup_insert_ne by done; done.
  - revert E. unfold stop_step. rewrite Hk. destruct (m_threads s !! k) as [p|] eqn:Ek.
    + destruct p; try done. intros [= <-]. split; [done|]. exists (S k). split; [done|].
      assert (k <> i) by (intros ->; destruct Hi; congruence). lia.
    + destruct Hi as [Hi|Hi]; apply lookup_lt_Some in Hi; apply lookup_ge_None in Ek; lia.
Qed.

Lemma doomed_run i ops s s' : quiet_run ops s s' -> doomed i s -> doomed i s'.
Proof.
  intros [Hq E]. revert s E. induction Hq as [|o ops Ho Hq IH]; intros s; cbn [task_run]; [by intros [= <-]|].
  destruct (task_exec o s) as [s1|] eqn:E1; [|done]. cbn [mbind option_bind]. intros E Hd.
  eapply IH; [exact E|]. by eapply doomed_step.
Qed.

(** Steps left to a worker once [m_stop] is set and it does not sleep. *)
Definition left_of (p : pc) : nat :=
  match p with PDone => 0 | PTop => 1 | PRun _ => 2 | PTake => 3 | PTest => 4 | _ => 5 end.

Definition joins_left (s : ConcurrentTaskQueue) : nat :=
  match stopping s with SJoin k => S (length (m_threads s) - k) | _ => 0 end.

Definition steps_left (s : ConcurrentTaskQueue) : nat :=
  (list_sum (map left_of (m_threads s)) + joins_left s)%nat.

(** Nobody sleeps, and the workers that were joined have ended. *)
Record stopping_ok (s : ConcurrentTaskQueue) : Prop := {
  so_inv : tq_inv s;
  so_stop : m_stop s = true;
  so_awake : forall p, p ∈ m_threads s -> p <> PWait /\ p <> PBlocked;
  so_joined : match stopping s with
    | SJoin k => (k <= length (m_threads s))%nat /\ forall j, (j < k)%nat -> m_threads s !! j = Some PDone
    | SStopped => forall p, p ∈ m_threads s -> p = PDone
    | _ => False
    end
}.

Lemma sum_insert (ths : list pc) i p p' :
  ths !! i = Some p ->
  (list_sum (map left_of (<[i := p']> ths)) + left_of p = list_sum (map left_of ths) + left_of p')%nat.
Proof.
  intros E. pose proof (lookup_lt_Some _ _ _ E) as Hi.
  rewrite <- (take_drop_middle ths i p E) at 2. rewrite insert_take_drop by done.
  rewrite !map_app, !list_sum_app. cbn. lia.
Qed.

(** A step of worker [i] when everyone is to stop. *)
Lemma worker_stopping i s s' :
  worker_step i s = Some s' -> m_stop s = true -> (forall p, p ∈ m_threads s -> p <> PWait /\ p <> PBlocked) ->
  exists p p', m_threads s !! i = Some p /\ m_threads s' = <[i := p']> (m_threads s) /\
    (left_of p' < left_of p)%nat /\ p <> PDone /\ p' <> PWait /\ p' <> PBlocked.
Proof.
  unfold worker_step. destruct (m_threads s !! i) as [p|] eqn:Ei; [|done]. cbn [mbind option_bind].
  intros E Hs Ha. apply list_elem_of_lookup_2, Ha in Ei as Hp. exists p.
  destruct p as [| | | | | | |t|]; cbn; try (by destruct Hp); try done.
  - rewrite Hs in E. injection E as <-. exists PDone. by split_and!; cbn; try lia.
  - destruct (m_mtx s); [done|]. injection E as <-. exists PTest. by split_and!; cbn; try lia.
  - rewrite Hs in E. cbn in E. injection E as <-. exists PTake. by split_and!; cbn; try lia.
  - destruct (m_mtx s); [done|]. injection E as <-. exists PTest. by split_and!; cbn; try lia.
  - destruct (m_que s) as [|t q]; injection E as <-; [exists PTop|exists (PRun t)]; by split_and!; cbn; try lia.
  - injection E as <-. exists PTop. by split_and!; cbn; try lia.
Qed.

Lemma stopping_step o s s' :
  quiet o = true -> task_exec o s = Some s' -> stopping_ok s -> stopping_ok s' /\ (steps_left s' < steps_left s)%nat.
Proof.
  intros Hq E [H Hs Ha Hj]. pose proof (task_exec_inv _ _ _ H E) as H'.
  destruct o as [i| | |]; try done; cbn [task_exec] in E.
  - destruct (worker_frame _ _ _ E) as (Es & _ & Est & El).
    destruct (worker_stopping i s s' E Hs Ha) as (p & p' & Ei & Et & Hlt & Hnd & Hw & Hb). split.
    + constructor; [done|congruence| |].
      * rewrite Et. intros q [j [[_ ->] | [_ Ej]]%insert_cases]%list_elem_of_lookup_1; [done|].
        apply Ha. by eapply list_elem_of_lookup_2.
      * rewrite Est, El. destruct (stopping s) as [| |k|]; try done.
        -- destruct Hj as [Hk Hj]. split; [done|]. intros j Hjk. rewrite Et, list_lookup_insert_ne; [auto|].
           intros ->. rewrite (Hj j Hjk) in Ei. congruence.
        -- apply list_elem_of_lookup_2, Hj in Ei. congruence.
    + unfold steps_left, joins_left. rewrite Est, El, Et. pose proof (sum_insert _ i p p' Ei). lia.
  - revert E. unfold stop_step. unfold steps_left, joins_left.
    destruct (stopping s) as [| |k|]; try done. destruct Hj as [Hk Hj].
    destruct (m_threads s !! k) as [p|] eqn:Ek.
    + pose proof (lookup_lt_Some _ _ _ Ek) as Hlt. destruct p; try done. intros [= <-]. cbn [stopping set_stopping m_threads]. split; [|lia].
      constructor; cbn; try done. split; [lia|]. intros j Hjk. destruct (decide (j = k)) as [-> | ?]; [done|apply Hj; lia].
    + intros [= <-]. cbn [stopping set_stopping m_threads]. apply lookup_ge_None in Ek. split; [|lia]. constructor; cbn; try done.
      intros p [j Ej]%list_elem_of_lookup_1. pose proof (lookup_lt_Some _ _ _ Ej).
      rewrite Hj in Ej by lia. congruence.
Qed.

Lemma stopping_run ops s s' :
  quiet_run ops s s' -> stopping_ok s -> stopping_ok s' /\ (length ops + steps_left s' <= steps_left s)%nat.
Proof.
  intros [Hq E]. revert s E. induction Hq as [|o ops Ho Hq IH]; intros s; cbn [task_run length].
  - intros [= <-]. auto.
  - destruct (task_exec o s) as [s1|] eqn:E1; [|done]. cbn [mbind option_bind]. intros E Hok.
    destruct (stopping_step o s s1 Ho E1 Hok) as [Hok1 Hlt]. destruct (IH s1 E Hok1). split; [done|lia].
Qed.

(** Until [stop] is done, somebody can go on. *)
Lemma stopping_progress s :
  stopping_ok s -> stopping s <> SStopped -> exists o s', quiet o = true /\ task_exec o s = Some s'.
Proof.
  intros [H Hs Ha Hj] Hn. destruct (stopping s) as [| |k|] eqn:Est; try done.
  destruct (m_mtx s) as [o|] eqn:Em.
  - destruct (tq_mutex _ H o Em) as [p Ep]. pose proof (proj2 (tq_owner _ H o p Ep) Em) as Hh.
    exists (OWorker o). cbn [task_exec quiet]. unfold worker_step. rewrite Ep. cbn [mbind option_bind].
    destruct p; try done; [| |destruct (m_que s)]; eauto.
  - destruct (m_threads s !! k) as [p|] eqn:Ek.
    + destruct (decide (p = PDone)) as [-> | Hp].
      { exists OStop. cbn. unfold stop_step. rewrite Est, Ek. eauto. }
      destruct (Ha p (list_elem_of_lookup_2 _ _ _ Ek)) as [Hw Hb].
      exists (OWorker k). cbn [task_exec quiet]. unfold worker_step. rewrite Ek, Em. cbn [mbind option_bind].
      destruct p; try done; [..|destruct (m_que s)|]; eauto.
    + exists OStop. cbn. unfold stop_step. rewrite Est, Ek. eauto.
Qed.

(** ** Properties *)

(** C24. Tasks are taken in the order they were pushed and each is run at most
    once, by one worker; at most one worker is inside the critical section.  No
    task is stranded: until [stop] is called, in every state that any
    interleaving can reach (spurious wakeups and any choice of [notify_one]
    included) the workers, without help, can run everything that was pushed. *)
Theorem tasks_run_once n ops s :
  task_run ops (TaskQueue_new n) = Some s ->
  pushed s = taken s ++ m_que s /\ executed s ++ running (m_threads s) ≡ₚ taken s /\
  (forall i j p q, m_threads s !! i = Some p -> m_threads s !! j = Some q ->
     holds p = true -> holds q = true -> i = j) /\
  (m_stop s = false -> m_threads s <> [] ->
     exists ws s', task_run (map OWorker ws) s = Some s' /\ executed s' ≡ₚ pushed s).
Proof.
  intros E. pose proof (task_run_inv _ _ _ (TaskQueue_new_inv n) E) as H. split_and!.
  - apply (tq_fifo _ H).
  - apply (tq_once _ H).
  - intros i j p q Ei Ej Hp%(tq_owner _ H i p Ei) Hq%(tq_owner _ H j q Ej). congruence.
  - by apply run_everything.
Qed.

(** Two workers; both go to sleep, then two tasks are pushed and each wakes
    one of them. *)
Definition two_tasks : list task_op :=
  [OWorker 0; OWorker 0; OWorker 0; OWorker 0; OWorker 1; OWorker 1; OWorker 1; OWorker 1;
   ORunTask 7 (Some 0%nat); ORunTask 8 (Some 1%nat); OWorker 0].

Lemma tasks_run_once_witness :
  exists s, task_run two_tasks (TaskQueue_new 2) = Some s /\ m_que s = [7; 8]%nat /\
    exists ws s', task_run (map OWorker ws) s = Some s' /\ executed s' ≡ₚ [7; 8]%nat.
Proof.
  eexists. split; [vm_compute; reflexivity|]. split; [reflexivity|].
  match goal with |- exists ws s', task_run _ ?s = _ /\ _ =>
    refine (proj2 (proj2 (proj2 (tasks_run_once 2 two_tasks s _))) _ _) end.
  - vm_compute. reflexivity.
  - reflexivity.
  - discriminate.
Defined.

(** C27. [stop] returns exactly when no worker is on its way into [wait] at the
    moment of [notify_all], as long as no task is pushed and no [wait] wakes by
    itself after it.  If none is, then however the threads are scheduled
    they take a bounded number of steps, and when nobody can go on all workers
    have ended and [stop] has returned; tasks still queued are dropped.  If
    some worker has found the queue empty and [m_stop] false and has not yet
    blocked (it holds the mutex, which [stop] does not take), it misses the
    notification, and then [stop] never returns, whatever the threads do, until
    somebody pushes a task or [wait] wakes by itself. *)
Theorem stop_returns_unless_notified_early n ops s s1 :
  task_run ops (TaskQueue_new n) = Some s -> stopping s = SNotify -> task_exec OStop s = Some s1 ->
  (PWait ∉ m_threads s -> forall ops' s2, quiet_run ops' s1 s2 ->
     (length ops' <= steps_left s1)%nat /\
     ((forall o, quiet o = true -> task_exec o s2 = None) ->
        stopping s2 = SStopped /\ forall p, p ∈ m_threads s2 -> p = PDone)) /\
  (PWait ∈ m_threads s -> forall ops' s2, quiet_run ops' s1 s2 -> stopping s2 <> SStopped).
Proof.
  intros E Hn E1. pose proof (task_run_inv _ _ _ (TaskQueue_new_inv n) E) as H.
  pose proof (task_exec_inv _ _ _ H E1) as H1. cbn [task_exec] in E1. unfold stop_step in E1. rewrite Hn in E1.
  injection E1 as <-. split.
  - intros Hw ops' s2 Hr.
    assert (stopping_ok (set_stopping (m_stop s) (map wake (m_threads s)) (SJoin 0) s)) as Hok.
    { constructor; [done| | |].
      - cbn. pose proof (tq_stopping _ H) as Hst. rewrite Hn in Hst. by destruct (m_stop s); [|discriminate (proj2 Hst eq_refl)].
      - cbn. intros p [j (q & Ej & ->)%lookup_wake]%list_elem_of_lookup_1. apply list_elem_of_lookup_2 in Ej.
        by destruct q.
      - cbn. split; [lia|]. intros j Hj. lia. }
    destruct (stopping_run _ _ _ Hr Hok) as [Hok2 Hle]. split; [lia|]. intros Hstuck.
    destruct (decide (stopping s2 = SStopped)) as [Hst|Hst].
    + split; [done|]. pose proof (so_joined _ Hok2) as Hj. by rewrite Hst in Hj.
    + destruct (stopping_progress s2 Hok2 Hst) as (o & s3 & Ho & E3). by rewrite Hstuck in E3.
  - intros [i Ei]%list_elem_of_lookup_1 ops' s2 Hr.
    destruct (doomed_run i _ _ _ Hr) as [_ (k & Hk & _)]; [|congruence].
    split; [left; cbn; by apply list_lookup_fmap_Some; exists PWait|]. exists 0%nat. split; [done|lia].
Qed.

(** One worker, about to wait when [stop] sets the flag. *)
Definition early_stop : list task_op := [OWorker 0; OWorker 0; OWorker 0; OStop].

Lemma stop_returns_unless_notified_early_witness :
  exists s s1, task_run early_stop (TaskQueue_new 1) = Some s /\ task_exec OStop s = Some s1 /\
    forall ops s2, quiet_run ops s1 s2 -> stopping s2 <> SStopped.
Proof.
  eexists _, _. split; [vm_compute; reflexivity|]. split; [vm_compute; reflexivity|].
  refine (proj2 (stop_returns_unless_notified_early 1 early_stop _ _ _ _ _) _).
  - vm_compute. reflexivity.
  - reflexivity.
  - vm_compute. reflexivity.
  - left.
Defined.
