(* ===== verification/TaskSync.v ===== *)
(** * Waiting for tasks: [netpoll/util/{task_queue,task_per_thread_queue}.h]

    - [Sync]: [TaskQueue::syncTask] on the worker threads of
      [ConcurrentTaskQueue].  The functor that it pushes runs the task and sets a
      promise, so the caller returns when its task, here one that nobody else
      pushes, has been executed.
    - [PerThread]: [TaskPerThreadQueue], a thread for every task; its one
      instance joins them all when the process exits.  A task is moved into a
      [packaged_task], and that through the copies of [Ownership.CopyMove] into
      its thread; how many there are is up to the library ([copies]).  [body]
      says how a task ends, [None] when it does not. *)

From stdpp Require Import list.
From S2P Require Import Prelude ConcurrentTaskQueue Ownership.

Module Sync.

(** The promise of a call of [syncTask] with task [t]. *)
Definition fulfilled (t : nat) (s : ConcurrentTaskQueue) : bool := bool_decide (t ∈ executed s).

(** [syncTask]: the push; then [fu.get()], which goes on when the promise is set. *)
Definition syncTask (t : nat) (w : option nat) (s : ConcurrentTaskQueue) : option ConcurrentTaskQueue :=
  queue_runTask t w s.
Definition syncTask_get (t : nat) (s : ConcurrentTaskQueue) : option () := if fulfilled t s then Some () else None.

(** Steps when tasks call [syncTask] themselves: [inner t] is the task that
    [t] waits for before it ends. *)
Definition nested_exec (inner : nat -> option nat) (o : task_op) (s : ConcurrentTaskQueue) : option ConcurrentTaskQueue :=
  match o with
  | OWorker i =>
      match m_threads s !! i with
      | Some (PRun t) =>
          match inner t with
          | Some u => _ ← syncTask_get u s; task_exec o s
          | None => task_exec o s
          end
      | _ => task_exec o s
      end
  | _ => task_exec o s
  end.

Fixpoint nested_run (inner : nat -> option nat) (ops : list task_op) (s : ConcurrentTaskQueue) : option ConcurrentTaskQueue :=
  match ops with
  | [] => Some s
  | o :: ops => s ← nested_exec inner o s; nested_run inner ops s
  end.

(** ** Lemmas *)

(** Only workers execute; pushing, waking and stopping keep the rest. *)
Lemma exec_frame o s s' :
  task_exec o s = Some s' ->
  length (m_threads s') = length (m_threads s) /\
  ((forall i, o <> OWorker i) -> executed s' = executed s) /\
  (forall i p, m_threads s !! i = Some p -> run_of p <> None \/ p = PDone ->
     o <> OWorker i -> m_threads s' !! i = Some p).
Proof.
  destruct o as [j|j|t w|]; cbn [task_exec].
  - intros E. destruct (worker_frame _ _ _ E) as (_ & _ & _ & El). split; [done|]. split; [intros H; by destruct (H j)|].
    intros i p Ei _ Hne. assert (j <> i) by congruence. revert E. unfold worker_step.
    destruct (m_threads s !! j) as [q|]; [|done]. cbn [mbind option_bind].
    destruct q; repeat case_match; intros; simplify_eq/=; by rewrite list_lookup_insert_ne.
  - unfold spurious_wakeup. case_decide as Ej; [|done]. intros [= <-]. cbn. split; [by rewrite length_insert|]. split; [done|].
    intros i p Ei Hp _. rewrite list_lookup_insert_ne; [done|]. intros ->. rewrite Ej in Ei. injection Ei as <-. by destruct Hp.
  - unfold queue_runTask. destruct (m_mtx s); [done|]. cbn. destruct w as [j|]; case_decide as Ej; try done; intros [= <-]; cbn.
    + split; [by rewrite length_insert|]. split; [done|]. intros i p Ei Hp _.
      rewrite list_lookup_insert_ne; [done|]. intros ->. rewrite Ej in Ei. injection Ei as <-. by destruct Hp.
    + by split_and!.
  - unfold stop_step. destruct (stopping s) as [| |k|]; [| | |done].
    + destruct (m_stop s); intros [= <-]; by split_and!.
    + intros [= <-]. cbn. split; [by rewrite length_map|]. split; [done|]. intros i p Ei Hp _.
      apply list_lookup_fmap_Some. exists p. split; [by destruct p, Hp|done].
    + destruct (m_threads s !! k) as [[]|]; intros; simplify_eq/=; by split_and!.
Qed.

Lemma run_length ops s s' : task_run ops s = Some s' -> length (m_threads s') = length (m_threads s).
Proof.
  revert s. induction ops as [|o ops IH]; intros s; cbn [task_run]; [by intros [= <-]|].
  destruct (task_exec o s) as [s1|] eqn:E; [|done]. cbn [mbind option_bind]. intros ->%IH. exact (proj1 (exec_frame _ _ _ E)).
Qed.

(** When every worker has ended nothing is executed any more. *)
Lemma ended_step o s s' :
  (forall p, p ∈ m_threads s -> p = PDone) -> task_exec o s = Some s' ->
  (forall p, p ∈ m_threads s' -> p = PDone) /\ executed s' = executed s.
Proof.
  intros Hd E. destruct (exec_frame o s s' E) as (El & Ex & Et).
  assert (forall i, o <> OWorker i) as Hno.
  { intros i ->. cbn in E. unfold worker_step in E. destruct (m_threads s !! i) as [p|] eqn:Ei; [|done].
    apply list_elem_of_lookup_2, Hd in Ei. subst p. done. }
  split; [|by apply Ex]. intros p [i Ei]%list_elem_of_lookup_1.
  destruct (lookup_lt_is_Some_2 (m_threads s) i) as [q Eq].
  { rewrite <- El. by eapply lookup_lt_Some. }
  pose proof (Hd q (list_elem_of_lookup_2 _ _ _ Eq)) as ->.
  rewrite (Et i PDone Eq) in Ei by auto. by injection Ei as <-.
Qed.

Lemma ended_run ops s s' :
  (forall p, p ∈ m_threads s -> p = PDone) -> task_run ops s = Some s' -> executed s' = executed s.
Proof.
  revert s. induction ops as [|o ops IH]; intros s Hd; cbn [task_run]; [by intros [= <-]|].
  destruct (task_exec o s) as [s1|] eqn:E; [|done]. cbn [mbind option_bind]. intros E'.
  destruct (ended_step o s s1 Hd E) as [Hd1 Ex]. by rewrite (IH s1 Hd1 E').
Qed.

Lemma runTask_frame t w s s' :
  queue_runTask t w s = Some s' -> pushed s' = pushed s ++ [t] /\ executed s' = executed s /\ m_stop s' = m_stop s.
Proof.
  unfold queue_runTask. destruct (m_mtx s); [done|]. cbn.
  destruct w as [j|]; case_decide; try done; intros [= <-]; by split_and!.
Qed.

(** Every worker is in a task that waits for one that has not been executed. *)
Definition all_wait (inner : nat -> option nat) (s : ConcurrentTaskQueue) : Prop :=
  m_threads s <> [] /\
  forall p, p ∈ m_threads s -> exists t u, p = PRun t /\ inner t = Some u /\ (u ∉ executed s).

Lemma nested_exec_is o inner s s' : nested_exec inner o s = Some s' -> task_exec o s = Some s'.
Proof.
  destruct o as [i| | |]; cbn [nested_exec]; try done.
  destruct (m_threads s !! i) as [[]|]; try done. destruct (inner t); [|done].
  by destruct (syncTask_get _ _).
Qed.

Lemma nested_run_is ops inner s s' : nested_run inner ops s = Some s' -> task_run ops s = Some s'.
Proof.
  revert s. induction ops as [|o ops IH]; intros s; cbn [nested_run task_run]; [done|].
  destruct (nested_exec inner o s) as [s1|] eqn:E; [|done]. cbn [mbind option_bind].
  rewrite (nested_exec_is _ _ _ _ E). apply IH.
Qed.

Lemma all_wait_step inner o s s' :
  all_wait inner s -> nested_exec inner o s = Some s' -> all_wait inner s' /\ executed s' = executed s.
Proof.
  intros [Hne Hw] E.
  assert (forall i, o <> OWorker i) as Hno.
  { intros i ->. cbn [nested_exec] in E. destruct (m_threads s !! i) as [p|] eqn:Ei.
    - destruct (Hw p (list_elem_of_lookup_2 _ _ _ Ei)) as (t & u & -> & Hu & Hx). rewrite Hu in E.
      unfold syncTask_get, fulfilled in E. by rewrite bool_decide_false in E.
    - cbn in E. unfold worker_step in E. by rewrite Ei in E. }
  destruct (exec_frame o s s' (nested_exec_is _ _ _ _ E)) as (El & Ex & Et). specialize (Ex Hno). split; [split|done].
  - intros H0. apply Hne, nil_length_inv. by rewrite <- El, H0.
  - intros p [i Ei]%list_elem_of_lookup_1. destruct (lookup_lt_is_Some_2 (m_threads s) i) as [q Eq].
    { rewrite <- El. by eapply lookup_lt_Some. }
    destruct (Hw q (list_elem_of_lookup_2 _ _ _ Eq)) as (t & u & -> & Hu & Hx).
    rewrite (Et i (PRun t) Eq) in Ei by (by left || apply Hno). injection Ei as <-. exists t, u. by rewrite Ex.
Qed.

Lemma all_wait_run inner ops s s' :
  all_wait inner s -> nested_run inner ops s = Some s' -> all_wait inner s' /\ executed s' = executed s.
Proof.
  revert s. induction ops as [|o ops IH]; intros s Hw; cbn [nested_run]; [by intros [= <-]|].
  destruct (nested_exec inner o s) as [s1|] eqn:E; [|done]. cbn [mbind option_bind].
  destruct (all_wait_step inner o s s1 Hw E) as [Hw1 <-]. by apply IH.
Qed.

(** The workers that [stop] has joined have ended. *)
Definition joined_ok (s : ConcurrentTaskQueue) : Prop :=
  match stopping s with
  | SJoin k => forall j, (j < k)%nat -> m_threads s !! j = Some PDone
  | SStopped => m_threads s = [] \/ m_threads s !! 0%nat = Some PDone
  | _ => True
  end.

Lemma done_stays o s s' i :
  task_exec o s = Some s' -> m_threads s !! i = Some PDone -> m_threads s' !! i = Some PDone.
Proof.
  intros E Ei. destruct (exec_frame o s s' E) as (_ & _ & Et). apply (Et i PDone Ei); [by right|].
  intros ->. cbn in E. unfold worker_step in E. by rewrite Ei in E.
Qed.

#[global] Instance task_op_eq_dec : EqDecision task_op.
Proof. solve_decision. Defined.

Lemma stopping_only_stop o s s' : task_exec o s = Some s' -> o <> OStop -> stopping s' = stopping s.
Proof.
  destruct o as [i|i|t w|]; cbn [task_exec]; [| | |done].
  - intros E _. by destruct (worker_frame _ _ _ E) as (_ & _ & ? & _).
  - unfold spurious_wakeup. case_decide; [|done]. by intros [= <-].
  - unfold queue_runTask. destruct (m_mtx s); [done|]. cbn. destruct w; case_decide; try done; by intros [= <-].
Qed.

Lemma joined_step o s s' : tq_inv s -> joined_ok s -> task_exec o s = Some s' -> joined_ok s'.
Proof.
  intros H Hj E. destruct (decide (o = OStop)) as [-> | Ho].
  - cbn [task_exec] in E. unfold stop_step in E. unfold joined_ok in *. destruct (stopping s) as [| |k|] eqn:Es; [| | |done].
    + rewrite (proj1 (tq_stopping _ H) Es) in E. by injection E as <-.
    + injection E as <-. cbn. intros j Hj'. lia.
    + destruct (m_threads s !! k) as [p|] eqn:Ek.
      * destruct p; try done. injection E as <-. cbn. intros j Hlt.
        destruct (decide (j = k)) as [-> | ?]; [done|]. apply Hj. lia.
      * injection E as <-. cbn. apply lookup_ge_None in Ek. destruct (m_threads s) as [|p ths]; [by left|right].
        cbn in Ek. apply (Hj 0%nat). lia.
  - unfold joined_ok in *. rewrite (stopping_only_stop o s s' E Ho).
    destruct (stopping s) as [| |k|]; try done.
    + intros j Hlt. eapply done_stays; [exact E|by apply Hj].
    + destruct Hj as [H0|H0]; [left|right; by eapply done_stays].
      destruct (exec_frame o s s' E) as (El & _). apply nil_length_inv. by rewrite El, H0.
Qed.

Lemma joined_run ops s s' : tq_inv s -> joined_ok s -> task_run ops s = Some s' -> joined_ok s'.
Proof.
  revert s. induction ops as [|o ops IH]; intros s H Hj; cbn [task_run]; [by intros [= <-]|].
  destruct (task_exec o s) as [s1|] eqn:E; [|done]. cbn [mbind option_bind].
  apply IH; [by eapply task_exec_inv|by eapply joined_step].
Qed.

(** A worker that holds the mutex gives it back without help. *)
Lemma mutex_released s :
  tq_inv s -> exists ws s0, task_run (map OWorker ws) s = Some s0 /\ m_mtx s0 = None.
Proof.
  intros H. destruct (m_mtx s) as [i|] eqn:Em; [|by exists [], s].
  destruct (tq_mutex _ H i Em) as [p Ei]. pose proof (proj2 (tq_owner _ H i p Ei) Em) as Hh.
  assert (forall s', m_threads s' !! i = Some PWait \/ m_threads s' !! i = Some PTake ->
    exists s0, task_run [OWorker i] s' = Some s0 /\ m_mtx s0 = None) as Hlast.
  { intros s' [E|E]; cbn [task_run task_exec]; unfold worker_step; rewrite E; cbn [mbind option_bind].
    - by eexists.
    - destruct (m_que s'); by eexists. }
  destruct p; try done.
  - set (s1 := set_pc i (if negb (m_stop s) && bool_decide (m_que s = []) then PWait else PTake) s).
    destruct (Hlast s1) as (s0 & E0 & Hm).
    { unfold s1. cbn. rewrite list_lookup_insert_eq by (by eapply lookup_lt_Some). destruct (_ && _); auto. }
    assert (worker_step i s = Some s1) as Ew by (unfold worker_step; by rewrite Ei).
    exists [i; i], s0. split; [|done]. cbn [map task_run task_exec]. rewrite Ew. exact E0.
  - destruct (Hlast s) as (s0 & E0 & Hm); [auto|]. by exists [i], s0.
  - destruct (Hlast s) as (s0 & E0 & Hm); [auto|]. by exists [i], s0.
Qed.

(** With a free mutex the push succeeds; [notify_one] wakes some blocked worker, if there is one. *)
Lemma push_succeeds t s : m_mtx s = None -> exists w s1, syncTask t w s = Some s1.
Proof.
  intros Em. unfold syncTask, queue_runTask. rewrite Em.
  destruct (decide (PBlocked ∈ m_threads s)) as [[i Hi]%list_elem_of_lookup_1|Hn].
  - eexists (Some i), _. cbn [m_threads]. by rewrite decide_True.
  - eexists None, _. cbn [m_threads]. by rewrite decide_False.
Qed.

Lemma ended_mutex s : tq_inv s -> (forall p, p ∈ m_threads s -> p = PDone) -> m_mtx s = None.
Proof.
  intros H Hd. destruct (m_mtx s) as [i|] eqn:Em; [|done]. destruct (tq_mutex _ H i Em) as [p Ei].
  pose proof (proj2 (tq_owner _ H i p Ei) Em) as Hh. apply list_elem_of_lookup_2, Hd in Ei. by subst.
Qed.

(** ** Properties *)

(** C25. [syncTask] called from outside the tasks is answered as long as there
    is somebody to answer.  In every state that the workers, spurious wakeups,
    other callers and [stop] can reach: the push gets the mutex, if need be
    after steps of the worker that holds it; until [stop] is called, the workers
    of a queue that has any can then run the task without help, so that the
    caller returns; when they have all ended, after [stop], the push succeeds
    just as well, and the caller waits for ever.  Inside tasks it is different:
    when every worker is in a task that waits for one that has not been
    executed, nothing is executed any more, and every such call waits for ever. *)
Theorem syncTask_answered n ops s t :
  task_run ops (TaskQueue_new n) = Some s ->
  (exists ws s0 w s1, task_run (map OWorker ws) s = Some s0 /\ syncTask t w s0 = Some s1) /\
  (n <> 0%nat -> m_stop s = false -> forall w s1, syncTask t w s = Some s1 ->
     exists ws s2, task_run (map OWorker ws) s1 = Some s2 /\ syncTask_get t s2 = Some ()) /\
  ((forall p, p ∈ m_threads s -> p = PDone) ->
     (exists w s1, syncTask t w s = Some s1) /\
     (t ∉ executed s -> forall w s1, syncTask t w s = Some s1 ->
        forall ops' s2, task_run ops' s1 = Some s2 -> syncTask_get t s2 = None)) /\
  (forall inner, all_wait inner s -> t ∉ executed s ->
     forall ops' s2, nested_run inner ops' s = Some s2 -> executed s2 = executed s /\ syncTask_get t s2 = None).
Proof.
  intros E. pose proof (task_run_inv _ _ _ (TaskQueue_new_inv n) E) as H. unfold syncTask_get, fulfilled. split_and!.
  - destruct (mutex_released s H) as (ws & s0 & E0 & Hm). destruct (push_succeeds t s0 Hm) as (w & s1 & E1). by exists ws, s0, w, s1.
  - intros Hn Hs w s1 E1. pose proof (queue_runTask_inv _ _ _ _ H E1) as H1.
    destruct (runTask_frame _ _ _ _ E1) as (Ep & Ex & Es). pose proof (exec_frame (ORunTask t w) s s1 E1) as (El & _).
    destruct (run_everything s1) as (ws & s2 & E2 & Hp); [done|congruence| |].
    { intros H0. pose proof (run_length _ _ _ E) as Hl. rewrite <- El, H0 in Hl. cbn in Hl.
      by rewrite length_replicate in Hl. }
    exists ws, s2. split; [done|]. rewrite bool_decide_true; [done|]. rewrite Hp, Ep. set_solver.
  - intros Hd. split; [by apply push_succeeds, ended_mutex|]. intros Ht w s1 E1 ops' s2 E2.
    destruct (runTask_frame _ _ _ _ E1) as (_ & Ex & _).
    assert (executed s2 = executed s1) as ->; [|by rewrite Ex, bool_decide_false].
    eapply ended_run; [|exact E2]. by apply (ended_step (ORunTask t w) s s1 Hd E1).
  - intros inner Hw Ht ops' s2 E2. destruct (all_wait_run inner ops' s s2 Hw E2) as [_ Ex]. split; [done|].
    by rewrite Ex, bool_decide_false.
Qed.

(** Two workers; somebody waits for task 7.  And one worker that has ended. *)
Lemma syncTask_answered_witness :
  (exists s s1 ws s2, task_run [OWorker 0; OWorker 1] (TaskQueue_new 2) = Some s /\ syncTask 7 None s = Some s1 /\
     task_run (map OWorker ws) s1 = Some s2 /\ syncTask_get 7 s2 = Some ()) /\
  (exists s s1, task_run [OStop; OWorker 0] (TaskQueue_new 1) = Some s /\ syncTask 7 None s = Some s1 /\
     forall ops s2, task_run ops s1 = Some s2 -> syncTask_get 7 s2 = None).
Proof.
  split.
  - eexists _, _. destruct (syncTask_answered 2 [OWorker 0; OWorker 1] _ 7 eq_refl) as (_ & A & _).
    destruct (A ltac:(discriminate) eq_refl None _ eq_refl) as (ws & s2 & E & G). exists ws, s2.
    split; [reflexivity|]. split; [reflexivity|]. exact (conj E G).
  - eexists _, _. destruct (syncTask_answered 1 [OStop; OWorker 0] _ 7 eq_refl) as (_ & _ & B & _).
    split; [reflexivity|]. split; [reflexivity|].
    refine (proj2 (B _) _ None _ eq_refl).
    + intros p Hp. apply list_elem_of_singleton in Hp. exact Hp.
    + apply not_elem_of_nil.
Defined.

(** [syncTask] inside tasks.  When every worker of a queue is in a task
    that waits in [syncTask] for a task that has not been executed (with one
    worker: as soon as a task calls it), the queue is stuck for good: whatever
    is pushed, notified or stopped from then on, no task is executed any more,
    every worker waits for ever, and [stop] and the destructor never return. *)
Theorem nested_sync_deadlocks inner n ops s :
  task_run ops (TaskQueue_new n) = Some s -> all_wait inner s ->
  forall ops' s', nested_run inner ops' s = Some s' ->
    executed s' = executed s /\ all_wait inner s' /\ stopping s' <> SStopped.
Proof.
  intros E Hw ops' s' E'. destruct (all_wait_run inner ops' s s' Hw E') as [Hw' Ex]. split_and!; [done..|].
  assert (joined_ok s') as Hj.
  { eapply (joined_run (ops ++ ops') (TaskQueue_new n)); [apply TaskQueue_new_inv|done|].
    rewrite task_run_app, E. cbn. by eapply nested_run_is. }
  unfold joined_ok in Hj. intros Hst. rewrite Hst in Hj. destruct Hw' as [Hne Hw']. destruct Hj as [Hj|Hj]; [done|].
  apply list_elem_of_lookup_2, Hw' in Hj. by destruct Hj as (t & u & ? & _).
Qed.

(** One worker, whose task 0 waits for task 1. *)
Definition one_waits : list task_op :=
  [ORunTask 0 None; OWorker 0; OWorker 0; OWorker 0; OWorker 0; ORunTask 1 None].

Lemma nested_sync_deadlocks_witness :
  exists s, task_run one_waits (TaskQueue_new 1) = Some s /\ m_que s = [1]%nat /\
    forall ops s', nested_run (fun t => if decide (t = 0%nat) then Some 1%nat else None) ops s = Some s' ->
      executed s' = [] /\ stopping s' <> SStopped.
Proof.
  eexists. split; [vm_compute; reflexivity|]. split; [reflexivity|]. intros ops s' E.
  match type of E with nested_run ?inner _ ?s = _ =>
    destruct (nested_sync_deadlocks inner 1 one_waits s) with ops s' as (Ex & _ & Hs) end.
  - vm_compute. reflexivity.
  - split; [discriminate|]. intros p Hp. apply list_elem_of_singleton in Hp. exists 0%nat, 1%nat.
    split; [exact Hp|]. split; [reflexivity|]. apply not_elem_of_nil.
  - exact E.
  - split; [exact Ex|exact Hs].
Defined.
End Sync.

(** ** A thread for every task *)

Module PerThread.
Import CopyMove.

(** How a task ends; an exception is kept for [get] of the future. *)
Inductive outcome := Returned | Threw.

Record thread := mkThread {
  object : nat;              (* the closure it runs: an object of the store *)
  given : nat;               (* the task that [runTask] was given *)
  ended : bool
}.

Record TaskPerThreadQueue := mkPerThread {
  objects : list (option nat);
  m_threads : list thread;
  futures : list (nat * outcome);        (* those that are ready, by their tasks *)
  joining : option nat                   (* the destructor: the thread it is at *)
}.

Inductive per_thread_op :=
  | DRunTask (t : nat) (copies : nat)
  | DThread (i : nat)
  | DDestroy
  | DJoin.

Definition PerThread_new : TaskPerThreadQueue := mkPerThread [] [] [] None.

Section tasks.
Variable body : nat -> option outcome.

(** [runTask]: the packaged task goes into [copy], from there into the
    captured copy of the lambda, and with it into the thread. *)
Definition daemon_runTask (t copies : nat) (s : TaskPerThreadQueue) : TaskPerThreadQueue :=
  let (i, st) := makeCopyMove t (objects s) in
  let (k, st) := hand_over (1 + copies) i st in
  mkPerThread st (m_threads s ++ [mkThread k t false]) (futures s) (joining s).

(** The lambda: the task is run if the object is still valid. *)
Definition thread_run (i : nat) (s : TaskPerThreadQueue) : option TaskPerThreadQueue :=
  th ← m_threads s !! i;
  if ended th then None else
  let stopped fs := mkPerThread (objects s) (<[i := mkThread (object th) (given th) true]> (m_threads s)) fs (joining s) in
  match value (objects s) (object th) with
  | Some t => o ← body t; Some (stopped (futures s ++ [(t, o)]))
  | None => Some (stopped (futures s))
  end.

(** [~TaskPerThreadQueue], thread by thread. *)
Definition destroy_join (s : TaskPerThreadQueue) : option TaskPerThreadQueue :=
  k ← joining s;
  th ← m_threads s !! k;
  if ended th then Some (mkPerThread (objects s) (m_threads s) (futures s) (Some (S k))) else None.

Definition per_thread_exec (o : per_thread_op) (s : TaskPerThreadQueue) : option TaskPerThreadQueue :=
  match o with
  | DRunTask t copies => match joining s with None => Some (daemon_runTask t copies s) | Some _ => None end
  | DThread i => thread_run i s
  | DDestroy =>
      match joining s with
      | None => Some (mkPerThread (objects s) (m_threads s) (futures s) (Some 0%nat))
      | Some _ => None
      end
  | DJoin => destroy_join s
  end.

Fixpoint per_thread_run (ops : list per_thread_op) (s : TaskPerThreadQueue) : option TaskPerThreadQueue :=
  match ops with
  | [] => Some s
  | o :: ops => s ← per_thread_exec o s; per_thread_run ops s
  end.

(** The destructor has returned. *)
Definition destroyed (s : TaskPerThreadQueue) : Prop := joining s = Some (length (m_threads s)).

(** ** Lemmas *)

Definition ended_task (th : thread) : option nat := if ended th then Some (given th) else None.

Record per_thread_ok (s : TaskPerThreadQueue) : Prop := {
  pt_valid : forall th, th ∈ m_threads s ->
    (object th < length (objects s))%nat /\ value (objects s) (object th) = Some (given th);
  pt_futures : (futures s).*1 ≡ₚ omap ended_task (m_threads s);
  pt_outcome : forall t o, (t, o) ∈ futures s -> body t = Some o;
  pt_joined : forall k j th, joining s = Some k -> (j < k)%nat -> m_threads s !! j = Some th -> ended th = true;
  pt_bound : forall k, joining s = Some k -> (k <= length (m_threads s))%nat
}.

Lemma runTask_ok t copies s : joining s = None -> per_thread_ok s -> per_thread_ok (daemon_runTask t copies s).
Proof.
  intros Hj [Hv Hf Ho _ _]. unfold daemon_runTask, makeCopyMove.
  pose proof (hand_over_spec (1 + copies) (length (objects s)) (objects s ++ [Some t])) as Hh.
  destruct (hand_over _ _ _) as [k st] eqn:E. destruct Hh as (L & V & F); [rewrite length_app; cbn; lia|].
  rewrite value_new in V, F. constructor; cbn.
  - intros th [Hin|Hin%list_elem_of_singleton]%elem_of_app; [|by subst].
    destruct (Hv th Hin) as [Hl Hval].
    assert (object th <> k) as Hk.
    { pose proof (hand_over_new (1 + copies) (length (objects s)) (objects s ++ [Some t])) as Hn.
      rewrite E in Hn. cbn [fst] in Hn. rewrite length_app in Hn. lia. }
    assert (value st (object th) = Some (given th)) as Hst.
    { rewrite F. rewrite !decide_False by lia. by rewrite value_app by lia. }
    split; [|done]. unfold value in Hst. destruct (st !! object th) eqn:El; [|done]. by eapply lookup_lt_Some.
  - rewrite omap_app. cbn. by rewrite app_nil_r.
  - exact Ho.
  - congruence.
  - congruence.
Qed.

Lemma lookup_ended (ths : list thread) i th :
  ths !! i = Some th -> ended th = false ->
  omap ended_task (<[i := mkThread (object th) (given th) true]> ths) ≡ₚ omap ended_task ths ++ [given th].
Proof.
  intros Ei He. pose proof (lookup_lt_Some _ _ _ Ei) as Hi.
  rewrite <- (take_drop_middle ths i th Ei) at 2. rewrite insert_take_drop by done.
  rewrite !omap_app. cbn. unfold ended_task at 2 4. rewrite He. cbn. solve_Permutation.
Qed.

(** A thread whose closure is valid runs the task that was given. *)
Lemma thread_run_spec i s s' :
  per_thread_ok s -> thread_run i s = Some s' ->
  exists th o, m_threads s !! i = Some th /\ ended th = false /\ body (given th) = Some o /\
    s' = mkPerThread (objects s) (<[i := mkThread (object th) (given th) true]> (m_threads s))
           (futures s ++ [(given th, o)]) (joining s).
Proof.
  intros H. unfold thread_run. destruct (m_threads s !! i) as [th|] eqn:Ei; [|done]. cbn [mbind option_bind].
  destruct (ended th) eqn:He; [done|]. destruct (pt_valid _ H th) as [_ ->]; [by eapply list_elem_of_lookup_2|].
  destruct (body (given th)) as [o|] eqn:Hb; [|done]. intros [= <-]. by exists th, o.
Qed.

Lemma per_thread_exec_ok o s s' : per_thread_ok s -> per_thread_exec o s = Some s' -> per_thread_ok s'.
Proof.
  intros H. destruct o as [t copies|i| |]; cbn [per_thread_exec].
  - destruct (joining s) eqn:Hj; [done|]. intros [= <-]. by apply runTask_ok.
  - intros (th & o & Ei & He & Hb & ->)%thread_run_spec; [|done].
    destruct H as [Hv Hf Ho Hj Hk]. constructor; cbn.
    + intros th' [j Ej]%list_elem_of_lookup_1.
      destruct (decide (i = j)) as [<- | Hne].
      * rewrite list_lookup_insert_eq in Ej by (by eapply lookup_lt_Some). injection Ej as <-. cbn.
        apply Hv. by eapply list_elem_of_lookup_2.
      * rewrite list_lookup_insert_ne in Ej by done. apply Hv. by eapply list_elem_of_lookup_2.
    + rewrite fmap_app, Hf. cbn. by rewrite (lookup_ended _ _ _ Ei He).
    + intros t r [Hin|[= -> ->]%list_elem_of_singleton]%elem_of_app; [by apply Ho|done].
    + intros k j th' Hjk Hlt. destruct (decide (i = j)) as [<- | Hne].
      * rewrite list_lookup_insert_eq by (by eapply lookup_lt_Some). by intros [= <-].
      * rewrite list_lookup_insert_ne by done. by eapply Hj.
    + intros k. rewrite length_insert. apply Hk.
  - destruct (joining s) eqn:Hj; [done|]. intros [= <-]. destruct H as [Hv Hf Ho _ _]. constructor; cbn; try done.
    + intros k j th [= <-] ?. lia.
    + intros k [= <-]. lia.
  - unfold destroy_join. destruct (joining s) as [k|] eqn:Hj; [|done]. cbn.
    destruct (m_threads s !! k) as [th|] eqn:Ek; [|done]. cbn. destruct (ended th) eqn:He; [|done]. intros [= <-].
    destruct H as [Hv Hf Ho Hjn Hb]. constructor; cbn; try done.
    + intros k' j th' [= <-] Hlt Ej. destruct (decide (j = k)) as [-> | ?]; [congruence|]. eapply Hjn; [done| |done]. lia.
    + intros k' [= <-]. apply lookup_lt_Some in Ek. lia.
Qed.

Lemma per_thread_run_ok ops s s' : per_thread_ok s -> per_thread_run ops s = Some s' -> per_thread_ok s'.
Proof.
  revert s. induction ops as [|o ops IH]; intros s H; cbn [per_thread_run]; [by intros [= <-]|].
  destruct (per_thread_exec o s) as [s1|] eqn:E; [|done]. cbn [mbind option_bind]. apply IH. by eapply per_thread_exec_ok.
Qed.

Lemma PerThread_new_ok : per_thread_ok PerThread_new.
Proof. constructor; cbn; try done; set_solver. Qed.

Lemma per_thread_run_app ops ops' s :
  per_thread_run (ops ++ ops') s = s' ← per_thread_run ops s; per_thread_run ops' s'.
Proof.
  revert s. induction ops as [|o ops IH]; intros s; cbn [per_thread_run app]; [done|].
  destruct (per_thread_exec o s); cbn [mbind option_bind]; [apply IH|done].
Qed.

(** Threads never go away, and one that cannot end does not. *)
Lemma per_thread_keeps ops s s' i th :
  per_thread_ok s -> per_thread_run ops s = Some s' -> m_threads s !! i = Some th -> body (given th) = None ->
  ended th = false -> m_threads s' !! i = Some th.
Proof.
  intros H E Ei Hb He. revert s H E Ei. induction ops as [|o ops IH]; intros s H; cbn [per_thread_run]; [by intros [= <-]|].
  destruct (per_thread_exec o s) as [s1|] eqn:E1; [|done]. cbn [mbind option_bind]. intros E Ei.
  apply (IH s1); [by eapply per_thread_exec_ok|done|]. destruct o as [t copies|j| |]; cbn [per_thread_exec] in E1.
  - destruct (joining s); [done|]. injection E1 as <-. unfold daemon_runTask. destruct (makeCopyMove _ _) as [c st].
    destruct (hand_over _ _ _) as [k st']. cbn. rewrite lookup_app_l by (by eapply lookup_lt_Some). done.
  - apply thread_run_spec in E1 as (th' & o & Ej & _ & Hb' & ->); [|done]. cbn. rewrite list_lookup_insert_ne; [done|].
    intros ->. congruence.
  - destruct (joining s); [done|]. by injection E1 as <-.
  - unfold destroy_join in E1. destruct (joining s); [|done]. cbn in E1. destruct (m_threads s !! n); [|done]. cbn in E1.
    destruct (ended t); [|done]. by injection E1 as <-.
Qed.

(** The first [n] threads can end, one after the other. *)
Lemma end_threads n s :
  per_thread_ok s -> (forall th, th ∈ m_threads s -> is_Some (body (given th))) ->
  exists ops s', per_thread_run ops s = Some s' /\ map given (m_threads s') = map given (m_threads s) /\
    joining s' = joining s /\ forall j th, (j < n)%nat -> m_threads s' !! j = Some th -> ended th = true.
Proof.
  intros H Hb. induction n as [|n IH]; [exists [], s; split_and!; (done || lia)|].
  destruct IH as (ops & s1 & E & Eg & Ej & He). pose proof (per_thread_run_ok _ _ _ H E) as H1.
  destruct (m_threads s1 !! n) as [th|] eqn:En; [destruct (ended th) eqn:Et|].
  1, 3: exists ops, s1; split_and!; try done; intros j th' Hlt Hj;
    destruct (decide (j = n)) as [-> | ?]; [congruence|apply (He j); [lia|done]].
  assert (is_Some (body (given th))) as [o Ho].
  { assert (given th ∈ map given (m_threads s)) as Hin.
    { rewrite <- Eg. apply list_elem_of_fmap. exists th. split; [done|]. by eapply list_elem_of_lookup_2. }
    apply list_elem_of_fmap in Hin as (th0 & -> & Hin). by apply Hb. }
  eexists (ops ++ [DThread n]), _. rewrite per_thread_run_app, E. cbn.
  unfold thread_run. rewrite En. cbn [mbind option_bind]. rewrite Et.
  destruct (pt_valid _ H1 th) as [_ ->]; [by eapply list_elem_of_lookup_2|]. rewrite Ho. cbn. split; [reflexivity|]. cbn.
  split_and!; [|done|].
  - rewrite <- Eg. change (given <$> <[n := mkThread (object th) (given th) true]> (m_threads s1) = given <$> m_threads s1).
    rewrite list_fmap_insert. apply list_insert_id. by rewrite list_lookup_fmap, En.
  - intros j th' Hlt. destruct (decide (n = j)) as [<- | ?].
    + rewrite list_lookup_insert_eq by (by eapply lookup_lt_Some). by intros [= <-].
    + rewrite list_lookup_insert_ne by done. apply He. lia.
Qed.

(** Ended threads are joined one after the other. *)
Lemma join_threads d k s :
  joining s = Some k -> (k + d = length (m_threads s))%nat ->
  (forall j th, m_threads s !! j = Some th -> ended th = true) ->
  exists s', per_thread_run (replicate d DJoin) s = Some s' /\ destroyed s' /\ m_threads s' = m_threads s.
Proof.
  revert k s. induction d as [|d IH]; intros k s Hk Hl He; cbn [replicate per_thread_run].
  - exists s. split_and!; try done. unfold destroyed. rewrite Hk. f_equal. lia.
  - destruct (lookup_lt_is_Some_2 (m_threads s) k) as [th Ek]; [lia|].
    cbn [per_thread_exec]. unfold destroy_join. rewrite Hk. cbn [mbind option_bind]. rewrite Ek. cbn [mbind option_bind].
    rewrite (He k th Ek). cbn [mbind option_bind].
    destruct (IH (S k) (mkPerThread (objects s) (m_threads s) (futures s) (Some (S k)))) as (s' & E & D & T); cbn; try done; [lia|].
    by exists s'.
Qed.

Lemma all_ended (ths : list thread) :
  (forall th, th ∈ ths -> ended th = true) -> omap ended_task ths = map given ths.
Proof.
  induction ths as [|th ths IH]; intros He; [done|]. cbn. unfold ended_task at 1.
  rewrite (He th) by left. cbn. f_equal. apply IH. intros th' Hin. apply He. by right.
Qed.
End tasks.

(** ** Properties *)

(** C26. A task that is given to [runTask] is run at most once, in a thread
    of its own, however often the library copies its closure on the way; its
    future then has its own outcome, an exception too.  When the destructor has
    returned, at the exit of the process, every task has been run.  It can
    always return when every task ends; and a task that does not end, a loop
    that nobody quits, keeps it, and the process, for ever. *)
Theorem daemons_run_and_joined body ops s :
  per_thread_run body ops PerThread_new = Some s ->
  (futures s).*1 ≡ₚ omap ended_task (m_threads s) /\
  (forall t o, (t, o) ∈ futures s -> body t = Some o) /\
  (destroyed s -> (futures s).*1 ≡ₚ map given (m_threads s)) /\
  (joining s = None -> (forall th, th ∈ m_threads s -> is_Some (body (given th))) ->
     exists ops' s', per_thread_run body ops' s = Some s' /\ destroyed s' /\
       (futures s').*1 ≡ₚ map given (m_threads s)) /\
  (forall th, th ∈ m_threads s -> body (given th) = None -> forall ops' s',
     per_thread_run body ops' s = Some s' -> ~ destroyed s').
Proof.
  intros E. pose proof (per_thread_run_ok body _ _ _ (PerThread_new_ok body) E) as H.
  assert (forall s', per_thread_ok body s' -> destroyed s' -> forall j th, m_threads s' !! j = Some th -> ended th = true) as Hd.
  { intros s' H' D j th Ej. eapply (pt_joined _ _ H'); [exact D| |exact Ej]. by eapply lookup_lt_Some. }
  assert (forall s', per_thread_ok body s' -> destroyed s' -> (futures s').*1 ≡ₚ map given (m_threads s')) as Hall.
  { intros s' H' D. rewrite (pt_futures _ _ H'), all_ended; [done|]. intros th [j Ej]%list_elem_of_lookup_1.
    by eapply Hd. }
  split_and!; [apply (pt_futures _ _ H)|apply (pt_outcome _ _ H)|by apply Hall| |].
  - intros Hj Hb. destruct (end_threads body (length (m_threads s)) s H Hb) as (ops1 & s1 & E1 & Eg & Ej & He).
    pose proof (per_thread_run_ok body _ _ _ H E1) as H1.
    assert (length (m_threads s1) = length (m_threads s)) as El by (apply (f_equal length) in Eg; by rewrite !length_map in Eg).
    destruct (join_threads body (length (m_threads s)) 0
      (mkPerThread (objects s1) (m_threads s1) (futures s1) (Some 0%nat))) as (s2 & E2 & D & T); cbn; [done|lia| |].
    { intros j th Ejt. eapply He; [|exact Ejt]. rewrite <- El. by eapply lookup_lt_Some. }
    exists (ops1 ++ DDestroy :: replicate (length (m_threads s)) DJoin), s2.
    assert (per_thread_run body (ops1 ++ DDestroy :: replicate (length (m_threads s)) DJoin) s = Some s2) as Er.
    { rewrite per_thread_run_app, E1. cbn [mbind option_bind per_thread_run per_thread_exec]. by rewrite Ej, Hj. }
    split_and!; [done|done|]. cbn [m_threads] in T. rewrite <- Eg, <- T. apply Hall; [|done]. exact (per_thread_run_ok body _ _ _ H Er).
  - intros th [i Ei]%list_elem_of_lookup_1 Hb ops' s' E' D.
    destruct (ended th) eqn:He.
    + assert (given th ∈ (futures s).*1) as Hin.
      { rewrite (pt_futures _ _ H). apply list_elem_of_omap. exists th. split; [by eapply list_elem_of_lookup_2|].
        unfold ended_task. by rewrite He. }
      apply list_elem_of_fmap in Hin as ([t o] & Hg & Hin). apply (pt_outcome _ _ H) in Hin. cbn in Hg. congruence.
    + pose proof (per_thread_keeps body _ _ _ _ _ H E' Ei Hb He) as Ei'.
      pose proof (Hd s' (per_thread_run_ok body _ _ _ H E') D i th Ei'). congruence.
Qed.

(** Two tasks, one of which throws; then one that does not end. *)
Definition two_ends (t : nat) : option outcome :=
  match t with 0%nat => Some Returned | 1%nat => Some Threw | _ => None end.

Lemma daemons_run_and_joined_witness :
  (exists s ops s', per_thread_run two_ends [DRunTask 0 1; DRunTask 1 3; DThread 1] PerThread_new = Some s /\
     futures s = [(1%nat, Threw)] /\ per_thread_run two_ends ops s = Some s' /\ destroyed s') /\
  (exists s, per_thread_run two_ends [DRunTask 2 1] PerThread_new = Some s /\
     forall ops s', per_thread_run two_ends ops s = Some s' -> ~ destroyed s').
Proof.
  split.
  - eexists. destruct (daemons_run_and_joined two_ends [DRunTask 0 1; DRunTask 1 3; DThread 1] _ eq_refl) as (_ & _ & _ & A & _).
    destruct A as (ops & s' & E & D & _).
    + reflexivity.
    + intros th Hin. assert (given th = 0%nat \/ given th = 1%nat) as [Hg|Hg].
      { repeat (apply elem_of_cons in Hin as [Hin|Hin]; [rewrite Hin; auto|]). by apply elem_of_nil in Hin. }
      * rewrite Hg. eexists. reflexivity.
      * rewrite Hg. eexists. reflexivity.
    + exists ops, s'. split; [reflexivity|]. split; [reflexivity|]. exact (conj E D).
  - eexists. destruct (daemons_run_and_joined two_ends [DRunTask 2 1] _ eq_refl) as (_ & _ & _ & _ & B).
    split; [reflexivity|]. refine (B (mkThread 2 2 false) _ eq_refl). left.
Defined.
End PerThread.
