(* ===== verification/ChatCodec.v ===== *)
(** * Framing of the chat example: [examples/chat/context.{h,cc}], [chat_server.cc]

    Messages are sent with their length, eight bytes in network order, in
    front.  The receiving side keeps a [Context] per connection, with a state
    machine that goes on wherever the last bytes ended.

    - The JSON text of a message is a parameter of the sender: any bytes.
    - [on_message] is the callback of the server, [feed] the connection that
      appends what arrives to its read buffer and calls it; what the server does
      with a message is left out, the texts it gets are the result. *)

From Stdlib Require Import Strings.Byte.
From S2P Require Import Prelude Funcs MessageBuffer BufferContract.
Local Open Scope size_scope.

Inductive ParseState := kGetLength | kGetBody | kParseOk.

#[global] Instance ParseState_eq_dec : EqDecision ParseState.
Proof. solve_decision. Defined.

Record Context := mkContext {
  state_ : ParseState;
  length_ : Z;
  text_ : list byte
}.

Definition Context_new : Context := mkContext kGetLength 0 [].

Definition parseOk (c : Context) : bool := bool_decide (state_ c = kParseOk).
Definition expectedLength (c : Context) : Z := length_ c ⊟ zlen (text_ c).
Definition reset (c : Context) : Context := mkContext kGetLength (length_ c) [].
Definition getText (c : Context) : list byte * Context := (text_ c, reset c).

Section codec.
Context (host : endian) `{copy : StdCopy}.
Implicit Types (b : MessageBuffer) (c : Context).

(** The loop of [processCodec]; the states only move forward, so three rounds
    are enough. *)
Fixpoint processCodec_loop (fuel : nat) c b : res (Context * MessageBuffer) :=
  match fuel with
  | O => Fail Diverged
  | S fuel =>
      match state_ c with
      | kGetLength =>
          if readableBytes b <? 8 then Ok (c, b)
          else
            '(v, b) ← readInt64 host b;
            processCodec_loop fuel (mkContext kGetBody (wrap64 v) (text_ c)) b
      | kGetBody =>
          if readableBytes b <? expectedLength c then
            '(t, b) ← readAll b;
            Ok (mkContext kGetBody (length_ c) (text_ c ++ t), b)
          else
            '(t, b) ← read b (expectedLength c);
            processCodec_loop fuel (mkContext kParseOk (length_ c) (text_ c ++ t)) b
      | kParseOk => Ok (c, b)
      end
  end.

Definition processCodec : Context -> MessageBuffer -> res (Context * MessageBuffer) := processCodec_loop 3.

(** [Context::Send]: the bytes handed to the connection. *)
Definition chat_send (jsonMsg : list byte) : res (list byte) :=
  b ← MessageBuffer_new kBufferDefaultLength;
  b ← pushFrontInt64 host b (zlen jsonMsg);
  b ← pushBack b jsonMsg;
  Ok (contents b).

(** The message callback of the server: [goto flag] while bytes are left. *)
Fixpoint on_message_loop (fuel : nat) c b : res (list (list byte) * Context * MessageBuffer) :=
  match fuel with
  | O => Fail Diverged
  | S fuel =>
      '(c, b) ← processCodec c b;
      if parseOk c then
        let (text, c) := getText c in
        if 0 <? readableBytes b then
          '(texts, c, b) ← on_message_loop fuel c b;
          Ok (text :: texts, c, b)
        else Ok ([text], c, b)
      else Ok ([], c, b)
  end.

(** Every round but the last uses up bytes. *)
Definition on_message c b : res (list (list byte) * Context * MessageBuffer) :=
  on_message_loop (S (Z.to_nat (readableBytes b))) c b.

(** The connection: what arrives is appended, then the callback runs. *)
Fixpoint feed (chunks : list (list byte)) c b : res (list (list byte) * Context * MessageBuffer) :=
  match chunks with
  | [] => Ok ([], c, b)
  | d :: chunks =>
      b ← pushBack b d;
      '(texts, c, b) ← on_message c b;
      '(texts', c, b) ← feed chunks c b;
      Ok (texts ++ texts', c, b)
  end.

(** ** Specification *)

Definition frame (m : list byte) : list byte := network_bytes 8 (zlen m) ++ m.

Definition frames (ms : list (list byte)) : list byte := concat (map frame ms).

(** No whole frame at the front. *)
Definition incomplete (r : list byte) : Prop :=
  zlen r < 8 \/ zlen (drop 8 r) < network_value (take 8 r).

(** What has arrived and is not part of a delivered message. *)
Definition residue c b : list byte :=
  match state_ c with
  | kGetLength => contents b
  | _ => network_bytes 8 (length_ c) ++ text_ c ++ contents b
  end.

(** Between two calls of the callback. *)
Definition at_rest c b : Prop :=
  match state_ c with
  | kGetLength => text_ c = [] /\ zlen (contents b) < 8
  | kGetBody => 0 <= zlen (text_ c) < length_ c /\ length_ c < size_max /\ contents b = []
  | kParseOk => False
  end.

(** Where a call may begin. *)
Definition may_start c : Prop :=
  match state_ c with
  | kGetLength => text_ c = []
  | kGetBody => 0 <= zlen (text_ c) < length_ c /\ length_ c < size_max
  | kParseOk => False
  end.

Lemma frames_app ms ms' : frames (ms ++ ms') = frames ms ++ frames ms'.
Proof. unfold frames. by rewrite map_app, concat_app. Qed.

Lemma frames_cons m ms : frames (m :: ms) = frame m ++ frames ms.
Proof. done. Qed.

Lemma network_value_8 (d : list byte) : length d = 8%nat -> 0 <= network_value d < size_max.
Proof.
  intros Hd. unfold network_value. pose proof (of_le_bound (reverse d)) as H. unfold zlen in H.
  rewrite length_reverse, Hd in H. exact H.
Qed.

Lemma network_bytes_value (d : list byte) : length d = 8%nat -> network_bytes 8 (network_value d) = d.
Proof.
  intros Hd. unfold network_bytes, network_value. rewrite <- Hd, <- length_reverse, to_of_le.
  apply reverse_involutive.
Qed.

Lemma take_drop_8 (r : list byte) : 8 <= zlen r -> length (take 8 r) = 8%nat.
Proof. intros. rewrite length_take. unfold zlen in *. lia. Qed.

(** ** The body *)

Lemma body_spec n c b :
  state_ c = kGetBody -> zlen (text_ c) <= length_ c < size_max -> wf b ->
  exists c' b', processCodec_loop (S (S n)) c b = Ok (c', b') /\ wf b' /\ m_buffer b' = m_buffer b /\
    length_ c' = length_ c /\ text_ c' ++ contents b' = text_ c ++ contents b /\
    (state_ c' = kGetBody /\ zlen (text_ c') < length_ c /\ contents b' = [] \/
     state_ c' = kParseOk /\ zlen (text_ c') = length_ c /\ 
       zlen (contents b') = zlen (contents b) - (length_ c - zlen (text_ c))).
Proof.
  intros Hs Hl H. pose proof (zlen_contents b H) as Hz. pose proof (zlen_nonneg (contents b)).
  pose proof (zlen_nonneg (text_ c)).
  assert (expectedLength c = length_ c - zlen (text_ c)) as He by (unfold expectedLength; apply wrap64_small; lia).
  cbn [processCodec_loop]. rewrite Hs, He, <- Hz.
  destruct (Z.ltb_spec (zlen (contents b)) (length_ c - zlen (text_ c))) as [Hlt|Hge].
  - unfold readAll. rewrite <- Hz. destruct (read_spec b (zlen (contents b)) H) as (b' & -> & Hb & Hc & Hm); [lia|].
    rewrite take_ge in * by (unfold zlen; lia). rewrite drop_ge in Hc by (unfold zlen; lia).
    cbn [mbind res_bind]. eexists _, b'. split; [reflexivity|]. cbn. rewrite Hc, app_nil_r.
    split_and!; try done. left. rewrite zlen_app. split_and!; [done|lia|done].
  - destruct (read_spec b (length_ c - zlen (text_ c)) H) as (b' & -> & Hb & Hc & Hm); [lia|].
    cbn [mbind res_bind state_]. eexists _, b'. split; [reflexivity|]. cbn [length_ text_ state_].
    rewrite Hc, <- app_assoc, take_drop. split_and!; try done. right. rewrite zlen_app. unfold zlen in *.
    rewrite length_take, length_drop. split_and!; [done|lia|lia].
Qed.

(** ** One call *)

Lemma frame_full c : zlen (text_ c) = length_ c -> network_bytes 8 (length_ c) ++ text_ c = frame (text_ c).
Proof. unfold frame. by intros ->. Qed.

(** What follows a body: it is still incomplete, or it is a frame. *)
Definition call_result c b c' b' : Prop :=
  at_rest c' b' /\ residue c' b' = residue c b \/
  state_ c' = kParseOk /\ residue c b = frame (text_ c') ++ contents b' /\ zlen (text_ c') < size_max /\
    zlen (contents b') < zlen (contents b).

Lemma processCodec_spec c b :
  may_start c -> wf b ->
  exists c' b', processCodec c b = Ok (c', b') /\ wf b' /\ m_buffer b' = m_buffer b /\ call_result c b c' b'.
Proof.
  intros Hc H. unfold processCodec, may_start in *. destruct (state_ c) eqn:Es; [| |done].
  - pose proof (zlen_contents b H) as Hz. remember 2%nat as two eqn:E2. cbn [processCodec_loop].
    rewrite Es, <- Hz, E2. clear two E2.
    destruct (Z.ltb_spec (zlen (contents b)) 8) as [Hlt|Hge].
    { exists c, b. split_and!; try done. left. split; [|done]. unfold at_rest. by rewrite Es. }
    set (d := take 8 (contents b)). assert (length d = 8%nat) as Hd by (by apply take_drop_8).
    destruct (readInt_spec host W64 b d (drop 8 (contents b)) H) as (b1 & E1 & Hb1 & Hc1);
      [by rewrite <- (take_drop 8 (contents b)) at 1|done|].
    cbn [readInt] in E1. rewrite E1. cbn [mbind res_bind].
    assert (m_buffer b1 = m_buffer b) as Hm1.
    { unfold readInt64 in E1. ok_inv. apply retrieve_wf; [done|lia]. }
    pose proof (network_value_8 d Hd) as Hv. rewrite wrap64_small by done. rewrite Hc.
    destruct (body_spec 0 (mkContext kGetBody (network_value d) []) b1) as (c' & b' & E & Hb' & Hm & El & Et & Hr);
      [done|cbn [text_ length_]; change (zlen []) with 0; lia|done|].
    cbn [text_ length_] in El, Et, Hr. rewrite E. exists c', b'. split_and!; [done|done|congruence|].
    assert (residue c b = network_bytes 8 (length_ c') ++ text_ c' ++ contents b') as Hres.
    { unfold residue. rewrite Es, Et, El, network_bytes_value by done. cbn [app]. rewrite Hc1. unfold d. by rewrite take_drop. }
    assert (zlen (contents b1) = zlen (contents b) - 8) as Hz1 by (rewrite Hc1; unfold zlen in *; rewrite length_drop; lia).
    change (zlen []) with 0 in Hr. destruct Hr as [(Hs & Ht & Hn) | (Hs & Ht & Hn)].
    + left. split; [unfold at_rest; rewrite Hs, El; split_and!; [apply zlen_nonneg|done|lia|done]|].
      rewrite Hres. unfold residue. by rewrite Hs.
    + right. split_and!; [done| |lia|lia]. rewrite Hres, app_assoc, frame_full by congruence. done.
  - destruct Hc as [Ht Hl]. destruct (body_spec 1 c b) as (c' & b' & -> & Hb' & Hm & El & Et & Hr); [done|lia|done|].
    exists c', b'. split_and!; try done.
    assert (residue c b = network_bytes 8 (length_ c') ++ text_ c' ++ contents b') as Hres.
    { unfold residue. by rewrite Es, El, Et. }
    destruct Hr as [(Hs & Ht' & Hn) | (Hs & Ht' & Hn)].
    + left. split; [unfold at_rest; rewrite Hs, El; split_and!; [apply zlen_nonneg|done|lia|done]|].
      rewrite Hres. unfold residue. by rewrite Hs.
    + right. split_and!; [done| |lia|lia]. rewrite Hres, app_assoc, frame_full by congruence. done.
Qed.

(** What a run of the callback, or of many, means. *)
Definition delivers c b (ms : list (list byte)) c' b' : Prop :=
  wf b' /\ m_buffer b' = m_buffer b /\ residue c b = frames ms ++ residue c' b' /\ at_rest c' b' /\
  Forall (fun m => zlen m < size_max) ms.

Lemma on_message_loop_spec fuel c b :
  may_start c -> wf b -> (length (contents b) < fuel)%nat ->
  exists ms c' b', on_message_loop fuel c b = Ok (ms, c', b') /\ delivers c b ms c' b'.
Proof.
  revert c b. induction fuel as [|fuel IH]; intros c b Hc H Hf; [lia|].
  destruct (processCodec_spec c b Hc H) as (c1 & b1 & E1 & Hb1 & Hm1 & Hr).
  cbn [on_message_loop]. rewrite E1. cbn [mbind res_bind].
  destruct Hr as [[Hrest Hres] | (Hs & Hres & Hl & Hlt)].
  - assert (parseOk c1 = false) as -> by (apply bool_decide_eq_false; intros Hs; unfold at_rest in Hrest; by rewrite Hs in Hrest).
    exists [], c1, b1. split; [done|]. by split_and!.
  - assert (parseOk c1 = true) as -> by (by apply bool_decide_eq_true). unfold getText.
    pose proof (zlen_contents b1 Hb1) as Hz. rewrite <- Hz.
    destruct (Z.ltb_spec 0 (zlen (contents b1))) as [Hpos|Hnil].
    + destruct (IH (reset c1) b1) as (ms & c2 & b2 & -> & Hb2 & Hm2 & Hr2 & Ha2 & Hf2); [done|done|unfold zlen in *; lia|].
      cbn [mbind res_bind]. eexists _, c2, b2. split; [reflexivity|]. split_and!; try done; [congruence| |by constructor].
      rewrite frames_cons, Hres, <- app_assoc. f_equal. exact Hr2.
    + eexists _, _, b1. split; [reflexivity|].
      assert (contents b1 = []) as Hnil' by (apply nil_length_inv; unfold zlen in Hnil; lia).
      split_and!; try done; [| |by repeat constructor].
      * rewrite Hres. cbn. by rewrite app_nil_r.
      * cbn. by rewrite Hnil'.
Qed.

Lemma at_rest_starts c b : at_rest c b -> may_start c.
Proof. unfold at_rest, may_start. destruct (state_ c); naive_solver. Qed.

Lemma at_rest_contents c b : at_rest c b -> zlen (contents b) < 8.
Proof. unfold at_rest. destruct (state_ c); [naive_solver| |done]. intros (_ & _ & ->). done. Qed.

(** ** A stream in any chunks *)

Lemma feed_spec M chunks c b :
  at_rest c b -> wf b -> M <= 2 ^ 59 -> zlen (m_buffer b) <= 2 * M + 2080 ->
  Forall (fun d => zlen d <= M) chunks ->
  exists ms c' b', feed chunks c b = Ok (ms, c', b') /\ wf b' /\
    residue c b ++ concat chunks = frames ms ++ residue c' b' /\ at_rest c' b' /\
    Forall (fun m => zlen m < size_max) ms.
Proof.
  intros Hr H HM Hz Hch. revert c b Hr H Hz. induction Hch as [|d chunks Hd Hch IH]; intros c b Hr H Hz.
  { exists [], c, b. split_and!; try done. by rewrite app_nil_r. }
  cbn [feed]. pose proof (zlen_contents b H) as Hzc. pose proof (at_rest_contents c b Hr) as H8.
  pose proof (zlen_nonneg d).
  destruct (pushBack_spec b d H) as (b1 & -> & Hb1 & Hc1 & Hz1).
  { split; [done|]. unfold ptrdiff_max. lia. }
  cbn [mbind res_bind]. unfold on_message. rewrite <- (zlen_contents b1 Hb1).
  destruct (on_message_loop_spec (S (Z.to_nat (zlen (contents b1)))) c b1)
    as (ms & c2 & b2 & -> & Hb2 & Hm2 & Hres & Ha2 & Hf2); [by eapply at_rest_starts|done|unfold zlen; lia|].
  cbn [mbind res_bind]. destruct (IH c2 b2 Ha2 Hb2) as (ms' & c3 & b3 & -> & Hb3 & Hres3 & Ha3 & Hf3).
  { rewrite Hm2. lia. }
  cbn [mbind res_bind]. eexists _, c3, b3. split; [reflexivity|]. split_and!; try done.
  - rewrite frames_app, <- app_assoc, <- Hres3, app_assoc, <- Hres. cbn [concat]. rewrite app_assoc. f_equal.
    unfold residue. rewrite Hc1. destruct (state_ c); rewrite <- ?app_assoc; done.
  - by apply Forall_app.
Qed.

(** ** Framing is unambiguous *)

Lemma frame_cons_inj m m' r r' :
  zlen m < size_max -> zlen m' < size_max -> frame m ++ r = frame m' ++ r' -> m = m' /\ r = r'.
Proof.
  intros Hm Hm' E. unfold frame in E. rewrite <- !app_assoc in E.
  apply app_inj_1 in E as [E1 E2]; [|by rewrite !length_network_bytes].
  assert (zlen m = zlen m') as Hz.
  { rewrite <- (network_value_bytes 8 (zlen m)), <- (network_value_bytes 8 (zlen m')), E1; [done|..];
      (split; [apply zlen_nonneg|done]). }
  apply app_inj_1 in E2; [done|]. unfold zlen in Hz. lia.
Qed.

Lemma residue_incomplete c b : at_rest c b -> incomplete (residue c b).
Proof.
  unfold at_rest, residue, incomplete. destruct (state_ c); [intros [_ ?]; auto| |done].
  intros (Ht & Hl & ->). right. rewrite drop_app_length', take_app_length' by (by rewrite length_network_bytes).
  rewrite network_value_bytes by (split; [lia|done]). rewrite app_nil_r. lia.
Qed.

Lemma frame_complete m r : zlen m < size_max -> ~ incomplete (frame m ++ r).
Proof.
  intros Hm [H|H]; unfold frame in H; rewrite <- app_assoc in H.
  - rewrite zlen_app in H. pose proof (zlen_nonneg (m ++ r)). unfold zlen in H at 1. rewrite length_network_bytes in H. lia.
  - rewrite drop_app_length', take_app_length' in H by (by rewrite length_network_bytes).
    rewrite network_value_bytes in H by (split; [apply zlen_nonneg|done]). rewrite zlen_app in H.
    pose proof (zlen_nonneg r). lia.
Qed.

Lemma frames_inj ms ms' r r' :
  Forall (fun m => zlen m < size_max) ms -> Forall (fun m => zlen m < size_max) ms' ->
  incomplete r -> incomplete r' -> frames ms ++ r = frames ms' ++ r' -> ms = ms' /\ r = r'.
Proof.
  intros Hms. revert ms'. induction Hms as [|m ms Hm Hms IH]; intros ms2 H2 Hr Hr' E; destruct H2 as [|m' ms' Hm' Hms']; rewrite ?frames_cons, <- ?app_assoc in E.
  - done.
  - exfalso. apply (frame_complete m' (frames ms' ++ r') Hm'). by rewrite <- E.
  - exfalso. apply (frame_complete m (frames ms ++ r) Hm). by rewrite E.
  - apply frame_cons_inj in E as [-> E]; [|done|done].
    destruct (IH ms' Hms' Hr Hr' E) as [-> ->]. done.
Qed.

Lemma chat_send_spec m : zlen m < 2 ^ 59 -> chat_send m = Ok (frame m).
Proof.
  intros Hm. pose proof (zlen_nonneg m) as Hn. unfold chat_send.
  destruct (new_wf kBufferDefaultLength) as (b & -> & H & Hc & Hcap & Htail); [by vm_compute|by vm_compute|].
  cbn [mbind res_bind]. pose proof (wf_size b H) as Hsz. rewrite Hcap in Hsz.
  change (pushFrontInt64 host b (zlen m)) with (pushFrontInt host W64 b (zlen m)). rewrite pushFrontInt_bytes.
  assert (zlen (network_bytes 8 (zlen m)) = 8) as H8 by (unfold zlen; by rewrite length_network_bytes).
  assert (readableBytes b = 0) as Hrd by (rewrite <- zlen_contents, Hc by done; done).
  destruct (pushFront_spec b (network_bytes (width_bytes W64) (zlen m)) H) as (b1 & -> & H1 & Hc1 & Hz1).
  { change (width_bytes W64) with 8%nat. rewrite H8. split; [lia|]. rewrite Hsz. by vm_compute. }
  { right. right. change (width_bytes W64) with 8%nat. lia. }
  cbn [mbind res_bind]. destruct (pushBack_spec b1 m H1) as (b2 & -> & H2 & Hc2 & _).
  { split; [done|]. change (width_bytes W64) with 8%nat in Hz1. unfold kBufferDefaultLength, kBufferOffset, ptrdiff_max in *. lia. }
  cbn [mbind res_bind]. rewrite Hc2, Hc1, Hc, app_nil_r. done.
Qed.

End codec.

Lemma mapM_send host `{copy : StdCopy} sent wires :
  Forall (fun m => zlen m < 2 ^ 59) sent -> mapM (chat_send host) sent = Ok wires -> wires = map frame sent.
Proof.
  intros Hs. revert wires. induction Hs as [|m sent Hm Hs IH]; intros wires; cbn [mapM]; [by intros [= <-]|].
  rewrite chat_send_spec by done. intros E. ok_inv. cbn [map]. f_equal. auto.
Qed.

(** ** Properties *)

(** C21. However a stream of bytes is cut into pieces, the server, as the receiver, terminates
    on every piece, and the messages it has delivered are exactly the whole
    frames of what has arrived, in order; what is left is shorter than a frame
    and is kept.  In particular messages sent with [Context::Send] arrive, each
    whole and once, with nothing left over. *)
Theorem chat_framing host `{copy : StdCopy} M (chunks : list (list byte)) :
  0 <= M <= 2 ^ 59 -> Forall (fun d => zlen d <= M) chunks ->
  exists b0 ms c b, MessageBuffer_new kBufferDefaultLength = Ok b0 /\
    feed host chunks Context_new b0 = Ok (ms, c, b) /\
    concat chunks = frames ms ++ residue c b /\ incomplete (residue c b) /\
    forall sent wires, Forall (fun m => zlen m < 2 ^ 59) sent -> mapM (chat_send host) sent = Ok wires ->
      concat chunks = concat wires -> ms = sent /\ residue c b = [].
Proof.
  intros HM Hch. destruct (new_wf kBufferDefaultLength) as (b0 & E0 & H & Hc & Hcap & _); [by vm_compute|by vm_compute|].
  pose proof (wf_size b0 H) as Hsz. rewrite Hcap in Hsz.
  destruct (feed_spec host M chunks Context_new b0) as (ms & c & b & E & Hb & Hres & Ha & Hf); try done.
  { split; [done|]. by rewrite Hc. }
  { lia. }
  { rewrite Hsz. change (kBufferDefaultLength + kBufferOffset) with 2056. lia. }
  exists b0, ms, c, b. change (residue Context_new b0) with (contents b0) in Hres. rewrite Hc in Hres. cbn [app] in Hres.
  split_and!; try done; [by apply residue_incomplete|].
  intros sent wires Hs Hw%mapM_send Hcat; [|done]. subst wires. rewrite Hres in Hcat.
  rewrite <- (app_nil_r (concat (map frame sent))) in Hcat.
  apply (frames_inj ms sent (residue c b) []) in Hcat; try done.
  - eapply Forall_impl; [exact Hs|]. intros m Hm. cbn in Hm. unfold size_max. lia.
  - by apply residue_incomplete.
  - left. done.
Qed.

(** The messages ["hi"] and the empty one, in pieces of 3, 6 and 9 bytes. *)
Definition hi_chunks : list (list byte) :=
  [[x00; x00; x00]; [x00; x00; x00; x00; x02; x68]; [x69; x00; x00; x00; x00; x00; x00; x00; x00]].

Lemma chat_framing_witness :
  exists b0 c b, MessageBuffer_new kBufferDefaultLength = Ok b0 /\
    @feed Little copy_memmove hi_chunks Context_new b0 = Ok ([[x68; x69]; []], c, b) /\ residue c b = [].
Proof.
  destruct (@chat_framing Little copy_memmove 9 hi_chunks) as (b0 & ms & c & b & E0 & E & _ & _ & Hs).
  - split; vm_compute; discriminate.
  - repeat constructor; vm_compute; discriminate.
  - destruct (Hs [[x68; x69]; []] (map frame [[x68; x69]; []])) as [-> Hr].
    + repeat constructor; vm_compute; reflexivity.
    + vm_compute. reflexivity.
    + vm_compute. reflexivity.
    + exists b0, c, b. exact (conj E0 (conj E Hr)).
Defined.
