(* ===== verification/ChatServer.v ===== *)
(** * The chat example: [examples/chat/chat_server.cc], [chat_client.cc], [type.h]

    The server gives every connection an id, keeps a map from ids to
    connections, and passes messages from one to another.

    - The JSON and base64 libraries are the interface [Json]; the laws that
      matter of them are [JsonLaws].
    - Connections live in several loops, so callbacks of different connections
      come in any order, and a request for an unknown receiver is two steps: the
      lookup under the mutex, and the [erase] without it.
    - A [std::weak_ptr] of the map is the connection it was made from, or
      nothing for one that [operator\[\]] made; it locks while the connection
      lives. *)

From Stdlib Require Import Strings.Byte String.
From S2P Require Import Prelude Funcs MessageBuffer BufferContract TimerQueue Timestamp ChatCodec.

(** ** [type.h] *)

Definition kRequestInit : Z := 0.
Definition kRequestAllList : Z := 1.
Definition kRequestChat : Z := 2.
Definition kResponseInit : Z := 3.
Definition kResponseAllList : Z := 4.
Definition kResponseChat : Z := 5.
Definition kBadResponse : Z := 6.

Record CommonData := mkCommon { code : Z; text : list byte }.
Record ChatMsg := mkChat { sender : Z; receiver : Z; chat_text : list byte }.

(** Parsing gives nothing when the library throws; a missing code, sender or
    receiver is -1. *)
Class Json := {
  from_common : list byte -> option CommonData;
  to_common : CommonData -> list byte;
  from_chat : list byte -> option ChatMsg;
  to_chat : ChatMsg -> list byte;
  from_list : list byte -> option (list Z);
  to_list : list Z -> list byte;
  base64_encode : list byte -> list byte;
  base64_decode : list byte -> list byte
}.

Definition is_id (n : Z) : Prop := 0 <= n < 2 ^ 31.

Class JsonLaws `{J : Json} : Prop := {
  common_roundtrip d : 0 <= code d <= kBadResponse -> from_common (to_common d) = Some d;
  chat_roundtrip m : is_id (sender m) -> is_id (receiver m) -> from_chat (to_chat m) = Some m;
  list_roundtrip l : Forall is_id l -> from_list (to_list l) = Some l;
  base64_roundtrip b : base64_decode (base64_encode b) = b
}.

(** ** [chat_server.cc] *)

Record server := mkServer {
  gid_ : Z;
  connMap_ : gmap Z (option nat);
  contexts : gmap nat Z;                   (* the id in the context of a connection *)
  live : gset nat;
  erasing : list (nat * Z);                (* requests between [getConnById] and [erase] *)
  sends : list (nat * CommonData)          (* what was sent, and to whom *)
}.

Definition server_new : server := mkServer 0 ∅ ∅ ∅ [] [].

Section chat.
Context `{J : Json}.
Implicit Types (s : server) (c : nat).

Definition send c (d : CommonData) s : server :=
  mkServer (gid_ s) (connMap_ s) (contexts s) (live s) (erasing s) (sends s ++ [(c, d)]).
Definition set_map m s : server := mkServer (gid_ s) m (contexts s) (live s) (erasing s) (sends s).
Definition set_erasing e s : server := mkServer (gid_ s) (connMap_ s) (contexts s) (live s) e (sends s).

(** The connection callback. *)
Definition on_connected c s : server :=
  let id := gid_ s in
  mkServer (to_int32 (gid_ s + 1)) (<[id := Some c]> (connMap_ s)) (<[c := id]> (contexts s)) ({[c]} ∪ live s)
    (erasing s) (sends s).
Definition on_disconnected c s : server :=
  let m := match contexts s !! c with Some id => delete id (connMap_ s) | None => connMap_ s end in
  mkServer (gid_ s) m (contexts s) (live s ∖ {[c]}) (erasing s) (sends s).

(** [weak_ptr::lock] *)
Definition lock (w : option nat) s : option nat :=
  match w with Some c => if decide (c ∈ live s) then Some c else None | None => None end.

(** [getConnById]: [operator\[\]] makes an entry where there is none. *)
Definition getConnById (id : Z) s : option nat * server :=
  match connMap_ s !! id with
  | Some w => (lock w s, s)
  | None => (None, set_map (<[id := None]> (connMap_ s)) s)
  end.

(** The ids in the map, but one's own. *)
Definition other_ids (id : Z) s : list Z := filter (fun k => k <> id) (map fst (map_to_list (connMap_ s))).

(** [onRequest], up to the [erase]; an exception ends it. *)
Definition onRequest c (msg : list byte) s : server :=
  match from_common msg, contexts s !! c with
  | Some data, Some id =>
      if code data =? -1 then s
      else if code data =? kRequestInit then send c (mkCommon kResponseInit (to_string id)) s
      else if code data =? kRequestChat then
        match from_chat (base64_decode (text data)) with
        | None => s
        | Some requestChat =>
            if (sender requestChat =? -1) || (receiver requestChat =? -1) then s
            else
              let '(r, s) := getConnById (receiver requestChat) s in
              match r with
              | Some r => send r (mkCommon kResponseChat (base64_encode (to_chat requestChat))) s
              | None => set_erasing (erasing s ++ [(c, receiver requestChat)]) s
              end
        end
      else if code data =? kRequestAllList then
        send c (mkCommon kResponseAllList (base64_encode (to_list (other_ids id s)))) s
      else s
  | _, _ => s
  end.

(** The rest of a request for a receiver that was not found; requests of
    different loops finish in any order. *)
Definition no_receiver : CommonData := mkCommon kBadResponse (list_byte_of_string "receiver is not exist").
Definition finish_erase (i : nat) s : server :=
  match erasing s !! i with
  | None => s
  | Some (c, id) => send c no_receiver (set_erasing (delete i (erasing s)) (set_map (delete id (connMap_ s)) s))
  end.

(** ** Runs *)

Inductive op := Connect c | Disconnect c | Request c (msg : list byte) | Erase (i : nat).

Definition exec (o : op) s : server :=
  match o with
  | Connect c => on_connected c s
  | Disconnect c => on_disconnected c s
  | Request c msg => onRequest c msg s
  | Erase i => finish_erase i s
  end.

Definition enabled (o : op) s : Prop :=
  match o with
  | Connect c => contexts s !! c = None /\ gid_ s < 2 ^ 31 - 1
  | Disconnect c | Request c _ => c ∈ live s
  | Erase _ => True
  end.

(** The receiver that a request names. *)
Definition asks_for (msg : list byte) : option Z :=
  d ← from_common msg;
  if code d =? kRequestChat then receiver <$> from_chat (base64_decode (text d)) else None.

(** Clients name ids that the server has given out. *)
Definition known_receiver (o : op) s : Prop :=
  match o with Request _ msg => forall id, asks_for msg = Some id -> id < gid_ s | _ => True end.

Inductive runs (P : op -> server -> Prop) : list op -> server -> Prop :=
  | runs_nil : runs P [] server_new
  | runs_snoc ops o s : runs P ops s -> enabled o s -> P o s -> runs P (ops ++ [o]) (exec o s).

(** ** Invariant *)

Record registered s : Prop := {
  rg_gid : 0 <= gid_ s < 2 ^ 31;
  rg_context c id : contexts s !! c = Some id -> 0 <= id < gid_ s;
  rg_unique c c' id : contexts s !! c = Some id -> contexts s !! c' = Some id -> c = c';
  rg_live c : c ∈ live s -> exists id, contexts s !! c = Some id /\ connMap_ s !! id = Some (Some c);
  rg_entry id c : connMap_ s !! id = Some (Some c) -> c ∈ live s /\ contexts s !! c = Some id;
  rg_phantom id : connMap_ s !! id = Some None -> exists c, (c, id) ∈ erasing s;
  rg_erasing c id : (c, id) ∈ erasing s -> id < gid_ s /\ forall c', c' ∈ live s -> contexts s !! c' <> Some id
}.

Lemma new_registered : registered server_new.
Proof. constructor; cbn; [lia|..]; intros *; rewrite ?lookup_empty; first [done|set_solver]. Qed.

Lemma send_registered c d s : registered s -> registered (send c d s).
Proof. intros []. by constructor. Qed.

Lemma connect_registered c s : enabled (Connect c) s -> registered s -> registered (on_connected c s).
Proof.
  intros [Hc Hg] [G C U L E F D]. assert (to_int32 (gid_ s + 1) = gid_ s + 1) as Eg.
  { unfold to_int32. rewrite Z.mod_small by lia. by rewrite (proj2 (Z.ltb_lt _ _)) by lia. }
  assert (~ c ∈ live s) as Hnl by (intros Hl; destruct (L c Hl) as (id & ? & _); congruence).
  assert (forall id, connMap_ s !! id = Some (Some c) -> False) as Hne by (intros id Hid; by apply E in Hid as [? _]).
  constructor; cbn [on_connected gid_ connMap_ contexts live erasing]; rewrite ?Eg.
  - lia.
  - intros c' id. destruct (decide (c' = c)) as [->|Hd].
    + rewrite lookup_insert_eq. intros [= <-]. lia.
    + rewrite lookup_insert_ne by done. intros H. apply C in H. lia.
  - intros c1 c2 id. destruct (decide (c1 = c)) as [->|H1], (decide (c2 = c)) as [->|H2];
      rewrite ?lookup_insert_eq, ?lookup_insert_ne by done; [done|intros [= <-] H; apply C in H; lia|
      intros H [= <-]; apply C in H; lia|by apply U].
  - intros c' [->%elem_of_singleton|Hl]%elem_of_union.
    + exists (gid_ s). by rewrite !lookup_insert_eq.
    + destruct (L c' Hl) as (id & H1 & H2). exists id. pose proof (C _ _ H1).
      rewrite lookup_insert_ne by (intros ->; done). rewrite lookup_insert_ne by lia. done.
  - intros id c'. destruct (decide (id = gid_ s)) as [->|Hd].
    + rewrite lookup_insert_eq. intros [= <-]. rewrite lookup_insert_eq. split; [set_solver|done].
    + rewrite lookup_insert_ne by done. intros H. destruct (E _ _ H) as [H1 H2].
      rewrite lookup_insert_ne by (intros ->; done). split; [set_solver|done].
  - intros id. destruct (decide (id = gid_ s)) as [->|Hd]; [by rewrite lookup_insert_eq|].
    rewrite lookup_insert_ne by done. apply F.
  - intros c' id H. destruct (D _ _ H) as [H1 H2]. split; [lia|]. intros c2 [->%elem_of_singleton|Hl]%elem_of_union.
    + rewrite lookup_insert_eq. intros [= E']. lia.
    + rewrite lookup_insert_ne by (intros ->; done). by apply H2.
Qed.

Lemma disconnect_registered c s : c ∈ live s -> registered s -> registered (on_disconnected c s).
Proof.
  intros Hl [G C U L E F D]. destruct (L c Hl) as (id & Hid & Hm).
  constructor; cbn [on_disconnected gid_ connMap_ contexts live erasing]; rewrite ?Hid; try done.
  - intros c' [Hl' Hne]%elem_of_difference. destruct (L c' Hl') as (id' & H1 & H2). exists id'. split; [done|].
    rewrite lookup_delete_ne; [done|]. intros ->. apply Hne, elem_of_singleton. by eapply U.
  - intros id' c' [Hne H]%lookup_delete_Some. destruct (E _ _ H) as [H1 H2]. split; [|done].
    apply elem_of_difference. split; [done|]. intros ->%elem_of_singleton. congruence.
  - intros id' [_ H]%lookup_delete_Some. by apply F.
  - intros c' id' H. destruct (D _ _ H) as [H1 H2]. split; [done|]. intros c2 [H3 _]%elem_of_difference. by apply H2.
Qed.

(** An entry that is not there belongs to no live connection. *)
Lemma absent_dead s id : registered s -> (forall c, connMap_ s !! id <> Some (Some c)) ->
  forall c, c ∈ live s -> contexts s !! c <> Some id.
Proof. intros H Hn c Hl E. destruct (rg_live _ H c Hl) as (id' & H1 & H2). apply (Hn c). congruence. Qed.

Lemma lookup_failed s id w : registered s -> connMap_ s !! id = Some w -> lock w s = None -> w = None.
Proof.
  intros H E. destruct w as [c|]; [|done]. destruct (rg_entry _ H _ _ E) as [Hl _]. cbn. by rewrite decide_True.
Qed.

Lemma request_erasing s c id :
  registered s -> id < gid_ s -> (forall c', connMap_ s !! id <> Some (Some c')) ->
  registered (set_erasing (erasing s ++ [(c, id)]) (set_map (<[id := None]> (connMap_ s)) s)).
Proof.
  intros H Hid Hn. pose proof (absent_dead s id H Hn) as Hd. destruct H as [G C U L E F D].
  constructor; cbn [set_erasing set_map gid_ connMap_ contexts live erasing]; try done.
  - intros c' Hl. destruct (L c' Hl) as (id' & H1 & H2). exists id'. split; [done|].
    rewrite lookup_insert_ne; [done|]. intros ->. by apply (Hd c').
  - intros id' c'. destruct (decide (id' = id)) as [->|]; [by rewrite lookup_insert_eq|].
    rewrite lookup_insert_ne by done. apply E.
  - intros id'. destruct (decide (id' = id)) as [->|].
    + intros _. exists c. apply elem_of_app. right. by apply list_elem_of_singleton.
    + rewrite lookup_insert_ne by done. intros H. destruct (F _ H) as [c' H']. exists c'. apply elem_of_app. by left.
  - intros c' id' [H|H]%elem_of_app; [by apply (D c')|]. apply list_elem_of_singleton in H as [= -> ->]. done.
Qed.

Lemma request_registered c msg s :
  known_receiver (Request c msg) s -> registered s -> registered (onRequest c msg s).
Proof.
  intros Hk H. unfold onRequest. cbn [known_receiver] in Hk. unfold asks_for in Hk.
  destruct (from_common msg) as [d|]; [|done]. destruct (contexts s !! c) as [id|]; [|done].
  destruct (code d =? -1); [done|]. destruct (code d =? kRequestInit); [by apply send_registered|].
  cbn [mbind option_bind] in Hk.
  destruct (code d =? kRequestChat); [|destruct (code d =? kRequestAllList); [by apply send_registered|done]].
  destruct (from_chat _) as [m|]; [|done]. specialize (Hk (receiver m) eq_refl).
  destruct (_ || _); [done|]. unfold getConnById. destruct (connMap_ s !! receiver m) as [w|] eqn:Em.
  - destruct (lock w s) as [r|] eqn:El; [by apply send_registered|].
    pose proof (lookup_failed _ _ _ H Em El) as ->.
    replace (set_erasing _ s) with (set_erasing (erasing s ++ [(c, receiver m)]) (set_map (<[receiver m := None]> (connMap_ s)) s)).
    + apply request_erasing; [done|done|]. intros c'. congruence.
    + unfold set_erasing, set_map. cbn. by rewrite insert_id.
  - apply (request_erasing s c); [done|done|]. intros c'. congruence.
Qed.

Lemma erase_registered i s : registered s -> registered (finish_erase i s).
Proof.
  intros H. unfold finish_erase. destruct (erasing s !! i) as [[c id]|] eqn:Ee; [|done]. apply send_registered.
  pose proof (delete_Permutation _ _ _ Ee) as Hp.
  destruct H as [G C U L E F D]. destruct (D c id) as [Hid Hd]; [by eapply list_elem_of_lookup_2|].
  constructor; cbn [set_erasing set_map gid_ connMap_ contexts live erasing]; try done.
  - intros c' Hl. destruct (L c' Hl) as (id' & H1 & H2). exists id'. split; [done|].
    rewrite lookup_delete_ne; [done|]. intros ->. by apply (Hd c').
  - intros id' c' [_ H]%lookup_delete_Some. by apply E.
  - intros id' [Hne H]%lookup_delete_Some. destruct (F _ H) as [c' H']. exists c'. rewrite Hp in H'.
    apply elem_of_cons in H' as [[= -> ->]|H']; done.
  - intros c' id' H. apply (D c'). rewrite Hp. by right.
Qed.

Lemma runs_registered ops s : runs known_receiver ops s -> registered s.
Proof.
  induction 1 as [|ops o s Hr IH He Hk]; [apply new_registered|]. destruct o as [c|c|c msg|i]; cbn [exec].
  - by apply connect_registered.
  - by apply disconnect_registered.
  - by apply request_registered.
  - by apply erase_registered.
Qed.
End chat.

(** ** [chat_client.cc] *)

(** [std::stoi] on text without white space: the number and how many
    characters it took; nothing where it throws. *)
Fixpoint stoi_digits (acc : Z) (n : nat) (t : list byte) : Z * nat :=
  match t with
  | b :: t' =>
      let v := Z_of_byte b in
      if (48 <=? v) && (v <=? 57) then stoi_digits (10 * acc + (v - 48)) (S n) t' else (acc, n)
  | [] => (acc, n)
  end.
Definition stoi (t : list byte) : option (Z * nat) :=
  let '(neg, t') := match t with x2d :: t' => (true, t') | x2b :: t' => (false, t') | _ => (false, t) end in
  let '(v, n) := stoi_digits 0 0 t' in
  let v := if neg : bool then - v else v in
  if (n =? 0)%nat || negb ((- 2 ^ 31 <=? v) && (v <? 2 ^ 31)) then None
  else Some (v, (n + (length t - length t'))%nat).

(** What the client does with a response. *)
Inductive reaction :=
  | RequestAgain (d : CommonData)          (* sends a request *)
  | Received (m : ChatMsg)                 (* shows a message *)
  | ChooseFrom (ids : list Z)              (* asks the user, in the task queue *)
  | AskLater                               (* asks for the list in a second, in the task queue *)
  | ShowBad (t : list byte).

Definition init_request : CommonData := mkCommon kRequestInit (list_byte_of_string "init request").
Definition list_request : CommonData := mkCommon kRequestAllList (list_byte_of_string "request all list").

Section client.
Context `{J : Json}.

(** [onResponse]; the first component is [id_]. *)
Definition onResponse (msg : list byte) (id : Z) : Z * list reaction :=
  match from_common msg with
  | None => (id, [])
  | Some data =>
      if code data =? -1 then (id, [])
      else if code data =? kResponseInit then
        match stoi (text data) with
        | None => (id, [])
        | Some (v, idx) =>
            if (idx =? length (text data))%nat then (v, [RequestAgain list_request])
            else (v, [RequestAgain init_request])
        end
      else if code data =? kResponseChat then
        match from_chat (base64_decode (text data)) with
        | None => (id, [])
        | Some m => (id, if sender m =? -1 then [] else [Received m])
        end
      else if code data =? kResponseAllList then
        match from_list (base64_decode (text data)) with
        | None => (id, [])
        | Some ids => (id, if bool_decide (ids = []) then [AskLater] else [ChooseFrom ids])
        end
      else if code data =? kBadResponse then (id, [ShowBad (text data)])
      else (id, [])
  end.

(** The request that [chatByIdAsync] sends for the chosen id and text. *)
Definition chat_request (id x : Z) (t : list byte) : CommonData :=
  mkCommon kRequestChat (base64_encode (to_chat (mkChat id x t))).
End client.

(** The message callback of the client: one message per call. *)
Definition client_on_message host `{copy : StdCopy} (c : Context) (b : MessageBuffer)
    : res (list (list byte) * Context * MessageBuffer) :=
  '(c, b) ← processCodec host c b;
  if parseOk c then let (t, c) := getText c in Ok ([t], c, b) else Ok ([], c, b).

(** ** Between the programs *)

(** The connection of the client: what arrives is appended, then the callback
    runs. *)
Fixpoint client_feed host `{copy : StdCopy} (chunks : list (list byte)) (c : Context) (b : MessageBuffer)
    : res (list (list byte) * Context * MessageBuffer) :=
  match chunks with
  | [] => Ok ([], c, b)
  | d :: chunks =>
      b ← pushBack b d;
      '(texts, c, b) ← client_on_message host c b;
      '(texts', c, b) ← client_feed host chunks c b;
      Ok (texts ++ texts', c, b)
  end.

(** Bytes arrive at the server from a connection: every text they complete is
    a request. *)
Definition server_receives host `{copy : StdCopy} `{J : Json} (c : nat) (chunks : list (list byte)) (cx : Context)
    (b : MessageBuffer) (s : server) : res (server * Context * MessageBuffer) :=
  '(texts, cx, b) ← feed host chunks cx b;
  Ok (foldl (fun s t => onRequest c t s) s texts, cx, b).

(** Bytes arrive at a client: every text it takes out is a response. *)
Definition client_reacts `{J : Json} (texts : list (list byte)) (id : Z) : Z * list reaction :=
  foldl (fun '(id, rs) t => let '(id, rs') := onResponse t id in (id, rs ++ rs')) (id, []) texts.
Definition client_receives host `{copy : StdCopy} `{J : Json} (chunks : list (list byte)) (cx : Context)
    (b : MessageBuffer) (id : Z) : res (Z * list reaction * Context * MessageBuffer) :=
  '(texts, cx, b) ← client_feed host chunks cx b;
  Ok (client_reacts texts id, cx, b).

(** All that arrived earlier has been taken out, and the buffer has not
    reached the limits of its indices. *)
Definition idle (cx : Context) (b : MessageBuffer) : Prop :=
  wf b /\ at_rest cx b /\ residue cx b = [] /\ zlen (m_buffer b) <= 2 ^ 60.

Definition short `{J : Json} (d : CommonData) : Prop := zlen (to_common d) < 2 ^ 58.

(** A request of connection [c] makes the server send one response, to [r],
    which makes the client of [r] do [reply]: [Context::Send] frames both, the
    network cuts the bytes of each as it likes, and neither receiver has bytes
    of others left. *)
Definition exchange host `{copy : StdCopy} `{J : Json} (s : server) (c : nat) (req : CommonData) (r : nat) (d : CommonData)
    (reply : Z -> Z * list reaction) : Prop :=
  exists wire, chat_send host (to_common req) = Ok wire /\
  (forall chunks cx b, concat chunks = wire -> idle cx b ->
     exists s' cx' b', server_receives host c chunks cx b s = Ok (s', cx', b') /\ residue cx' b' = [] /\
       sends s' = sends s ++ [(r, d)]) /\
  (short d -> exists wire', chat_send host (to_common d) = Ok wire' /\
     forall chunks cx b id, concat chunks = wire' -> idle cx b ->
       exists cx' b', client_receives host chunks cx b id = Ok (reply id, cx', b') /\ residue cx' b' = []).

(** ** Numbers as text *)

Lemma byte_digits u acc n :
  stoi_digits (Z.pos acc) n (uint_bytes u) = (Z.pos (Pos.of_uint_acc u acc), (n + length (uint_bytes u))%nat).
Proof.
  revert acc n. induction u as [|u IH|u IH|u IH|u IH|u IH|u IH|u IH|u IH|u IH|u IH]; intros acc n;
    cbn [uint_bytes length]; [cbn; by rewrite Nat.add_0_r|..];
    cbn [stoi_digits]; match goal with |- context [Z_of_byte ?b] =>
      let v := eval vm_compute in (Z_of_byte b) in change (Z_of_byte b) with v end; cbn [Z.leb Z.compare andb Pos.compare Pos.compare_cont];
    cbn [Pos.of_uint_acc];
    match goal with |- stoi_digits ?z _ _ = (Z.pos (Pos.of_uint_acc _ ?p), _) => replace z with (Z.pos p) by lia end;
    rewrite IH; f_equal; lia.
Qed.

Lemma all_digits u n :
  stoi_digits 0 n (uint_bytes u) = (Z.of_N (Pos.of_uint u), (n + length (uint_bytes u))%nat).
Proof.
  revert n. induction u as [|u IH|u IH|u IH|u IH|u IH|u IH|u IH|u IH|u IH|u IH]; intros n;
    cbn [uint_bytes length]; [cbn; by rewrite Nat.add_0_r|..];
    cbn [stoi_digits]; match goal with |- context [Z_of_byte ?b] =>
      let v := eval vm_compute in (Z_of_byte b) in change (Z_of_byte b) with v end; cbn [Z.leb Z.compare andb Pos.compare Pos.compare_cont];
    cbn [Pos.of_uint Z.of_N].
  1: match goal with |- stoi_digits ?z _ _ = _ => change z with 0 end; rewrite IH; f_equal; lia.
  all: match goal with |- stoi_digits ?z _ _ = (Z.pos (Pos.of_uint_acc _ ?p), _) => change z with (Z.pos p) end;
    rewrite byte_digits; f_equal; lia.
Qed.

Lemma magnitude_shape z : exists b t, magnitude z = b :: t /\ b <> x2d /\ b <> x2b.
Proof.
  unfold magnitude. destruct (N.to_uint (Z.to_N (Z.abs z))) eqn:E; cbn; try (eexists _, _; split; [done|split; done]).
  exfalso. destruct (Z.to_N (Z.abs z)) as [|p]; [done|]. by apply (DecimalPos.Unsigned.to_uint_nonnil p).
Qed.

Lemma stoi_to_string id : is_id id -> stoi (to_string id) = Some (id, length (to_string id)).
Proof.
  intros Hid. unfold is_id in Hid. unfold to_string, sign. rewrite (proj2 (Z.ltb_ge _ _)) by lia. cbn [app].
  destruct (magnitude_shape id) as (b & t & E & H1 & H2). unfold stoi.
  assert (match magnitude id with x2d :: t' => (true, t') | x2b :: t' => (false, t') | _ => (false, magnitude id) end
    = (false, magnitude id)) as -> by (rewrite E; by destruct b).
  unfold magnitude. rewrite all_digits. cbn [plus].
  assert (Z.of_N (Pos.of_uint (N.to_uint (Z.to_N (Z.abs id)))) = id) as ->.
  { change (Pos.of_uint ?u) with (N.of_uint u). rewrite DecimalN.Unsigned.of_to. lia. }
  fold (magnitude id). rewrite E. cbn [length Nat.eqb orb].
  rewrite (proj2 (Z.leb_le _ _)), (proj2 (Z.ltb_lt _ _)) by lia. cbn [negb andb]. f_equal. f_equal. lia.
Qed.

(** ** Requests in a good state *)

Section dispatch.
Context `{J : Json} {L : JsonLaws}.
Implicit Types (s : server) (c : nat).

Lemma init_reply c id s t :
  contexts s !! c = Some id ->
  onRequest c (to_common (mkCommon kRequestInit t)) s = send c (mkCommon kResponseInit (to_string id)) s.
Proof. intros E. unfold onRequest. rewrite common_roundtrip by (cbn; unfold kRequestInit, kBadResponse; lia). by rewrite E. Qed.

Lemma list_reply c id s t :
  contexts s !! c = Some id ->
  onRequest c (to_common (mkCommon kRequestAllList t)) s =
    send c (mkCommon kResponseAllList (base64_encode (to_list (other_ids id s)))) s.
Proof. intros E. unfold onRequest. rewrite common_roundtrip by (cbn; unfold kRequestAllList, kBadResponse; lia). by rewrite E. Qed.

Lemma chat_reply c id s m :
  contexts s !! c = Some id -> is_id (sender m) -> is_id (receiver m) ->
  onRequest c (to_common (mkCommon kRequestChat (base64_encode (to_chat m)))) s =
    let '(r, s) := getConnById (receiver m) s in
    match r with
    | Some r => send r (mkCommon kResponseChat (base64_encode (to_chat m))) s
    | None => set_erasing (erasing s ++ [(c, receiver m)]) s
    end.
Proof.
  intros E Hs Hr. unfold onRequest. rewrite common_roundtrip by (cbn; unfold kRequestChat, kBadResponse; lia). rewrite E.
  cbn [code text]. change (kRequestChat =? -1) with false. change (kRequestChat =? kRequestInit) with false.
  change (kRequestChat =? kRequestChat) with true. cbv iota. rewrite base64_roundtrip, chat_roundtrip by done.
  unfold is_id in *. rewrite (proj2 (Z.eqb_neq (sender m) (-1))), (proj2 (Z.eqb_neq (receiver m) (-1))) by lia. done.
Qed.

Lemma found_live s r id : registered s -> r ∈ live s -> contexts s !! r = Some id -> getConnById id s = (Some r, s).
Proof.
  intros H Hl E. destruct (rg_live _ H r Hl) as (id' & E' & Em). simplify_eq. unfold getConnById. rewrite Em.
  cbn. by rewrite decide_True.
Qed.

Lemma other_ids_spec s id k :
  registered s -> erasing s = [] ->
  k ∈ other_ids id s <-> k <> id /\ exists c, c ∈ live s /\ contexts s !! c = Some k.
Proof.
  intros H He. unfold other_ids. rewrite list_elem_of_filter. split.
  - intros [Hk Hin]. split; [done|]. apply list_elem_of_fmap in Hin as ([k' w] & -> & Hin%elem_of_map_to_list). cbn in *.
    destruct w as [c|]; [exists c; by apply (rg_entry _ H)|]. destruct (rg_phantom _ H _ Hin) as [c Hc]. rewrite He in Hc. by apply not_elem_of_nil in Hc.
  - intros (Hk & c & Hl & Hc). split; [done|]. destruct (rg_live _ H c Hl) as (id' & E' & Em). simplify_eq.
    apply list_elem_of_fmap. exists (k, Some c). split; [done|]. by apply elem_of_map_to_list.
Qed.

Lemma other_ids_range s id : registered s -> erasing s = [] -> Forall is_id (other_ids id s).
Proof.
  intros H He. apply Forall_forall. intros k Hk. apply (other_ids_spec s id k H He) in Hk as (_ & c & _ & Hc).
  pose proof (rg_context _ H _ _ Hc). pose proof (rg_gid _ H). unfold is_id. lia.
Qed.
(** *** What the client does with the responses *)

Lemma init_response id cid :
  is_id id -> onResponse (to_common (mkCommon kResponseInit (to_string id))) cid = (id, [RequestAgain list_request]).
Proof.
  intros Hid. unfold onResponse. rewrite common_roundtrip by (cbn; unfold kResponseInit, kBadResponse; lia). cbn [code text].
  change (kResponseInit =? -1) with false. change (kResponseInit =? kResponseInit) with true. cbv iota.
  rewrite stoi_to_string by done. by rewrite Nat.eqb_refl.
Qed.

Lemma chat_response m cid :
  is_id (sender m) -> is_id (receiver m) ->
  onResponse (to_common (mkCommon kResponseChat (base64_encode (to_chat m)))) cid = (cid, [Received m]).
Proof.
  intros Hs Hr. unfold onResponse. rewrite common_roundtrip by (cbn; unfold kResponseChat, kBadResponse; lia). cbn [code text].
  change (kResponseChat =? -1) with false. change (kResponseChat =? kResponseInit) with false.
  change (kResponseChat =? kResponseChat) with true. cbv iota. rewrite base64_roundtrip, chat_roundtrip by done.
  unfold is_id in Hs. by rewrite (proj2 (Z.eqb_neq _ _)) by lia.
Qed.

Lemma list_response ids cid :
  Forall is_id ids ->
  onResponse (to_common (mkCommon kResponseAllList (base64_encode (to_list ids)))) cid =
    (cid, if bool_decide (ids = []) then [AskLater] else [ChooseFrom ids]).
Proof.
  intros Hi. unfold onResponse. rewrite common_roundtrip by (cbn; unfold kResponseAllList, kBadResponse; lia). cbn [code text].
  change (kResponseAllList =? -1) with false. change (kResponseAllList =? kResponseInit) with false.
  change (kResponseAllList =? kResponseChat) with false. change (kResponseAllList =? kResponseAllList) with true. cbv iota.
  by rewrite base64_roundtrip, list_roundtrip by done.
Qed.
End dispatch.

(** ** One message on its own *)

Section transport.
Context (host : endian) `{copy : StdCopy}.
Implicit Types (b : MessageBuffer) (c : Context).

Lemma residue_pushed c b b' d : contents b' = contents b ++ d -> residue c b' = residue c b ++ d.
Proof. intros E. unfold residue. rewrite E. destruct (state_ c); by rewrite <- ?app_assoc. Qed.

Lemma frame_nonempty m r : frame m ++ r <> [].
Proof. intros E. apply (f_equal length) in E. rewrite length_app in E. unfold frame in E. rewrite length_app, length_network_bytes in E. cbn in E. lia. Qed.

Lemma chunk_short (chunks : list (list byte)) n : zlen (concat chunks) <= n -> Forall (fun d => zlen d <= n) chunks.
Proof.
  induction chunks as [|d chunks IH]; [constructor|]. cbn [concat]. rewrite zlen_app. intros H.
  pose proof (zlen_nonneg d). pose proof (zlen_nonneg (concat chunks)). constructor; [lia|apply IH; lia].
Qed.

(** A client that gets one frame, or the rest of one, in any pieces, takes out
    its text once. *)
Lemma client_feed_spec chunks ts c b :
  at_rest c b -> wf b -> zlen (m_buffer b) <= 2 ^ 60 + 2080 -> Forall (fun d => zlen d <= 2 ^ 59) chunks ->
  (length ts <= 1)%nat -> Forall (fun m => zlen m < size_max) ts -> residue c b ++ concat chunks = frames ts ->
  exists c' b', client_feed host chunks c b = Ok (ts, c', b') /\ residue c' b' = [].
Proof.
  intros Hr H Hz Hch. revert ts c b Hr H Hz. induction Hch as [|d chunks Hd Hch IH]; intros ts c b Hr H Hz Hl Hs E.
  { cbn [concat] in E. rewrite app_nil_r in E. exists c, b. pose proof (residue_incomplete _ _ Hr) as Hi.
    destruct ts as [|m ts]; [done|]. exfalso. apply (frame_complete m (frames ts)); [by inversion Hs|]. by rewrite <- frames_cons, <- E. }
  cbn [client_feed]. pose proof (zlen_contents b H) as Hzc. pose proof (at_rest_contents c b Hr) as H8. pose proof (zlen_nonneg d).
  destruct (pushBack_spec b d H) as (b1 & -> & Hb1 & Hc1 & Hz1); [split; [done|]; unfold ptrdiff_max; lia|].
  cbn [mbind res_bind]. unfold client_on_message.
  destruct (processCodec_spec host c b1 (at_rest_starts _ _ Hr) Hb1) as (c2 & b2 & -> & Hb2 & Hm2 & Hres). cbn [mbind res_bind].
  cbn [concat] in E. rewrite app_assoc, <- (residue_pushed _ _ _ _ Hc1) in E.
  destruct Hres as [[Ha Er]|(Hst & Er & Ht & _)].
  - assert (parseOk c2 = false) as -> by (apply bool_decide_eq_false; intros Hst; unfold at_rest in Ha; by rewrite Hst in Ha).
    cbn [mbind res_bind]. rewrite <- Er in E. destruct (IH ts c2 b2) as (c3 & b3 & -> & Hn); [done|done|rewrite Hm2; lia|done|done|done|].
    by exists c3, b3.
  - assert (parseOk c2 = true) as -> by (by apply bool_decide_eq_true). cbn [getText mbind res_bind].
    rewrite Er, <- app_assoc in E. destruct ts as [|m ts]; [by apply frame_nonempty in E|].
    destruct ts; [|cbn in Hl; lia]. rewrite frames_cons in E. apply frame_cons_inj in E as [-> [En Ec]%app_nil]; [|done|by inversion Hs].
    destruct (IH [] (reset c2) b2) as (c3 & b3 & -> & Hn); try done; [|rewrite Hm2; lia|cbn; lia|cbn; by rewrite En, Ec|by exists c3, b3].
    split; [done|]. by rewrite En.
Qed.

Lemma wire_short chunks m : zlen m < 2 ^ 58 -> concat chunks = frame m -> Forall (fun d => zlen d <= 2 ^ 59) chunks.
Proof.
  intros Hm E. apply chunk_short. rewrite E. unfold frame. rewrite zlen_app. unfold zlen at 1. rewrite length_network_bytes. lia.
Qed.

Lemma client_gets chunks m c b :
  zlen m < 2 ^ 58 -> concat chunks = frame m -> idle c b ->
  exists c' b', client_feed host chunks c b = Ok ([m], c', b') /\ residue c' b' = [].
Proof.
  intros Hm E (Hw & Ha & Hr & Hz). apply client_feed_spec; [done|done|lia|by eapply wire_short|cbn; lia|constructor; [unfold size_max; lia|constructor]|].
  rewrite Hr, E. cbn. by rewrite app_nil_r.
Qed.

Lemma server_gets chunks m c b :
  zlen m < 2 ^ 58 -> concat chunks = frame m -> idle c b ->
  exists c' b', feed host chunks c b = Ok ([m], c', b') /\ residue c' b' = [].
Proof.
  intros Hm E (Hw & Ha & Hr & Hz).
  destruct (feed_spec host (2 ^ 59) chunks c b) as (ms & c' & b' & Ef & _ & Hres & Ha' & Hf); try done; [lia|by eapply wire_short|].
  rewrite Hr, E in Hres. assert (frames [m] ++ [] = frames ms ++ residue c' b') as Hres' by (cbn; by rewrite !app_nil_r).
  apply (frames_inj [m] ms [] (residue c' b')) in Hres' as [<- Hn]; [by exists c', b'|constructor; [unfold size_max; lia|constructor]|done|by left|by apply residue_incomplete].
Qed.
End transport.

(** A request and its response, given what the handlers do. *)
Lemma exchange_intro host `{copy : StdCopy} `{J : Json} s c req r d reply :
  short req -> sends (onRequest c (to_common req) s) = sends s ++ [(r, d)] -> (forall id, onResponse (to_common d) id = reply id) ->
  exchange host s c req r d reply.
Proof.
  intros Hs Hd Hr. exists (frame (to_common req)). unfold short in *. rewrite chat_send_spec by lia. split_and!; [done|..].
  - intros chunks cx b E Hi. destruct (server_gets host chunks _ cx b Hs E Hi) as (cx' & b' & Ef & Hn).
    eexists _, cx', b'. unfold server_receives. by rewrite Ef.
  - intros Hsd. exists (frame (to_common d)). split; [apply chat_send_spec; unfold short in Hsd; lia|].
    intros chunks cx b id E Hi. destruct (client_gets host chunks _ cx b Hsd E Hi) as (cx' & b' & Ef & Hn).
    exists cx', b'. unfold client_receives. rewrite Ef. cbn [mbind res_bind]. split; [|done]. unfold client_reacts. cbn [foldl].
    rewrite Hr. by destruct (reply id) as [? rs].
Qed.

(** ** Claims *)

(** C38. The chat works from end to end, as long as clients name ids that have
    been given out: whatever connections come and go, whatever is asked and however failed
    requests overlap, a request of a live connection that arrives at a server with nothing else
    waiting, cut into any pieces, makes the server send one response, and that response, framed by
    [Context::Send] and cut into any pieces, makes a client with nothing else waiting react once.
    A connection that asks for its id gets one of its own, which its client reads back and goes on
    to ask for the list; a message for a connection that lives goes to that connection and its client
    shows that message; and the list, when no failed request is being cleaned up, holds exactly the
    ids of the other connections that live.  Texts are shorter than 2^58 bytes. *)
Theorem chat_end_to_end host `{copy : StdCopy} `{J : Json} {L : JsonLaws} ops s c id t :
  runs known_receiver ops s -> c ∈ live s -> contexts s !! c = Some id ->
  (short (mkCommon kRequestInit t) ->
     exchange host s c (mkCommon kRequestInit t) c (mkCommon kResponseInit (to_string id))
       (fun _ => (id, [RequestAgain list_request])) /\
     forall c', contexts s !! c' = Some id -> c' = c) /\
  (forall r idr, r ∈ live s -> contexts s !! r = Some idr -> short (chat_request id idr t) ->
     exchange host s c (chat_request id idr t) r (mkCommon kResponseChat (base64_encode (to_chat (mkChat id idr t))))
       (fun cid => (cid, [Received (mkChat id idr t)]))) /\
  (erasing s = [] -> short (mkCommon kRequestAllList t) ->
     exists ids, exchange host s c (mkCommon kRequestAllList t) c (mkCommon kResponseAllList (base64_encode (to_list ids)))
       (fun cid => (cid, if bool_decide (ids = []) then [AskLater] else [ChooseFrom ids])) /\
     forall k, k ∈ ids <-> k <> id /\ exists c', c' ∈ live s /\ contexts s !! c' = Some k).
Proof.
  intros Hr Hl Hc. pose proof (runs_registered ops s Hr) as H.
  pose proof (rg_gid _ H) as Hg. pose proof (rg_context _ H _ _ Hc) as Hid.
  split_and!.
  - intros Hs. split; [|intros c' Hc'; by eapply (rg_unique _ H)].
    apply exchange_intro; [done|by rewrite (init_reply c id)|]. intros cid. apply init_response. unfold is_id. lia.
  - intros r idr Hlr Hcr Hs. pose proof (rg_context _ H _ _ Hcr) as Hidr. set (msg := mkChat id idr t) in *.
    assert (is_id (sender msg) /\ is_id (receiver msg)) as [H1 H2] by (unfold is_id; cbn; lia).
    apply exchange_intro; [done| |intros cid; by apply chat_response].
    unfold chat_request. fold msg. rewrite (chat_reply c id s msg) by done. cbn [receiver msg]. by rewrite (found_live s r idr).
  - intros He Hs. exists (other_ids id s). split; [|by intros k; apply other_ids_spec].
    apply exchange_intro; [done|by rewrite (list_reply c id)|]. intros cid. apply list_response. by apply other_ids_range.
Qed.

(** A text format: numbers as four bytes. *)
Fixpoint bytes_list (n : nat) (t : list byte) : list Z :=
  match n with O => [] | S n => network_value (take 4 t) :: bytes_list n (drop 4 t) end.
#[global] Instance toy_json : Json := {|
  from_common t := match t with b :: t => Some (mkCommon (Z_of_byte b) t) | [] => None end;
  to_common d := byte_of_Z (code d) :: text d;
  from_chat t := Some (mkChat (network_value (take 4 t)) (network_value (take 4 (drop 4 t))) (drop 8 t));
  to_chat m := network_bytes 4 (sender m) ++ network_bytes 4 (receiver m) ++ chat_text m;
  from_list t := Some (bytes_list (length t / 4) t);
  to_list l := concat (map (network_bytes 4) l);
  base64_encode t := t;
  base64_decode t := t
|}.

Lemma bytes_list_concat l : Forall is_id l -> bytes_list (length l) (concat (map (network_bytes 4) l)) = l.
Proof.
  induction 1 as [|n l Hn _ IH]; [done|]. cbn [length bytes_list map concat].
  rewrite take_app_length', drop_app_length' by (by rewrite length_network_bytes). rewrite IH. f_equal.
  apply network_value_bytes. unfold is_id in Hn. cbn. lia.
Qed.

Lemma toy_json_laws : @JsonLaws toy_json.
Proof.
  constructor; cbn [toy_json from_common to_common from_chat to_chat from_list to_list base64_encode base64_decode].
  - intros [k t] Hk. cbn [code text sender receiver chat_text] in *. unfold kBadResponse in Hk. do 2 f_equal. rewrite Z_of_byte_of_Z. apply Z.mod_small. lia.
  - intros [a b t] Ha Hb. cbn [code text sender receiver chat_text] in *. unfold is_id in *.
    rewrite take_app_length', drop_app_length' by (by rewrite length_network_bytes).
    rewrite take_app_length' by (by rewrite length_network_bytes). rewrite !network_value_bytes by (cbn; lia).
    rewrite app_assoc, drop_app_length'; [done|]. by rewrite length_app, !length_network_bytes.
  - intros l Hl. f_equal. assert (length (concat (map (network_bytes 4) l)) / 4 = length l)%nat as ->; [|by apply bytes_list_concat].
    clear. rewrite <- (Nat.div_mul (length l) 4) by done. f_equal. induction l as [|n l IH]; [done|].
    cbn [map concat length]. rewrite length_app, IH, length_network_bytes. lia.
  - done.
Qed.

Definition two_clients : server := exec (Connect 1) (exec (Connect 0) server_new).
Lemma two_clients_run : runs known_receiver [Connect 0; Connect 1] two_clients.
Proof.
  apply (runs_snoc _ [Connect 0] (Connect 1)); [|by split|done].
  apply (runs_snoc _ [] (Connect 0)); [constructor|by split|done].
Qed.

(** ["hi"] from the first to the second, over fresh buffers; the response
    arrives in two pieces. *)
Definition hi_response : CommonData := mkCommon kResponseChat (base64_encode (to_chat (mkChat 0 1 [x68; x69]))).

Lemma fresh_idle : exists b0, MessageBuffer_new kBufferDefaultLength = Ok b0 /\ idle Context_new b0.
Proof.
  destruct (new_wf kBufferDefaultLength) as (b0 & E0 & H & Hc & Hcap & _); [by vm_compute|by vm_compute|].
  exists b0. split; [done|]. split_and!; [done|split; [done|by rewrite Hc]|done|]. rewrite (wf_size b0 H), Hcap. by vm_compute.
Qed.

Lemma chat_end_to_end_witness :
  exists b0 wire wire' s' cx b cy b', MessageBuffer_new kBufferDefaultLength = Ok b0 /\
    @chat_send Little copy_memmove (to_common (chat_request 0 1 [x68; x69])) = Ok wire /\
    @server_receives Little copy_memmove toy_json 0 [wire] Context_new b0 two_clients = Ok (s', cx, b) /\
    sends s' = [(1%nat, hi_response)] /\ @chat_send Little copy_memmove (to_common hi_response) = Ok wire' /\
    @client_receives Little copy_memmove toy_json [take 5 wire'; drop 5 wire'] Context_new b0 1
      = Ok ((1, [Received (mkChat 0 1 [x68; x69])]), cy, b').
Proof.
  destruct (proj1 (proj2 (@chat_end_to_end Little copy_memmove toy_json toy_json_laws [Connect 0; Connect 1] two_clients 0 0 [x68; x69]
    two_clients_run ltac:(apply (bool_decide_unpack _); by vm_compute) eq_refl)) 1%nat 1
    ltac:(apply (bool_decide_unpack _); by vm_compute) eq_refl ltac:(by vm_compute)) as (wire & Ew & Hs & Hd).
  destruct Hd as (wire' & Ew' & Hd); [by vm_compute|]. destruct fresh_idle as (b0 & E0 & Hi).
  destruct (Hs [wire] Context_new b0 (app_nil_r wire) Hi) as (s' & cx & b & Er & _ & Es).
  destruct (Hd [take 5 wire'; drop 5 wire'] Context_new b0 1) as (cy & b' & Er' & _); [cbn [concat]; by rewrite app_nil_r, take_drop|done|].
  exists b0, wire, wire', s', cx, b, cy, b'. by split_and!.
Defined.

(** A message for the id that the next connection will get can make that
    connection unreachable: the failed lookup is cleaned up without the mutex,
    after the connection may have been entered under the same id.  The new
    connection lives, and messages for it are answered with an error, for
    ever. *)
Theorem late_erase_hides_connection `{J : Json} {L : JsonLaws} s c id new m :
  registered s -> erasing s = [] -> contexts s !! c = Some id -> c ∈ live s -> contexts s !! new = None ->
  gid_ s < 2 ^ 31 - 1 -> connMap_ s !! gid_ s = None ->
  let lost := exec (Erase 0) (exec (Connect new) (exec (Request c (to_common (chat_request id (gid_ s) m))) s)) in
  new ∈ live lost /\ contexts lost !! new = Some (gid_ s) /\ connMap_ lost !! gid_ s = None /\
  sends (exec (Erase 0) (exec (Request c (to_common (chat_request id (gid_ s) m))) lost)) = sends s ++ [(c, no_receiver); (c, no_receiver)].
Proof.
  intros H He Hc Hl Hn Hg Hm lost. pose proof (rg_context _ H _ _ Hc) as Hid. pose proof (rg_gid _ H) as Hgid.
  assert (c <> new) as Hcn by congruence. set (g := gid_ s) in *. set (msg := mkChat id g m).
  assert (is_id (sender msg) /\ is_id (receiver msg)) as [H1 H2] by (unfold is_id; cbn; lia).
  assert (exec (Request c (to_common (chat_request id g m))) s =
    set_erasing [(c, g)] (set_map (<[g := None]> (connMap_ s)) s)) as E1.
  { cbn [exec]. unfold chat_request. fold msg. rewrite (chat_reply c id s msg) by done. cbn [receiver msg].
    unfold getConnById. rewrite Hm. cbn [erasing set_map]. by rewrite He. }
  assert (connMap_ lost = delete g (<[g := Some new]> (<[g := None]> (connMap_ s))) /\ contexts lost = <[new := g]> (contexts s) /\
    live lost = {[new]} ∪ live s /\ erasing lost = [] /\ sends lost = sends s ++ [(c, no_receiver)]) as (L1 & L2 & L3 & L4 & L5).
  { unfold lost. rewrite E1. done. }
  clearbody lost. rewrite L2, L3, lookup_insert_eq. assert (connMap_ lost !! g = None) as L6 by (rewrite L1; apply lookup_delete_eq).
  split_and!; [set_solver|done|done|].
  cbn [exec]. unfold chat_request. fold msg. rewrite (chat_reply c id lost msg); [|by rewrite L2, lookup_insert_ne|done|done].
  cbn [receiver msg]. unfold getConnById. rewrite L6. cbn. rewrite L4. cbn. by rewrite L5, <- app_assoc.
Qed.

Lemma late_erase_hides_connection_witness :
  let s := exec (Connect 0) server_new in
  let lost := exec (Erase 0) (exec (Connect 1) (exec (Request 0 (to_common (chat_request 0 1 [x68]))) s)) in
  1%nat ∈ live lost /\ contexts lost !! 1%nat = Some 1 /\ connMap_ lost !! 1 = None /\
  sends (exec (Erase 0) (exec (Request 0 (to_common (chat_request 0 1 [x68]))) lost)) = [(0%nat, no_receiver); (0%nat, no_receiver)].
Proof.
  refine (@late_erase_hides_connection toy_json toy_json_laws (exec (Connect 0) server_new) 0 0 1 [x68] _ _ _ _ _ _ _);
    first [by vm_compute | by apply (connect_registered 0 server_new); [split; vm_compute; congruence|apply new_registered] |
      apply (bool_decide_unpack _); by vm_compute].
Defined.

(** The client takes one message out of what has arrived: when two come
    together, the second waits for the next bytes from the server. *)
Lemma client_reads_one host `{copy : StdCopy} m rest c b c' b' ts :
  may_start c -> wf b -> residue c b = frame m ++ rest -> zlen m < size_max ->
  client_on_message host c b = Ok (ts, c', b') -> ts = [m] /\ residue c' b' = rest.
Proof.
  intros Hc Hb Hr Hm. unfold client_on_message.
  destruct (processCodec_spec host c b Hc Hb) as (c1 & b1 & E1 & _ & _ & [[Ha Er]|(Hs & Er & Hz & _)]); rewrite E1; cbn [mbind res_bind].
  - exfalso. apply (frame_complete m rest Hm). rewrite <- Hr, <- Er. by apply residue_incomplete.
  - rewrite Hr in Er. apply frame_cons_inj in Er as [-> ->]; [|done|done].
    assert (parseOk c1 = true) as -> by (by apply bool_decide_eq_true). cbn. by intros [= <- <- <-].
Qed.
