(* ===== verification/ChatDialogue.v ===== *)
(** * The dialogue of the chat client: [chatByIdAsync] of [examples/chat/chat_client.cc]

    A thread of the task queue asks the user for the id of a partner and for a
    text, and sends both.  The terminal is the bytes that are still to be read;
    its end is the end of input, which stays.  [cin >> str], [getchar] and
    [getline] take bytes from the same stream, as [sync_with_stdio] has it.

    - [chatByIdAsync_sends]: after any number of words that are refused, the
      right id on a line of its own and the next line are what is sent.
    - [chatByIdAsync_total]: every dialogue ends: in a request, or in the
      exception of [std::stoi], which nothing catches on that thread. *)

From Stdlib Require Import Strings.Byte String.
From S2P Require Import Prelude Funcs MessageBuffer BufferContract TimerQueue Timestamp ChatCodec ChatServer.

(** ** The standard input *)

Definition is_space (b : byte) : bool :=
  let v := Z_of_byte b in (v =? 32) || ((9 <=? v) && (v <=? 13)).

Fixpoint skip_spaces (t : list byte) : list byte :=
  match t with b :: t' => if is_space b then skip_spaces t' else t | [] => [] end.
Fixpoint take_word (t : list byte) : list byte * list byte :=
  match t with
  | b :: t' => if is_space b then ([], t) else let '(w, r) := take_word t' in (b :: w, r)
  | [] => ([], [])
  end.

(** [cin >> str] for a fresh [str]: empty at the end of input. *)
Definition read_word (t : list byte) : list byte * list byte := take_word (skip_spaces t).

(** [getchar], the result of which is dropped. *)
Definition getchar (t : list byte) : list byte := tail t.

Fixpoint getline (t : list byte) : list byte * list byte :=
  match t with
  | x0a :: t' => ([], t')
  | b :: t' => let '(l, r) := getline t' in (b :: l, r)
  | [] => ([], [])
  end.

(** ** [chatByIdAsync] *)

Inductive shown :=
  | YourId (id : Z) | PleaseChoose (ids : list Z) | InputError | ChooseInvalid | PleaseInput.

(** Where the label [flag] is passed the last time. *)
Inductive choice :=
  | Chose (x : Z) (t : list byte)      (* the id and the input behind it *)
  | StoiThrows (t : list byte).

Fixpoint choose (fuel : nat) (ids : list Z) (out : list shown) (t : list byte) : option (list shown * choice) :=
  match fuel with
  | O => None
  | S fuel =>
      let '(str, t) := read_word t in
      match stoi str with
      | None => Some (out, StoiThrows t)
      | Some (x, pos) =>
          if negb (pos =? length str)%nat then choose fuel ids (out ++ [InputError]) t
          else if bool_decide (x ∈ ids) then Some (out, Chose x t)
          else choose fuel ids (out ++ [ChooseInvalid]) t
      end
  end.

Inductive dialogue :=
  | Sent (out : list shown) (ds : list CommonData) (t : list byte)   (* the requests sent, the input left *)
  | Terminated (out : list shown).                                   (* [std::terminate] *)

Definition greeting (id : Z) (ids : list Z) : list shown := [YourId id; PleaseChoose ids].

Section dialogue.
Context `{J : Json}.

Definition chatByIdAsync (fuel : nat) (id : Z) (ids : list Z) (t : list byte) : option dialogue :=
  match choose fuel ids (greeting id ids) t with
  | None => None
  | Some (out, StoiThrows _) => Some (Terminated out)
  | Some (out, Chose x t) =>
      let '(text, t) := getline (getchar t) in
      Some (Sent (out ++ [PleaseInput]) [chat_request id x text; list_request] t)
  end.
End dialogue.

(** ** Words of the input *)

Definition word (w : list byte) : Prop := w <> [] /\ Forall (fun b => is_space b = false) w.

Lemma take_word_app w b t : Forall (fun b => is_space b = false) w -> is_space b = true ->
  take_word (w ++ b :: t) = (w, b :: t).
Proof. intros Hw Hb. induction Hw as [|c w Hc _ IH]; cbn; [by rewrite Hb|]. by rewrite Hc, IH. Qed.

Lemma read_word_line w b t : word w -> is_space b = true -> read_word (w ++ b :: t) = (w, b :: t).
Proof.
  intros [Hn Hw] Hb. unfold read_word. destruct w as [|c w]; [done|]. pose proof (Forall_inv Hw) as Hc. cbn in Hc.
  cbn [app skip_spaces]. rewrite Hc. change (c :: w ++ b :: t) with ((c :: w) ++ b :: t). by apply take_word_app.
Qed.

Lemma read_word_space b t : is_space b = true -> read_word (b :: t) = read_word t.
Proof. intros Hb. unfold read_word. cbn. by rewrite Hb. Qed.

Lemma take_word_length t : (length (take_word t).1 + length (take_word t).2)%nat = length t.
Proof.
  induction t as [|b t IH]; [done|]. cbn. destruct (is_space b); [done|]. destruct (take_word t). cbn in *. lia.
Qed.

Lemma skip_spaces_length t : (length (skip_spaces t) <= length t)%nat.
Proof. induction t as [|b t IH]; cbn; [lia|]. destruct (is_space b); cbn; lia. Qed.

(** A word that is there takes something off the input. *)
Lemma read_word_shorter t w r : read_word t = (w, r) -> w <> [] -> (length r < length t)%nat.
Proof.
  intros E Hw. unfold read_word in E. pose proof (take_word_length (skip_spaces t)) as H1.
  pose proof (skip_spaces_length t). rewrite E in H1. cbn in H1. destruct w; [done|]. cbn in H1. lia.
Qed.

Lemma getline_line l t : ~ x0a ∈ l -> getline (l ++ x0a :: t) = (l, t).
Proof.
  induction l as [|b l IH]; intros Hl; [done|]. apply not_elem_of_cons in Hl as [Hb Hl]. specialize (IH Hl).
  cbn [app getline]. rewrite IH. by destruct b.
Qed.

(** ** The choice *)

(** A word that the dialogue refuses, and what it says. *)
Definition refused (ids : list Z) (w : list byte) : option shown :=
  match stoi w with
  | None => None
  | Some (x, pos) =>
      if negb (pos =? length w)%nat then Some InputError else if bool_decide (x ∈ ids) then None else Some ChooseInvalid
  end.

Lemma choose_refused fuel ids out t w r m : read_word t = (w, r) -> refused ids w = Some m ->
  choose (S fuel) ids out t = choose fuel ids (out ++ [m]) r.
Proof.
  intros E. unfold refused. cbn [choose]. rewrite E. destruct (stoi w) as [[x pos]|]; [|done].
  case_match; [by intros [= <-]|]. by case_match; intros [= <-].
Qed.

Lemma choose_space fuel ids out b t : is_space b = true -> choose fuel ids out (b :: t) = choose fuel ids out t.
Proof. intros Hb. destruct fuel; [done|]. cbn [choose]. by rewrite read_word_space. Qed.

(** The words of a user, each on its line. *)
Definition lines (ws : list (list byte)) : list byte := concat (map (fun w => w ++ [x0a]) ws).

Lemma choose_lines ids ws ms out fuel t : Forall word ws -> Forall2 (fun w m => refused ids w = Some m) ws ms ->
  choose (length ws + fuel) ids out (lines ws ++ t) = choose fuel ids (out ++ ms) t.
Proof.
  intros Hw H. revert out. induction H as [|w m ws ms Hm _ IH]; intros out; [by rewrite app_nil_r|].
  apply Forall_cons in Hw as [Hw Hws]. cbn [length plus].
  assert (lines (w :: ws) ++ t = w ++ x0a :: (lines ws ++ t)) as -> by (unfold lines; cbn; by rewrite <- !app_assoc).
  erewrite choose_refused; [|by apply read_word_line|done]. rewrite choose_space, IH by done. by rewrite <- app_assoc.
Qed.

(** One try per byte of the input, and one at its end, are enough. *)
Lemma choose_returns ids fuel out t : (length t < fuel)%nat -> exists r, choose fuel ids out t = Some r.
Proof.
  revert out t. induction fuel as [|fuel IH]; intros out t Hf; [lia|]. cbn [choose].
  destruct (read_word t) as [w r] eqn:E. destruct (stoi w) as [[x pos]|] eqn:Es; [|by eexists].
  assert (length r < fuel)%nat by (apply read_word_shorter in E; [lia|]; by intros ->).
  case_match; [by apply IH|]. case_match; [by eexists|by apply IH].
Qed.

(** The words that [cin >> str] takes, one after the other. *)
Inductive reads : list byte -> list (list byte) -> list byte -> Prop :=
  | reads_nil t : reads t [] t
  | reads_cons t w t1 ws t2 : read_word t = (w, t1) -> reads t1 ws t2 -> reads t (w :: ws) t2.

Lemma choose_decides fuel ids out t out' c : choose fuel ids out t = Some (out', c) ->
  exists ws ms t' w r, reads t ws t' /\ Forall2 (fun w m => refused ids w = Some m) ws ms /\ out' = out ++ ms /\
    read_word t' = (w, r) /\
    match c with
    | Chose x b => b = r /\ stoi w = Some (x, length w) /\ x ∈ ids
    | StoiThrows b => b = r /\ stoi w = None
    end.
Proof.
  revert out t. induction fuel as [|fuel IH]; intros out t H; [done|]. destruct (read_word t) as [w r] eqn:E.
  destruct (refused ids w) as [m|] eqn:Em.
  - rewrite (choose_refused _ _ _ _ w r m) in H by done. destruct (IH _ _ H) as (ws & ms & t' & w' & r' & H1 & H2 & -> & H3).
    exists (w :: ws), (m :: ms), t', w', r'. rewrite <- app_assoc. split_and!; [by econstructor|by constructor|done|apply H3..].
  - cbn [choose] in H. rewrite E in H. unfold refused in Em. exists [], [], t, w, r. rewrite app_nil_r.
    destruct (stoi w) as [[x pos]|]; [|simplify_eq; split_and!; [constructor..|done|done|done|done]].
    destruct (Nat.eqb_spec pos (length w)) as [Ep|]; [|done]. cbn [negb] in *. case_bool_decide; [|done].
    rewrite <- Ep. simplify_eq.
    split_and!; [constructor..|done|done|done|done|done].
Qed.

(** ** Digits are words *)

Lemma digits_not_space u : Forall (fun b => is_space b = false) (uint_bytes u).
Proof. induction u; cbn [uint_bytes]; constructor; done. Qed.

Lemma to_string_word x : is_id x -> word (to_string x).
Proof.
  intros Hx. unfold is_id in Hx. unfold to_string, sign. rewrite (proj2 (Z.ltb_ge _ _)) by lia. cbn [app].
  destruct (magnitude_shape x) as (b & t & E & _). split; [by rewrite E|]. apply digits_not_space.
Qed.

(** ** The dialogue *)

(** The user may type any number of words that are no id of the list; the id on
    a line of its own and the line after it are what the client sends, and then
    it asks for the list again.  Each refused word is answered by its message,
    and nothing behind the text is read. *)
Theorem chatByIdAsync_sends `{J : Json} id ids ws ms x text t fuel :
  Forall word ws -> Forall2 (fun w m => refused ids w = Some m) ws ms ->
  is_id x -> x ∈ ids -> ~ x0a ∈ text -> (length ws < fuel)%nat ->
  chatByIdAsync fuel id ids (lines (ws ++ [to_string x]) ++ text ++ x0a :: t) =
    Some (Sent (greeting id ids ++ ms ++ [PleaseInput]) [chat_request id x text; list_request] t).
Proof.
  intros Hw Hm Hx Hin Ht Hf. unfold chatByIdAsync.
  assert (lines (ws ++ [to_string x]) ++ text ++ x0a :: t = lines ws ++ to_string x ++ x0a :: (text ++ x0a :: t)) as ->.
  { unfold lines. rewrite map_app, concat_app. cbn. by rewrite app_nil_r, <- !app_assoc. }
  replace fuel with (length ws + S (fuel - S (length ws)))%nat by lia. rewrite (choose_lines ids ws ms) by done.
  cbn [choose]. rewrite read_word_line by first [by apply to_string_word|done]. rewrite stoi_to_string by done.
  rewrite Nat.eqb_refl. cbn [negb]. rewrite bool_decide_eq_true_2 by done. cbn [getchar tail].
  rewrite getline_line by done. by rewrite <- app_assoc.
Qed.

Lemma chatByIdAsync_sends_witness :
  @chatByIdAsync toy_json 3 0 [1] (lines [[x31; x78]; [x37]; [x31]] ++ [x68; x69; x0a]) =
    Some (Sent [YourId 0; PleaseChoose [1]; InputError; ChooseInvalid; PleaseInput]
      [@chat_request toy_json 0 1 [x68; x69]; list_request] []).
Proof.
  refine (@chatByIdAsync_sends toy_json 0 [1] [[x31; x78]; [x37]] [InputError; ChooseInvalid] 1 [x68; x69] [] 3 _ _ _ _ _ _).
  - constructor; [by split; [|repeat constructor]|]. constructor; [by split; [|repeat constructor]|]. constructor.
  - repeat constructor.
  - split; lia.
  - constructor.
  - rewrite !elem_of_cons, elem_of_nil. by intros [[=]|[[=]|[]]].
  - cbn. lia.
Defined.

(** Every dialogue ends.  The first word that is not refused decides: an id of
    the list is sent to, the text being what is left of its line but for one
    byte, or the next line; a word that is no number that fits, or the end of
    the input, is an exception outside the [try] of [onResponse], on a thread
    that catches nothing, and ends the program. *)
Theorem chatByIdAsync_total `{J : Json} id ids t fuel : (length t < fuel)%nat ->
  exists ws ms t' w r, reads t ws t' /\ Forall2 (fun w m => refused ids w = Some m) ws ms /\ read_word t' = (w, r) /\
    ((exists x, stoi w = Some (x, length w) /\ x ∈ ids /\
        chatByIdAsync fuel id ids t = Some (Sent (greeting id ids ++ ms ++ [PleaseInput])
          [chat_request id x (getline (getchar r)).1; list_request] (getline (getchar r)).2)) \/
     (stoi w = None /\ chatByIdAsync fuel id ids t = Some (Terminated (greeting id ids ++ ms)))).
Proof.
  intros Hf. destruct (choose_returns ids fuel (greeting id ids) t Hf) as [[out c] E].
  destruct (choose_decides _ _ _ _ _ _ E) as (ws & ms & t' & w & r & Hr & Hm & -> & Hw & Hc).
  exists ws, ms, t', w, r. split_and!; [done..|]. unfold chatByIdAsync. rewrite E. destruct c as [x b|b].
  - left. exists x. destruct Hc as (-> & Hx & Hin). split_and!; [done..|]. destruct (getline (getchar r)).
    by rewrite <- app_assoc.
  - right. by destruct Hc as [-> Hs].
Qed.

Lemma chatByIdAsync_total_witness :
  exists ws ms t' w r, reads [x71; x0a] ws t' /\ Forall2 (fun w m => refused [1] w = Some m) ws ms /\ read_word t' = (w, r) /\
    ((exists x, stoi w = Some (x, length w) /\ x ∈ [1] /\
        @chatByIdAsync toy_json 3 0 [1] [x71; x0a] = Some (Sent (greeting 0 [1] ++ ms ++ [PleaseInput])
          [@chat_request toy_json 0 x (getline (getchar r)).1; list_request] (getline (getchar r)).2)) \/
     (stoi w = None /\ @chatByIdAsync toy_json 3 0 [1] [x71; x0a] = Some (Terminated (greeting 0 [1] ++ ms)))).
Proof. apply (@chatByIdAsync_total toy_json). cbn. lia. Defined.

(** A letter where a number is asked for ends the program, and so does the end
    of the input; a blank behind the id makes the text empty. *)
Example letter_terminates : @chatByIdAsync toy_json 3 0 [1] [x71; x0a] = Some (Terminated (greeting 0 [1])).
Proof. by vm_compute. Qed.
Example end_of_input_terminates : @chatByIdAsync toy_json 1 0 [1] [] = Some (Terminated (greeting 0 [1])).
Proof. by vm_compute. Qed.
Example blank_behind_id : @chatByIdAsync toy_json 9 0 [1] [x31; x20; x0a; x68; x69; x0a] =
  Some (Sent (greeting 0 [1] ++ [PleaseInput]) [@chat_request toy_json 0 1 []; list_request] [x68; x69; x0a]).
Proof. by vm_compute. Qed.
