(* ===== verification/Echo.v ===== *)
(** * The echo examples: [examples/echo_server_example.cc], [echo_client_example.cc]

    What the two programs do on top of a connection: the server sends back what
    has arrived, the client sends a word of its terminal when it is connected
    and one for every message.

    - [echo_returns_everything]: however the stream is cut and whatever part of
      the data the socket takes at a time, every byte is returned, in order.
    - [client_sends_words]: the client sends the words in the order in which
      they are typed, one when it is connected and one per message. *)

From Stdlib Require Import Strings.Byte.
From S2P Require Import Prelude TcpConnection ConnectionSpec ChatDialogue.

(** ** A connection that works *)

(** The socket takes what it can; it does not fail. *)
Definition mild (o : outcome) : Prop := match o with Done _ => True | Err e => e = EAGAIN end.

Record steady (s : conn) : Prop := {
  st_status : m_status s = Connected;
  st_sendNum : m_sendNum s = 0;
  st_mutex : m_sendNumMutex s = false;
  st_idle : m_idleTimeout s = 0;
  st_bufs : forallb is_buf (m_writeBufferList s) = true;
  st_file : m_fileBufferPtr s = [];
  st_script : Forall mild (script s);
  st_dropped : dropped s = false;
  st_writing : m_writeBufferList s <> [] -> isWriting s = true
}.

(** The calls of [send] so far, each with its data. *)
Definition serving (c : list (list byte)) (s : conn) : Prop :=
  cinv 0 s /\ steady s /\ m_readBuffer s = [] /\ called s = c.

Lemma log_steady e s : steady s -> steady (log e s).
Proof. intros []. by constructor. Qed.

Lemma appended_bufs rest l : forallb is_buf l = true -> forallb is_buf (appended rest l) = true.
Proof.
  intros Hl. unfold appended. destruct (last l) as [[b| |]|] eqn:El.
  1: { apply last_Some in El as [l' ->]. rewrite length_app, Nat.add_sub, take_app_length.
       rewrite forallb_app in *. by apply andb_true_iff in Hl as [-> _]. }
  all: rewrite forallb_app, Hl; done.
Qed.

Lemma queued_steady rest s : steady s -> steady (queued rest s).
Proof.
  intros [? ? ? ? Hb ? ? ? ?]. apply (appended_bufs rest) in Hb. unfold queued. cbn [isWriting set_list].
  destruct (isWriting s) eqn:E; by constructor.
Qed.

Lemma written_steady s b n os : steady s -> Forall mild os -> steady (set_sent b n (set_script os s)).
Proof. intros []. by constructor. Qed.

Lemma writeInLoop_mild data s o s' : steady s -> writeInLoop data s = (o, s') -> mild o /\ steady s' /\
  m_readBuffer s' = m_readBuffer s /\ called s' = called s /\ isWriting s' = isWriting s /\
  m_writeBufferList s' = m_writeBufferList s.
Proof.
  intros H. pose proof (st_script _ H) as Hs. unfold writeInLoop, answer. destruct (script s) as [|o1 os] eqn:E.
  - intros [= <- <-]. done.
  - apply Forall_cons in Hs as [Ho Hos]. assert (steady (set_script os s)) by (destruct H; by constructor).
    destruct o1; intros [= <- <-]; [|done]. split_and!; [done|by apply written_steady|done..].
Qed.

Lemma queue_rest_steady rest s s' : steady s -> queue_rest no_callbacks rest s = Ok s' ->
  steady s' /\ m_readBuffer s' = m_readBuffer s /\ called s' = called s.
Proof.
  intros H E. assert (m_readBuffer (queued rest s) = m_readBuffer s /\ called (queued rest s) = called s) as Hq
    by (unfold queued; by destruct (isWriting _)).
  destruct (queue_rest_eq _ _ _ _ E) as [->|[n [= <-]]]; split; try apply Hq;
    [|apply log_steady]; by apply queued_steady.
Qed.

Lemma sendInLoop_steady now m s s' : steady s -> sendInLoop no_callbacks now m s = Ok s' ->
  steady s' /\ m_readBuffer s' = m_readBuffer s /\ called s' = called s.
Proof.
  intros H. unfold sendInLoop. assert (steady (set_handled (handled s ++ [m]) s)) as H1 by (destruct H; by constructor).
  rewrite (bool_decide_true (_ = Connected)) by apply (st_status _ H1). rewrite extendLife_unset by apply (st_idle _ H1).
  set (s1 := set_handled _ s) in *. change (m_readBuffer s) with (m_readBuffer s1). change (called s) with (called s1).
  clearbody s1. destruct (_ && _).
  - destruct (writeInLoop m s1) as [o s2] eqn:E. destruct (writeInLoop_mild _ _ _ _ H1 E) as (Ho & H2 & <- & <- & _).
    destruct o as [n|e]; [|cbn in Ho; subst e; cbn [WriteSocketError]; change (WriteSocketError EAGAIN) with false; cbv iota].
    all: case_bool_decide; [by intros [= <-]|by apply queue_rest_steady].
  - case_bool_decide; [by intros [= <-]|by apply queue_rest_steady].
Qed.

(** A message goes out, or waits to. *)
Lemma serving_send c now m s : cinv 0 s -> steady s -> called s = c ->
  exists s', send_in_loop no_callbacks now (RSend m) (set_readBuffer [] s) = Ok s' /\ serving (c ++ [m]) s'.
Proof.
  intros Hi Hs <-. assert (cinv 0 (set_readBuffer [] s)) as Hi1 by (same Hi; apply (ci_writing _ _ Hi)).
  assert (steady (set_readBuffer [] s)) as Hs1 by (destruct Hs; by constructor).
  destruct (send_returns now m (set_readBuffer [] s) (st_mutex _ Hs1) (st_sendNum _ Hs1)) as [s' E]. exists s'. split; [done|].
  pose proof (send_in_loop_inv _ no_callbacks_keep now _ _ _ _ Hi1 E) as Hi'.
  unfold send_in_loop, getSendNumByGuard in E. cbn in E. rewrite (st_mutex _ Hs) in E. cbn in E.
  rewrite (st_sendNum _ Hs) in E. cbn in E.
  destruct (sendInLoop_steady now m (record_call (RSend m) (set_readBuffer [] s)) s') as (H1 & H2 & H3);
    [destruct Hs1; by constructor|done|]. by split_and!.
Qed.

(** ** A writable socket *)

Lemma write_front_steady b l s : steady s -> m_writeBufferList s = NBuf b :: l ->
  steady (write_front b s) /\ m_readBuffer (write_front b s) = m_readBuffer s /\ called (write_front b s) = called s.
Proof.
  intros H El. unfold write_front. destruct (writeInLoop b s) as [o s1] eqn:E.
  destruct (writeInLoop_mild _ _ _ _ H E) as (Ho & H1 & E1 & E2 & E3 & E4). destruct o as [n|e].
  - split; [|done]. pose proof (st_bufs _ H) as Hb. rewrite El in Hb. pose proof (st_writing _ H) as Hw. rewrite El in Hw.
    destruct H1. unfold put_front. rewrite E4, El. constructor; try done. cbn. intros _. rewrite E3. by apply Hw.
  - cbn in Ho. subst e. by change (WriteSocketError EAGAIN) with false.
Qed.

Lemma serving_write c now s : serving c s ->
  exists s', handleWrite no_callbacks now s = Ok s' /\ serving c s'.
Proof.
  intros (Hi & H & Hr & Hc). assert (forall s', handleWrite no_callbacks now s = Ok s' ->
    steady s' /\ m_readBuffer s' = m_readBuffer s /\ called s' = called s -> exists s', handleWrite no_callbacks now s = Ok s' /\ serving c s')
    as Hend.
  { intros s' E (H1 & H2 & H3). exists s'. split; [done|].
    pose proof (handleWrite_inv _ no_callbacks_keep now _ _ _ Hi E). split_and!; [done|done|congruence..]. }
  revert Hend. unfold handleWrite. rewrite extendLife_unset by apply (st_idle _ H). intros Hend.
  destruct (isWriting s) eqn:Ew; [|by eapply Hend].
  pose proof (ci_writing _ _ Hi Ew) as Hne. pose proof (st_bufs _ H) as Hb.
  destruct (m_writeBufferList s) as [|[b|r ts|ch ts] l] eqn:El; [done| |done..]. case_bool_decide.
  2: { eapply Hend; [reflexivity|]. by eapply write_front_steady. }
  revert Hend. unfold pop_finished. rewrite El. cbn [tail m_writeBufferList set_list forallb andb is_buf isFile negb] in *.
  destruct l as [|[b2|r ts|ch ts] l]; [| |done..]; intros Hend.
  - eapply Hend; [reflexivity|]. destruct H. cbn. rewrite st_status0. rewrite bool_decide_false by done.
    split_and!; [by constructor|done..].
  - unfold sendNext in *. cbn [m_writeBufferList set_list] in *. eapply Hend; [reflexivity|].
    assert (steady (set_list (NBuf b2 :: l) s)) as Hs1 by (destruct H; by constructor).
    destruct (write_front_steady b2 l _ Hs1 eq_refl) as (H1 & H2 & H3). by split_and!.
Qed.

Lemma node_le n l : In n l -> zlen (node_bytes n) <= zlen (concat (map node_bytes l)).
Proof.
  induction l as [|x l IH]; [done|]. intros [<-|Hn]; cbn; rewrite zlen_app; [|apply IH in Hn];
    pose proof (zlen_nonneg (concat (map node_bytes l))); pose proof (zlen_nonneg (node_bytes x)); lia.
Qed.

(** When the socket takes what it is offered, everything that is unsent goes
    out: one call of [handleWrite] per buffer, and one. *)
Lemma serving_drains c now s : serving c s -> exists total n s',
  (n <= length (m_writeBufferList s) + 1)%nat /\
  handleWrites no_callbacks now n (set_script (willing (length (m_writeBufferList s)) total) s) = Ok s' /\
  sent s' = concat c /\ unsent s' = [].
Proof.
  intros (Hi & H & _ & Hc).
  assert (functors s = []) as Ef by (by apply (sendNum_zero 0 s Hi), (st_sendNum _ H)).
  assert (concat c = sent s ++ unsent s) as ->.
  { rewrite <- Hc, (ci_order _ _ Hi), Ef, app_nil_r. apply (ci_bytes _ _ Hi), (st_dropped _ H). }
  set (total := zlen (concat (map node_bytes (m_writeBufferList s)))). exists total. set (s0 := set_script _ s).
  destruct (decide (m_writeBufferList s = [])) as [El|Hl].
  { exists 0%nat, s0. unfold unsent. cbn [m_fileBufferPtr m_writeBufferList set_script s0]. rewrite (st_file _ H), El.
    cbn. rewrite app_nil_r. split_and!; [lia|done..]. }
  assert (draining (m_writeBufferList s) (length (m_writeBufferList s)) total s0) as Hd.
  { constructor; try apply H; try done. apply List.Forall_forall. intros n Hn. by apply node_le. }
  unfold unsent at 1. rewrite (st_file _ H). cbn [app]. change (sent s) with (sent s0).
  assert (m_status s0 = Connected) as Hst by apply H. clearbody s0 total.
  assert (forall l s1 rest, draining (NBuf [] :: l) (length l + rest) total s1 -> m_status s1 = Connected -> exists s',
    handleWrites no_callbacks now (length l + 1) s1 = Ok s' /\ sent s' = sent s1 ++ concat (map node_bytes l) /\ unsent s' = [])
    as Hall.
  { intros l s1 rest H1 H2. destruct (draining_all l total now s1 rest H1 H2) as (s' & ? & ? & ? & ? & ? & ?). by exists s'. }
  pose proof (dr_bufs _ _ _ _ Hd) as Hb. destruct (m_writeBufferList s) as [|[b|r ts|ch ts] l]; [done| |done..].
  cbn [length] in *. destruct (decide (b = [])) as [->|Hne].
  - rewrite <- Nat.add_1_r in Hd. destruct (Hall l s0 1%nat Hd Hst) as (s' & E & Es & Eu). exists (length l + 1)%nat, s'.
    split_and!; [lia|done|done|done].
  - destruct (draining_write b l (length l) total now s0 no_callbacks Hd Hne) as (s1 & E1 & Hd1 & Es1 & Hst1 & _).
    rewrite <- (Nat.add_0_r (length l)) in Hd1 at 1. destruct (Hall l s1 0%nat Hd1) as (s' & E & Es & Eu); [congruence|].
    exists (S (length l + 1)), s'. cbn [handleWrites]. rewrite E1. split_and!; [lia|done| |done].
    rewrite Es, Es1. cbn. by rewrite app_assoc.
Qed.

(** ** The event loop serves the connection *)

(** What happens to the socket: data arrives, it can be written to, or a read
    finds nothing. *)
Inductive io := Arrived (b : list byte) | Writable | Spurious.

Definition arrived (e : io) : list byte := match e with Arrived b => b | _ => [] end.

(** Data has at least a byte; the end of the stream is no data. *)
Definition is_data (e : io) : Prop := match e with Arrived b => b <> [] | _ => True end.

(** A user program: the callbacks in its state, and the state after a message. *)
Section program.
Context {A : Type} (cb : A -> callbacks) (next : A -> A) (now : Z).

Definition on_io (e : io) (a : A) (s : conn) : res (A * conn) :=
  match e with
  | Arrived b => s ← handleRead (cb a) now (RBytes b) s; Ok (next a, s)
  | Writable => s ← handleWrite (cb a) now s; Ok (a, s)
  | Spurious => s ← handleRead (cb a) now (RError EAGAIN) s; Ok (a, s)
  end.

Fixpoint serve (es : list io) (a : A) (s : conn) : res (A * conn) :=
  match es with
  | [] => Ok (a, s)
  | e :: es => '(a, s) ← on_io e a s; serve es a s
  end.

(** The program answers every message with one [send]. *)
Variable reply : A -> list byte -> list byte.
Hypothesis replies : forall a s,
  m_recvMsgCallback (cb a) s = send_in_loop no_callbacks 0 (RSend (reply a (m_readBuffer s))) (set_readBuffer [] s).
Hypothesis quiet : forall a s, handleWrite (cb a) now s = handleWrite no_callbacks now s.

(** The replies to the messages, and the state behind them. *)
Fixpoint answers (es : list io) (a : A) : list (list byte) * A :=
  match es with
  | [] => ([], a)
  | Arrived b :: es => let '(rs, a') := answers es (next a) in (reply a b :: rs, a')
  | _ :: es => answers es a
  end.

Lemma serve_answers es a c s : Forall is_data es -> serving c s ->
  exists s', serve es a s = Ok ((answers es a).2, s') /\ serving (c ++ (answers es a).1) s'.
Proof.
  intros He. revert a c s. induction He as [|e es He _ IH]; intros a c s Hs; cbn [serve answers].
  { exists s. by rewrite app_nil_r. }
  destruct e as [b| |]; cbn [on_io].
  - destruct Hs as (Hi & H & Hr & Hc). cbn in He. cbn [handleRead]. rewrite bool_decide_false by done. cbn [mbind res_bind].
    rewrite extendLife_unset by apply (st_idle _ H). rewrite replies. cbn [m_readBuffer log set_events set_bytesReceived set_readBuffer].
    rewrite Hr. cbn [app]. set (s1 := log _ _).
    assert (cinv 0 s1) as Hi1 by (apply log_inv; same Hi; apply (ci_writing _ _ Hi)).
    assert (steady s1) as H1 by (apply log_steady; destruct H; by constructor).
    destruct (serving_send c 0 (reply a b) s1 Hi1 H1 Hc) as (s2 & -> & Hs2). cbn [mbind res_bind].
    destruct (IH (next a) _ _ Hs2) as (s' & E & Hs'). destruct (answers es (next a)) as [rs a']. exists s'.
    rewrite E. split; [done|]. by rewrite <- app_assoc in Hs'.
  - rewrite quiet. destruct (serving_write c now s Hs) as (s1 & -> & Hs1). apply IH, Hs1.
  - apply IH, Hs.
Qed.
End program.

(** ** The server *)

(** The callbacks are those of [ConnectionSpec]; the program has no state. *)
Definition echo_server (now : Z) (es : list io) (os : list outcome) : res (unit * conn) :=
  s ← connectEstablished echo_callbacks (set_script os TcpConnection_new);
  serve (fun _ => echo_callbacks) id now es tt s.

(** ** The client *)

Definition input (t : list byte) : list byte := (read_word t).1.
Definition input_left (t : list byte) : list byte := (read_word t).2.

Definition echo_client_callbacks (t : list byte) : callbacks :=
  mkCallbacks
    (fun s => if bool_decide (m_status s = Connected) then send_in_loop no_callbacks 0 (RSend (input t)) s else Ok s)
    (fun s => send_in_loop no_callbacks 0 (RSend (input t)) (set_readBuffer [] s)) Ok (fun _ => Ok) Ok.

Definition echo_client (now : Z) (es : list io) (t : list byte) (os : list outcome) : res (list byte * conn) :=
  s ← connectEstablished (echo_client_callbacks t) (set_script os TcpConnection_new);
  serve echo_client_callbacks input_left now es (input_left t) s.

(** ** What they promise *)

Lemma new_serving os : Forall mild os ->
  let s := log (EvConnection true) (set_status Connected (set_registered true (set_reading true (set_script os TcpConnection_new)))) in
  cinv 0 s /\ steady s /\ called s = [] /\ m_readBuffer s = [].
Proof. intros Ho. split_and!; [|by constructor|done|done]. by constructor. Qed.

Lemma serving_bytes c s : serving c s -> concat c = sent s ++ unsent s.
Proof.
  intros (Hi & H & _ & <-). assert (functors s = []) as Ef by (by apply (sendNum_zero 0 s Hi), (st_sendNum _ H)).
  rewrite (ci_order _ _ Hi), Ef, app_nil_r. apply (ci_bytes _ _ Hi), (st_dropped _ H).
Qed.

Lemma echo_answers es a : concat (answers (@id unit) (fun _ b => b) es a).1 = concat (map arrived es).
Proof.
  induction es as [|e es IH]; [done|]. destruct e; cbn; [|done..]. change (id a) with a. destruct (answers _ _ es a).
  cbn in *. by rewrite IH.
Qed.

(** C11. However the stream is cut, whatever part of the data the socket takes at a
    time, and however reads and writes interleave: nothing fails, what the peer
    has been sent and what waits for the socket is, in order, what the peer has
    sent, and nothing stays in the read buffer.  When the socket takes what it
    is offered, the rest goes out: one call of [handleWrite] per buffer, and
    one. *)
Theorem echo_returns_everything now es os :
  Forall is_data es -> Forall mild os ->
  exists s, echo_server now es os = Ok (tt, s) /\ m_readBuffer s = [] /\
    concat (map arrived es) = sent s ++ unsent s /\
    exists total n s', (n <= length (m_writeBufferList s) + 1)%nat /\
      handleWrites echo_callbacks now n (set_script (willing (length (m_writeBufferList s)) total) s) = Ok s' /\
      sent s' = concat (map arrived es) /\ unsent s' = [].
Proof.
  intros He Ho. destruct (new_serving os Ho) as (Hi & Hs & Hc & Hr). unfold echo_server.
  change (connectEstablished echo_callbacks (set_script os TcpConnection_new)) with
    (Ok (log (EvConnection true) (set_status Connected (set_registered true (set_reading true (set_script os TcpConnection_new)))))).
  set (s0 := log _ _) in *. clearbody s0. cbn [mbind res_bind].
  destruct (serve_answers (fun _ : unit => echo_callbacks) id now (fun _ b => b)
    (fun _ _ => eq_refl) (fun _ _ => eq_refl) es tt [] s0 He) as (s & E & Hserv); [by split_and!|].
  exists s. rewrite E. destruct (answers _ _ _ _).2. cbn [app] in Hserv. rewrite <- (echo_answers es tt).
  split_and!; [done|apply Hserv|by apply serving_bytes|].
  destruct (serving_drains _ now s Hserv) as (total & n & s' & Hn & E' & H1 & H2). exists total, n, s'.
  split_and!; [done| |done|done]. rewrite <- E'. clear.
  generalize (set_script (willing (length (m_writeBufferList s)) total) s). induction n as [|n IH]; [done|]. intros x.
  cbn [handleWrites]. change (handleWrite echo_callbacks now x) with (handleWrite no_callbacks now x).
  destruct (handleWrite no_callbacks now x); [|done]. apply IH.
Qed.

(** The number of messages. *)
Definition messages (es : list io) : nat := length (filter (fun e => arrived e <> []) es).

Lemma read_lines w ws rest : word w ->
  input (lines (w :: ws) ++ rest) = w /\ read_word (input_left (lines (w :: ws) ++ rest)) = read_word (lines ws ++ rest).
Proof.
  intros Hw. assert (lines (w :: ws) ++ rest = w ++ x0a :: (lines ws ++ rest)) as -> by (unfold lines; cbn; by rewrite <- !app_assoc).
  unfold input, input_left. rewrite read_word_line by done. split; [done|]. by apply read_word_space.
Qed.

Lemma typed_lines es ws rest t : Forall is_data es -> Forall word ws -> length ws = messages es ->
  read_word t = read_word (lines ws ++ rest) -> (answers input_left (fun t _ => input t) es t).1 = ws.
Proof.
  intros He. revert ws t. induction He as [|e es He _ IH]; intros ws t Hw Hl Ht; cbn [answers].
  { by destruct ws. }
  unfold messages in Hl. destruct e as [b| |]; cbn in He.
  - rewrite filter_cons_True in Hl by done. destruct ws as [|w ws]; [done|]. apply Forall_cons in Hw as [Hw Hws].
    destruct (read_lines w ws rest Hw) as [E1 E2]. unfold input, input_left in *. rewrite <- Ht in E1, E2.
    specialize (IH ws (read_word t).2 Hws ltac:(by injection Hl) E2). destruct (answers _ _ es (read_word t).2).
    cbn in *. by rewrite IH, E1.
  - rewrite filter_cons_False in Hl by (by intros H). by apply IH.
  - rewrite filter_cons_False in Hl by (by intros H). by apply IH.
Qed.

(** The client sends what its user types, word by word: the first word when it
    is connected and the next for every message, however reads, writes and the
    answers of the socket interleave.  What the peer has been sent and what
    waits for the socket is the words without what separates them. *)
Theorem client_sends_words now es os w ws rest :
  Forall is_data es -> Forall mild os -> Forall word (w :: ws) -> length ws = messages es ->
  exists t s, echo_client now es (lines (w :: ws) ++ rest) os = Ok (t, s) /\ called s = w :: ws /\
    concat (w :: ws) = sent s ++ unsent s /\ m_readBuffer s = [].
Proof.
  intros He Ho Hw Hl. destruct (new_serving os Ho) as (Hi & Hs & Hc & Hr). unfold echo_client, connectEstablished.
  cbn [m_status set_script TcpConnection_new]. rewrite bool_decide_true by done. cbn [mbind res_bind assert echo_client_callbacks m_connectionCallback].
  set (s0 := log _ _) in *. rewrite (bool_decide_true (m_status s0 = Connected)) by done.
  match goal with |- context [send_in_loop ?c 0 ?r s0] =>
    change (send_in_loop c 0 r s0) with (send_in_loop c 0 r (set_readBuffer [] s0)) end. clearbody s0.
  apply Forall_cons in Hw as [Hw Hws]. destruct (read_lines w ws rest Hw) as [-> E2].
  destruct (serving_send [] 0 w s0 Hi Hs Hc) as (s1 & -> & Hs1). cbn [mbind res_bind].
  destruct (serve_answers echo_client_callbacks input_left now (fun t _ => input t)
    (fun _ _ => eq_refl) (fun _ _ => eq_refl) es (input_left (lines (w :: ws) ++ rest)) _ s1 He Hs1) as (s & E & Hserv).
  rewrite (typed_lines es ws rest) in Hserv by done. eexists _, s.
  split_and!; [exact E|apply Hserv|by apply serving_bytes|apply Hserv].
Qed.

(** Three bytes in two pieces, through a socket that takes one byte and then
    nothing for a while. *)
Definition three_bytes : list io := [Arrived [x01; x02]; Writable; Spurious; Arrived [x03]].

Lemma echo_returns_everything_witness :
  exists s, echo_server 0 three_bytes [Done 1] = Ok (tt, s) /\ m_readBuffer s = [] /\
    [x01; x02; x03] = sent s ++ unsent s /\
    exists total n s', (n <= length (m_writeBufferList s) + 1)%nat /\
      handleWrites echo_callbacks 0 n (set_script (willing (length (m_writeBufferList s)) total) s) = Ok s' /\
      sent s' = [x01; x02; x03] /\ unsent s' = [].
Proof. apply (echo_returns_everything 0 three_bytes [Done 1]); by repeat constructor. Defined.

Lemma client_sends_words_witness :
  exists t s, echo_client 0 [Arrived [x68]; Writable] (lines [[x68; x69]; [x78]] ++ [x79]) [Done 1] = Ok (t, s) /\
    called s = [[x68; x69]; [x78]] /\ [x68; x69; x78] = sent s ++ unsent s /\ m_readBuffer s = [].
Proof.
  apply (client_sends_words 0 [Arrived [x68]; Writable] [Done 1] [x68; x69] [[x78]] [x79]); repeat constructor; done.
Defined.
