(* ===== verification/HttpContext.v ===== *)
(** * Requests of the HTTP example: [examples/http/http_context.{h,cc}], [http_request.h], [http_server.cc]

    The parser of requests, line by line over the read buffer of a connection,
    and the callback of the server that calls it with every piece that arrives.

    - Strings and views are lists of bytes; [find] is the position or nothing.
    - [kExpectBody] is a state without code: the loop would not end in it.
    - Of the server only what the callback decides is kept: a request handed
      on, or a 400 sent back. *)

From Stdlib Require Import Strings.Byte String.
From stdpp Require Import gmap countable.
From S2P Require Import Prelude Funcs MessageBuffer BufferContract.
Local Open Scope Z_scope.


Definition bytes (s : string) : list byte := list_byte_of_string s.

Definition sp : byte := x20.
Definition colon : byte := x3a.
Definition qmark : byte := x3f.

(** [StringView::find(char)] and [std::find]. *)
Definition find_char (c : byte) (l : list byte) : option nat := fst <$> list_find (fun x => x = c) l.

Inductive Version := kUnknown | kHttp10 | kHttp11.
Inductive Method := kInvalid | kGET | kPOST | kHEAD | kPUT | kDELETE.

#[global] Instance Method_eq_dec : EqDecision Method.
Proof. solve_decision. Defined.

Record Request := mkRequest {
  method_ : Method;
  version_ : Version;
  path_ : list byte;
  query_ : list byte;
  headers_ : gmap (list byte) (list byte)
}.

Definition Request_new : Request := mkRequest kInvalid kUnknown [] [] ∅.

Definition MethodMapping (m : list byte) : Method :=
  if decide (m = bytes "GET") then kGET
  else if decide (m = bytes "POST") then kPOST
  else if decide (m = bytes "HEAD") then kHEAD
  else if decide (m = bytes "PUT") then kPUT
  else if decide (m = bytes "DELETE") then kDELETE
  else kInvalid.

(** The first loop of [addHeader]: how many spaces a value begins with. *)
Fixpoint leading_spaces (v : list byte) : nat :=
  match v with
  | c :: v => if decide (c = sp) then S (leading_spaces v) else 0
  | [] => 0
  end.

(** [addHeader]: spaces on both ends are dropped.  The code counts with [int],
    which is enough for values below 2^31 bytes. *)
Definition trim (value : list byte) : list byte :=
  let i := leading_spaces value in
  if decide (i = length value) then []
  else
    let k := (length value - leading_spaces (reverse value))%nat in     (* [k + 1] of the code *)
    if decide (k = 0%nat) then [] else drop i (take k value).

Definition addHeader (key value : list byte) (r : Request) : Request :=
  mkRequest (method_ r) (version_ r) (path_ r) (query_ r) (<[key := trim value]> (headers_ r)).

Inductive RequestParseState := kExpectRequestLine | kExpectHeaders | kExpectBody | kGotAll.

#[global] Instance RequestParseState_eq_dec : EqDecision RequestParseState.
Proof. solve_decision. Defined.

Record HttpContext := mkHttp {
  http_state : RequestParseState;
  request_ : Request
}.

Definition Http_new : HttpContext := mkHttp kExpectRequestLine Request_new.
Definition http_parseOk (c : HttpContext) : bool := bool_decide (http_state c = kGotAll).
Definition http_reset (c : HttpContext) : HttpContext := mkHttp kExpectRequestLine Request_new.

(** ** The request line *)

(** The version, behind the second space. *)
Definition set_version (sv : list byte) (r : Request) : bool * Request :=
  if decide (take (length sv - 1) sv = bytes "HTTP/1." /\ sv <> []) then
    match last sv with
    | Some x30 => (true, mkRequest (method_ r) kHttp10 (path_ r) (query_ r) (headers_ r))
    | Some x31 => (true, mkRequest (method_ r) kHttp11 (path_ r) (query_ r) (headers_ r))
    | _ => (false, r)
    end
  else (false, r).

(** Path and query, between the spaces. *)
Definition set_path (path : list byte) (r : Request) : Request :=
  match find_char qmark path with
  | Some q => mkRequest (method_ r) (version_ r) (take q path) (drop (S q) path) (headers_ r)
  | None => mkRequest (method_ r) (version_ r) path (query_ r) (headers_ r)
  end.

(** The two tests of [sv.size() < next + 1] never hold: the space was found. *)
Definition processRequestLine (text : list byte) (r : Request) : bool * Request :=
  match find_char sp text with
  | None => (false, r)
  | Some next =>
      let m := MethodMapping (take next text) in
      if decide (m = kInvalid) then (false, r)
      else
        let r := mkRequest m (version_ r) (path_ r) (query_ r) (headers_ r) in
        let sv := drop (S next) text in
        match find_char sp sv with
        | None => (false, r)
        | Some next => set_version (drop (S next) sv) (set_path (take next sv) r)
        end
  end.

(** ** The loop *)

Section parser.
Context `{copy : StdCopy}.
Implicit Types (b : MessageBuffer) (c : HttpContext).

Fixpoint parseRequest_loop (fuel : nat) c b : res (bool * HttpContext * MessageBuffer) :=
  match fuel with
  | O => Fail Diverged
  | S fuel =>
      match http_state c with
      | kExpectRequestLine =>
          crlf ← findCRLF b;
          match crlf with
          | None => Ok (true, c, b)
          | Some crlf =>
              line ← peek_bytes b (crlf - m_head b);
              let (ok, r) := processRequestLine line (request_ c) in
              if ok then
                b ← retrieveUntil b (crlf + 2);
                parseRequest_loop fuel (mkHttp kExpectHeaders r) b
              else Ok (false, mkHttp kExpectRequestLine r, b)
          end
      | kExpectHeaders =>
          crlf ← findCRLF b;
          match crlf with
          | None => Ok (true, c, b)
          | Some crlf =>
              if readableBytes b =? 2 then Ok (true, mkHttp kGotAll (request_ c), retrieve b 2)
              else
                line ← peek_bytes b (crlf - m_head b);
                match find_char colon line with
                | None => Ok (false, c, b)
                | Some sep =>
                    let r := addHeader (take sep line) (drop (S sep) line) (request_ c) in
                    b ← retrieveUntil b (crlf + 2);
                    parseRequest_loop fuel (mkHttp kExpectHeaders r) b
                end
          end
      | kExpectBody => Fail Diverged
      | kGotAll => Ok (true, c, b)
      end
  end.

(** Every round takes a line out of the buffer, so the fuel is enough. *)
Definition parseRequest c b : res (bool * HttpContext * MessageBuffer) :=
  parseRequest_loop (S (Z.to_nat (readableBytes b))) c b.

(** ** The server *)

Inductive http_event := BadRequest | GotRequest (r : Request).

(** The message callback. *)
Definition http_on_message c b : res (list http_event * HttpContext * MessageBuffer) :=
  '(ok, c, b) ← parseRequest c b;
  let bad := if ok : bool then [] else [BadRequest] in
  if http_parseOk c then Ok (bad ++ [GotRequest (request_ c)], http_reset c, b)
  else Ok (bad, c, b).

Fixpoint http_feed (chunks : list (list byte)) c b : res (list http_event * HttpContext * MessageBuffer) :=
  match chunks with
  | [] => Ok ([], c, b)
  | d :: chunks =>
      b ← pushBack b d;
      '(es, c, b) ← http_on_message c b;
      '(es', c, b) ← http_feed chunks c b;
      Ok (es ++ es', c, b)
  end.
End parser.

(** ** Well-formed requests *)

Record request_text := mkText {
  rt_method : Method;
  rt_path : list byte;
  rt_query : option (list byte);
  rt_minor : bool;                               (* HTTP/1.1 *)
  rt_headers : list (list byte * list byte)      (* names, and values with spaces around them *)
}.

Definition method_name (m : Method) : list byte :=
  match m with
  | kGET => bytes "GET" | kPOST => bytes "POST" | kHEAD => bytes "HEAD"
  | kPUT => bytes "PUT" | kDELETE => bytes "DELETE" | kInvalid => []
  end.

Definition target (t : request_text) : list byte :=
  rt_path t ++ match rt_query t with Some q => qmark :: q | None => [] end.

Definition version_text (t : request_text) : list byte :=
  if rt_minor t then bytes "HTTP/1.1" else bytes "HTTP/1.0".

Definition request_line (t : request_text) : list byte :=
  method_name (rt_method t) ++ sp :: target t ++ sp :: version_text t.

Definition header_line (h : list byte * list byte) : list byte := h.1 ++ colon :: h.2.

Definition header_text (hs : list (list byte * list byte)) : list byte :=
  concat (map (fun h => header_line h ++ CRLF) hs) ++ CRLF.

Definition text_of (t : request_text) : list byte :=
  request_line t ++ CRLF ++ header_text (rt_headers t).

Definition one_line (l : list byte) : Prop := search CRLF l = None.

Definition good_header (h : list byte * list byte) : Prop := (colon ∉ h.1) /\ one_line (header_line h).

Record good_request (t : request_text) : Prop := {
  gr_method : rt_method t <> kInvalid;
  gr_path : (sp ∉ target t) /\ (qmark ∉ rt_path t);
  gr_line : one_line (request_line t);
  gr_headers : Forall good_header (rt_headers t)
}.

Definition add_headers (hs : list (list byte * list byte)) (r : Request) : Request :=
  fold_left (fun r h => addHeader h.1 h.2 r) hs r.

(** The request line alone. *)
Definition begun (t : request_text) : Request :=
  mkRequest (rt_method t) (if rt_minor t then kHttp11 else kHttp10) (rt_path t) (default [] (rt_query t)) ∅.

Definition request_of (t : request_text) : Request := add_headers (rt_headers t) (begun t).

(** ** Lines *)

Lemma find_char_app c (l k : list byte) : c ∉ l -> find_char c (l ++ c :: k) = Some (length l).
Proof.
  intros Hl. unfold find_char. rewrite list_find_app_r.
  - cbn. rewrite decide_True by done. cbn. f_equal.
  - apply list_find_None, Forall_forall. intros x Hx ->. done.
Qed.

Lemma find_char_None c (l : list byte) : c ∉ l -> find_char c l = None.
Proof.
  intros Hl. unfold find_char. rewrite (proj2 (list_find_None _ _)); [done|].
  apply Forall_forall. intros x Hx ->. done.
Qed.

Lemma drop_behind (c : byte) (l k : list byte) : drop (S (length l)) (l ++ c :: k) = k.
Proof. induction l; [done|]. cbn. done. Qed.

(** The first CRLF is behind the first line. *)
Lemma first_line_le l k l' k' :
  one_line l -> l ++ CRLF ++ k = l' ++ CRLF ++ k' -> (length l <= length l')%nat.
Proof.
  intros Hl E. destruct (decide (length l <= length l')%nat) as [|Hlt]; [done|exfalso].
  assert (exists m, l = l' ++ m /\ m <> []) as (m & -> & Hm).
  { apply (f_equal (take (length l))) in E as E'. rewrite take_app_length in E'.
    rewrite take_app_ge in E' by lia. eexists. split; [exact E'|]. intros E0.
    apply (f_equal length) in E'. rewrite E0, length_app in E'. cbn in E'. lia. }
  rewrite <- app_assoc in E. apply app_inv_head in E.
  destruct m as [|x [|y m]]; [done|done|]. cbn in E. injection E as -> -> _.
  unfold one_line in Hl. apply (search_None _ _ (length l')) in Hl; [|rewrite length_app; lia].
  apply Hl. rewrite drop_app_length. by exists m.
Qed.

Lemma first_line_eq l k l' k' :
  one_line l -> l ++ CRLF ++ k = l' ++ CRLF ++ k' -> zlen l' <= zlen l -> l' = l /\ k' = k.
Proof.
  intros Hl E Hle. pose proof (first_line_le _ _ _ _ Hl E). unfold zlen in Hle.
  apply app_inj_1 in E as [-> E]; [|lia]. by apply app_inv_head in E as ->.
Qed.

(** [findCRLF] on a buffer that begins with a whole line, and on one that does not. *)
Lemma findCRLF_line b l k :
  wf b -> contents b = l ++ CRLF ++ k -> one_line l ->
  exists pos b', findCRLF b = Ok (Some pos) /\ pos - m_head b = zlen l /\
    peek_bytes b (zlen l) = Ok l /\
    retrieveUntil b (pos + 2) = Ok b' /\ wf b' /\ contents b' = k /\ m_buffer b' = m_buffer b.
Proof.
  intros H Hc Hl. destruct (findCRLF_spec b H) as ([pos|] & E & Hr); [|by destruct (Hr _ _ Hc)].
  destruct Hr as (l' & k' & b' & Hc' & -> & Hmin & Hu & Hb' & Hk').
  assert (l' = l /\ k' = k) as [-> ->].
  { apply first_line_eq; [done| |by eapply Hmin]. by rewrite <- Hc, <- Hc'. }
  exists (m_head b + zlen l), b'. split_and!; try done; [lia| |].
  - by apply (peek_prefix b _ l (CRLF ++ k)).
  - unfold retrieveUntil in Hu. ok_inv. pose proof (zlen_nonneg l). apply retrieve_wf; [done|lia].
Qed.

Lemma findCRLF_part b l k later :
  wf b -> contents b ++ later = l ++ CRLF ++ k -> one_line l -> (length (contents b) < length l + 2)%nat ->
  findCRLF b = Ok None.
Proof.
  intros H Hc Hl Hlt. destruct (findCRLF_spec b H) as ([pos|] & E & Hr); [|done]. exfalso.
  destruct Hr as (l' & k' & b' & Hc' & _). rewrite Hc', <- !app_assoc in Hc. symmetry in Hc.
  apply (first_line_le _ _ _ _ Hl) in Hc. rewrite Hc', !length_app in Hlt. cbn in Hlt. lia.
Qed.

(** A prefix of a stream that begins with a line holds the line, or not. *)
Lemma prefix_line (c later l k : list byte) :
  c ++ later = l ++ CRLF ++ k ->
  (exists c1, c = l ++ CRLF ++ c1 /\ c1 ++ later = k) \/ (length c < length l + 2)%nat.
Proof.
  intros E. destruct (decide (length c < length l + 2)%nat) as [|Hge]; [by right|left].
  rewrite app_assoc in E. assert (length (l ++ CRLF) <= length c)%nat as Hle by (rewrite length_app; cbn; lia).
  exists (drop (length (l ++ CRLF)) c).
  assert (c = (l ++ CRLF) ++ drop (length (l ++ CRLF)) c) as Hc.
  { apply (f_equal (take (length (l ++ CRLF)))) in E. rewrite take_app_length, take_app_le in E by done.
    rewrite <- E at 1. by rewrite take_drop. }
  split; [by rewrite app_assoc|]. rewrite Hc, <- app_assoc in E. by apply app_inv_head in E.
Qed.

(** ** The request line *)

Lemma method_roundtrip m : m <> kInvalid -> MethodMapping (method_name m) = m.
Proof. by destruct m. Qed.

Lemma method_no_space m : sp ∉ method_name m.
Proof. apply (bool_decide_unpack _). by destruct m; vm_compute. Qed.

Lemma set_version_ok t r :
  set_version (version_text t) r =
    (true, mkRequest (method_ r) (if rt_minor t then kHttp11 else kHttp10) (path_ r) (query_ r) (headers_ r)).
Proof. unfold version_text. by destruct (rt_minor t). Qed.

Lemma set_path_ok t r :
  qmark ∉ rt_path t ->
  set_path (target t) r =
    mkRequest (method_ r) (version_ r) (rt_path t) (default (query_ r) (rt_query t)) (headers_ r).
Proof.
  intros Hq. unfold set_path, target. destruct (rt_query t) as [q|].
  - rewrite find_char_app by done. by rewrite take_app_length, drop_behind.
  - by rewrite app_nil_r, find_char_None.
Qed.

Lemma processRequestLine_ok t :
  good_request t -> processRequestLine (request_line t) Request_new = (true, begun t).
Proof.
  intros [Hm [Hp Hq] _ _]. unfold processRequestLine, request_line.
  rewrite find_char_app by apply method_no_space. rewrite take_app_length, drop_behind, method_roundtrip by done.
  rewrite decide_False by done. rewrite find_char_app by done.
  rewrite take_app_length, drop_behind, set_path_ok, set_version_ok by done. done.
Qed.

(** ** Headers *)

Section headers.
Context `{copy : StdCopy}.
Implicit Types (b : MessageBuffer) (hs : list (list byte * list byte)).

Lemma header_text_cons h hs : header_text (h :: hs) = header_line h ++ CRLF ++ header_text hs.
Proof. unfold header_text. cbn. by rewrite <- !app_assoc. Qed.

(** One round of the loop over a header that is there. *)
Lemma header_round fuel h r b k :
  good_header h -> wf b -> contents b = header_line h ++ CRLF ++ k ->
  exists b', wf b' /\ contents b' = k /\ m_buffer b' = m_buffer b /\
    parseRequest_loop (S fuel) (mkHttp kExpectHeaders r) b =
      parseRequest_loop fuel (mkHttp kExpectHeaders (addHeader h.1 h.2 r)) b'.
Proof.
  intros [Hk Hl] H Hc. destruct (findCRLF_line b _ _ H Hc Hl) as (pos & b' & E & Hp & Epk & Eu & Hb' & Hc' & Hm).
  exists b'. split_and!; try done. cbn [parseRequest_loop http_state]. rewrite E. cbn [mbind res_bind].
  assert (readableBytes b <> 2) as Hr.
  { rewrite <- zlen_contents, Hc, !zlen_app by done. unfold header_line. rewrite zlen_app. pose proof (zlen_nonneg h.1).
    pose proof (zlen_nonneg k). change (zlen CRLF) with 2. unfold zlen at 2. cbn. lia. }
  rewrite (proj2 (Z.eqb_neq _ _) Hr), Hp, Epk. cbn [mbind res_bind request_].
  unfold header_line. rewrite find_char_app by done. rewrite take_app_length, drop_behind, Eu. done.
Qed.

(** The headers so far, whatever of them has arrived: the parser stops in the
    middle, or, when nothing is missing, with the whole request. *)
Lemma headers_loop fuel hs r b later :
  Forall good_header hs -> wf b -> contents b ++ later = header_text hs -> (length (contents b) < fuel)%nat ->
  exists c' b', parseRequest_loop fuel (mkHttp kExpectHeaders r) b = Ok (true, c', b') /\ wf b' /\
    m_buffer b' = m_buffer b /\
    (later = [] /\ c' = mkHttp kGotAll (add_headers hs r) /\ contents b' = [] \/
     later <> [] /\ exists done rest, hs = done ++ rest /\ c' = mkHttp kExpectHeaders (add_headers done r) /\
       contents b' ++ later = header_text rest).
Proof.
  intros Hhs. revert fuel r b. induction Hhs as [|h hs Hh Hhs IH]; intros fuel r b H Hc Hf.
  - destruct fuel as [|fuel]; [lia|]. destruct (prefix_line _ _ [] [] Hc) as [(c1 & Ec & Hl) | Hlt].
    + apply app_eq_nil in Hl as [-> ->].
      destruct (findCRLF_line b [] [] H Ec) as (pos & b' & E & _); [done|].
      cbn [parseRequest_loop http_state]. rewrite E. cbn [mbind res_bind].
      assert (readableBytes b = 2) as -> by (rewrite <- zlen_contents, Ec by done; done).
      destruct (retrieve_wf b 2 H) as (Hw & Hcr & Hm); [lia|].
      eexists _, (retrieve b 2). split; [reflexivity|]. split_and!; try done. left. split_and!; try done.
      by rewrite Hcr, Ec.
    + cbn [parseRequest_loop http_state]. rewrite (findCRLF_part b [] [] later) by done. cbn [mbind res_bind].
      eexists _, b. split; [reflexivity|]. split_and!; try done. right. split; [|by exists [], []].
      intros ->. rewrite app_nil_r in Hc. rewrite Hc in Hlt. cbn in Hlt. lia.
  - rewrite header_text_cons in Hc. destruct fuel as [|fuel]; [lia|].
    destruct (prefix_line _ _ _ _ Hc) as [(c1 & Ec & Hl) | Hlt].
    + destruct (header_round fuel h r b c1 Hh H Ec) as (b1 & Hb1 & Hc1 & Hm1 & ->). rewrite <- Hc1 in Hl.
      destruct (IH fuel (addHeader h.1 h.2 r) b1 Hb1 Hl) as (c' & b' & E & Hb' & Hm' & Hr).
      { rewrite Hc1. rewrite Ec, !length_app in Hf. cbn in Hf. lia. }
      exists c', b'. split_and!; try done; [congruence|].
      destruct Hr as [Hr | (Hne & dn & rest & -> & -> & Hrest)]; [by left|right].
      split; [done|]. by exists (h :: dn), rest.
    + cbn [parseRequest_loop http_state]. destruct Hh as [Hk Hl].
      rewrite (findCRLF_part b _ _ later H Hc Hl Hlt). cbn [mbind res_bind].
      eexists _, b. split; [reflexivity|]. split_and!; try done. right. split.
      * intros ->. rewrite app_nil_r in Hc. rewrite Hc, !length_app in Hlt. cbn in Hlt. lia.
      * exists [], (h :: hs). by rewrite header_text_cons.
Qed.

(** Anything behind the empty line makes the parser refuse. *)
Lemma headers_reject fuel hs r b x :
  Forall good_header hs -> wf b -> contents b = header_text hs ++ x -> x <> [] -> (length (contents b) < fuel)%nat ->
  exists c' b', parseRequest_loop fuel (mkHttp kExpectHeaders r) b = Ok (false, c', b') /\ http_state c' = kExpectHeaders.
Proof.
  intros Hhs. revert fuel r b. induction Hhs as [|h hs Hh Hhs IH]; intros fuel r b H Hc Hx Hf;
    (destruct fuel as [|fuel]; [lia|]).
  - destruct (findCRLF_line b [] x H Hc) as (pos & b' & E & Hp & Epk & _); [done|].
    cbn [parseRequest_loop http_state]. rewrite E. cbn [mbind res_bind].
    assert (readableBytes b <> 2) as Hr.
    { rewrite <- zlen_contents, Hc by done. destruct x as [|y x]; [done|]. cbn. unfold zlen. cbn [length]. lia. }
    rewrite (proj2 (Z.eqb_neq _ _) Hr), Hp, Epk. cbn. eauto.
  - rewrite header_text_cons, <- !app_assoc in Hc.
    destruct (header_round fuel h r b _ Hh H Hc) as (b1 & Hb1 & Hc1 & Hm1 & ->).
    apply (IH fuel _ b1 Hb1 Hc1 Hx). rewrite Hc1. rewrite Hc, !length_app in Hf. rewrite !length_app. cbn in Hf. lia.
Qed.
End headers.

(** ** Whole requests *)

Section requests.
Context `{copy : StdCopy} (t : request_text) (Ht : good_request t).
Implicit Types (b : MessageBuffer) (c : HttpContext).

(** Where the parser can be between two pieces, and the bytes it has not used. *)
Definition at_point c (rest : list byte) : Prop :=
  c = Http_new /\ rest = text_of t \/
  exists dn hs, rt_headers t = dn ++ hs /\ c = mkHttp kExpectHeaders (add_headers dn (begun t)) /\
    rest = header_text hs.

Lemma header_text_app dn hs : header_text (dn ++ hs) = concat (map (fun h => header_line h ++ CRLF) dn) ++ header_text hs.
Proof. unfold header_text. by rewrite map_app, concat_app, <- app_assoc. Qed.

Lemma at_point_le c rest : at_point c rest -> zlen rest <= zlen (text_of t).
Proof.
  intros [[_ ->] | (dn & hs & Eh & _ & ->)]; [done|]. unfold text_of. rewrite Eh, header_text_app.
  unfold zlen. rewrite !length_app. lia.
Qed.

Lemma add_headers_app dn hs r : add_headers (dn ++ hs) r = add_headers hs (add_headers dn r).
Proof. apply fold_left_app. Qed.

(** The headers left, from a point behind the request line. *)
Lemma headers_point fuel dn hs b later :
  rt_headers t = dn ++ hs -> wf b -> contents b ++ later = header_text hs -> (length (contents b) < fuel)%nat ->
  exists c' b', parseRequest_loop fuel (mkHttp kExpectHeaders (add_headers dn (begun t))) b = Ok (true, c', b') /\
    wf b' /\ m_buffer b' = m_buffer b /\
    (later = [] /\ c' = mkHttp kGotAll (request_of t) /\ contents b' = [] \/
     later <> [] /\ exists rest, at_point c' rest /\ contents b' ++ later = rest).
Proof.
  intros Eh H Hc Hf. pose proof (gr_headers _ Ht) as Hhs. rewrite Eh, Forall_app in Hhs.
  destruct (headers_loop fuel hs (add_headers dn (begun t)) b later (proj2 Hhs) H Hc Hf)
    as (c' & b' & E & Hb' & Hm & Hr). exists c', b'. split_and!; try done.
  destruct Hr as [(-> & -> & Hn) | (Hne & dn' & rest & -> & -> & Hrest)]; [left|right].
  - split_and!; try done. unfold request_of. by rewrite Eh, add_headers_app.
  - split; [done|]. exists (header_text rest). split; [|done]. right. exists (dn ++ dn'), rest.
    by rewrite <- app_assoc, add_headers_app.
Qed.

Lemma parseRequest_point c b rest later :
  at_point c rest -> wf b -> contents b ++ later = rest ->
  exists c' b', parseRequest c b = Ok (true, c', b') /\ wf b' /\ m_buffer b' = m_buffer b /\
    (later = [] /\ c' = mkHttp kGotAll (request_of t) /\ contents b' = [] \/
     later <> [] /\ exists rest, at_point c' rest /\ contents b' ++ later = rest).
Proof.
  intros Hp H Hc. unfold parseRequest. rewrite <- zlen_contents by done.
  replace (Z.to_nat (zlen (contents b))) with (length (contents b)) by (unfold zlen; lia).
  destruct Hp as [[-> ->] | (dn & hs & Eh & -> & ->)]; [|apply (headers_point _ dn hs); [done..|lia]].
  unfold text_of in Hc. destruct (prefix_line _ _ _ _ Hc) as [(c1 & Ec & Hl) | Hlt].
  - destruct (findCRLF_line b _ _ H Ec (gr_line _ Ht)) as (pos & b1 & E & Hpos & Epk & Eu & Hb1 & Hc1 & Hm1).
    cbn [parseRequest_loop http_state Http_new]. rewrite E. cbn [mbind res_bind]. rewrite Hpos, Epk.
    cbn [mbind res_bind request_ Http_new]. rewrite (processRequestLine_ok t Ht), Eu. cbn [mbind res_bind].
    rewrite <- Hm1. apply (headers_point _ [] (rt_headers t)); [done|done|by rewrite Hc1|].
    rewrite Hc1, Ec, !length_app. cbn. lia.
  - cbn [parseRequest_loop http_state Http_new]. rewrite (findCRLF_part b _ _ later H Hc (gr_line _ Ht) Hlt).
    cbn [mbind res_bind]. exists Http_new, b. split_and!; try done. right. split.
    + intros ->. rewrite app_nil_r in Hc. rewrite Hc, !length_app in Hlt. cbn in Hlt. lia.
    + exists (text_of t). split; [by left|done].
Qed.

(** ** Pieces *)

Lemma parseRequest_idle b : wf b -> contents b = [] -> parseRequest Http_new b = Ok (true, Http_new, b).
Proof.
  intros H Hc. unfold parseRequest. cbn [parseRequest_loop http_state Http_new].
  destruct (findCRLF_spec b H) as ([pos|] & E & Hr); rewrite E; [|done].
  destruct Hr as (l & k & _ & Hl & _). rewrite Hc in Hl. by destruct l.
Qed.

Lemma push_bounded M b d :
  wf b -> zlen (m_buffer b) <= 2 * M + 2080 -> zlen (contents b) + zlen d <= M -> M <= 2 ^ 59 ->
  exists b', pushBack b d = Ok b' /\ wf b' /\ contents b' = contents b ++ d /\ zlen (m_buffer b') <= 2 * M + 2080.
Proof.
  intros H Hz Hd HM. pose proof (zlen_nonneg d). pose proof (zlen_nonneg (contents b)).
  destruct (pushBack_spec b d H) as (b' & E & Hb' & Hc & Hz'); [split; [done|]; unfold ptrdiff_max; lia|].
  rewrite <- zlen_contents in Hz' by done. exists b'. split_and!; try done. lia.
Qed.

Lemma feed_idle M chunks b :
  wf b -> contents b = [] -> concat chunks = [] -> zlen (m_buffer b) <= 2 * M + 2080 -> 0 <= M <= 2 ^ 59 ->
  exists b', http_feed chunks Http_new b = Ok ([], Http_new, b') /\ contents b' = [].
Proof.
  intros H Hc Hch Hz HM. revert b H Hc Hz. induction chunks as [|d chunks IH]; intros b H Hc Hz; [by exists b|].
  cbn in Hch. apply app_eq_nil in Hch as [-> Hch]. cbn [http_feed].
  destruct (push_bounded M b []) as (b1 & -> & Hb1 & Hc1 & Hz1); [done|done|rewrite Hc; change (zlen (@nil byte)) with 0; lia|lia|].
  cbn [mbind res_bind]. rewrite Hc in Hc1. unfold http_on_message. rewrite parseRequest_idle by done. cbn [mbind res_bind].
  change (http_parseOk Http_new) with false. cbn [mbind res_bind].
  destruct (IH Hch b1 Hb1 Hc1 Hz1) as (b' & -> & Hb'). by exists b'.
Qed.

Lemma http_feed_point M chunks c b rest :
  M = zlen (text_of t) -> M <= 2 ^ 59 -> at_point c rest -> wf b -> contents b ++ concat chunks = rest ->
  concat chunks <> [] -> zlen (m_buffer b) <= 2 * M + 2080 ->
  exists b', http_feed chunks c b = Ok ([GotRequest (request_of t)], Http_new, b') /\ contents b' = [].
Proof.
  intros EM HM. revert c b rest. induction chunks as [|d chunks IH]; intros c b rest Hp H Hc Hne Hz; [done|].
  cbn [http_feed]. cbn [concat] in Hc. pose proof (at_point_le _ _ Hp) as Hle. rewrite <- Hc, !zlen_app in Hle.
  pose proof (zlen_nonneg (concat chunks)).
  destruct (push_bounded M b d H Hz) as (b1 & -> & Hb1 & Hc1 & Hz1); [lia|done|].
  rewrite app_assoc, <- Hc1 in Hc. cbn [mbind res_bind]. unfold http_on_message.
  destruct (parseRequest_point c b1 rest (concat chunks) Hp Hb1 Hc) as (c2 & b2 & -> & Hb2 & Hm2 & Hr).
  cbn [mbind res_bind]. rewrite <- Hm2 in Hz1. destruct Hr as [(Hl & -> & Hn) | (Hl & rest' & Hp' & Hc')].
  - change (http_parseOk (mkHttp kGotAll (request_of t))) with true. cbn [mbind res_bind app].
    pose proof (zlen_nonneg (text_of t)).
    destruct (feed_idle M chunks b2 Hb2 Hn Hl Hz1) as (b' & E & Hb'); [lia|].
    change (http_reset (mkHttp kGotAll (request_of t))) with Http_new. rewrite E. by exists b'.
  - assert (http_parseOk c2 = false) as -> by (destruct Hp' as [[-> _] | (? & ? & _ & -> & _)]; done).
    cbn [mbind res_bind]. destruct (IH c2 b2 rest' Hp' Hb2 Hc' Hl Hz1) as (b' & -> & Hb'). by exists b'.
Qed.
End requests.

(** Spaces around a value do not count. *)
Lemma leading_spaces_app n v : (forall x, head v = Some x -> x <> sp) -> leading_spaces (replicate n sp ++ v) = n.
Proof.
  intros Hv. induction n as [|n IH]; cbn.
  - destruct v as [|x v]; [done|]. cbn. rewrite decide_False; [done|]. by apply Hv.
  - by rewrite IH.
Qed.

Lemma trim_spec n m v :
  (forall x, head v = Some x -> x <> sp) -> (forall x, last v = Some x -> x <> sp) ->
  trim (replicate n sp ++ v ++ replicate m sp) = v.
Proof.
  intros Hh Hl. unfold trim. destruct (decide (v = [])) as [-> | Hv].
  - cbn [app]. rewrite <- replicate_add, <- (app_nil_r (replicate (n + m) sp)), leading_spaces_app by done.
    rewrite app_nil_r, length_replicate, decide_True by done. done.
  - assert (length v <> 0)%nat by (by intros ?%nil_length_inv).
    assert (forall x, head (v ++ replicate m sp) = Some x -> x <> sp) as Hh' by (destruct v; [done|exact Hh]).
    rewrite leading_spaces_app, decide_False by (done || (rewrite !length_app, !length_replicate; lia)).
    rewrite !reverse_app, !reverse_replicate, <- app_assoc, leading_spaces_app.
    2: { intros x. destruct v as [|y v _] using rev_ind; [done|]. rewrite reverse_snoc. cbn. intros [= <-].
         apply Hl. by rewrite last_snoc. }
    rewrite decide_False by (rewrite !length_app, !length_replicate; lia).
    rewrite app_assoc. rewrite take_app_length' by (rewrite !length_app, !length_replicate; lia).
    by rewrite drop_app_length' by (by rewrite length_replicate).
Qed.

(** A piece that holds more than the request. *)
Lemma parse_reject `{copy : StdCopy} t b x :
  good_request t -> wf b -> contents b = text_of t ++ x -> x <> [] ->
  exists c' b', parseRequest Http_new b = Ok (false, c', b') /\ http_state c' = kExpectHeaders.
Proof.
  intros Ht H Hc Hx. unfold parseRequest. rewrite <- zlen_contents by done.
  replace (Z.to_nat (zlen (contents b))) with (length (contents b)) by (unfold zlen; lia).
  unfold text_of in Hc. rewrite <- !app_assoc in Hc.
  destruct (findCRLF_line b _ _ H Hc (gr_line _ Ht)) as (pos & b1 & E & Hpos & Epk & Eu & Hb1 & Hc1 & Hm1).
  cbn [parseRequest_loop http_state Http_new]. rewrite E. cbn [mbind res_bind]. rewrite Hpos, Epk.
  cbn [mbind res_bind request_ Http_new]. rewrite (processRequestLine_ok t Ht), Eu. cbn [mbind res_bind].
  apply (headers_reject _ (rt_headers t) _ b1 x); [apply (gr_headers _ Ht)|done|done|done|].
  rewrite Hc1, Hc, !length_app. cbn. lia.
Qed.

(** ** Properties *)

(** C36. A well-formed request without a body reaches the handler exactly once,
    with its method, path, query, version and headers, however it is cut into
    pieces; the context is then as new and the buffer empty.  Of headers with
    the same name the last counts, and spaces around a value are dropped.
    (Requests below 2 GB.) *)
Theorem http_request_parsed `{copy : StdCopy} t (chunks : list (list byte)) :
  good_request t -> zlen (text_of t) < 2 ^ 31 -> concat chunks = text_of t ->
  (exists b0 b, MessageBuffer_new kBufferDefaultLength = Ok b0 /\
     http_feed chunks Http_new b0 = Ok ([GotRequest (request_of t)], Http_new, b) /\ contents b = []) /\
  (forall k pre post n v m, rt_headers t = pre ++ (k, replicate n sp ++ v ++ replicate m sp) :: post ->
     (k ∉ map fst post) -> (forall x, head v = Some x -> x <> sp) -> (forall x, last v = Some x -> x <> sp) ->
     headers_ (request_of t) !! k = Some v).
Proof.
  intros Ht Hz Hch. split.
  - destruct (new_wf kBufferDefaultLength) as (b0 & E0 & H & Hc & Hcap & _); [by vm_compute|by vm_compute|].
    pose proof (wf_size b0 H) as Hsz. rewrite Hcap in Hsz. pose proof (zlen_nonneg (text_of t)).
    destruct (http_feed_point t Ht (zlen (text_of t)) chunks Http_new b0 (text_of t)) as (b & E & Hb); try done.
    + lia.
    + by left.
    + by rewrite Hc.
    + rewrite Hch. unfold text_of. by destruct (request_line t).
    + rewrite Hsz. change (kBufferDefaultLength + kBufferOffset) with 2056. lia.
    + exists b0, b. done.
  - intros k pre post n v m Eh Hk Hh Hl. unfold request_of. rewrite Eh, add_headers_app.
    cbn [add_headers fold_left fst snd]. generalize (add_headers pre (begun t)). intros r.
    assert (headers_ (addHeader k (replicate n sp ++ v ++ replicate m sp) r) !! k = Some v) as Hr.
    { cbn. by rewrite lookup_insert_eq, trim_spec. }
    revert Hr. generalize (addHeader k (replicate n sp ++ v ++ replicate m sp) r). clear -Hk.
    induction post as [|[k' v'] post IH]; intros r Hr; [done|]. cbn [add_headers fold_left fst snd].
    cbn [map fst] in Hk. apply not_elem_of_cons in Hk as [Hne Hk]. apply IH; [done|].
    cbn. by rewrite lookup_insert_ne.
Qed.

(** [GET /a?x HTTP/1.1] with one header. *)
Definition small_request : request_text :=
  mkText kGET (bytes "/a") (Some (bytes "x")) true [(bytes "Host", bytes " h ")].

Lemma small_request_good : good_request small_request.
Proof.
  constructor; cbn.
  - done.
  - split; apply (bool_decide_unpack _); vm_compute; exact I.
  - by vm_compute.
  - constructor; [|done]. split; [apply (bool_decide_unpack _); vm_compute; exact I|by vm_compute].
Qed.

Lemma http_request_parsed_witness :
  exists b0 b, MessageBuffer_new kBufferDefaultLength = Ok b0 /\
    @http_feed copy_memmove [bytes "GET /a?x HTT"; bytes "P/1.1" ++ CRLF ++ bytes "Host: h " ++ [x0d]; [x0a; x0d]; [x0a]]
      Http_new b0 = Ok ([GotRequest (request_of small_request)], Http_new, b) /\ contents b = [].
Proof.
  apply (@http_request_parsed copy_memmove small_request).
  - exact small_request_good.
  - vm_compute. reflexivity.
  - vm_compute. reflexivity.
Defined.

(** The parser takes the empty line for the end of the headers only when
    nothing follows it in the buffer: a well-formed request that arrives together
    with anything behind it, be it its body or the next request, is answered
    with 400 and never reaches the handler. *)
Theorem http_rejects_what_follows `{copy : StdCopy} t x :
  good_request t -> x <> [] -> zlen (text_of t ++ x) < 2 ^ 31 ->
  exists b0 c b, MessageBuffer_new kBufferDefaultLength = Ok b0 /\
    http_feed [text_of t ++ x] Http_new b0 = Ok ([BadRequest], c, b) /\ http_state c = kExpectHeaders.
Proof.
  intros Ht Hx Hz. destruct (new_wf kBufferDefaultLength) as (b0 & E0 & H & Hc & Hcap & _); [by vm_compute|by vm_compute|].
  pose proof (wf_size b0 H) as Hsz. rewrite Hcap in Hsz. pose proof (zlen_nonneg (text_of t ++ x)).
  destruct (push_bounded (zlen (text_of t ++ x)) b0 (text_of t ++ x) H) as (b1 & E1 & Hb1 & Hc1 & _).
  { rewrite Hsz. change (kBufferDefaultLength + kBufferOffset) with 2056. lia. }
  { rewrite Hc. change (zlen (@nil byte)) with 0. lia. }
  { lia. }
  rewrite Hc in Hc1. destruct (parse_reject t b1 x Ht Hb1 Hc1 Hx) as (c & b2 & E2 & Hs).
  exists b0, c, b2. split; [done|]. split; [|done]. cbn [http_feed]. rewrite E1. cbn [mbind res_bind].
  unfold http_on_message. rewrite E2. cbn [mbind res_bind].
  assert (http_parseOk c = false) as -> by (apply bool_decide_eq_false; congruence). done.
Qed.

Lemma http_rejects_what_follows_witness :
  exists b0 c b, MessageBuffer_new kBufferDefaultLength = Ok b0 /\
    @http_feed copy_memmove [text_of small_request ++ text_of small_request] Http_new b0 = Ok ([BadRequest], c, b) /\
    http_state c = kExpectHeaders.
Proof.
  apply (@http_rejects_what_follows copy_memmove small_request).
  - exact small_request_good.
  - discriminate.
  - vm_compute. reflexivity.
Defined.
