(* ===== verification/HttpResponse.v ===== *)
(** * Responses of the HTTP example: [examples/http/http_response.{h,cc}],
      [request_handler.cc], [http_server.cc]

    What the server answers: a page with links to the files of its directory, a
    file, or a page that says the request was bad.

    - The file system is the interface [FileSystem]: what is under a path, a
      file, which the server may or may not be allowed to read, or a directory.
      Which order an [std::unordered_map] is walked in is a parameter, any order
      of the entries.
    - What a request leads to is the list of calls on the connection; [wire] is
      what the calls put on an open connection. *)

From Stdlib Require Import Strings.Byte String.
From stdpp Require Import gmap.
From S2P Require Import Prelude Funcs MessageBuffer TimerQueue Timestamp HttpContext.
Local Open Scope Z_scope.

(** ** [Response] *)

Inductive StatusCode := kUnknownStatus | k200Ok | k301MovedPermanently | k400BadRequest | k404NotFound.
Definition status_number (c : StatusCode) : Z :=
  match c with
  | kUnknownStatus => 0 | k200Ok => 200 | k301MovedPermanently => 301 | k400BadRequest => 400 | k404NotFound => 404
  end.

Inductive ConnectionState := kClose | kKeepAlive.

Record fileinfo := mkFileinfo { filesize : Z; filename : list byte }.

Record Response := mkResponse {
  rsp_version : Version;
  statusCode_ : StatusCode;
  connectionState_ : ConnectionState;
  statusMsg_ : list byte;
  fileinfo_ : fileinfo;
  body_ : list byte;
  rsp_headers : gmap (list byte) (list byte)
}.

Definition Response_new : Response :=
  mkResponse kHttp11 kUnknownStatus kKeepAlive [] (mkFileinfo 0 []) [] ∅.

Implicit Type r : Response.
Definition set_connectionState (v : ConnectionState) r : Response := mkResponse (rsp_version r) (statusCode_ r) v
  (statusMsg_ r) (fileinfo_ r) (body_ r) (rsp_headers r).
Definition set_body (v : list byte) r : Response := mkResponse (rsp_version r) (statusCode_ r) (connectionState_ r)
  (statusMsg_ r) (fileinfo_ r) v (rsp_headers r).
Definition set_fileinfo (v : fileinfo) r : Response := mkResponse (rsp_version r) (statusCode_ r) (connectionState_ r)
  (statusMsg_ r) v (body_ r) (rsp_headers r).
Definition set_header (k v : list byte) r : Response := mkResponse (rsp_version r) (statusCode_ r) (connectionState_ r)
  (statusMsg_ r) (fileinfo_ r) (body_ r) (<[k := v]> (rsp_headers r)).

Definition responseBad r : Response := mkResponse (rsp_version r) k400BadRequest kClose
  (statusMsg_ r) (fileinfo_ r) (body_ r) (rsp_headers r).
Definition responseOk r : Response := mkResponse (rsp_version r) k200Ok kClose
  (statusMsg_ r) (fileinfo_ r) (body_ r) (rsp_headers r).
Definition hasFile r : bool := negb (filesize (fileinfo_ r) =? 0).
Definition setContentType (type : list byte) r : Response := set_header (bytes "Content-Type") type r.

Definition quote : list byte := [x22].

(** ** The file system *)

Inductive entry :=
  | Regular (contents : list byte) (readable : bool)
  | Directory (size : Z).

Class FileSystem := {
  fs_names : list (list byte);             (* files of the current directory that are not directories *)
  fs_path : list byte -> list byte;        (* [current_path() / name] *)
  fs_entry : list byte -> option entry     (* what is under a path *)
}.

(** [st_size], which a directory has too. *)
Definition entry_size (e : entry) : Z := match e with Regular c _ => zlen c | Directory n => n end.

(** [exists] and [file_size], which only look at the metadata. *)
Definition fs_exists `{F : FileSystem} (path : list byte) : bool :=
  match fs_entry path with Some _ => true | None => false end.
Definition fs_size `{F : FileSystem} (path : list byte) : Z :=
  match fs_entry path with Some e => entry_size e | None => 0 end.

Section responses.
Context `{F : FileSystem} (walk : gmap (list byte) (list byte) -> list (list byte * list byte)).

(** [Response::toString] *)
Definition header_out (h : list byte * list byte) : list byte := h.1 ++ bytes ": " ++ h.2 ++ CRLF.

Definition rsp_toString r : list byte :=
  let version := match rsp_version r with
                 | kUnknown => bytes "HTTP/1.1" | kHttp10 => bytes "HTTP/1.0" | kHttp11 => bytes "HTTP/1.1"
                 end in
  let ret := version ++ [sp] ++ to_string (status_number (statusCode_ r)) ++ [sp] ++ statusMsg_ r in
  let ret := ret ++ match connectionState_ r with kClose => bytes "Connection: close" ++ CRLF | kKeepAlive => [] end in
  let ret := ret ++ (if hasFile r
                     then bytes "Content-Length: " ++ to_string (filesize (fileinfo_ r)) ++ CRLF ++
                          bytes "Connection:keep-alive" ++ CRLF
                     else []) in
  let ret := ret ++ (if bool_decide (body_ r = []) then []
                     else bytes "Content-Length: " ++ to_string (zlen (body_ r)) ++ CRLF ++
                          bytes "Connection: Keep-Alive" ++ CRLF) in
  let ret := ret ++ concat (map header_out (walk (rsp_headers r))) in
  let ret := ret ++ CRLF in
  if hasFile r then ret else ret ++ body_ r.

(** ** [request_handler.cc] *)

Definition link (name : list byte) : list byte :=
  bytes "<li><a href=" ++ quote ++ bytes "/?" ++ name ++ quote ++ bytes ">" ++ name ++ bytes "</a></li>".

Definition meta : list byte :=
  bytes "<meta http-equiv=" ++ quote ++ bytes "Content-Type" ++ quote ++ bytes " content=" ++ quote ++
  bytes "text/html;charset=utf-8" ++ quote ++ bytes "/>".

Definition links_page : list byte :=
  bytes "<html>" ++ meta ++ bytes "<ul>" ++ concat (map link fs_names) ++ bytes "</ul></html>".

Definition ResponseFilesLink r : Response := responseOk (set_body links_page r).

Definition nl : list byte := [x0a].
Definition bad_page : list byte :=
  nl ++ bytes "<html>" ++ nl ++ meta ++ nl ++ bytes "<head>" ++ nl ++
  bytes "<title>HTTP 400 错误：请求无效</title>" ++ nl ++ bytes "</head>" ++ nl ++ bytes "<body>" ++ nl ++
  bytes "<h1>HTTP 400 错误：请求无效</h1>" ++ nl ++
  bytes "<p>很抱歉，您的请求无效。请检查您的请求是否正确。</p>" ++ nl ++ bytes "</body>" ++ nl ++ bytes "</html>".

Definition ResponseFile (name : list byte) r : Response :=
  let filePath := fs_path name in
  if fs_exists filePath then
    let r := set_fileinfo (mkFileinfo (fs_size filePath) filePath) r in
    let r := setContentType (bytes "application/octet-stream") r in
    let r := set_header (bytes "Content-Disposition") (bytes "attachment; filename=" ++ quote ++ name ++ quote) r in
    responseOk r
  else responseBad (set_body bad_page r).

Definition RequestHandler (req : Request) r : Response :=
  if bool_decide (query_ req = []) then ResponseFilesLink r else ResponseFile (query_ req) r.

(** ** [http_server.cc] *)

Inductive conn_call :=
  | CSend (data : list byte)
  | CSendFile (name : list byte) (offset length : Z)
  | CShutdown.

Definition is_http10 (v : Version) : bool := match v with kHttp10 => true | _ => false end.

Definition http_onRequest (req : Request) : list conn_call :=
  let connection := default [] (headers_ req !! bytes "Connection") in
  let response :=
    if bool_decide (connection = bytes "close") ||
       (is_http10 (version_ req) && negb (bool_decide (connection = bytes "keep-alive")))
    then set_connectionState kClose Response_new else Response_new in
  let response := RequestHandler req response in
  CSend (rsp_toString response) ::
    if hasFile response
    then [CSendFile (filename (fileinfo_ response)) 0 (filesize (fileinfo_ response))] else [].

(** The message callback, for what the parser decided. *)
Definition http_calls (e : http_event) : list conn_call :=
  match e with
  | BadRequest => [CSend (bytes "HTTP/1.1 400 Bad Request" ++ CRLF ++ CRLF); CShutdown]
  | GotRequest req => http_onRequest req
  end.
End responses.

(** What a call puts on an open connection: a transfer sends the part of the
    file that was asked for, and nothing where [open] or [read] fails. *)
Definition wire `{F : FileSystem} (c : conn_call) : list byte :=
  match c with
  | CSend data => data
  | CSendFile name offset length =>
      match fs_entry name with
      | Some (Regular contents true) => take (Z.to_nat length) (drop (Z.to_nat offset) contents)
      | _ => []
      end
  | CShutdown => []
  end.

(** ** Reading a response *)

(** The lines up to the empty one, and what follows it. *)
Fixpoint read_lines (fuel : nat) (t : list byte) : option (list (list byte) * list byte) :=
  match fuel, search CRLF t with
  | S fuel, Some i =>
      let line := take i t in
      let rest := drop (i + 2) t in
      if bool_decide (line = []) then Some ([], rest)
      else '(ls, r) ← read_lines fuel rest; Some (line :: ls, r)
  | _, _ => None
  end.
Definition read_head (t : list byte) : option (list (list byte) * list byte) := read_lines (length t) t.

(** A line without carriage returns. *)
Definition plain (l : list byte) : Prop := x0d ∉ l.

Lemma search_unfold p l : search p l =
  if decide (p `prefix_of` l) then Some 0%nat else match l with [] => None | _ :: l' => S <$> search p l' end.
Proof. by destruct l. Qed.

Lemma search_CRLF l k : plain l -> search CRLF (l ++ CRLF ++ k) = Some (length l).
Proof.
  intros Hl. induction l as [|b l IH].
  - rewrite search_unfold, decide_True; [done|]. by exists k.
  - apply not_elem_of_cons in Hl as [Hb Hl]. rewrite search_unfold, decide_False; [cbn [app]; by rewrite IH|]. intros [m E]. cbn in E. congruence.
Qed.

Definition ended (l : list byte) : list byte := l ++ CRLF.
Definition text_line (l : list byte) : Prop := plain l /\ l <> [].

Lemma read_lines_spec ls rest fuel :
  Forall text_line ls -> (length ls < fuel)%nat ->
  read_lines fuel (concat (map ended ls) ++ CRLF ++ rest) = Some (ls, rest).
Proof.
  intros Hls. revert fuel. induction Hls as [|l ls [Hl Hne] Hls IH]; intros [|fuel] Hf; cbn [length] in Hf; [lia|..]; [|lia|].
  - cbn [map concat app read_lines]. change (CRLF ++ rest) with ([] ++ CRLF ++ rest). rewrite search_CRLF by (apply not_elem_of_nil).
    reflexivity.
  - cbn [map concat]. assert (ended l ++ concat (map ended ls) = l ++ CRLF ++ concat (map ended ls)) as ->.
    { unfold ended at 1. by rewrite <- (assoc_L (++)). }
    rewrite <- !(assoc_L (++)). set (k := concat (map ended ls) ++ CRLF ++ rest). cbn [read_lines].
    rewrite search_CRLF by done. rewrite take_app_length. rewrite bool_decide_false by done.
    replace (drop (length l + 2) (l ++ CRLF ++ k)) with k by (rewrite <- drop_drop, drop_app_length; reflexivity).
    unfold k. by rewrite IH by lia.
Qed.

Lemma read_head_spec ls rest :
  Forall text_line ls -> read_head (concat (map ended ls) ++ CRLF ++ rest) = Some (ls, rest).
Proof.
  intros Hls. apply read_lines_spec; [done|]. rewrite length_app. apply Nat.lt_le_trans with (S (length ls)); [lia|].
  assert (length ls <= length (concat (map ended ls)))%nat.
  { clear Hls. induction ls as [|l ls IH]; [done|]. cbn [map concat length]. unfold ended at 1. rewrite !length_app. cbn. lia. }
  rewrite length_app. cbn. lia.
Qed.

Lemma plain_app l k : plain l -> plain k -> plain (l ++ k).
Proof. intros H1 H2 H. apply elem_of_app in H as [H|H]; [by apply H1|by apply H2]. Qed.

(** Constants are checked by computation. *)
Lemma plain_dec (l : list byte) : forallb (fun b => negb (Byte.eqb b x0d)) l = true -> plain l.
Proof.
  intros H Hin. rewrite forallb_forall in H. specialize (H x0d). rewrite <- list_elem_of_In in H. by specialize (H Hin).
Qed.

Lemma uint_plain u : plain (uint_bytes u).
Proof. induction u; cbn; [by apply not_elem_of_nil|..]; apply not_elem_of_cons; (split; [done|exact IHu]). Qed.

Lemma to_string_plain z : plain (to_string z).
Proof. unfold to_string, sign. apply plain_app; [|apply uint_plain]. destruct (z <? 0); by apply plain_dec. Qed.

Create HintDb http discriminated.
#[export] Hint Resolve plain_app to_string_plain : http.
#[export] Hint Extern 1 (plain (bytes _)) => apply plain_dec; reflexivity : http.

(** ** The text of a response *)

Section text.
Context `{F : FileSystem} (walk : gmap (list byte) (list byte) -> list (list byte * list byte)).

Definition length_line (n : Z) : list byte := bytes "Content-Length: " ++ to_string n.
Definition header_text_of (h : list byte * list byte) : list byte := h.1 ++ bytes ": " ++ h.2.

(** The first line: the header that should follow it is part of it. *)
Definition first_line r : list byte :=
  bytes "HTTP/1.1 " ++ to_string (status_number (statusCode_ r)) ++ bytes " Connection: close".

Definition header_lines r : list (list byte) :=
  (if hasFile r then [length_line (filesize (fileinfo_ r)); bytes "Connection:keep-alive"] else []) ++
  (if bool_decide (body_ r = []) then [] else [length_line (zlen (body_ r)); bytes "Connection: Keep-Alive"]) ++
  map header_text_of (walk (rsp_headers r)).

Lemma headers_ended hs : concat (map header_out hs) = concat (map ended (map header_text_of hs)).
Proof.
  induction hs as [|h hs IH]; [done|]. cbn [map concat]. rewrite IH. f_equal. unfold header_out, ended, header_text_of.
  by rewrite <- !(assoc_L (++)).
Qed.

Lemma rsp_toString_lines r :
  rsp_version r = kHttp11 -> connectionState_ r = kClose -> statusMsg_ r = [] ->
  rsp_toString walk r = concat (map ended (first_line r :: header_lines r)) ++ CRLF ++ (if hasFile r then [] else body_ r).
Proof.
  intros Ev Ec Em. unfold rsp_toString, header_lines, first_line. rewrite Ev, Ec, Em, headers_ended.
  cbn [map concat]. rewrite !map_app, !concat_app.
  change (bytes "HTTP/1.1 ") with (bytes "HTTP/1.1" ++ [sp]).
  change (bytes " Connection: close") with ([sp] ++ bytes "Connection: close").
  set (hs := concat (map ended (map header_text_of (walk (rsp_headers r))))).
  destruct (hasFile r), (bool_decide (body_ r = [])); cbn [map concat]; unfold length_line, ended;
    rewrite ?app_nil_r, ?app_nil_l, <- ?(assoc_L (++)), ?app_nil_l; reflexivity.
Qed.
End text.

(** ** What the handler makes *)

Section handler.
Context `{F : FileSystem} (walk : gmap (list byte) (list byte) -> list (list byte * list byte)).
Context (Hwalk : forall m, walk m ≡ₚ map_to_list m).

(** The response that [onRequest] starts from. *)
Record blank r : Prop := {
  bl_version : rsp_version r = kHttp11;
  bl_msg : statusMsg_ r = [];
  bl_file : filesize (fileinfo_ r) = 0;
  bl_body : body_ r = [];
  bl_headers : rsp_headers r = ∅
}.

Definition file_headers (name : list byte) : gmap (list byte) (list byte) :=
  <[bytes "Content-Disposition" := bytes "attachment; filename=" ++ quote ++ name ++ quote]>
    (<[bytes "Content-Type" := bytes "application/octet-stream"]> ∅).

(** Every header of the handler is a line, and none gives a length. *)
Definition is_length (l : list byte) : Prop := bytes "Content-Length" `prefix_of` l.
#[global] Instance is_length_dec l : Decision (is_length l).
Proof. unfold is_length. apply _. Defined.

Lemma file_headers_lines name : plain name ->
  Forall (fun l => text_line l /\ ~ is_length l) (map header_text_of (walk (file_headers name))).
Proof.
  intros Hn. apply Forall_forall. intros l Hl. apply list_elem_of_fmap in Hl as ([k v] & -> & Hin).
  rewrite Hwalk in Hin. apply elem_of_map_to_list in Hin. unfold file_headers in Hin.
  apply lookup_insert_Some in Hin as [[<- <-]|[_ Hin]]; [|apply lookup_insert_Some in Hin as [[<- <-]|[_ Hin]]; [|by rewrite lookup_empty in Hin]];
    unfold header_text_of; cbn [fst snd]; (split; [split; [|done]|]).
  - repeat apply plain_app; try done; by apply plain_dec.
  - intros [k E]. vm_compute in E. discriminate.
  - by apply plain_dec.
  - intros [k E]. vm_compute in E. discriminate.
Qed.

Lemma no_headers : walk ∅ = [].
Proof. apply Permutation_nil_r. rewrite Hwalk, map_to_list_empty. done. Qed.

Lemma first_text_line r : text_line (first_line r).
Proof. split; [unfold first_line; auto with http|]. unfold first_line. intros E. apply (f_equal length) in E. rewrite length_app in E. cbn in E. lia. Qed.

Lemma length_text_line n : text_line (length_line n).
Proof. split; [unfold length_line; auto with http|]. unfold length_line. intros E. apply (f_equal length) in E. rewrite length_app in E. cbn in E. lia. Qed.

Lemma length_is_length n : is_length (length_line n).
Proof. exists (bytes ": " ++ to_string n). unfold length_line. change (bytes "Content-Length: ") with (bytes "Content-Length" ++ bytes ": "). by rewrite <- (assoc_L (++)). Qed.

(** The head of a response that the handler has made, read back. *)
Lemma handled_head r more :
  rsp_version r = kHttp11 -> connectionState_ r = kClose -> statusMsg_ r = [] ->
  Forall (fun l => text_line l /\ ~ is_length l) (map header_text_of (walk (rsp_headers r))) ->
  read_head (rsp_toString walk r ++ more) =
    Some (first_line r :: header_lines walk r, (if hasFile r then [] else body_ r) ++ more) /\
  filter is_length (header_lines walk r) =
    (if hasFile r then [length_line (filesize (fileinfo_ r))] else []) ++
    (if bool_decide (body_ r = []) then [] else [length_line (zlen (body_ r))]).
Proof.
  intros Ev Ec Em Hh. rewrite rsp_toString_lines by done.
  assert (text_line (bytes "Connection:keep-alive") /\ text_line (bytes "Connection: Keep-Alive")) as [Hk1 Hk2].
  { split; (split; [by apply plain_dec|done]). }
  assert (~ is_length (bytes "Connection:keep-alive") /\ ~ is_length (bytes "Connection: Keep-Alive")) as [Hn1 Hn2].
  { split; intros [k E]; vm_compute in E; discriminate. }
  split.
  - rewrite <- !(assoc_L (++)). apply read_head_spec. constructor; [apply first_text_line|]. unfold header_lines. apply Forall_app. split; [|apply Forall_app; split].
    + destruct (hasFile r); [|by constructor]. apply Forall_cons. split; [apply length_text_line|by apply Forall_singleton].
    + destruct (bool_decide _); [by constructor|]. apply Forall_cons. split; [apply length_text_line|by apply Forall_singleton].
    + eapply Forall_impl; [exact Hh|]. by intros l [? _].
  - unfold header_lines. rewrite !filter_app.
    assert (filter is_length (map header_text_of (walk (rsp_headers r))) = []) as ->.
    { revert Hh. generalize (map header_text_of (walk (rsp_headers r))). intros ls Hls. induction Hls as [|l ls [_ Hl] _ IH]; [done|].
      rewrite filter_cons_False by done. exact IH. }
    rewrite app_nil_r. f_equal; [destruct (hasFile r)|destruct (bool_decide _)]; try done;
      rewrite filter_cons_True by apply length_is_length; by rewrite filter_cons_False.
Qed.

Lemma start_blank req :
  blank (if bool_decide (default [] (headers_ req !! bytes "Connection") = bytes "close") ||
       (is_http10 (version_ req) && negb (bool_decide (default [] (headers_ req !! bytes "Connection") = bytes "keep-alive")))
    then set_connectionState kClose Response_new else Response_new).
Proof. destruct (_ || _); by constructor. Qed.

(** The two kinds of answers: a page, and a head with a transfer. *)
Lemma page_answer req page code :
  query_ req = [] /\ page = links_page /\ code = k200Ok \/
  query_ req <> [] /\ fs_exists (fs_path (query_ req)) = false /\ page = bad_page /\ code = k400BadRequest ->
  exists t lines, http_onRequest walk req = [CSend t] /\
    read_head (t ++ []) =
      Some ((bytes "HTTP/1.1 " ++ to_string (status_number code) ++ bytes " Connection: close") :: lines, page) /\
    filter is_length lines = [length_line (zlen page)].
Proof.
  intros Hreq. unfold http_onRequest. cbv zeta. pose proof (start_blank req) as Hb.
  set (r0 := if _ || _ then _ else _) in *. clearbody r0. destruct Hb as [B1 B2 B3 B4 B5].
  assert (exists p, RequestHandler req r0 = p /\ body_ p = page /\ rsp_headers p = rsp_headers r0 /\ hasFile p = false /\
    rsp_version p = rsp_version r0 /\ connectionState_ p = kClose /\ statusMsg_ p = statusMsg_ r0 /\ statusCode_ p = code /\
    bool_decide (page = []) = false) as (p & -> & Ebody & Eh & Ef & Ev & Ec & Em & Es & Hp).
  { unfold RequestHandler. destruct Hreq as [(-> & -> & ->)|(Hne & Hex & -> & ->)].
    - rewrite bool_decide_true by done. eexists. split; [reflexivity|]. cbn. unfold hasFile. cbn. rewrite B3. done.
    - rewrite bool_decide_false by done. unfold ResponseFile. cbv zeta. rewrite Hex. eexists. split; [reflexivity|].
      cbn. unfold hasFile. cbn. rewrite B3. done. }
  destruct (handled_head p []) as [Hh Hl]; [congruence|done|congruence|rewrite Eh, B5, no_headers; constructor|].
  rewrite Ef in *. rewrite Ebody in Hh, Hl. rewrite Hp in Hl. unfold first_line in Hh. rewrite Es, (app_nil_r page) in Hh. eexists _, _.
  split; [reflexivity|]. split; [exact Hh|exact Hl].
Qed.

Lemma file_answer req e :
  plain (query_ req) -> query_ req <> [] -> fs_entry (fs_path (query_ req)) = Some e -> 0 < entry_size e ->
  exists t lines, http_onRequest walk req = [CSend t; CSendFile (fs_path (query_ req)) 0 (entry_size e)] /\
    (forall more, read_head (t ++ more) = Some ((bytes "HTTP/1.1 " ++ to_string 200 ++ bytes " Connection: close") :: lines, more)) /\
    filter is_length lines = [length_line (entry_size e)].
Proof.
  intros Hq Hne Ee Hs. unfold http_onRequest. cbv zeta. pose proof (start_blank req) as Hb.
  set (r0 := if _ || _ then _ else _) in *. clearbody r0. destruct Hb as [B1 B2 B3 B4 B5].
  unfold RequestHandler. rewrite bool_decide_false by done. unfold ResponseFile. cbv zeta. unfold fs_exists, fs_size. rewrite Ee.
  set (p := responseOk _). assert (hasFile p = true) as Ef by (unfold hasFile; cbn; apply negb_true_iff, Z.eqb_neq; lia).
  assert (forall more, read_head (rsp_toString walk p ++ more) = Some (first_line p :: header_lines walk p, more) /\
    filter is_length (header_lines walk p) = [length_line (entry_size e)]) as H.
  { intros more. destruct (handled_head p more) as [Hh Hl]; [done|done|done| |].
    - change (rsp_headers p) with (<[bytes "Content-Disposition" := bytes "attachment; filename=" ++ quote ++ query_ req ++ quote]>
        (<[bytes "Content-Type" := bytes "application/octet-stream"]> (rsp_headers r0))). rewrite B5. by apply file_headers_lines.
    - rewrite Ef in Hh, Hl. change (body_ p) with (body_ r0) in Hl. rewrite B4 in Hl. done. }
  rewrite Ef. eexists _, _. split; [reflexivity|]. split; [intros more; apply H|apply (H [])].
Qed.
End handler.

(** ** Claims *)

(** What a request names: nothing for the page of links. *)
Definition asked `{F : FileSystem} (req : Request) : option entry :=
  if bool_decide (query_ req = []) then None else fs_entry (fs_path (query_ req)).


(** A directory with a file of 5 bytes, an empty one, one that may not be read,
    a directory, and nothing else. *)
#[global] Instance toy_fs : FileSystem := {|
  fs_names := [bytes "data"; bytes "empty"; bytes "locked"];
  fs_path n := bytes "/srv/" ++ n;
  fs_entry p :=
    if bool_decide (p = bytes "/srv/data") then Some (Regular (bytes "12345") true)
    else if bool_decide (p = bytes "/srv/empty") then Some (Regular [] true)
    else if bool_decide (p = bytes "/srv/locked") then Some (Regular (bytes "secret") false)
    else if bool_decide (p = bytes "/srv/dir") then Some (Directory 4096) else None
|}.


(** An empty file is answered with a head that gives no length, nothing
    follows it, and the connection stays open: a client that waits for the end
    of the answer waits for the idle timeout. *)
Theorem empty_file_never_ends `{F : FileSystem} walk req :
  (forall m, walk m ≡ₚ map_to_list m) -> plain (query_ req) -> query_ req <> [] ->
  fs_entry (fs_path (query_ req)) = Some (Regular [] true) ->
  exists t line lines, http_onRequest walk req = [CSend t] /\ read_head t = Some (line :: lines, []) /\
    filter is_length lines = [].
Proof.
  intros Hw Hq Hne Ee. unfold http_onRequest. cbv zeta. pose proof (start_blank req) as Hb.
  set (r0 := if _ || _ then _ else _) in *. clearbody r0. destruct Hb as [B1 B2 B3 B4 B5]. unfold RequestHandler.
  rewrite bool_decide_false by done. unfold ResponseFile. cbv zeta. unfold fs_exists, fs_size. rewrite Ee. set (p := responseOk _).
  assert (hasFile p = false) as Ef by done.
  destruct (handled_head walk p []) as [Hh Hl]; [done|done|done| |].
  { change (rsp_headers p) with (<[bytes "Content-Disposition" := bytes "attachment; filename=" ++ quote ++ query_ req ++ quote]>
      (<[bytes "Content-Type" := bytes "application/octet-stream"]> (rsp_headers r0))). rewrite B5. by apply file_headers_lines. }
  rewrite Ef in Hh, Hl. change (body_ p) with (body_ r0) in Hh, Hl. rewrite B4 in Hh, Hl. rewrite app_nil_r in Hh. rewrite Ef.
  eexists _, _, _. split; [reflexivity|]. split; [exact Hh|exact Hl].
Qed.

Lemma empty_file_never_ends_witness :
  exists t line lines, http_onRequest map_to_list (mkRequest kGET kHttp11 (bytes "/") (bytes "empty") ∅) = [CSend t] /\
    read_head t = Some (line :: lines, []) /\ filter is_length lines = [].
Proof.
  refine (@empty_file_never_ends toy_fs map_to_list (mkRequest kGET kHttp11 (bytes "/") (bytes "empty") ∅) _ _ _ _);
    [done|by apply plain_dec|discriminate|vm_compute; reflexivity].
Defined.
